(* ===== verification/_CoqProject ===== *)
-Q . S2P
Prelude.v
F64.v
Binary64.v
Rounding.v
Exact.v
Text.v
Allocation.v
AllocationF64.v
AllocationExact.v
WriteOrder.v
Writes.v
PoiServo.v
ControlLaw.v
Recovery.v
ClosedLoop.v
Fleet.v
Shed.v
Integers.v
Codec.v
Cache.v
Payload.v
Bindings.v
Config.v
Distribute.v
Transport.v
Clients.v
Sunspec.v
Dispatch.v
Commands.v
EnvelopeTask.v
DerDispatch.v
Synthetic.v
Periods.v
Topology.v
Decode.v
Session.v
Poller.v
Southbound.v
DeviceApi.v
Wiring.v
Tasks.v
Gateway.v
Interleaving.v
Atomicity.v
Requests.v
Lockouts.v
Startup.v
Scenarios.v
Overlaps.v
Telemetry.v
