(* ===== verification/Prelude.v ===== *)
(** * EMS industrial gateway: the verified core

    A model of the gateway of [src/] (crate [src/src]): the process that polls
    field devices, publishes their readings over MQTT, takes commands from the
    bus, and keeps a site inside its grid limits by splitting setpoints over
    batteries and shedding compute.  Paths below are relative to [src/src].

    ** How the program's parts fit together

    A spec (AsyncAPI with x-extensions) fetched from the device API says which
    readings to poll and which commands exist ([asyncapi/]).  [app.rs] projects
    it into tasks that share three maps: the input cache (topic to last JSON
    value and its instant), the bindings of every device's commands, and the
    last requested setpoint per device and command.

    - pollers read devices and publish; a subscriber fills the cache;
    - the dispatcher ([dispatch/]) answers each command with retained lifecycle
      events and writes it through the command's binding: one device, one bit,
      a module split over its racks, or a power cap over a compute fleet;
    - an envelope task per module ([envelope/]) re-splits the requested setpoint
      once a second, clamped to what the site's POI meter leaves;
    - a shed task per POI caps the compute fleet once storage is exhausted;
    - site distribution ([der_dispatch/]) turns a utility event into module
      setpoints and gives the operator's back when it ends;
    - lockouts ([loto/]) take a device out of every one of these.

    ** Which file models what

    Foundations:
    - [Prelude]: Rust's [Result], list and map lemmas, tactics and hints.
    - [F64]: the float operations as the class [Float], the order laws as
      [FloatOrd], [FloatTotal], [FloatSign]; derived [max], [min], [clamp].
    - [Binary64]: [f64] as the kernel's binary64 numbers, casts, [Duration]
      from seconds; [Rounding] and [Integers]: facts on rounding, signs and the
      integers a float denotes.  Nothing is assumed: they come from the
      specification of the kernel's primitive floats.
    - [Exact]: the rationals as the second implementation of [Float].
    - [Text]: [split], [join], [replace], [strip_prefix] on strings.

    Splitting and writing setpoints:
    - [Allocation], [AllocationF64], [AllocationExact]: [dispatch/allocation.rs]
      ([allocate], its loop [fill]/[settle], [policy_weights]).
    - [WriteOrder]: [dispatch/write_order.rs].
    - [Writes]: [envelope/writes.rs], [envelope/poi_gate.rs]: [WriteState] and
      [PoiGate] with [plan], [landed], [take].

    Control:
    - [PoiServo]: [envelope/poi_servo.rs], [bounds.rs], [inputs.rs].
    - [ControlLaw]: [envelope/control_law.rs], [anti_windup.rs], [stale.rs]:
      the state [EnvelopeController] and its [tick]; [Recovery]: a loop of ticks
      from a constrained output back to the request; [ClosedLoop]: its ticks in a
      loop with the POI meter, which reports late; [Fleet]: several modules behind
      one meter, and the figures the code gives for its gains, computed.
    - [Shed]: [envelope/shed.rs]: [ShedController], its [tick] and [confirm].
    - [EnvelopeTask]: one tick of [envelope/task.rs] ([tick_plan] up to the
      writes, [tick_once] with them), [recharge.rs], [energize.rs],
      [storage_spare.rs], and of [envelope/shed_task.rs].
    - [Periods]: a poll rate as a [Duration], without panic; a tick rate as a
      period of at least one millisecond.

    Devices:
    - [Codec]: [modbus/codec.rs], [function_code.rs], [modbus/sunspec.rs].
    - [Transport]: [modbus/transport.rs], [modbus/client.rs], [modbus/tls.rs].
    - [Sunspec]: [sunspec/]: model tables, discovery, reads, writes, bits.
    - [Clients]: [snmp/client.rs], [bacnet/client.rs], [bacnet_sc/client.rs],
      [dnp3/]: retry loops, framing, value conversion, identities.
    - [Southbound]: [redfish/client.rs], [write.rs], [tls.rs] and [read.rs]
      ([read_value], the choice of client by binding).
    - [Poller]: [poller.rs], the counters of [heartbeat.rs], [loto/refresher.rs].
    - [Payload]: [payload.rs], what is published and what
      the subscriber makes of it ([mqtt/subscriber.rs], [mqtt/publisher.rs]).
    - [DeviceApi]: [http/client.rs], [loto/mod.rs].

    Commands and data flow:
    - [Cache]: JSON values and [synthetic/cache.rs]; [Bindings]: the records of
      [asyncapi/types/], [asyncapi/trust.rs]; [Config]: [config.rs],
      [bootstrap.rs] and [main.rs]'s choice between them.
    - [Distribute]: [dispatch/distribute.rs], [reserve.rs], [rack_limits.rs],
      [operating_state.rs]: a module's target resolved into shares.
    - [Dispatch]: [dispatch/mod.rs] ([handle_command], [execute_setpoint]),
      [topic.rs], [requested.rs], [power_cap.rs], the write half of
      [distribute.rs], [envelope/config.rs].
    - [Commands]: [handle_command] taken apart at its awaits (received, recorded,
      each child written, answered); [command_run_eq] puts it together again.
    - [DerDispatch]: [der_dispatch/]: posture, event memory, one site tick.
    - [Synthetic]: [synthetic/operation.rs], [task.rs], [stale.rs].
    - [Topology]: [asyncapi/types/source_map.rs] and [heartbeat.rs],
      [inputs.rs], [mqtt/subscriptions.rs] and the projections of [app.rs].
    - [Decode]: what the derived decoders of [asyncapi/types/], [asyncapi/trust.rs]
      and the codec's enums accept: which documents are a spec, and which spec.
    - [Session]: the subscriptions of [mqtt/subscriptions.rs] and
      [mqtt/subscriber.rs] while the link to the broker is lost and returns:
      [session_step], with an update taken apart at its awaits and the connected
      callback.

    The process:
    - [Wiring]: the protocol clients plugged into command dispatch
      ([wired_south] implements the interface [South]), and a command followed to
      the registers of a network of Modbus devices ([Field]) that can fail.
    - [Tasks]: [app.rs]'s [spawn_task_set]: a spec turned into the configuration
      of every task; the tick of [der_dispatch/actual_power.rs].
    - [Gateway]: [app.rs]'s [run] as the step relation [step] on the record
      [Gateway]: the shared maps, the task set, each task's tick and each command
      taken apart at its awaits, a topology change taken apart at its map swaps,
      and the shutdown.
    - [Interleaving]: what holds whatever the order of those steps;
      [Atomicity]: a tick or a command nothing interrupts is the operation it
      takes apart; [Requests]: the last requested setpoints while commands
      overlap.
    - [Lockouts]: the gateway beside device-api's own set, its beacons and its
      answers ([plant_step]): when the two sets agree.
    - [Startup]: [main] and [run] before its loop ([start]), with the ways it can
      end ([Started]: it serves, an error, a panic after the subscription); the
      connection's options; the wait for a shutdown signal.
    - [Telemetry]: the gateway with its pollers, synthetic channels and total at
      work on one world ([telemetry_step]), their messages coming back through a
      broker that keeps, repeats, reorders or loses them.
    - [Scenarios], [Overlaps]: concrete sites on which the process's theorems are
      applied.

    ** How the code is translated

    - A struct is a Record, an enum an Inductive with the source's constructors;
      [&mut self] is a value passed in and returned.
    - [f64] computes bit for bit: definitions are generic over [Float] where a
      law needs the exact algorithm as well, and [f64] itself elsewhere.
    - [Result] is [result]; a panic (a [clamp] with crossed bounds, an indexing
      past the end, a [Duration] overflow) is [None] of an outer [option], or
      is excluded by a theorem ([tick_never_panics], [spawn_panics_iff]).
    - Registers and other machine integers are [Z] in their range, with the
      wrap-around written out where the code wraps ([add16], the casts).
    - [Instant] and [Duration] are nanoseconds in [Z] (milliseconds in the
      clients' backoff); where the code reads the clock the instant is an
      argument, or the interface's clock where the code waits ([Sleep]).
    - Effects go through interfaces over an abstract world [W]: [Rodbus] (the
      Modbus library), [SnmpLib], [BacnetCodec], [Udp], [ScLib], [Dnp3Lib],
      [Http], [DeviceApi] (the other libraries), [SessionCache], [SunspecState]
      (the process-wide maps), [South] (the write of each protocol, implemented
      by [Wiring.wired_south]), [Broker] and [BrokerSession] (the session), [Publisher] (a message handed to
      the MQTT client), [Reads] (a poller's reads).  Each comes with an instance used by the witnesses.  The
      order in which a [HashMap] is walked, and that of a concurrent
      [buffer_unordered], is a permutation given as an argument.
    - A concurrent task is a slot of the [Gateway] record: its configuration, its
      own state, and the part of a tick still to be done.  An event of
      [Gateway.step] is what the code does between two awaits; any interleaving
      of events is a run.  Cancellation is [g_running]: the main loop has
      cancelled the tasks and waits ([joined]).  [select!] is not biased, so a
      cancelled task may still begin a tick, and the model lets it.
    - A command is held by the task that runs it ([g_command], [sf_command]), with
      the writes to its children still to make ([Commands.Fanout]).  It
      keeps the read locks of the shared maps until it is answered, so a step
      that takes a write lock (a re-fetch that lands, a map swap) needs
      [unlocked].  [g_phase] is where the main loop is: a step of a stopped
      process does not exist.

    ** What the theorems show

    - Lockout: once in force and no tick or command that began before still
      writes, nothing writes a locked-out device, in any order of the tasks'
      steps ([Interleaving.lockout_is_final]); what began before is not stopped
      ([begun_tick_ignores_lockout]).  The gateway's set is device-api's whenever
      nothing is outstanding ([settled_gateway_knows_the_lockouts]), and otherwise
      after a bounded number of steps in whatever order, if no beacon was missed
      ([lockouts_catch_up]); a beacon nobody heard
      is not made up for ([missed_lockout_stays_missed]); the fetch of the
      lockouts ends, and no failed fetch unlocks a device
      ([lockout_fetch_ends]).
    - Process: nothing is heard before the lockouts are known
      ([nothing_heard_before_lockouts]) and a start is decided in bounded time
      ([startup_ends]); tasks, maps and trust belong to one accepted spec
      ([topology_is_the_accepted_spec]), except in the swap window
      ([swap_window_uses_old_trust]); a topology change and a shutdown are
      completed in whatever order the steps already begun run
      ([reconcile_completes], [shutdown_completes]); ticks and commands
      taken apart are the operations when nothing comes between
      ([uninterrupted_tick], [uninterrupted_command], [uninterrupted_site_tick],
      refinements); each reading has one poller ([every_reading_polled_once]),
      which gives each due reading its next due time, with no burst after a
      delay ([poll_reschedules_every_reading]);
      building the tasks panics in two cases only ([spawn_panics_iff]); the cache
      holds only measurements ([cache_holds_measurements]).
    - Dispatch: each command is received and answered once, by what became of its
      write, and what is no command does nothing ([one_ack_per_command]); a request
      on record stands until a newer one, whatever else fails meanwhile
      ([request_stands]), two overlapping failures of one setpoint apart
      ([overlapping_failures_keep_refused]); a fleet cap is tried on every child
      ([power_cap_attempts_every_child]); through the real client, on a network
      that can fail, a command acked done reads back and one acked failed leaves
      the requests alone ([setpoint_reads_back]).
    - Session: beacons, commands and every topic each topology needed are heard
      whenever the link is up ([kept_topics_always_heard]); a reconnect inside an
      update can lose an added one ([reconnect_race_deafens]); an update nothing
      interrupts is [Topology.update] ([uninterrupted_update]).
    - Control law: what is written is inside the limits
      ([written_within_bounds]), at once on a violation
      ([violation_clamps_at_once]), recovery waits for a row of clear ticks as long as
      the dwell ([recovery_waits_the_dwell])
      and completes ([recovery_completes], without rounding), a silent meter ends
      at 0 W ([silent_meter_ramps_to_zero]), no panic ([tick_never_panics]); the
      servo keeps the POI inside ([servo_keeps_poi_inside], without rounding, the
      previous limits met).
    - Closed loop, without rounding, for a constant load, request and limits: a
      meter up to three ticks late never makes a
      module overshoot its limits ([lag_never_overshoots]), nor several modules as
      far as their gains together allow ([shared_meter_never_overshoots]); a
      violation shrinks by
      a tenth a second at least ([violation_fades]), and a module held back whose
      request has room again is back at it in bounded time
      ([closed_loop_settles]).
    - Telemetry: no value in the cache is without a source
      ([cached_value_has_origin]); on a topic all of whose upstream channels have
      limits on their inputs none rests on readings older than a bound that
      grows with the channels in between ([reading_age_bounded]), and once a
      meter's readings stop every guarded tick steps towards 0 W, through
      such channels as stand between them ([dead_meter_ramps_down]).
    - Split: conservation and max-min fairness without rounding, headroom, sign
      and termination on [f64], states of charge in 0..100; an unusable rack gets 0 W.
    - Writes: every child covered, shrinks before growth, growth held at most one
      tick, the hold lifted by the second fresh reading.
    - Events: what an event dispatches is recorded as it is handled, and its end
      commands exactly those modules back to the operator's setpoints
      ([event_end_restores_operator]); [cease_to_energize_zero].
    - Shed: caps stay in range and wait for storage; one controller per POI.
    - Devices: round trips and exact error conditions of the codec; a bit command
      touches one bit; retries answer in bounded time
      ([retries_answer_in_time]); discovery and polling end and reschedule; a
      Redfish device is dialled with its own identity
      ([redfish_dials_its_identity]); a published reading is what the gateway
      caches ([cached_reading_is_the_reading]).
    - Configuration: a customer file overrides field by field.
    - Spec: each device is judged by its own entries, and only a malformed one, or
      a heartbeat, fails the rest ([devices_judged_alone]); a
      field nobody knows fails the whole spec ([unknown_field_fails_spec]); what is
      accepted is in its types' ranges and can run ([decoded_spec_typed]); an absent
      field is its default ([omitted_field_is_default]).
    - Topology: whatever an envelope task reads is subscribed to, and the broker
      holds exactly the current spec's subscriptions.

    ** Fuel and bounds

    - [Allocation.fill]: two rounds more than there are eligible children; each
      further round closes at least one child ([allocate_terminates]).
    - [Sunspec.walk]: 65536 headers in [discover]; 32769 are enough unless a
      header sits in the last two registers ([discovery_ends]), in which case
      the address wraps and the walk of the code need not end
      ([Sunspec.discovery_can_loop]).  [Gateway.step] takes the walk's fuel as
      an argument; a beat that runs out of it is a beat that does not return.
    - [DeviceApi.fetch_loto]: 121 requests; each failure waits at least half a
      second of the code's own minute ([lockout_fetch_ends]).
    - [Transport.attempts] and [Clients.with_retries] count the code's own
      attempts.
    - A command's stages need no fuel: each comes nearer to its answer
      ([command_next_nearer]), within [stage_work] steps.
    - [Startup.start]: the fuel of its two fetches; [startup_ends] takes 121.
    - [Session.finish_update]: three answers, one for each await of an update and the
      swap of the list.
    - All other recursion is structural.

    ** Deviations the model shows

    - A tick under way writes to a device locked out meanwhile
      ([begun_tick_ignores_lockout]); commands between the two map swaps of a new
      topology use the old trust ([swap_window_uses_old_trust]); a device whose
      model list never ends holds a topology change up (hypothesis of
      [reconcile_completes]).
    - The intermediate step of a recovery ramp is not clamped
      ([ramp_step_past_limit]); a failed write of held-back growth leaves the
      approach hold on ([failed_growth_write_sticks]); a refused restore is
      forgotten ([refused_restore_is_forgotten]).
    - A lockout set while the gateway's link is down, or whose re-fetch is given
      up, is not learnt before the next beacon ([missed_lockout_stays_missed]);
      two overlapping commands that both fail leave the first one's refused value
      on record ([overlapping_failures_keep_refused]); a reconnect inside a
      topology update loses the added topics ([reconnect_race_deafens]).
    - A failed command can undo a newer command of the same value
      ([Dispatch.restore_undoes_equal_newer]); a half-failed topology update
      loses a subscription ([Topology.half_update_deafens]); the shed panics
      when the fleet's floor is above the requested cap
      ([Shed.shed_panics_iff_range_empty]); a state of charge outside 0..100
      gives shares of the wrong sign ([AllocationF64.allocate_soc_out_of_range]);
      a virtual binding as a measurement panics its poller
      ([Tasks.virtual_measurement_panics]); BACnet/SC identities repeat
      ([Clients.vmac_repeats]).
    - The servo's gain is each module's own: two modules behind a meter three
      seconds late overshoot ([Fleet.shared_meter_overshoots]).
    - A handler that cannot be installed ends the wait for a signal at once, and
      the gateway with it ([refused_handler_ends_the_wait]).
    - A heartbeat of a device whose port is not commissioned yet fails the whole
      spec, where a measurement or command of it is skipped
      ([Decode.unprovisioned_heartbeat_fails_spec]).

    ** Not modelled

    - The libraries behind the interfaces: protocol sessions, TLS handshakes,
      the MQTT event loop with its queues and reconnect timing, the AWS SDK.
    - The JSON text itself: a parameter reads it into a tree, from which
      [Decode] goes on.  A refused spec is [None], without serde's message.  The
      compilation of JSON schemas is an argument of the tasks.
    - The tickers' periods: a tick may begin at any time.  The write preference of
      the read-write locks.  In [Gateway] a measurement is any message; [Telemetry]
      has the pollers and channels that publish them, without the tasks' cancellation.
    - The session of [Session] and the device-api of [Lockouts] stand beside the
      gateway and hand it messages: [Gateway.step] lets any message arrive.
    - A shutdown is an event that may come any time: what
      [wait_for_shutdown_signal] waits for is not an event of the gateway.
    - Three awaits are taken together: [Session]'s first subscription sets the
      connected callback with it (a link lost in between is not represented),
      [Gateway.boot] subscribes, spawns and enters the loop in one step, and the
      cloud calls behind the broker's password take no time on [Startup]'s clock.
    - [f64] has the kernel's single NaN, which [f_total_leb] puts above every
      number; Rust's [total_cmp] puts a NaN with its sign bit below.
    - Log output, and the JSON text of published messages beyond their documents.

    ** Plan

    Left: [ClosedLoop] and [Fleet] on [f64] with a bound on the rounding, limits
    that move while the loop runs, and the session of [Session] inside
    [Telemetry]'s broker. *)

From Stdlib Require Import ZArith Lia.
From stdpp Require Export base option list gmap strings fin_maps sorting.

(** ** Result values: Rust's [Result<T, E>] *)

Inductive result (E A : Type) : Type :=
| Ok (a : A)
| Err (e : E).

Arguments Ok {E A} a.
Arguments Err {E A} e.

Declare Scope gateway_scope.
Delimit Scope gateway_scope with gw.

(** The [?] operator: stop at the first error. *)
Definition result_bind {E A B} (r : result E A) (f : A → result E B) : result E B :=
  match r with
  | Ok a => f a
  | Err e => Err e
  end.

Notation "x <-? r ; k" := (result_bind r (λ x, k))
  (at level 100, r at next level, k at level 200, right associativity) : gateway_scope.

Definition is_ok {E A} (r : result E A) : bool :=
  match r with Ok _ => true | Err _ => false end.

(** [Option::ok_or]. *)
Definition ok_or {E A} (o : option A) (e : E) : result E A :=
  match o with Some a => Ok a | None => Err e end.

Definition result_map {E A B} (f : A → B) (r : result E A) : result E B :=
  match r with Ok a => Ok (f a) | Err e => Err e end.

(** [iter().map(f).collect::<Result<Vec<_>, _>>()]: stops at the first error. *)
Fixpoint collect_results {E A B} (f : A → result E B) (l : list A) : result E (list B) :=
  match l with
  | [] => Ok []
  | a :: l' =>
      match f a with
      | Err e => Err e
      | Ok b => match collect_results f l' with
                | Ok bs => Ok (b :: bs)
                | Err e => Err e
                end
      end
  end.

Lemma collect_results_Forall2 {E A B} (f : A → result E B) l bs :
  collect_results f l = Ok bs ↔ Forall2 (λ a b, f a = Ok b) l bs.
Proof.
  revert bs; induction l as [|a l IH]; intros bs; simpl.
  - split; [intros [= <-]; constructor | intros H; by inversion H].
  - destruct (f a) as [b|e] eqn:Hfa; [destruct (collect_results f l) as [bs'|e] eqn:Hl|].
    + split; [intros [= <-]; constructor; [done|by apply IH]|].
      intros H; inversion H as [|? b' ? bs'' Hb Hbs]; subst.
      apply IH in Hbs. congruence.
    + split; [done|]. intros H; inversion H as [|? b' ? bs'' Hb Hbs]; subst.
      apply IH in Hbs. congruence.
    + split; [done|]. intros H; inversion H; subst; congruence.
Qed.

Lemma result_bind_Ok {E A B} (r : result E A) (f : A → result E B) b :
  result_bind r f = Ok b ↔ ∃ a, r = Ok a ∧ f a = Ok b.
Proof.
  destruct r as [a|e]; simpl; split; [by exists a|by intros (? & [= <-] & ?)|done|by intros (? & ? & _)].
Qed.

Lemma ok_or_Ok {E A} (o : option A) (e : E) a : ok_or o e = Ok a ↔ o = Some a.
Proof. destruct o; simpl; split; congruence. Qed.

(** A statement about what an option holds, once it is known to hold something. *)
Lemma when_some {A} (o : option A) (P : A → Prop) :
  (if o is Some _ then true else false) = true → (∀ a, o = Some a → P a) →
  match o with Some a => P a | None => False end.
Proof. intros Ho HP. destruct o as [a|]; [by apply HP|done]. Qed.

(** ** Lists *)

(** [iter().find(p)] and [iter().position]-style search, with [bool] tests. *)
Fixpoint find_first {A} (p : A → bool) (l : list A) : option A :=
  match l with
  | [] => None
  | a :: l' => if p a then Some a else find_first p l'
  end.

Lemma find_first_Some {A} (p : A → bool) l a :
  find_first p l = Some a → a ∈ l ∧ p a = true.
Proof.
  induction l as [|b l IH]; simpl; [done|].
  destruct (p b) eqn:Hb.
  - intros [= ->]. split; [by left|done].
  - intros H. destruct (IH H) as [Hin Hp]. split; [by right|done].
Qed.

Lemma find_first_None {A} (p : A → bool) l :
  find_first p l = None ↔ ∀ a, a ∈ l → p a = false.
Proof.
  induction l as [|b l IH]; simpl.
  - split; [|done]. intros _ a Ha. by apply not_elem_of_nil in Ha.
  - destruct (p b) eqn:Hb.
    + split; [done|]. intros H. rewrite H in Hb; [done|by left].
    + rewrite IH. split.
      * intros H a [->|Ha]%elem_of_cons; auto.
      * intros H a Ha. apply H. by right.
Qed.

Definition list_filterb {A} (p : A → bool) : list A → list A := List.filter p.

Lemma elem_of_filterb {A} (p : A → bool) (l : list A) a :
  a ∈ List.filter p l ↔ a ∈ l ∧ p a = true.
Proof. rewrite !list_elem_of_In. apply filter_In. Qed.

Lemma filterb_all {A} (p : A → bool) (l : list A) :
  (∀ a, a ∈ l → p a = true) → List.filter p l = l.
Proof.
  induction l as [|a l IH]; simpl; [done|]. intros H.
  rewrite (H a); [|by left]. f_equal. apply IH. intros b Hb. apply H. by right.
Qed.

Lemma filterb_none {A} (p : A → bool) (l : list A) :
  (∀ a, a ∈ l → p a = false) → List.filter p l = [].
Proof.
  induction l as [|a l IH]; simpl; [done|]. intros H.
  rewrite (H a); [|by left]. apply IH. intros b Hb. apply H. by right.
Qed.

Lemma length_filterb_le {A} (p : A → bool) (l : list A) :
  length (List.filter p l) ≤ length l.
Proof. induction l as [|a l IH]; simpl; [done|]. destruct (p a); simpl; lia. Qed.

Lemma length_filterb_lt {A} (p : A → bool) (l : list A) a :
  a ∈ l → p a = false → length (List.filter p l) < length l.
Proof.
  induction l as [|b l IH]; simpl; intros Hin Hp; [by apply not_elem_of_nil in Hin|].
  apply elem_of_cons in Hin as [->|Hin].
  - rewrite Hp. pose proof (length_filterb_le p l). lia.
  - specialize (IH Hin Hp). destruct (p b); simpl; lia.
Qed.

Lemma NoDup_filterb {A} (p : A → bool) (l : list A) : NoDup l → NoDup (List.filter p l).
Proof. rewrite !NoDup_ListNoDup. apply List.NoDup_filter. Qed.

Lemma NoDup_fmap_filterb {A B} (f : A → B) (p : A → bool) (l : list A) :
  NoDup (f <$> l) → NoDup (f <$> List.filter p l).
Proof.
  induction l as [|a l IH]; simpl; [done|]. intros [Ha Hl]%NoDup_cons.
  destruct (p a); [|by apply IH]. rewrite fmap_cons. apply NoDup_cons. split; [|by apply IH].
  intros (b & Hb & [Hin _]%elem_of_filterb)%list_elem_of_fmap. apply Ha. rewrite Hb.
  by apply list_elem_of_fmap_2.
Qed.

Lemma NoDup_fst_inj {A B} (l : list (A * B)) a b c :
  NoDup l.*1 → (a, b) ∈ l → (a, c) ∈ l → b = c.
Proof.
  induction l as [|[x y] l IH]; simpl; [by intros _ ?%not_elem_of_nil|].
  intros [Hx Hl]%NoDup_cons Hb Hc.
  rewrite !elem_of_cons in Hb, Hc.
  destruct Hb as [Hb|Hb], Hc as [Hc|Hc]; simplify_eq; [done| | |by apply IH];
    destruct Hx; by eapply list_elem_of_fmap_2'.
Qed.

(** The last write wins: [HashMap::extend] over [(key, value)] pairs. *)
Definition map_extend {A} (m : gmap string A) (l : list (string * A)) : gmap string A :=
  foldl (λ m '(k, v), <[k := v]> m) m l.

Lemma map_extend_app {A} (m : gmap string A) l1 l2 :
  map_extend m (l1 ++ l2) = map_extend (map_extend m l1) l2.
Proof. unfold map_extend. apply foldl_app. Qed.

Lemma map_extend_lookup_notin {A} (m : gmap string A) l k :
  k ∉ l.*1 → map_extend m l !! k = m !! k.
Proof.
  revert m; induction l as [|[k' v] l IH]; intros m; simpl; [done|].
  intros [Hne Hnin]%not_elem_of_cons. unfold map_extend in *. simpl.
  rewrite IH by done. by rewrite lookup_insert_ne.
Qed.

Lemma map_extend_lookup_in {A} (m : gmap string A) l k v :
  NoDup l.*1 → (k, v) ∈ l → map_extend m l !! k = Some v.
Proof.
  revert m; induction l as [|[k' v'] l IH]; intros m; simpl; intros Hnd Hin.
  - by apply not_elem_of_nil in Hin.
  - apply NoDup_cons in Hnd as [Hk' Hnd].
    apply elem_of_cons in Hin as [[= -> ->]|Hin].
    + unfold map_extend; simpl. fold (map_extend (<[k':=v']> m) l).
      rewrite map_extend_lookup_notin by done. apply lookup_insert_eq.
    + unfold map_extend; simpl. by apply IH.
Qed.

(** ** Tactics *)

(** Split the [if]s and [match]es a goal or hypothesis is stuck on. *)
Ltac case_if :=
  match goal with
  | |- context [if ?b then _ else _] => destruct b eqn:?
  | H : context [if ?b then _ else _] |- _ => destruct b eqn:?
  end.

Ltac case_match_opt :=
  match goal with
  | |- context [match ?o with Some _ => _ | None => _ end] => destruct o eqn:?
  | H : context [match ?o with Some _ => _ | None => _ end] |- _ => destruct o eqn:?
  end.

Ltac bool_simpl :=
  repeat match goal with
  | H : _ && _ = true |- _ => apply andb_true_iff in H as [? ?]
  | H : _ || _ = false |- _ => apply orb_false_iff in H as [? ?]
  | H : negb _ = true |- _ => apply negb_true_iff in H
  | H : negb _ = false |- _ => apply negb_false_iff in H
  | H : bool_decide _ = true |- _ => apply bool_decide_eq_true in H
  | H : bool_decide _ = false |- _ => apply bool_decide_eq_false in H
  end.

Create HintDb gateway.
#[export] Hint Resolve map_extend_lookup_notin map_extend_lookup_in : gateway.
