(* ===== verification/F64.v ===== *)
(** * Rust's [f64]

    The arithmetic the gateway computes in.  [Float] is the interface of the
    operations the code uses; [f64] implements it with the kernel's binary64
    numbers (round to nearest even, infinities, one NaN), so every definition
    written against the interface runs bit for bit on [f64].  A second
    implementation, without rounding, is in [Exact].  The derived operations
    ([f_max], [f_clamp], ...) follow the documentation of [std::primitive::f64].

    [FloatOrd] states the order laws of the interface; the theorems that only
    compare and select values are proved against it, once for both
    implementations. *)

From Stdlib Require Import ZArith Lia Floats.
From S2P Require Import Prelude.

Declare Scope flt_scope.
Delimit Scope flt_scope with F.

(** The primitive operations. *)
Class Float (F : Type) := {
  of_Z : Z → F;                      (* [n as f64] *)
  f_add : F → F → F;
  f_sub : F → F → F;
  f_mul : F → F → F;
  f_div : F → F → F;
  f_opp : F → F;
  f_abs : F → F;
  f_leb : F → F → bool;              (* [<=], false on NaN *)
  f_ltb : F → F → bool;
  f_signum : F → F;
  f_round : F → F;                   (* half away from zero *)
  f_ceil : F → F;
  f_total_leb : F → F → bool;        (* [total_cmp(..) != Greater] *)
}.

(** [f64::INFINITY], kept apart from [Float] so that a number type without
    infinities can implement the rest. *)
Class FloatInf (F : Type) := f_infinity : F.

Infix "+" := f_add : flt_scope.
Infix "-" := f_sub : flt_scope.
Infix "*" := f_mul : flt_scope.
Infix "/" := f_div : flt_scope.
Notation "- x" := (f_opp x) : flt_scope.
Infix "<=?" := f_leb : flt_scope.
Infix "<?" := f_ltb : flt_scope.
Notation "x >=? y" := (f_leb y x) (only parsing) : flt_scope.
Notation "x >? y" := (f_ltb y x) (only parsing) : flt_scope.

Section Derived.
Context {F : Type} `{Float F}.
Local Open Scope flt_scope.

(** [==] on floats: false on NaN. *)
Definition f_eqb (x y : F) : bool := (x <=? y) && (y <=? x).
Definition f_nan (x : F) : bool := negb (x <=? x).
(** [f64::is_finite]. *)
Definition f_finite `{!FloatInf F} (x : F) : bool := f_abs x <? f_infinity.

(** A decimal literal [n/d]: the division is correctly rounded, so this is
    the value the literal denotes whenever [n] and [d] are exact. *)
Definition lit (n d : Z) : F := of_Z n / of_Z d.
(** [f64::EPSILON] = 2^-52. *)
Definition f_epsilon : F := of_Z 1 / of_Z (2 ^ 52).

(** [f64::max] and [f64::min]: a NaN operand loses. *)
Definition f_max (x y : F) : F :=
  if f_nan x then y else if x <? y then y else x.
Definition f_min (x y : F) : F :=
  if f_nan x then y else if y <? x then y else x.

(** [f64::clamp]: panics ([None]) unless [lo <= hi]. *)
Definition f_clamp (x lo hi : F) : option F :=
  if lo <=? hi then
    let x1 := if x <? lo then lo else x in
    Some (if hi <? x1 then hi else x1)
  else None.

(** [iter().sum::<f64>()]: left to right.  The standard library folds from
    -0.0; the sum differs from a fold from 0.0 only in the sign of a zero. *)
Definition f_sum (l : list F) : F := foldl f_add (of_Z 0) l.

(** [Duration], in nanoseconds, and [as_secs_f64]. *)
Definition as_secs (ns : Z) : F :=
  of_Z (ns / 1000000000) + of_Z (ns mod 1000000000) / of_Z 1000000000.
End Derived.

Infix "=?" := f_eqb : flt_scope.

(** ** Order laws *)

Class FloatOrd (F : Type) `{Float F} : Prop := {
  ford_trans : ∀ x y z : F,
    f_leb x y = true → f_leb y z = true → f_leb x z = true;
  ford_total : ∀ x y : F,
    f_nan x = false → f_nan y = false → f_leb x y = true ∨ f_leb y x = true;
  ford_refl_l : ∀ x y : F, f_leb x y = true → f_leb x x = true;
  ford_refl_r : ∀ x y : F, f_leb x y = true → f_leb y y = true;
  ford_lt : ∀ x y : F, f_ltb x y = f_leb x y && negb (f_leb y x);
  ford_abs_nonneg : ∀ x : F, f_nan x = false → f_leb (of_Z 0) (f_abs x) = true;
  ford_abs_id : ∀ x : F, f_leb (of_Z 0) x = true → f_leb (f_abs x) x = true ∧ f_leb x (f_abs x) = true;
  ford_abs_nan : ∀ x : F, f_nan (f_abs x) = f_nan x;
  ford_opp_nan : ∀ x : F, f_nan (f_opp x) = f_nan x;
  ford_opp : ∀ x y : F, f_leb (f_opp x) (f_opp y) = f_leb y x;
  ford_zero_nan : f_nan (of_Z 0 : F) = false;
}.

(** ** Sign laws

    What rounding preserves of the sign rules: a product or quotient of
    non-negative values, and a difference of ordered ones, is not negative. *)

Class FloatSign (F : Type) `{Float F} : Prop := {
  fs_mul : ∀ x y : F, f_ltb x (of_Z 0) = false → f_ltb y (of_Z 0) = false →
    f_ltb (f_mul x y) (of_Z 0) = false;
  fs_div : ∀ x y : F, f_ltb x (of_Z 0) = false → f_ltb (of_Z 0) y = true →
    f_ltb (f_div x y) (of_Z 0) = false;
  fs_inv_nat : ∀ n : nat, f_ltb (f_div (of_Z 1) (of_Z (Z.of_nat n)) : F) (of_Z 0) = false;
  fs_sub_nonneg : ∀ x y : F, f_leb x y = true → f_ltb (f_sub y x) (of_Z 0) = false;
  fs_sub_nonpos : ∀ x y : F, f_leb x y = true → f_ltb (of_Z 0) (f_sub x y) = false;
  fs_mul_1 : ∀ x : F, f_mul (of_Z 1) x = x;
  fs_mul_m1 : ∀ x : F, f_mul (of_Z (-1)) x = f_opp x;
}.

(** [total_cmp] is a total order that refines [<]. *)
Class FloatTotal (F : Type) `{Float F} : Prop := {
  ft_total : ∀ x y : F, f_total_leb x y = true ∨ f_total_leb y x = true;
  ft_trans : ∀ x y z : F,
    f_total_leb x y = true → f_total_leb y z = true → f_total_leb x z = true;
  ft_ltb : ∀ x y : F, f_total_leb x y = true → f_ltb y x = false;
}.

Section OrdFacts.
Context {F : Type} `{FloatOrd F}.
Implicit Types x y z : F.
Local Open Scope flt_scope.

Lemma leb_nan_l x y : f_leb x y = true → f_nan x = false.
Proof. intros Hxy. unfold f_nan. by rewrite (ford_refl_l _ _ Hxy). Qed.

Lemma leb_nan_r x y : f_leb x y = true → f_nan y = false.
Proof. intros Hxy. unfold f_nan. by rewrite (ford_refl_r _ _ Hxy). Qed.

Lemma nan_leb x y : f_nan x = true → f_leb x y = false.
Proof.
  intros Hx. destruct (f_leb x y) eqn:Hxy; [|done].
  apply leb_nan_l in Hxy. congruence.
Qed.

Lemma nan_leb_r x y : f_nan y = true → f_leb x y = false.
Proof.
  intros Hx. destruct (f_leb x y) eqn:Hxy; [|done].
  apply leb_nan_r in Hxy. congruence.
Qed.

Lemma leb_refl x : f_nan x = false → f_leb x x = true.
Proof. unfold f_nan. by destruct (f_leb x x). Qed.

Lemma ltb_leb x y : f_ltb x y = true → f_leb x y = true.
Proof. rewrite ford_lt. by intros [Hn _]%andb_true_iff. Qed.

Lemma ltb_not_leb x y : f_ltb x y = true → f_leb y x = false.
Proof. rewrite ford_lt. by intros [_ Hn%negb_true_iff]%andb_true_iff. Qed.

Lemma ltb_irrefl x : f_ltb x x = false.
Proof. rewrite ford_lt. by destruct (f_leb x x). Qed.

(** For non-NaN values [<] and [<=] are complementary. *)
Lemma not_ltb_leb x y :
  f_nan x = false → f_nan y = false → f_ltb x y = false → f_leb y x = true.
Proof.
  intros Hx Hy. rewrite ford_lt. destruct (f_leb y x) eqn:Hyx; [done|].
  destruct (ford_total x y Hx Hy) as [->|Hyx']; [done|congruence].
Qed.

Lemma not_leb_ltb x y :
  f_nan x = false → f_nan y = false → f_leb x y = false → f_ltb y x = true.
Proof.
  intros Hx Hy Hxy. rewrite ford_lt, Hxy. simpl.
  destruct (ford_total x y Hx Hy) as [Ho|Ho]; [congruence|by rewrite Ho].
Qed.

Lemma leb_not_ltb x y : f_leb x y = true → f_ltb y x = false.
Proof. intros Hxy. rewrite ford_lt, Hxy. by rewrite andb_false_r. Qed.

Lemma leb_ltb_trans x y z : f_leb x y = true → f_ltb y z = true → f_ltb x z = true.
Proof.
  rewrite !ford_lt. intros Hxy [Hyz Hzy%negb_true_iff]%andb_true_iff.
  rewrite (ford_trans _ _ _ Hxy Hyz). simpl. apply negb_true_iff.
  destruct (f_leb z x) eqn:Hzx; [|done].
  by rewrite (ford_trans _ _ _ Hzx Hxy) in Hzy.
Qed.

Lemma ltb_leb_trans x y z : f_ltb x y = true → f_leb y z = true → f_ltb x z = true.
Proof.
  rewrite !ford_lt. intros [Hxy Hyx%negb_true_iff]%andb_true_iff Hyz.
  rewrite (ford_trans _ _ _ Hxy Hyz). simpl. apply negb_true_iff.
  destruct (f_leb z x) eqn:Hzx; [|done].
  by rewrite (ford_trans _ _ _ Hyz Hzx) in Hyx.
Qed.

(** *** [max] and [min] *)

Lemma max_nan x y : f_nan (f_max x y) = f_nan x && f_nan y.
Proof.
  unfold f_max. destruct (f_nan x) eqn:Hx; simpl; [done|].
  destruct (f_ltb x y) eqn:Hxy; [|done].
  by eapply leb_nan_r, ltb_leb.
Qed.

Lemma min_nan x y : f_nan (f_min x y) = f_nan x && f_nan y.
Proof.
  unfold f_min. destruct (f_nan x) eqn:Hx; simpl; [done|].
  destruct (f_ltb y x) eqn:Hxy; [|done].
  by eapply leb_nan_l, ltb_leb.
Qed.

Lemma max_ge_l x y : f_nan x = false → f_leb x (f_max x y) = true.
Proof.
  unfold f_max. intros Hx. rewrite Hx.
  destruct (f_ltb x y) eqn:Hxy; [by apply ltb_leb|by apply leb_refl].
Qed.

Lemma max_ge_r x y : f_nan y = false → f_leb y (f_max x y) = true.
Proof.
  unfold f_max. intros Hy. destruct (f_nan x) eqn:Hx; [by apply leb_refl|].
  destruct (f_ltb x y) eqn:Hxy; [by apply leb_refl|by apply not_ltb_leb].
Qed.

Lemma max_lub x y z :
  f_leb x z = true → f_leb y z = true → f_leb (f_max x y) z = true.
Proof. unfold f_max. intros ??. by destruct (f_nan x), (f_ltb x y). Qed.

Lemma min_le_l x y : f_nan x = false → f_leb (f_min x y) x = true.
Proof.
  unfold f_min. intros Hx. rewrite Hx.
  destruct (f_ltb y x) eqn:Hxy; [by apply ltb_leb|by apply leb_refl].
Qed.

Lemma min_le_r x y : f_nan y = false → f_leb (f_min x y) y = true.
Proof.
  unfold f_min. intros Hy. destruct (f_nan x) eqn:Hx; [by apply leb_refl|].
  destruct (f_ltb y x) eqn:Hxy; [by apply leb_refl|by apply not_ltb_leb].
Qed.

Lemma min_glb x y z :
  f_leb z x = true → f_leb z y = true → f_leb z (f_min x y) = true.
Proof. unfold f_min. intros ??. by destruct (f_nan x), (f_ltb y x). Qed.

(** *** [clamp] *)

(** [clamp] panics exactly when its bounds are out of order or NaN. *)
Lemma clamp_None x lo hi : f_clamp x lo hi = None ↔ f_leb lo hi = false.
Proof. unfold f_clamp. by destruct (f_leb lo hi). Qed.

Lemma clamp_Some x lo hi : f_leb lo hi = true → is_Some (f_clamp x lo hi).
Proof. unfold f_clamp. intros ->. eauto. Qed.

Lemma clamp_bounds x lo hi v :
  f_clamp x lo hi = Some v → f_nan x = false →
  f_leb lo v = true ∧ f_leb v hi = true.
Proof.
  unfold f_clamp. destruct (f_leb lo hi) eqn:Hb; [|done]. intros [= <-] Hx.
  pose proof (leb_nan_l _ _ Hb). pose proof (leb_nan_r _ _ Hb).
  destruct (f_ltb x lo) eqn:Hlo.
  - rewrite (leb_not_ltb _ _ Hb). split; [by apply leb_refl|done].
  - destruct (f_ltb hi x) eqn:Hhi.
    + split; [done|by apply leb_refl].
    + split; by apply not_ltb_leb.
Qed.

(** A value already inside its bounds passes through. *)
Lemma clamp_id x lo hi :
  f_leb lo x = true → f_leb x hi = true → f_clamp x lo hi = Some x.
Proof.
  intros Hl Hh. unfold f_clamp. rewrite (ford_trans _ _ _ Hl Hh).
  by rewrite (leb_not_ltb _ _ Hl), (leb_not_ltb _ _ Hh).
Qed.

Lemma clamp_nan x lo hi v :
  f_clamp x lo hi = Some v → f_nan v = f_nan x.
Proof.
  unfold f_clamp. destruct (f_leb lo hi) eqn:Hb; [|done]. intros [= <-].
  assert (Hnl := leb_nan_l _ _ Hb). assert (Hnr := leb_nan_r _ _ Hb).
  destruct (f_ltb x lo) eqn:Hlo.
  - rewrite (leb_not_ltb _ _ Hb), Hnl. symmetry. by eapply leb_nan_l, ltb_leb.
  - destruct (f_ltb hi x) eqn:Hhi; [|done].
    rewrite Hnr. symmetry. by eapply leb_nan_r, ltb_leb.
Qed.
End OrdFacts.

#[export] Hint Resolve leb_refl ltb_leb leb_nan_l leb_nan_r max_ge_l max_ge_r
  min_le_l min_le_r max_lub min_glb clamp_Some : gateway.
