(* ===== verification/Binary64.v ===== *)
(** * Binary64: the [f64] the gateway runs on

    The kernel's primitive binary64 numbers as an implementation of [F64.Float],
    the proof that they satisfy the order laws [F64.FloatOrd], and the
    conversions the code uses: [as] casts to integers (truncating, saturating,
    NaN to 0), [round], [ceil], [f32] narrowing and its bit patterns, and
    [Duration::from_secs_f64]. *)

From Stdlib Require Import ZArith Lia Floats.
From S2P Require Import Prelude F64.

Abbreviation f64 := PrimFloat.float.
Local Open Scope Z_scope.

Definition sf_sign (x : spec_float) : bool :=
  match x with
  | S754_zero s | S754_infinity s => s
  | S754_finite s _ _ => s
  | S754_nan => false
  end.

Definition f64_of_Z (z : Z) : f64 := SF2Prim (binary_normalize prec emax z 0 false).

(** An integer with the sign of a zero kept. *)
Definition f64_of_signed (s : bool) (n : Z) : f64 :=
  SF2Prim (binary_normalize prec emax (if s then - n else n) 0 s).

(** [f64::signum]: ±1 by the sign bit, NaN on NaN. *)
Definition f64_signum (x : f64) : f64 :=
  match Prim2SF x with
  | S754_nan => PrimFloat.nan
  | sx => if sf_sign sx then PrimFloat.opp PrimFloat.one else PrimFloat.one
  end.

(** [f64::round]: to nearest integer, half away from zero. *)
Definition f64_round (x : f64) : f64 :=
  match Prim2SF x with
  | S754_finite s m (Zneg d) =>
      f64_of_signed s ((Zpos m + 2 ^ (Zpos d - 1)) / 2 ^ Zpos d)
  | _ => x
  end.

(** [f64::ceil]. *)
Definition f64_ceil (x : f64) : f64 :=
  match Prim2SF x with
  | S754_finite s m (Zneg d) =>
      let q := Zpos m / 2 ^ Zpos d in
      let n := if s then q else if Zpos m mod 2 ^ Zpos d =? 0 then q else q + 1 in
      f64_of_signed s n
  | _ => x
  end.

(** [total_cmp(x, y) != Greater]: -0.0 below 0.0, NaN above everything. *)
Definition f64_total_leb (x y : f64) : bool :=
  if PrimFloat.is_nan y then true
  else if PrimFloat.is_nan x then false
  else if PrimFloat.ltb x y then true
  else if PrimFloat.ltb y x then false
  else implb (sf_sign (Prim2SF y)) (sf_sign (Prim2SF x)).

#[export] Instance f64_Float : Float f64 := {
  of_Z := f64_of_Z;
  f_add := PrimFloat.add;
  f_sub := PrimFloat.sub;
  f_mul := PrimFloat.mul;
  f_div := PrimFloat.div;
  f_opp := PrimFloat.opp;
  f_abs := PrimFloat.abs;
  f_leb := PrimFloat.leb;
  f_ltb := PrimFloat.ltb;
  f_signum := f64_signum;
  f_round := f64_round;
  f_ceil := f64_ceil;
  f_total_leb := f64_total_leb;
}.

#[export] Instance f64_FloatInf : FloatInf f64 := PrimFloat.infinity.

(** ** Casts *)

(** The integer part of a finite value; [None] on NaN and infinities. *)
Definition f64_trunc (x : f64) : option Z :=
  match Prim2SF x with
  | S754_zero _ => Some 0
  | S754_finite s m e =>
      let n := match e with
               | Zneg d => Zpos m / 2 ^ Zpos d
               | _ => Zpos m * 2 ^ e
               end in
      Some (if s then - n else n)
  | _ => None
  end.

(** [x as iN] / [x as uN]: truncates, saturates at the type's bounds, NaN is 0. *)
Definition f64_as_int (lo hi : Z) (x : f64) : Z :=
  match Prim2SF x with
  | S754_nan => 0
  | S754_infinity s => if s then lo else hi
  | _ => match f64_trunc x with
         | Some z => Z.max lo (Z.min hi z)
         | None => 0
         end
  end.

Definition f64_as_u16 : f64 → Z := f64_as_int 0 (2 ^ 16 - 1).
Definition f64_as_u32 : f64 → Z := f64_as_int 0 (2 ^ 32 - 1).
Definition f64_as_u64 : f64 → Z := f64_as_int 0 (2 ^ 64 - 1).
Definition f64_as_i16 : f64 → Z := f64_as_int (- 2 ^ 15) (2 ^ 15 - 1).
Definition f64_as_i32 : f64 → Z := f64_as_int (- 2 ^ 31) (2 ^ 31 - 1).
Definition f64_as_i64 : f64 → Z := f64_as_int (- 2 ^ 63) (2 ^ 63 - 1).

(** ** [f32] *)

(** A binary32 value, as its IEEE data. *)
Definition f32 := spec_float.

(** [x as f32]: rounds to nearest even. *)
Definition f64_as_f32 (x : f64) : f32 :=
  match Prim2SF x with
  | S754_finite s m e => binary_round 24 128 s m e
  | sx => sx
  end.

Definition f32_is_finite (x : f32) : bool :=
  match x with S754_zero _ | S754_finite _ _ _ => true | _ => false end.

(** [f32 as f64] is exact: every binary32 value is a binary64 value. *)
Definition f32_as_f64 (x : f32) : f64 :=
  match x with
  | S754_finite s m e => SF2Prim (binary_round prec emax s m e)
  | _ => SF2Prim x
  end.

(** [f32::to_bits] (the quiet NaN 0x7FC00000 for the one NaN modelled). *)
Definition f32_to_bits (x : f32) : Z :=
  let signed (s : bool) (n : Z) := if s then n + 2 ^ 31 else n in
  match x with
  | S754_zero s => signed s 0
  | S754_infinity s => signed s (255 * 2 ^ 23)
  | S754_nan => 0x7FC00000
  | S754_finite s m e =>
      if Zpos m <? 2 ^ 23 then signed s (Zpos m)
      else signed s ((e + 150) * 2 ^ 23 + (Zpos m - 2 ^ 23))
  end.

(** [f32::from_bits]. *)
Definition f32_from_bits (b : Z) : f32 :=
  let s := Z.testbit b 31 in
  let ex := Z.land (Z.shiftr b 23) 255 in
  let ma := Z.land b (2 ^ 23 - 1) in
  if ex =? 255 then (if ma =? 0 then S754_infinity s else S754_nan)
  else if ex =? 0 then
    match ma with Zpos m => S754_finite s m (-149) | _ => S754_zero s end
  else match ma + 2 ^ 23 with Zpos m => S754_finite s m (ex - 150) | _ => S754_nan end.

(** ** [Duration::from_secs_f64] *)

(** Nearest integer to [n / d] ([d > 0]), ties to even. *)
Definition round_half_even (n d : Z) : Z :=
  let q := n / d in
  let r := n mod d in
  if 2 * r <? d then q
  else if d <? 2 * r then q + 1
  else if Z.even q then q else q + 1.

(** The largest [Duration]: u64 seconds and 999_999_999 ns. *)
Definition max_duration : Z := 2 ^ 64 * 1000000000 - 1.

(** Nanoseconds, or [None] where the constructor panics: a negative, NaN,
    infinite or too large number of seconds. *)
Definition duration_from_secs_f64 (x : f64) : option Z :=
  match Prim2SF x with
  | S754_zero _ => Some 0
  | S754_finite false m e =>
      let ns := match e with
                | Zneg d => round_half_even (Zpos m * 1000000000) (2 ^ Zpos d)
                | _ => Zpos m * 2 ^ e * 1000000000
                end in
      if ns <=? max_duration then Some ns else None
  | _ => None
  end.

(** ** The order laws *)

Lemma SFleb_trans x y z : SFleb x y = true → SFleb y z = true → SFleb x z = true.
Proof.
  unfold SFleb, SFcompare.
  destruct x as [sx|sx| |sx mx ex], y as [sy|sy| |sy my ey], z as [sz|sz| |sz mz ez];
    try done; try (destruct sx; done); try (destruct sy; done); try (destruct sz; done);
    try (destruct sx, sy; done); try (destruct sy, sz; done); try (destruct sx, sz; done);
    try (destruct sx, sy, sz; done).
  change (Pos.compare_cont Eq mx my) with (Pos.compare mx my).
  change (Pos.compare_cont Eq my mz) with (Pos.compare my mz).
  change (Pos.compare_cont Eq mx mz) with (Pos.compare mx mz).
  destruct sx, sy, sz; try done;
    destruct (Z.compare_spec ex ey), (Z.compare_spec ey ez), (Z.compare_spec ex ez);
    try lia; try done;
    destruct (Pos.compare_spec mx my), (Pos.compare_spec my mz), (Pos.compare_spec mx mz);
    simpl; try lia; done.
Qed.

(** [SFcompare] is antisymmetric in its arguments. *)
Lemma SFcompare_swap x y :
  SFcompare y x = option_map CompOpp (SFcompare x y).
Proof.
  unfold SFcompare.
  destruct x as [sx|sx| |sx mx ex], y as [sy|sy| |sy my ey];
    try done; try (by destruct sx); try (by destruct sy); try (by destruct sx, sy).
  change (Pos.compare_cont Eq mx my) with (Pos.compare mx my).
  change (Pos.compare_cont Eq my mx) with (Pos.compare my mx).
  rewrite (Z.compare_antisym ex ey), (Pos.compare_antisym mx my).
  by destruct sx, sy, (ex ?= ey), (mx ?= my)%positive.
Qed.

Lemma SFcompare_opp x y : SFcompare (SFopp x) (SFopp y) = SFcompare y x.
Proof.
  rewrite (SFcompare_swap x y). unfold SFcompare, SFopp.
  destruct x as [sx|sx| |sx mx ex], y as [sy|sy| |sy my ey];
    try done; try (by destruct sx); try (by destruct sy); try (by destruct sx, sy).
  change (Pos.compare_cont Eq mx my) with (Pos.compare mx my).
  by destruct sx, sy, (ex ?= ey), (mx ?= my)%positive.
Qed.

Lemma SFcompare_refl x : SFcompare x x = match x with S754_nan => None | _ => Some Eq end.
Proof.
  destruct x as [sx|sx| |sx mx ex]; try done; [by destruct sx|].
  simpl. change (Pos.compare_cont Eq mx mx) with (Pos.compare mx mx).
  rewrite Z.compare_refl, Pos.compare_refl. by destruct sx.
Qed.

Lemma SFcompare_None x y :
  SFcompare x y = None ↔ x = S754_nan ∨ y = S754_nan.
Proof.
  destruct x as [sx|sx| |sx mx ex], y as [sy|sy| |sy my ey]; simpl;
    split; try done; try (by left); try (by right); by intros [|].
Qed.

Lemma f64_nan_SF (x : f64) : f_nan x = match Prim2SF x with S754_nan => true | _ => false end.
Proof.
  unfold f_nan; simpl. rewrite leb_spec. unfold SFleb. rewrite SFcompare_refl.
  by destruct (Prim2SF x).
Qed.

Lemma f64_leb_compare (x y : f64) :
  PrimFloat.leb x y = match SFcompare (Prim2SF x) (Prim2SF y) with
                      | Some (Lt | Eq) => true | _ => false end.
Proof. by rewrite leb_spec. Qed.

#[export] Instance f64_FloatOrd : FloatOrd f64.
Proof.
  split; simpl.
  - intros x y z. rewrite !leb_spec. apply SFleb_trans.
  - intros x y Hx Hy. rewrite f64_nan_SF in Hx, Hy. rewrite !f64_leb_compare.
    rewrite (SFcompare_swap (Prim2SF x) (Prim2SF y)).
    destruct (SFcompare (Prim2SF x) (Prim2SF y)) as [[]|] eqn:Hc; simpl; auto.
    apply SFcompare_None in Hc as [Hc|Hc]; rewrite Hc in *; done.
  - intros x y. rewrite !f64_leb_compare, SFcompare_refl.
    by destruct (Prim2SF x).
  - intros x y. rewrite !f64_leb_compare, SFcompare_refl.
    by destruct (Prim2SF x), (Prim2SF y).
  - intros x y. rewrite !f64_leb_compare, ltb_spec. unfold SFltb.
    rewrite (SFcompare_swap (Prim2SF x) (Prim2SF y)).
    by destruct (SFcompare (Prim2SF x) (Prim2SF y)) as [[]|].
  - intros x. rewrite f64_nan_SF, leb_spec, abs_spec.
    replace (Prim2SF (f64_of_Z 0)) with (S754_zero false) by (by vm_compute).
    by destruct (Prim2SF x).
  - intros x. rewrite !leb_spec, abs_spec.
    replace (Prim2SF (f64_of_Z 0)) with (S754_zero false) by (by vm_compute).
    destruct (Prim2SF x) as [s|s| |s m e]; try done; destruct s; try done; simpl;
      unfold SFleb; rewrite SFcompare_refl; done.
  - intros x. rewrite !f64_nan_SF; simpl. rewrite abs_spec. by destruct (Prim2SF x).
  - intros x. rewrite !f64_nan_SF; simpl. rewrite opp_spec. by destruct (Prim2SF x).
  - intros x y. rewrite !f64_leb_compare, !opp_spec. by rewrite SFcompare_opp.
  - by vm_compute.
Qed.

Lemma f64_leb_infinity (x : f64) : f_nan x = false → f_leb x f_infinity = true.
Proof.
  rewrite f64_nan_SF. simpl. rewrite leb_spec.
  replace (Prim2SF f_infinity) with (S754_infinity false) by (by vm_compute).
  destruct (Prim2SF x) as [s|s| |s m e]; try done; by destruct s.
Qed.

Lemma f64_neg_infinity_leb (x : f64) :
  f_nan x = false → f_leb (f_opp f_infinity) x = true.
Proof.
  rewrite f64_nan_SF. simpl. rewrite leb_spec.
  replace (Prim2SF (PrimFloat.opp f_infinity)) with (S754_infinity true) by (by vm_compute).
  destruct (Prim2SF x) as [s|s| |s m e]; try done; by destruct s.
Qed.

Lemma f64_is_nan (x : f64) : PrimFloat.is_nan x = f_nan x.
Proof.
  rewrite f64_nan_SF. unfold PrimFloat.is_nan. rewrite FloatAxioms.eqb_spec. unfold SFeqb.
  rewrite SFcompare_refl. by destruct (Prim2SF x).
Qed.

Lemma f64_total_leb_spec (x y : f64) :
  f64_total_leb x y =
  if f_nan y then true else if f_nan x then false
  else f_ltb x y || (negb (f_ltb y x) && implb (sf_sign (Prim2SF y)) (sf_sign (Prim2SF x))).
Proof.
  unfold f64_total_leb. rewrite !f64_is_nan. simpl.
  by destruct (f_nan y), (f_nan x), (PrimFloat.ltb x y), (PrimFloat.ltb y x).
Qed.

#[export] Instance f64_FloatTotal : FloatTotal f64.
Proof.
  split; intros x y; [|intros z|]; cbn [f_total_leb f64_Float]; rewrite !f64_total_leb_spec.
  - destruct (f_nan x) eqn:Hx, (f_nan y) eqn:Hy; auto.
    destruct (f_ltb x y) eqn:Hxy; [by left|]. destruct (f_ltb y x) eqn:Hyx; [by right|].
    simpl. destruct (sf_sign (Prim2SF x)), (sf_sign (Prim2SF y)); auto.
  - destruct (f_nan z) eqn:Hz; [done|]. destruct (f_nan y) eqn:Hy; [done|].
    destruct (f_nan x) eqn:Hx; [done|].
    intros [Hxy|[Hxy Hs]%andb_true_iff]%orb_true_iff [Hyz|[Hyz Ht]%andb_true_iff]%orb_true_iff.
    + apply orb_true_iff. left. by apply (ltb_leb_trans _ y); [|apply ltb_leb].
    + apply negb_true_iff in Hyz. apply orb_true_iff. left.
      by apply (ltb_leb_trans _ y); [|apply not_ltb_leb].
    + apply negb_true_iff in Hxy. apply orb_true_iff. left.
      by apply (leb_ltb_trans _ y); [apply not_ltb_leb|].
    + apply negb_true_iff in Hxy, Hyz. apply orb_true_iff. right.
      assert (f_leb x z = true) as Hxz by (apply ford_trans with y; by apply not_ltb_leb).
      rewrite (leb_not_ltb _ _ Hxz). simpl.
      by destruct (sf_sign (Prim2SF x)), (sf_sign (Prim2SF y)), (sf_sign (Prim2SF z)).
  - destruct (f_nan y) eqn:Hy.
    { intros _. by rewrite ford_lt, nan_leb. }
    destruct (f_nan x) eqn:Hx; [done|].
    intros [Hxy|[Hxy _]%andb_true_iff]%orb_true_iff; [|by apply negb_true_iff].
    by apply leb_not_ltb, ltb_leb.
Qed.

Lemma f64_eps_pos : f_ltb f_epsilon (of_Z 0 : f64) = false.
Proof. by vm_compute. Qed.
