(* ===== verification/Rounding.v ===== *)
(** * Rounding: signs and validity of rounded binary64 results

    What the gateway's theorems need from IEEE rounding, proved from the
    kernel's specification of the primitive operations: ordered finite values
    have ordered mantissas on a common exponent, a rounded result keeps the sign
    of the exact one, multiplying by ±1 is exact, and rounding yields a valid
    binary64 value (so an integer conversion is what its specification says). *)

From Stdlib Require Import ZArith Lia Floats.
From S2P Require Import Prelude F64 Binary64.
Local Open Scope Z_scope.

Lemma digits2_pos_bounds m :
  2 ^ (Zpos (digits2_pos m) - 1) ≤ Zpos m < 2 ^ Zpos (digits2_pos m).
Proof.
  assert (∀ d : positive, 2 ^ Zpos d = 2 * 2 ^ (Zpos d - 1)) as E.
  { intros d. rewrite <- Z.pow_succ_r by lia. f_equal. lia. }
  induction m as [p IH|p IH|]; simpl digits2_pos; [| |simpl; lia];
    rewrite Pos2Z.inj_succ, Z.sub_1_r, Z.pred_succ, Z.pow_succ_r by lia; rewrite E in *; lia.
Qed.

(** A mantissa aligned to a smaller exponent is scaled by the difference. *)
Lemma shl_align_fst m e ez : ez ≤ e → Zpos (fst (shl_align m e ez)) = Zpos m * 2 ^ (e - ez).
Proof.
  intros He. unfold shl_align. destruct (ez - e) as [|p|p] eqn:Hd; try lia.
  - simpl. replace (e - ez) with 0 by lia. lia.
  - simpl fst. replace (e - ez) with (Zpos p) by lia.
    rewrite <- Z.pow_pos_fold. fold (shift_pos p m). rewrite shift_pos_correct. lia.
Qed.

(** *** Ordered finite values have ordered scaled mantissas *)

Lemma bounded_canonical m e : bounded prec emax m e = true →
  e = Z.max (Zpos (digits2_pos m) + e - 53) (-1074).
Proof.
  unfold bounded, canonical_mantissa, fexp, emin, prec, emax.
  intros [H%Z.eqb_eq _]%andb_true_iff. lia.
Qed.

Lemma bounded_lt_exp m1 e1 m2 e2 :
  bounded prec emax m1 e1 = true → bounded prec emax m2 e2 = true → e1 < e2 →
  Zpos m1 < Zpos m2 * 2 ^ (e2 - e1).
Proof.
  intros H1%bounded_canonical H2%bounded_canonical He.
  destruct (digits2_pos_bounds m1) as [_ Hm1]. destruct (digits2_pos_bounds m2) as [Hm2 _].
  assert (Zpos (digits2_pos m1) ≤ 53) as D1 by lia.
  assert (Zpos (digits2_pos m2) = 53) as D2 by lia.
  rewrite D2 in Hm2. apply Z.lt_le_trans with (2 ^ 53).
  - eapply Z.lt_le_trans; [exact Hm1|]. by apply Z.pow_le_mono_r.
  - change (2 ^ 53) with (2 ^ (53 - 1) * 2 ^ 1). apply Z.mul_le_mono_nonneg; try lia.
    apply Z.pow_le_mono_r; lia.
Qed.

Definition scaled (s : bool) (m : positive) (e ez : Z) : Z :=
  cond_Zopp s (Zpos (fst (shl_align m e ez))).

Lemma SFleb_scaled s1 m1 e1 s2 m2 e2 :
  bounded prec emax m1 e1 = true → bounded prec emax m2 e2 = true →
  SFleb (S754_finite s1 m1 e1) (S754_finite s2 m2 e2) = true →
  scaled s1 m1 e1 (Z.min e1 e2) ≤ scaled s2 m2 e2 (Z.min e1 e2).
Proof.
  intros H1 H2. unfold scaled, SFleb, SFcompare.
  change (Pos.compare_cont Eq m1 m2) with (Pos.compare m1 m2).
  rewrite !shl_align_fst by lia.
  destruct (Z.compare_spec e1 e2) as [->|He|He].
  - rewrite Z.min_id, Z.sub_diag. 
    destruct s1, s2, (Pos.compare_spec m1 m2); simpl; intros; try done; lia.
  - pose proof (bounded_lt_exp _ _ _ _ H1 H2 He).
    rewrite Z.min_l, Z.sub_diag by lia.
    destruct s1, s2; simpl; intros; try done; lia.
  - pose proof (bounded_lt_exp _ _ _ _ H2 H1 He).
    rewrite Z.min_r, Z.sub_diag by lia.
    destruct s1, s2; simpl; intros; try done; lia.
Qed.

(** *** The sign of a rounded result *)

Lemma sf_sign_aux s m e l :
  match binary_round_aux prec emax s m e l with
  | S754_nan => True
  | x => sf_sign x = s
  end.
Proof.
  unfold binary_round_aux. destruct (shr_fexp _ _ _ _ _) as [mrs e'].
  destruct (shr_fexp _ _ _ _ _) as [mrs2 e2].
  destruct (shr_m mrs2); try done. by destruct (_ <=? _).
Qed.

Lemma sf_sign_normalize m e s :
  match binary_normalize prec emax m e s with
  | S754_nan => True
  | x => sf_sign x = if m =? 0 then s else m <? 0
  end.
Proof.
  destruct m as [|p|p]; [done|..]; unfold binary_normalize, binary_round;
    destruct (shl_align _ _ _) as [mz ez]; [set (b := false)|set (b := true)];
    pose proof (sf_sign_aux b (Zpos mz) ez loc_Exact) as Hs;
    destruct (binary_round_aux _ _ _ _ _ _); done.
Qed.

Lemma SFltb_zero_r x :
  SFltb x (S754_zero false) =
  match x with S754_infinity s | S754_finite s _ _ => s | _ => false end.
Proof. by destruct x as [[]|[]| |[] m e]. Qed.

Lemma SFltb_zero_l x :
  SFltb (S754_zero false) x =
  match x with S754_infinity s | S754_finite s _ _ => negb s | _ => false end.
Proof. by destruct x as [[]|[]| |[] m e]. Qed.

Lemma normalize_not_neg m e : 0 ≤ m →
  SFltb (binary_normalize prec emax m e false) (S754_zero false) = false.
Proof.
  intros Hm. rewrite SFltb_zero_r. pose proof (sf_sign_normalize m e false) as Hs.
  destruct (binary_normalize prec emax m e false); try done; simpl in Hs; rewrite Hs;
    destruct (Z.eqb_spec m 0); try done; apply Z.ltb_ge; lia.
Qed.

Lemma normalize_not_pos m e : m ≤ 0 →
  SFltb (S754_zero false) (binary_normalize prec emax m e false) = false.
Proof.
  intros Hm. rewrite SFltb_zero_l. pose proof (sf_sign_normalize m e false) as Hs.
  destruct (Z.eqb_spec m 0) as [->|Hne]; [done|].
  destruct (binary_normalize prec emax m e false); try done; simpl in Hs; rewrite Hs;
    rewrite (proj2 (Z.ltb_lt m 0)); try done; lia.
Qed.

Lemma SFsub_ordered x y :
  valid_binary x = true → valid_binary y = true → SFleb x y = true →
  SFltb (SF64sub y x) (S754_zero false) = false ∧
  SFltb (S754_zero false) (SF64sub x y) = false.
Proof.
  destruct x as [sx|sx| |sx mx ex], y as [sy|sy| |sy my ey]; intros Hx Hy Hle;
    try done; try (by destruct sx); try (by destruct sy); try (by destruct sx, sy).
  pose proof (SFleb_scaled _ _ _ _ _ _ Hx Hy Hle) as Hs. unfold scaled in Hs.
  unfold SF64sub, SFsub. rewrite (Z.min_comm ey ex).
  split; [apply normalize_not_neg|apply normalize_not_pos]; lia.
Qed.

(** *** The result of multiplying by ±1 *)

Lemma shr_exact m n :
  SpecFloat.iter_pos shr_1 n (Build_shr_record (Zpos (Pos.iter xO m n)) false false) =
  Build_shr_record (Zpos m) false false.
Proof.
  revert m. induction n as [n IH|n IH|]; intros m; simpl; [| |done]; by rewrite !IH.
Qed.

Lemma digits2_pos_iter_xO m n : digits2_pos (Pos.iter xO m n) = (digits2_pos m + n)%positive.
Proof.
  revert m. induction n as [|n IH] using Pos.peano_ind; intros m.
  - simpl. lia.
  - rewrite Pos.iter_succ. simpl. rewrite IH. lia.
Qed.

Lemma shr_fexp_canonical m e : bounded prec emax m e = true →
  shr_fexp prec emax (Zpos m) e loc_Exact = (Build_shr_record (Zpos m) false false, e).
Proof.
  intros H%bounded_canonical. unfold shr_fexp, fexp, emin, prec, emax, Zdigits2, shr.
  simpl shr_record_of_loc.
  replace (Z.max _ _ - e) with 0 by lia. done.
Qed.

Lemma binary_round_aux_scaled s m e n :
  bounded prec emax m e = true →
  binary_round_aux prec emax s (Zpos (Pos.iter xO m n)) (e - Zpos n) loc_Exact =
  S754_finite s m e.
Proof.
  intros H. pose proof (bounded_canonical _ _ H) as Hc.
  unfold binary_round_aux.
  assert (shr_fexp prec emax (Zpos (Pos.iter xO m n)) (e - Zpos n) loc_Exact =
    (Build_shr_record (Zpos m) false false, e)) as ->.
  { unfold shr_fexp, Zdigits2. rewrite digits2_pos_iter_xO.
    unfold fexp, emin, prec, emax. simpl shr_record_of_loc.
    replace (Z.max _ _ - (e - Zpos n)) with (Zpos n) by lia. unfold shr.
    rewrite shr_exact. f_equal. lia. }
  simpl shr_m. simpl loc_of_shr_record. simpl round_nearest_even.
  rewrite (shr_fexp_canonical _ _ H). simpl shr_m.
  apply andb_true_iff in H as [_ H]. simpl in H. by rewrite H.
Qed.

Lemma SFmul_one s x : valid_binary x = true →
  SF64mul (S754_finite s 4503599627370496 (-52)) x = if s then SFopp x else x.
Proof.
  destruct x as [sx|sx| |sx mx ex]; intros Hx;
    try (by destruct s); try (by destruct s, sx).
  unfold SF64mul, SFmul. rewrite Pos.mul_comm.
  replace (mx * 4503599627370496)%positive with (Pos.iter xO mx 52)
    by (apply Pos2Z.inj; fold (shift_pos 52 mx); rewrite shift_pos_correct, Pos2Z.inj_mul; lia).
  replace (-52 + ex) with (ex - 52) by lia.
  rewrite (binary_round_aux_scaled _ _ _ 52) by done. by destruct s, sx.
Qed.

Lemma f64_of_Z_0 : Prim2SF (f64_of_Z 0) = S754_zero false.
Proof. by vm_compute. Qed.
Lemma f64_of_Z_1 : Prim2SF (f64_of_Z 1) = S754_finite false 4503599627370496 (-52).
Proof. by vm_compute. Qed.
Lemma f64_of_Z_m1 : Prim2SF (f64_of_Z (-1)) = S754_finite true 4503599627370496 (-52).
Proof. by vm_compute. Qed.

(** *** Products and quotients *)

Lemma SFltb_zero_sign x y : sf_sign x = false ∨ x = S754_nan ∨ (∃ s, x = S754_zero s) →
  y = S754_zero false → SFltb x y = false.
Proof. intros Hs ->. rewrite SFltb_zero_r. by destruct Hs as [Hs|[->|[s ->]]]; [destruct x|..]. Qed.

Lemma SFmul_not_neg x y :
  SFltb x (S754_zero false) = false → SFltb y (S754_zero false) = false →
  SFltb (SF64mul x y) (S754_zero false) = false.
Proof.
  rewrite !SFltb_zero_r.
  destruct x as [sx|sx| |sx mx ex], y as [sy|sy| |sy my ey]; simpl; try done;
    intros; subst; try done.
  unfold SF64mul, SFmul. pose proof (sf_sign_aux (xorb false false) (Zpos (mx * my)) (ex + ey) loc_Exact).
  by destruct (binary_round_aux _ _ _ _ _ _).
Qed.

Lemma SFdiv_not_neg x y :
  SFltb x (S754_zero false) = false → SFltb (S754_zero false) y = true →
  SFltb (SF64div x y) (S754_zero false) = false.
Proof.
  rewrite !SFltb_zero_r, SFltb_zero_l.
  destruct x as [sx|sx| |sx mx ex], y as [sy|sy| |sy my ey]; simpl; try done;
    intros; subst; try destruct sy; try done.
  unfold SF64div, SFdiv. destruct (SFdiv_core_binary _ _ _ _ _ _) as [[mz ez] lz].
  pose proof (sf_sign_aux (xorb false false) mz ez lz).
  by destruct (binary_round_aux _ _ _ _ _ _).
Qed.

(** *** Rounding yields a valid binary64 value *)

Lemma digits2_pos_unique m k :
  2 ^ (k - 1) ≤ Zpos m < 2 ^ k → Zpos (digits2_pos m) = k.
Proof.
  intros [Hl Hh]. destruct (digits2_pos_bounds m) as [Hl' Hh'].
  assert (0 ≤ k) by (destruct (Z.lt_ge_cases k 0); [rewrite Z.pow_neg_r in Hh by lia; lia|lia]).
  assert (Zpos (digits2_pos m) - 1 < k) by (apply (Z.pow_lt_mono_r_iff 2); lia).
  assert (k - 1 < Zpos (digits2_pos m)).
  { destruct (Z.lt_ge_cases (k - 1) (Zpos (digits2_pos m))); [done|].
    assert (2 ^ Zpos (digits2_pos m) ≤ 2 ^ (k - 1)) by (apply Z.pow_le_mono_r; lia). lia. }
  lia.
Qed.

Lemma shr_1_m r : 0 ≤ shr_m r → shr_m (shr_1 r) = shr_m r / 2.
Proof.
  destruct r as [[|[p|p|]|p] ? ?]; simpl shr_m; intros H; [done| | |done|done].
  - rewrite Pos2Z.inj_xI. apply Z.div_unique with 1; lia.
  - rewrite Pos2Z.inj_xO. apply Z.div_unique with 0; lia.
Qed.

Lemma iter_shr_1_m n r : 0 ≤ shr_m r →
  shr_m (SpecFloat.iter_pos shr_1 n r) = shr_m r / 2 ^ Zpos n.
Proof.
  revert r. induction n as [n IH|n IH|]; intros r Hr; simpl SpecFloat.iter_pos.
  - assert (0 ≤ shr_m (shr_1 r)) by (rewrite shr_1_m by done; by apply Z.div_pos).
    rewrite IH, IH, shr_1_m by (try done; rewrite IH by done; apply Z.div_pos; lia).
    rewrite !Z.div_div by lia. f_equal.
    replace (Zpos n~1) with (1 + Zpos n + Zpos n) by lia. rewrite !Z.pow_add_r by lia. lia.
  - rewrite IH, IH by (try done; rewrite IH by done; apply Z.div_pos; lia).
    rewrite Z.div_div by lia. f_equal.
    replace (Zpos n~0) with (Zpos n + Zpos n) by lia. by rewrite Z.pow_add_r by lia.
  - by apply shr_1_m.
Qed.

(** Shifting to a not smaller exponent: what is left, and where. *)
Lemma shr_spec r e n : 0 ≤ n → 0 ≤ shr_m r →
  ∃ r', shr r e n = (r', e + n) ∧ shr_m r' = shr_m r / 2 ^ n.
Proof.
  intros Hn Hr. destruct n as [|p|p]; [| |lia].
  - exists r. simpl. split; [by rewrite Z.add_0_r|by rewrite Z.div_1_r].
  - eexists; split; [done|]. by apply iter_shr_1_m.
Qed.

Lemma shr_nonpos r e n : n ≤ 0 → shr r e n = (r, e).
Proof. by destruct n. Qed.

Lemma fexp_eq e : fexp prec emax e = Z.max (e - 53) (-1074).
Proof. unfold fexp, emin, prec, emax. f_equal; lia. Qed.

Lemma binary_round_aux_valid s m e l :
  e ≤ fexp prec emax (Zpos (digits2_pos m) + e) →
  valid_binary (binary_round_aux prec emax s (Zpos m) e l) = true.
Proof.
  rewrite fexp_eq. intros He. unfold binary_round_aux.
  replace (shr_fexp prec emax (Zpos m) e l) with
    (shr (shr_record_of_loc (Zpos m) l) e (Z.max (Zpos (digits2_pos m) + e - 53) (-1074) - e))
    by (unfold shr_fexp; by rewrite fexp_eq).
  set (d := Zpos (digits2_pos m)) in *.
  set (n := Z.max (d + e - 53) (-1074) - e). assert (0 ≤ n) as Hn by lia.
  destruct (shr_spec (shr_record_of_loc (Zpos m) l) e n) as (r' & -> & Hr'); [done|by destruct l as [|[]]|].
  replace (shr_m (shr_record_of_loc (Zpos m) l)) with (Zpos m) in Hr' by (by destruct l as [|[]]).
  destruct (digits2_pos_bounds m) as [Hml Hmh]. fold d in Hml, Hmh.
  set (M := round_nearest_even (shr_m r') (loc_of_shr_record r')).
  set (e' := e + n) in *.
  assert (shr_m r' ≤ M ≤ shr_m r' + 1) as HM.
  { unfold M, round_nearest_even. destruct (loc_of_shr_record r') as [|[]]; try lia.
    destruct (Z.even _); lia. }
  assert (0 ≤ shr_m r') as H0 by (rewrite Hr'; apply Z.div_pos; lia).
  assert (shr_m r' < 2 ^ 53) as Hup.
  { rewrite Hr'. apply Z.div_lt_upper_bound; [lia|]. rewrite <- Z.pow_add_r by lia.
    eapply Z.lt_le_trans; [exact Hmh|]. apply Z.pow_le_mono_r; lia. }
  assert (e' = -1074 ∨ 2 ^ 52 ≤ shr_m r' ∧ -1074 ≤ e') as Hnorm.
  { destruct (Z.le_gt_cases (d + e - 53) (-1074)); [left; lia|right]. split; [|lia].
    rewrite Hr'. apply Z.div_le_lower_bound; [lia|]. rewrite <- Z.pow_add_r by lia.
    replace (n + 52) with (d - 1) by lia. done. }
  clearbody M. unfold shr_fexp. rewrite fexp_eq. simpl shr_record_of_loc.
  destruct M as [|p|p]; [| |lia]; simpl Zdigits2.
  { rewrite shr_nonpos by lia. done. }
  destruct (Z.eq_dec (Zpos p) (2 ^ 53)) as [Hp|Hp].
  - assert (Zpos (digits2_pos p) = 54) as -> by (apply digits2_pos_unique; lia).
    replace (Z.max _ _ - e') with 1 by lia. simpl shr.
    destruct p as [p|p|]; [lia| |lia]. simpl shr_m.
    destruct (Z.leb_spec (e' + 1) (emax - prec)) as [Hle|]; [|done].
    simpl. unfold bounded, canonical_mantissa. rewrite fexp_eq.
    assert (Zpos (digits2_pos p) = 53) as -> by (apply digits2_pos_unique; lia).
    apply andb_true_iff; split; [apply Z.eqb_eq; lia|by apply Z.leb_le].
  - assert (Z.max (Zpos (digits2_pos p) + e' - 53) (-1074) = e') as Hc.
    { destruct Hnorm as [Hs|[Hs Hs']].
      - destruct (digits2_pos_bounds p) as [Hpl _].
        assert (Zpos (digits2_pos p) - 1 < 53) by (apply (Z.pow_lt_mono_r_iff 2); lia). lia.
      - assert (Zpos (digits2_pos p) = 53) as -> by (apply digits2_pos_unique; lia). lia. }
    rewrite Hc, Z.sub_diag, shr_nonpos by done. simpl shr_m.
    destruct (Z.leb_spec e' (emax - prec)) as [Hle|]; [|done].
    simpl. unfold bounded, canonical_mantissa. rewrite fexp_eq, Hc.
    apply andb_true_iff; split; [apply Z.eqb_eq; lia|by apply Z.leb_le].
Qed.

Lemma shl_align_exp m e ez :
  (shl_align m e ez).2 = Z.min e ez ∧
  Zpos (digits2_pos (shl_align m e ez).1) + (shl_align m e ez).2 = Zpos (digits2_pos m) + e.
Proof.
  unfold shl_align. destruct (ez - e) as [|p|p] eqn:Hd; simpl; [lia|lia|].
  rewrite digits2_pos_iter_xO. lia.
Qed.

Lemma binary_normalize_valid m e s :
  valid_binary (binary_normalize prec emax m e s) = true.
Proof.
  assert (∀ b p, valid_binary (binary_round prec emax b p e) = true) as Hr.
  { intros b p. unfold binary_round.
    destruct (shl_align_exp p e (fexp prec emax (Zpos (digits2_pos p) + e))) as [H1 H2].
    destruct (shl_align _ _ _) as [mz ez]; simpl in *.
    apply binary_round_aux_valid. rewrite H2. lia. }
  destruct m; simpl; [done|apply Hr..].
Qed.

Lemma Prim2SF_of_Z z : Prim2SF (f64_of_Z z) = binary_normalize prec emax z 0 false.
Proof. apply Prim2SF_SF2Prim, binary_normalize_valid. Qed.

#[export] Instance f64_FloatSign : FloatSign f64.
Proof.
  split; simpl.
  - intros x y. rewrite !ltb_spec, mul_spec, f64_of_Z_0. apply SFmul_not_neg.
  - intros x y. rewrite !ltb_spec, div_spec, f64_of_Z_0. apply SFdiv_not_neg.
  - intros n. rewrite ltb_spec, div_spec, f64_of_Z_0, f64_of_Z_1, Prim2SF_of_Z, SFltb_zero_r.
    pose proof (sf_sign_normalize (Z.of_nat n) 0 false) as Hs.
    assert ((if Z.of_nat n =? 0 then false else Z.of_nat n <? 0) = false) as Hn.
    { destruct (Z.eqb_spec (Z.of_nat n) 0); [done|]. apply Z.ltb_ge. lia. }
    rewrite Hn in Hs. destruct (binary_normalize _ _ _ _ _) as [s|s| |s m e]; simpl in *; subst; try done.
    pose proof (SFdiv_not_neg (S754_finite false 4503599627370496 (-52)) (S754_finite false m e) eq_refl eq_refl) as Hd.
    by rewrite SFltb_zero_r in Hd.
  - intros x y. rewrite leb_spec, ltb_spec, sub_spec, f64_of_Z_0. intros Hle.
    by apply SFsub_ordered; try apply Prim2SF_valid.
  - intros x y. rewrite leb_spec, ltb_spec, sub_spec, f64_of_Z_0. intros Hle.
    by apply SFsub_ordered; try apply Prim2SF_valid.
  - intros x. apply Prim2SF_inj. rewrite mul_spec, f64_of_Z_1.
    by rewrite SFmul_one by apply Prim2SF_valid.
  - intros x. apply Prim2SF_inj. rewrite mul_spec, opp_spec, f64_of_Z_m1.
    by rewrite SFmul_one by apply Prim2SF_valid.
Qed.
