(* ===== verification/Exact.v ===== *)
(** * Exact: the gateway's arithmetic without rounding

    The rationals as a second implementation of [F64.Float].  A definition
    written against the interface, run here, is the algorithm the code
    implements before rounding; conservation and fairness laws, which rounding
    breaks in the last bits, are stated on it.  There is no infinity and no
    NaN, and [x / 0 = 0], so only code that guards its divisions is studied
    here. *)

From Stdlib Require Import ZArith QArith Qround Qabs Lqa Lia.
From S2P Require Import Prelude F64.

Definition Qltb (x y : Q) : bool := Qle_bool x y && negb (Qle_bool y x).

Definition Q_round (x : Q) : Q :=
  if Qle_bool 0 x then inject_Z (Qfloor (x + (1 # 2)))
  else inject_Z (- Qfloor (- x + (1 # 2))).

#[export] Instance Q_Float : Float Q := {
  of_Z := inject_Z;
  f_add := Qplus;
  f_sub := Qminus;
  f_mul := Qmult;
  f_div := Qdiv;
  f_opp := Qopp;
  f_abs := Qabs;
  f_leb := Qle_bool;
  f_ltb := Qltb;
  f_signum x := if Qle_bool 0 x then 1%Q else (- (1))%Q;
  f_round := Q_round;
  f_ceil x := inject_Z (Qceiling x);
  f_total_leb := Qle_bool;
}.

Lemma Qle_bool_false x y : Qle_bool x y = false ↔ (y < x)%Q.
Proof.
  destruct (Qle_bool x y) eqn:H; split; try done.
  - apply Qle_bool_iff in H. intros ?. lra.
  - intros _. apply Qnot_le_lt. rewrite <- Qle_bool_iff. congruence.
Qed.

Lemma Qltb_true x y : Qltb x y = true ↔ (x < y)%Q.
Proof.
  unfold Qltb. rewrite andb_true_iff, negb_true_iff, Qle_bool_iff, Qle_bool_false.
  split; [by intros [_ ?]|intros; split; lra].
Qed.

Lemma Qltb_false x y : Qltb x y = false ↔ (y <= x)%Q.
Proof.
  destruct (Qltb x y) eqn:H; split; try done.
  - apply Qltb_true in H. intros ?. lra.
  - intros _. apply Qnot_lt_le. rewrite <- Qltb_true. congruence.
Qed.

Lemma Qle_bool_refl x : Qle_bool x x = true.
Proof. apply Qle_bool_iff. lra. Qed.

#[export] Instance Q_FloatOrd : FloatOrd Q.
Proof.
  split; simpl; unfold f_nan; simpl.
  - intros x y z. rewrite !Qle_bool_iff. lra.
  - intros x y _ _. rewrite !Qle_bool_iff. destruct (Qlt_le_dec x y); [left|right]; lra.
  - intros x y _. apply Qle_bool_refl.
  - intros x y _. apply Qle_bool_refl.
  - done.
  - intros x _. apply Qle_bool_iff, Qabs_nonneg.
  - intros x. rewrite !Qle_bool_iff. intros Hx. rewrite (Qabs_pos x Hx). split; lra.
  - intros x. by rewrite !Qle_bool_refl.
  - intros x. by rewrite !Qle_bool_refl.
  - intros x y. apply eq_iff_eq_true. rewrite !Qle_bool_iff. split; lra.
  - done.
Qed.

#[export] Instance Q_FloatSign : FloatSign Q.
Proof.
  split; simpl.
  - intros x y. rewrite !Qltb_false. intros. by apply Qmult_le_0_compat.
  - intros x y. rewrite !Qltb_false, Qltb_true. intros.
    apply Qmult_le_0_compat; [done|]. by apply Qlt_le_weak, Qinv_lt_0_compat.
  - intros n. rewrite Qltb_false. apply Qmult_le_0_compat; [done|].
    apply Qinv_le_0_compat. change 0%Q with (inject_Z 0). rewrite <- Zle_Qle. lia.
  - intros x y. rewrite Qle_bool_iff, Qltb_false. change (inject_Z 0) with 0%Q. lra.
  - intros x y. rewrite Qle_bool_iff, Qltb_false. change (inject_Z 0) with 0%Q. lra.
  - intros [n d]. unfold Qmult, inject_Z; simpl. by destruct n.
  - intros [n d]. unfold Qmult, Qopp, inject_Z; simpl. by destruct n.
Qed.

#[export] Instance Q_FloatTotal : FloatTotal Q.
Proof.
  split; simpl.
  - intros x y. rewrite !Qle_bool_iff. destruct (Qlt_le_dec x y); [left|right]; lra.
  - intros x y z. rewrite !Qle_bool_iff. lra.
  - intros x y. rewrite Qle_bool_iff, Qltb_false. done.
Qed.
