(* ===== verification/Text.v ===== *)
(** * Text: the string operations the gateway uses

    [str::split], [split_once], [strip_prefix], [replace], [join] and decimal
    printing, on [String.string] as bytes.  Topics are ASCII. *)

From Stdlib Require Import ZArith Lia Ascii String.
From S2P Require Import Prelude.
From stdpp Require Import pretty.
Local Open Scope string_scope.

(** [s.split(c)]: always at least one part. *)
Fixpoint str_split (c : ascii) (s : string) : list string :=
  match s with
  | EmptyString => [""]
  | String a s' =>
      if bool_decide (a = c) then "" :: str_split c s'
      else match str_split c s' with
           | p :: ps => String a p :: ps
           | [] => [String a ""]
           end
  end.

(** [parts.join(c)]. *)
Fixpoint str_join (c : ascii) (parts : list string) : string :=
  match parts with
  | [] => ""
  | [p] => p
  | p :: ps => p ++ String c (str_join c ps)
  end.

(** [s.split_once(c)]. *)
Fixpoint split_once (c : ascii) (s : string) : option (string * string) :=
  match s with
  | EmptyString => None
  | String a s' =>
      if bool_decide (a = c) then Some ("", s')
      else '(l, r) ← split_once c s'; Some (String a l, r)
  end.

(** [s.strip_prefix(p)]. *)
Fixpoint strip_prefix (p s : string) : option string :=
  match p with
  | EmptyString => Some s
  | String a p' =>
      match s with
      | EmptyString => None
      | String b s' => if bool_decide (a = b) then strip_prefix p' s' else None
      end
  end.

(** [s.replace(pat, by)]: left to right, without overlaps.  [skip] counts the
    characters of a match still to drop. *)
Fixpoint replace_from (pat by_ s : string) (skip : nat) : string :=
  match s with
  | EmptyString => ""
  | String a s' =>
      match skip with
      | S k => replace_from pat by_ s' k
      | O => match strip_prefix pat s with
             | Some _ => by_ ++ replace_from pat by_ s' (String.length pat - 1)
             | None => String a (replace_from pat by_ s' 0)
             end
      end
  end.

(** For a non-empty [pat]. *)
Definition str_replace (pat by_ s : string) : string := replace_from pat by_ s 0.

Fixpoint str_mem (c : ascii) (s : string) : bool :=
  match s with
  | EmptyString => false
  | String a s' => bool_decide (a = c) || str_mem c s'
  end.

Definition str_is_empty (s : string) : bool := bool_decide (s = "").

(** [s.parse::<uN>()] for the type whose largest value is [max]: one to many
    decimal digits, a leading [+] accepted. *)
Fixpoint parse_digits (max : Z) (s : string) (acc : Z) : option Z :=
  match s with
  | EmptyString => Some acc
  | String a s =>
      let d := (Z.of_nat (Ascii.nat_of_ascii a) - 48)%Z in
      if ((0 <=? d) && (d <=? 9) && (acc * 10 + d <=? max))%Z
      then parse_digits max s (acc * 10 + d)%Z else None
  end.

Definition parse_uint (max : Z) (s : string) : option Z :=
  match s with
  | EmptyString => None
  | String "+"%char EmptyString => None
  | String "+"%char s => parse_digits max s 0
  | s => parse_digits max s 0
  end.

(** ** Facts *)

Lemma str_split_cons c s : ∃ p ps, str_split c s = p :: ps.
Proof.
  destruct s as [|a s]; simpl; [by eauto|]. destruct (bool_decide _); [by eauto|].
  destruct (str_split c s); by eauto.
Qed.

Lemma str_join_cons c p ps :
  ps ≠ [] → str_join c (p :: ps) = p ++ String c (str_join c ps).
Proof. by destruct ps. Qed.

Lemma str_join_split c s : str_join c (str_split c s) = s.
Proof.
  induction s as [|a s IH]; [done|]. cbn [str_split].
  destruct (str_split_cons c s) as (p & ps & Hs). rewrite Hs in *.
  case_bool_decide as Ha.
  - subst a. rewrite str_join_cons by done. by rewrite IH.
  - destruct ps as [|q ps]; [simpl in *; by rewrite IH|].
    rewrite str_join_cons by done. rewrite str_join_cons in IH by done.
    rewrite <- IH. done.
Qed.

Lemma str_split_none c s : str_mem c s = false → str_split c s = [s].
Proof.
  induction s as [|a s IH]; simpl; [done|]. intros [Ha Hs]%orb_false_iff.
  rewrite Ha, IH; done.
Qed.

Lemma str_split_app c p s :
  str_mem c p = false → str_split c (p ++ String c s) = p :: str_split c s.
Proof.
  induction p as [|a p IH]; simpl; [by rewrite bool_decide_true|].
  intros [Ha Hp]%orb_false_iff. by rewrite Ha, IH.
Qed.

Lemma str_split_join c parts :
  parts ≠ [] → Forall (λ p, str_mem c p = false) parts → str_split c (str_join c parts) = parts.
Proof.
  induction parts as [|p [|q parts] IH]; intros Hne Hall; [done| |];
    inversion Hall as [|?? Hp Hps]; subst; [by apply str_split_none|].
  rewrite str_join_cons by done. by rewrite str_split_app, IH.
Qed.

(** The parts never contain the separator. *)
Lemma str_split_mem c s : Forall (λ p, str_mem c p = false) (str_split c s).
Proof.
  induction s as [|a s IH]; simpl; [by repeat constructor|].
  case_bool_decide as Ha; [by constructor|]. destruct (str_split c s) as [|p ps].
  - repeat constructor. simpl. by rewrite bool_decide_false.
  - inversion IH as [|?? Hp Hps]; subst. constructor; [|done].
    simpl. by rewrite bool_decide_false.
Qed.

(** A template without the pattern's first character is unchanged. *)
Lemma str_replace_none a pat by_ s :
  str_mem a s = false → str_replace (String a pat) by_ s = s.
Proof.
  unfold str_replace. induction s as [|b s IH]; [done|].
  cbn [str_mem]. intros [Hb Hs]%orb_false_iff. cbn [replace_from strip_prefix].
  apply bool_decide_eq_false in Hb. rewrite bool_decide_false by congruence. by rewrite IH.
Qed.

(** Text without the pattern's first character is copied. *)
Lemma str_replace_app a pat by_ p s :
  str_mem a p = false →
  str_replace (String a pat) by_ (p ++ s) = p ++ str_replace (String a pat) by_ s.
Proof.
  unfold str_replace. induction p as [|b p IH]; [done|].
  change (String b p ++ ?x) with (String b (p ++ x)). cbn [str_mem].
  intros [Hb Hp]%orb_false_iff. cbn [replace_from strip_prefix].
  apply bool_decide_eq_false in Hb. rewrite bool_decide_false by congruence. by rewrite IH.
Qed.

(** ** Decimal integers *)

Lemma pretty_digit n : (n < 10)%N →
  (Z.of_nat (Ascii.nat_of_ascii (pretty_N_char n)) - 48 = Z.of_N n)%Z.
Proof.
  intros Hn. assert (n = 0 ∨ n = 1 ∨ n = 2 ∨ n = 3 ∨ n = 4 ∨ n = 5 ∨ n = 6 ∨ n = 7 ∨ n = 8 ∨ n = 9)%N
    as H by lia. repeat destruct H as [->|H]; [..|rewrite H]; by vm_compute.
Qed.

Lemma parse_pretty_go max x s :
  (Z.of_N x ≤ max)%Z → parse_digits max (pretty_N_go x s) 0 = parse_digits max s (Z.of_N x).
Proof.
  revert s. induction (N.lt_wf_0 x) as [x _ IH]; intros s Hx.
  destruct (decide (x = 0)%N) as [->|Hne]; [by rewrite pretty_N_go_0|].
  rewrite pretty_N_go_step by lia. rewrite IH.
  - cbn [parse_digits]. rewrite pretty_digit by (apply N.mod_lt; lia).
    replace (Z.of_N (x / 10) * 10 + Z.of_N (x `mod` 10))%Z with (Z.of_N x)
      by (rewrite N2Z.inj_div, N2Z.inj_mod; pose proof (Z.div_mod (Z.of_N x) (Z.of_N 10)); lia).
    assert (x `mod` 10 < 10)%N by (apply N.mod_lt; lia).
    pose proof (N2Z.is_nonneg (x `mod` 10)). rewrite !(proj2 (Z.leb_le _ _)) by lia. done.
  - apply N.div_lt; lia.
  - assert (x / 10 < x)%N by (apply N.div_lt; lia). lia.
Qed.

(** An integer that fits prints and parses back. *)
Lemma parse_uint_pretty max z : (0 ≤ z ≤ max)%Z → parse_uint max (pretty z) = Some z.
Proof.
  intros Hz. destruct z as [|p|p]; [..|lia].
  - change ((if true && true && (0 <=? max)%Z then Some 0%Z else None) = Some 0%Z).
    by rewrite (proj2 (Z.leb_le 0 max)) by lia.
  - assert (parse_digits max (pretty (Z.pos p)) 0 = Some (Z.pos p)) as Hd.
    { change (pretty (Z.pos p)) with (pretty_N_go (N.pos p) ""). by rewrite parse_pretty_go by lia. }
    unfold parse_uint. destruct (pretty (Z.pos p)) as [|a s] eqn:Hp; [done|].
    destruct (decide (a = "+"%char)) as [->|Ha]; [done|].
    destruct a as [[] [] [] [] [] [] [] []]; done.
Qed.

Lemma pretty_go_mem c x s : (∀ n, pretty_N_char n ≠ c) →
  str_mem c (pretty_N_go x s) = str_mem c s.
Proof.
  intros Hc. revert s. induction (N.lt_wf_0 x) as [x _ IH]; intros s.
  destruct (decide (x = 0)%N) as [->|Hne]; [by rewrite pretty_N_go_0|].
  rewrite pretty_N_go_step, IH by (try apply N.div_lt; lia).
  cbn [str_mem]. by rewrite bool_decide_false by apply Hc.
Qed.

(** A printed natural number holds no [.], [:] or [/]. *)
Lemma pretty_no_char c z : (0 ≤ z)%Z → (∀ n, pretty_N_char n ≠ c) → str_mem c (pretty z) = false.
Proof.
  intros Hz Hc. destruct z as [|p|p]; [|change (pretty (Z.pos p)) with (pretty_N_go (N.pos p) "");
    by rewrite pretty_go_mem|lia].
  cbn. by rewrite bool_decide_false by apply (Hc 0%N).
Qed.

Lemma pretty_char_not_dot n : pretty_N_char n ≠ "."%char.
Proof. unfold pretty_N_char. by repeat case_match. Qed.
