(* ===== verification/Allocation.v ===== *)
(** * Allocation: [src/dispatch/allocation.rs]

    Max-min fair split of a setpoint across children.  The definitions are
    written against [F64.Float]: on [f64] they compute what the gateway
    computes; on [Q] (module [Exact]) they are the algorithm without rounding,
    where conservation and fairness are exact. *)

From Stdlib Require Import ZArith Lia.
From S2P Require Import Prelude F64.

(** ** Data *)

Inductive OperatingState := Standby | Charging | Discharging | Fault | Offline.

#[export] Instance OperatingState_eq_dec : EqDecision OperatingState.
Proof. solve_decision. Defined.

Definition is_eligible (s : OperatingState) : bool :=
  match s with Fault | Offline => false | _ => true end.

Record ChildCapacity (F : Type) := mkChild {
  device_id : string;
  operating_state : OperatingState;
  headroom : F;
  state_of_charge : F;
}.
Arguments mkChild {F}.
Arguments device_id {F}.
Arguments operating_state {F}.
Arguments headroom {F}.
Arguments state_of_charge {F}.

Inductive AllocationPolicy := EqualSplit | SocWeighted.

#[export] Instance AllocationPolicy_eq_dec : EqDecision AllocationPolicy.
Proof. solve_decision. Defined.

Definition policy_parse (name : string) : result string AllocationPolicy :=
  if bool_decide (name = "equal_split") then Ok EqualSplit
  else if bool_decide (name = "soc_weighted") then Ok SocWeighted
  else Err ("unknown allocation policy: " ++ name)%string.

Section Allocate.
Context {F : Type} `{Float F}.
Local Open Scope flt_scope.

(** [policy_weights]: equal, or by state of charge; equal again when the
    weights sum to about nothing. *)
Definition policy_weights (policy : AllocationPolicy)
    (eligible : list (ChildCapacity F)) (sign : F) : list F :=
  let ones := List.map (λ _, of_Z 1) eligible in
  match policy with
  | EqualSplit => ones
  | SocWeighted =>
      let raw := List.map (λ c, if sign >? of_Z 0 then state_of_charge c
                                else of_Z 100 - state_of_charge c) eligible in
      if f_sum raw <=? f_epsilon then ones else raw
  end.

(** One round's proposal for every open child: [weights[i] / weight_sum] of
    the demand, or an equal part when the open weights sum to nothing. *)
Definition propose (weights : list F) (open : list nat) (demand : F) : list (nat * F) :=
  let weight_sum := f_sum (List.map (λ i, nth i weights (of_Z 0)) open) in
  List.map (λ i,
    let w := if weight_sum >? of_Z 0 then nth i weights (of_Z 0) / weight_sum
             else of_Z 1 / of_Z (Z.of_nat (length open)) in
    (i, demand * w)) open.

(** [eligible[i].headroom.max(0.0)]. *)
Definition cap_of (headrooms : list F) (i : nat) : F :=
  f_max (nth i headrooms (of_Z 0)) (of_Z 0).

(** The [for (i, share) in &proposed] loop: the shares, the children still
    open, what the capped ones consumed, and whether any was capped. *)
Definition settle_step (headrooms : list F)
    (acc : list F * list nat * F * bool) (p : nat * F) : list F * list nat * F * bool :=
  let '(shares, still_open, consumed, any_capped) := acc in
  let '(i, share) := p in
  let cap := cap_of headrooms i in
  if share >=? cap
  then (<[i := cap]> shares, still_open, consumed + cap, true)
  else (shares, still_open ++ [i], consumed, any_capped).

Definition settle (headrooms : list F) (shares : list F) (proposed : list (nat * F)) :=
  foldl (settle_step headrooms) (shares, [], of_Z 0, false) proposed.

(** No child capped: everyone gets its proposal. *)
Definition accept (shares : list F) (proposed : list (nat * F)) : list F :=
  foldl (λ sh '(i, share), <[i := share]> sh) shares proposed.

(** The [while demand > EPSILON && !open.is_empty()] loop.  [None] only when
    the fuel runs out. *)
Fixpoint fill (fuel : nat) (headrooms weights shares : list F)
    (open : list nat) (demand : F) : option (list F) :=
  match fuel with
  | O => None
  | S fuel =>
      if (demand >? f_epsilon) && negb (bool_decide (open = [])) then
        let proposed := propose weights open demand in
        let '(shares', still_open, consumed, any_capped) :=
          settle headrooms shares proposed in
        if any_capped
        then fill fuel headrooms weights shares' still_open (demand - consumed)
        else fill fuel headrooms weights (accept shares' proposed) open (of_Z 0)
      else Some shares
  end.

Definition eligible_children (children : list (ChildCapacity F)) :=
  List.filter (λ c, is_eligible (operating_state c)) children.

Definition total_sign (total : F) : F :=
  if total <? of_Z 0 then of_Z (-1) else of_Z 1.

(** The unsigned shares, aligned with the eligible children.  Two more rounds
    than there are children are always enough ([fill_total]). *)
Definition unsigned_shares (total : F) (eligible : list (ChildCapacity F))
    (policy : AllocationPolicy) : option (list F) :=
  fill (2 + length eligible) (List.map headroom eligible)
    (policy_weights policy eligible (total_sign total))
    (List.map (λ _, of_Z 0) eligible) (seq 0 (length eligible)) (f_abs total).

(** [allocate]. *)
Definition allocate (total : F) (children : list (ChildCapacity F))
    (policy : AllocationPolicy) : list (string * F) :=
  let eligible := eligible_children children in
  match eligible with
  | [] => []
  | _ =>
      match unsigned_shares total eligible policy with
      | Some shares =>
          zip_with (λ c s, (device_id c, total_sign total * s)) eligible shares
      | None => []
      end
  end.
End Allocate.

(** ** The loop body, read as sets *)

Section Settle.
Context {F : Type} `{Float F}.
Local Open Scope flt_scope.
Implicit Types (hs ws sh : list F) (open : list nat) (d : F).

Definition capped hs (p : nat * F) : bool := p.2 >=? cap_of hs p.1.
Definition cap_all hs sh (l : list nat) : list F :=
  foldl (λ sh i, <[i := cap_of hs i]> sh) sh l.
Definition sum_from (a : F) (l : list F) : F := foldl f_add a l.

Lemma settle_foldl hs l sh so c b :
  foldl (settle_step hs) (sh, so, c, b) l =
  (cap_all hs sh (List.filter (capped hs) l).*1,
   so ++ (List.filter (λ p, negb (capped hs p)) l).*1,
   sum_from c (List.map (cap_of hs) (List.filter (capped hs) l).*1),
   b || existsb (capped hs) l).
Proof.
  revert sh so c b; induction l as [|[i s] l IH]; intros sh so c b; simpl.
  - by rewrite app_nil_r, orb_false_r.
  - destruct (capped hs (i, s)) eqn:Hc; pose proof Hc as Hc';
      unfold capped in Hc'; simpl in Hc'; rewrite Hc', IH; simpl.
    + by rewrite orb_true_r.
    + by rewrite <- app_assoc.
Qed.

Lemma settle_eq hs sh l :
  settle hs sh l =
  (cap_all hs sh (List.filter (capped hs) l).*1,
   (List.filter (λ p, negb (capped hs p)) l).*1,
   sum_from (of_Z 0) (List.map (cap_of hs) (List.filter (capped hs) l).*1),
   existsb (capped hs) l).
Proof. unfold settle. by rewrite settle_foldl. Qed.

Lemma propose_fst ws open d : (propose ws open d).*1 = open.
Proof.
  unfold propose. generalize (f_sum (List.map (λ i, nth i ws (of_Z 0)) open)).
  generalize (of_Z (Z.of_nat (length open)) : F). intros a b.
  induction open as [|i l IH]; simpl; [done|]. by f_equal.
Qed.

Lemma length_cap_all hs sh l : length (cap_all hs sh l) = length sh.
Proof.
  unfold cap_all. revert sh; induction l as [|i l IH]; intros sh; simpl; [done|].
  by rewrite IH, length_insert.
Qed.

Lemma length_accept sh l : length (accept sh l) = length sh.
Proof.
  unfold accept. revert sh; induction l as [|[i s] l IH]; intros sh; simpl; [done|].
  by rewrite IH, length_insert.
Qed.

(** Whatever the numbers are, NaN included, a round either closes a child or
    is the last one. *)
Lemma settle_progress hs sh l :
  existsb (capped hs) l = true →
  length (List.filter (λ p, negb (capped hs p)) l) < length l.
Proof.
  intros (p & Hp & Hc)%existsb_exists.
  apply length_filterb_lt with p; [by apply list_elem_of_In|by rewrite Hc].
Qed.

End Settle.

(** ** Termination *)

Section Termination.
Context {F : Type} `{FloatOrd F}.
Local Open Scope flt_scope.

(** A demand of exactly 0 leaves the loop. *)
Hypothesis eps_pos : f_ltb f_epsilon (of_Z 0 : F) = false.

Lemma fill_zero fuel (hs ws sh : list F) open :
  fill (S fuel) hs ws sh open (of_Z 0) = Some sh.
Proof. simpl. by rewrite eps_pos. Qed.

Lemma fill_enough fuel (hs ws sh : list F) open d :
  (2 + length open ≤ fuel)%nat →
  ∃ shares, fill fuel hs ws sh open d = Some shares ∧ length shares = length sh.
Proof.
  revert sh open d; induction fuel as [|fuel IH]; intros sh open d Hfuel; [lia|].
  simpl. destruct ((f_epsilon <? d) && negb (bool_decide (open = []))) eqn:Hgo;
    [|by exists sh].
  rewrite settle_eq. destruct (existsb _ _) eqn:Hany.
  - destruct (IH (cap_all hs sh (List.filter (capped hs) (propose ws open d)).*1)
                 (List.filter (λ p, negb (capped hs p)) (propose ws open d)).*1
                 (d - sum_from (of_Z 0) (List.map (cap_of hs)
                   (List.filter (capped hs) (propose ws open d)).*1)))
      as (shares & Hfill & Hlen).
    + apply (settle_progress hs sh) in Hany.
      rewrite length_fmap. assert (length (propose ws open d) = length open) as Hl.
      { rewrite <- (propose_fst ws open d) at 2. by rewrite length_fmap. }
      lia.
    + exists shares. split; [done|]. by rewrite Hlen, length_cap_all.
  - destruct fuel as [|fuel]; [lia|]. rewrite fill_zero.
    eexists; split; [done|]. by rewrite length_accept, length_cap_all.
Qed.
End Termination.

(** ** Invariants of the shares *)

Section Invariant.
Context {F : Type} `{Float F}.
Local Open Scope flt_scope.

(** Share [i] of [sh] satisfies [P i]. *)
Definition shares_ok (P : nat → F → Prop) (sh : list F) : Prop :=
  ∀ i s, sh !! i = Some s → P i s.

Lemma shares_ok_insert P sh i s :
  shares_ok P sh → P i s → shares_ok P (<[i := s]> sh).
Proof.
  intros Hsh Hs j t [(-> & <- & _)|[_ Ht]]%list_lookup_insert_Some; eauto.
Qed.

Lemma shares_ok_cap_all P hs sh l :
  (∀ i, P i (cap_of hs i)) → shares_ok P sh → shares_ok P (cap_all hs sh l).
Proof.
  intros Hcap. unfold cap_all. revert sh.
  induction l as [|i l IH]; intros sh Hsh; simpl; [done|].
  by apply IH, shares_ok_insert.
Qed.

Lemma shares_ok_accept (P : nat → F → Prop) sh l :
  (∀ i s, (i, s) ∈ l → P i s) → shares_ok P sh → shares_ok P (accept sh l).
Proof.
  unfold accept. revert sh.
  induction l as [|[i s] l IH]; intros sh Hl Hsh; simpl; [done|].
  apply IH; [|apply shares_ok_insert; [done|apply Hl; by left]].
  intros j t Hj. apply Hl. by right.
Qed.

(** A property of shares that caps have, and that a proposal no round caps
    has, holds of the result.  [Q] is what the demand keeps true. *)
Lemma fill_invariant (P : nat → F → Prop) (hs ws : list F) fuel sh open d r :
  (∀ i, P i (cap_of hs i)) →
  (∀ open d i s, f_ltb f_epsilon d = true →
    (i, s) ∈ propose ws open d → capped hs (i, s) = false → P i s) →
  shares_ok P sh → fill fuel hs ws sh open d = Some r → shares_ok P r.
Proof.
  intros Hcap Hprop. revert sh open d.
  induction fuel as [|fuel IH]; intros sh open d Hsh; simpl; [done|].
  destruct ((f_epsilon <? d) && negb (bool_decide (open = []))) eqn:Hgo;
    [|by intros [= <-]].
  apply andb_true_iff in Hgo as [Hd _].
  rewrite settle_eq. destruct (existsb _ _) eqn:Hany; intros Hr.
  - eapply IH; [|exact Hr]. by apply shares_ok_cap_all.
  - eapply IH; [|exact Hr]. apply shares_ok_accept; [|by apply shares_ok_cap_all].
    intros i s Hin. eapply Hprop; [done|done|].
    destruct (capped hs (i, s)) eqn:Hc; [|done].
    assert (existsb (capped hs) (propose ws open d) = true); [|congruence].
    apply existsb_exists. exists (i, s). split; [by apply list_elem_of_In|done].
Qed.
End Invariant.

(** ** What the code promises of every split, on the machine's numbers *)

Section Promises.
Context {F : Type} `{FloatOrd F} `{!FloatSign F}.
Hypothesis eps_pos : f_ltb f_epsilon (of_Z 0 : F) = false.
Local Open Scope flt_scope.
Implicit Types (children : list (ChildCapacity F)).

Lemma unsigned_shares_total total (eligible : list (ChildCapacity F)) policy :
  ∃ sh, unsigned_shares total eligible policy = Some sh ∧ length sh = length eligible.
Proof.
  unfold unsigned_shares.
  destruct (fill_enough eps_pos (2 + length eligible) (List.map headroom eligible)
    (policy_weights policy eligible (total_sign total))
    (List.map (λ _, of_Z 0) eligible) (seq 0 (length eligible)) (f_abs total))
    as (sh & Hsh & Hlen); [by rewrite length_seq|].
  exists sh. split; [done|]. by rewrite Hlen, List.length_map.
Qed.

Lemma allocate_unfold total children policy :
  ∃ sh, unsigned_shares total (eligible_children children) policy = Some sh ∧
    length sh = length (eligible_children children) ∧
    allocate total children policy =
      zip_with (λ c s, (device_id c, total_sign total * s)) (eligible_children children) sh.
Proof.
  destruct (unsigned_shares_total total (eligible_children children) policy)
    as (sh & Hsh & Hlen).
  exists sh. split_and!; [done|done|]. unfold allocate. rewrite Hsh.
  by destruct (eligible_children children).
Qed.

Lemma allocate_ids_gen total children policy :
  (allocate total children policy).*1 = device_id <$> eligible_children children.
Proof.
  destruct (allocate_unfold total children policy) as (sh & _ & Hlen & ->).
  revert sh Hlen. induction (eligible_children children) as [|c l IH];
    intros [|s sh]; simpl; intros Hlen; try done. f_equal. apply IH. lia.
Qed.

Lemma allocate_lookup total children policy i id share :
  allocate total children policy !! i = Some (id, share) →
  ∃ c sh s, eligible_children children !! i = Some c ∧ device_id c = id ∧
    unsigned_shares total (eligible_children children) policy = Some sh ∧
    sh !! i = Some s ∧ share = total_sign total * s.
Proof.
  destruct (allocate_unfold total children policy) as (sh & Hsh & Hlen & ->).
  intros (c & s & Hcs & Hc & Hs)%lookup_zip_with_Some.
  simplify_eq. exists c, sh, s. done.
Qed.

Lemma cap_of_nonneg (hs : list F) i : f_leb (of_Z 0) (cap_of hs i) = true.
Proof. apply max_ge_r, ford_zero_nan. Qed.

Lemma zero_shares_lookup (eligible : list (ChildCapacity F)) i s :
  List.map (λ _, of_Z 0) eligible !! i = Some s → s = of_Z 0.
Proof.
  change (List.map ?f eligible) with (f <$> eligible).
  rewrite list_lookup_fmap. intros (c & _ & <-)%fmap_Some. done.
Qed.

(** No share exceeds its cap, whatever the readings are. *)
Lemma unsigned_shares_capped total (eligible : list (ChildCapacity F)) policy sh i s :
  unsigned_shares total eligible policy = Some sh → sh !! i = Some s →
  f_ltb (cap_of (List.map headroom eligible) i) s = false.
Proof.
  intros Hsh. revert i s.
  refine (fill_invariant (λ i s, f_ltb (cap_of (List.map headroom eligible) i) s = false)
    _ _ _ _ _ _ _ _ _ _ Hsh).
  - intros i. apply ltb_irrefl.
  - intros open d i s _ _. unfold capped; simpl. intros Hc.
    rewrite ford_lt, Hc. done.
  - intros i s ->%zero_shares_lookup. apply leb_not_ltb, cap_of_nonneg.
Qed.

Lemma propose_not_neg (ws : list F) open d i s :
  (∀ w, w ∈ ws → f_ltb w (of_Z 0) = false) → f_ltb d (of_Z 0) = false →
  (i, s) ∈ propose ws open d → f_ltb s (of_Z 0) = false.
Proof.
  intros Hws Hd. unfold propose. rewrite list_elem_of_In.
  intros (j & [= <- <-] & Hj)%in_map_iff. apply fs_mul; [done|].
  destruct (of_Z 0 <? _) eqn:Hpos; [|apply fs_inv_nat].
  apply fs_div; [|done].
  destruct (nth_in_or_default j ws (of_Z 0)) as [Hin|Hdef].
  - apply Hws. by apply list_elem_of_In.
  - rewrite Hdef. apply ltb_irrefl.
Qed.

(** With non-negative weights no share is negative. *)
Lemma unsigned_shares_not_neg total (eligible : list (ChildCapacity F)) policy sh i s :
  (∀ w, w ∈ policy_weights policy eligible (total_sign total) → f_ltb w (of_Z 0) = false) →
  unsigned_shares total eligible policy = Some sh → sh !! i = Some s →
  f_ltb s (of_Z 0) = false.
Proof.
  intros Hws Hsh. revert i s.
  refine (fill_invariant (λ i s, f_ltb s (of_Z 0) = false) _ _ _ _ _ _ _ _ _ _ Hsh).
  - intros j. apply leb_not_ltb, cap_of_nonneg.
  - intros open d i s Hd Hin _. eapply propose_not_neg; [done| |done].
    apply leb_not_ltb. destruct (f_leb (of_Z 0) d) eqn:Hd0; [done|].
    assert (f_ltb f_epsilon (of_Z 0 : F) = true); [|congruence].
    eapply ltb_leb_trans; [exact Hd|]. apply ltb_leb, not_leb_ltb; [apply ford_zero_nan| |done].
    by eapply leb_nan_r, ltb_leb.
  - intros i s ->%zero_shares_lookup. apply ltb_irrefl.
Qed.
End Promises.
