(* ===== verification/AllocationF64.v ===== *)
(** * Allocation on the machine's numbers

    What [src/dispatch/allocation.rs] promises of every split it computes in
    [f64]: it terminates, names every eligible child once in order, never
    exceeds a child's headroom, and gives every child the sign of the total.
    The last two hold for states of charge in 0..100; [allocate_soc_out_of_range]
    shows why the range is needed. *)

From Stdlib Require Import ZArith Lia Floats.
From S2P Require Import Prelude F64 Binary64 Rounding Allocation.

Section Weights.
Context {F : Type} `{FloatOrd F} `{!FloatSign F}.
Local Open Scope flt_scope.

(** A state of charge the weights can use. *)
Definition soc_in_range (c : ChildCapacity F) : bool :=
  (of_Z 0 <=? state_of_charge c) && (state_of_charge c <=? of_Z 100).

Lemma ones_not_neg (one_pos : f_ltb (of_Z 1 : F) (of_Z 0) = false)
    (eligible : list (ChildCapacity F)) w :
  w ∈ List.map (λ _, of_Z 1 : F) eligible → f_ltb w (of_Z 0) = false.
Proof. by rewrite list_elem_of_In; intros (c & <- & _)%in_map_iff. Qed.

Lemma policy_weights_not_neg (one_pos : f_ltb (of_Z 1 : F) (of_Z 0) = false)
    policy (eligible : list (ChildCapacity F)) sign w :
  (∀ c, c ∈ eligible → soc_in_range c = true) →
  w ∈ policy_weights policy eligible sign → f_ltb w (of_Z 0) = false.
Proof.
  intros Hsoc. unfold policy_weights. destruct policy; [by apply ones_not_neg|].
  destruct (f_sum _ <=? f_epsilon); [by apply ones_not_neg|].
  rewrite list_elem_of_In. intros (c & <- & Hc%list_elem_of_In)%in_map_iff.
  apply Hsoc in Hc. unfold soc_in_range in Hc. bool_simpl.
  destruct (of_Z 0 <? sign); [by apply leb_not_ltb|by apply fs_sub_nonneg].
Qed.
End Weights.

Lemma f64_abs_opp (x : f64) : f_abs (f_opp x) = f_abs x.
Proof. simpl. apply Prim2SF_inj. rewrite !abs_spec, opp_spec. by destruct (Prim2SF x). Qed.

Lemma f64_abs_not_neg (x : f64) : f_ltb x (of_Z 0) = false → f_ltb x (f_abs x) = false.
Proof.
  simpl. rewrite !ltb_spec, abs_spec.
  replace (Prim2SF (f64_of_Z 0)) with (S754_zero false) by (by vm_compute).
  destruct (Prim2SF x) as [s|s| |s m e]; try done; try (by destruct s).
  destruct s; [done|]. intros _. unfold SFltb. by rewrite SFcompare_refl.
Qed.

Lemma f64_eps_neg : f_ltb f_epsilon (of_Z 0 : f64) = false.
Proof. by vm_compute. Qed.

Lemma f64_signed_abs (total s : f64) : f_abs (total_sign total * s)%F = f_abs s.
Proof.
  unfold total_sign. destruct (f_ltb total (of_Z 0)).
  - by rewrite fs_mul_m1, f64_abs_opp.
  - by rewrite fs_mul_1.
Qed.

(** The [while] loop of [allocate] always ends, on any
    readings (NaN and infinities included): two rounds more than there are
    eligible children are enough, and every eligible child has a share. *)
Theorem allocate_terminates (total : f64) (eligible : list (ChildCapacity f64)) policy fuel :
  2 + length eligible ≤ fuel →
  ∃ shares,
    fill fuel (List.map headroom eligible)
      (policy_weights policy eligible (total_sign total))
      (List.map (λ _, of_Z 0) eligible) (seq 0 (length eligible)) (f_abs total)
    = Some shares ∧ length shares = length eligible.
Proof.
  intros Hfuel. destruct (fill_enough f64_eps_neg fuel (List.map headroom eligible)
    (policy_weights policy eligible (total_sign total))
    (List.map (λ _, of_Z 0) eligible) (seq 0 (length eligible)) (f_abs total))
    as (sh & Hsh & Hlen); [by rewrite length_seq|].
  exists sh. split; [done|]. by rewrite Hlen, List.length_map.
Qed.

Definition demo_children : list (ChildCapacity f64) :=
  [mkChild "ess1" Standby (of_Z 100) (of_Z 80);
   mkChild "ess2" Offline (of_Z 100) (of_Z 50);
   mkChild "ess3" Discharging (of_Z 30) (of_Z 40)].

Lemma allocate_terminates_witness :
  ∃ shares : list f64,
    fill 5 (List.map headroom demo_children)
      (policy_weights SocWeighted demo_children (total_sign (of_Z 90)))
      (List.map (λ _, of_Z 0) demo_children) (seq 0 3) (f_abs (of_Z 90)) = Some shares ∧
    length shares = 3.
Proof. apply (allocate_terminates (of_Z 90) demo_children SocWeighted 5). simpl. lia. Defined.

(** The split names exactly the eligible children
    (not [Fault], not [Offline]), each once, in the order they were given,
    whatever the readings are. *)
Theorem allocate_names_eligible (total : f64) (children : list (ChildCapacity f64)) policy :
  (allocate total children policy).*1 =
  device_id <$> List.filter (λ c, is_eligible (operating_state c)) children.
Proof. exact (allocate_ids_gen f64_eps_neg total children policy). Qed.

Lemma f64_opp_not_pos (s : f64) :
  f_ltb s (of_Z 0) = false → f_ltb (of_Z 0) (f_opp s) = false.
Proof.
  simpl. rewrite !ltb_spec, opp_spec.
  replace (Prim2SF (f64_of_Z 0)) with (S754_zero false) by (by vm_compute).
  by destruct (Prim2SF s) as [[]|[]| |[] m e].
Qed.

Lemma f64_shares_not_neg total (eligible : list (ChildCapacity f64)) policy sh i s :
  (∀ c, c ∈ eligible → soc_in_range c = true) →
  unsigned_shares total eligible policy = Some sh → sh !! i = Some s →
  f_ltb s (of_Z 0) = false.
Proof.
  intros Hsoc. apply unsigned_shares_not_neg; [exact f64_eps_neg|].
  intros w. apply policy_weights_not_neg; [by vm_compute|done].
Qed.

(** The magnitude of a share that is not negative is under the bound it is under. *)
Lemma f64_abs_capped (cap s : f64) :
  f_ltb s (of_Z 0) = false → f_ltb cap s = false → f_ltb cap (f_abs s) = false.
Proof.
  intros Hpos Hcap. destruct (f_ltb cap (f_abs s)) eqn:Hlt; [|done].
  rewrite (ltb_leb_trans _ (f_abs s)) in Hcap; [done|done|].
  apply not_ltb_leb; [|by eapply leb_nan_r, ltb_leb|by apply f64_abs_not_neg].
  rewrite <- ford_abs_nan. by eapply leb_nan_r, ltb_leb.
Qed.

(** C10: with states of charge in 0..100, no share
    exceeds its child's headroom in magnitude, and every share has the sign of
    the total (a discharge never charges a child, nor the reverse). *)
Theorem allocate_within_headroom (total : f64) (children : list (ChildCapacity f64))
    policy i id share :
  (∀ c, c ∈ eligible_children children → soc_in_range c = true) →
  allocate total children policy !! i = Some (id, share) →
  ∃ c, eligible_children children !! i = Some c ∧ device_id c = id ∧
    f_ltb (f_max (headroom c) (of_Z 0)) (f_abs share) = false ∧
    (if f_ltb total (of_Z 0) then f_ltb (of_Z 0) share else f_ltb share (of_Z 0)) = false.
Proof.
  intros Hsoc (c & sh & s & Hc & Hid & Hsh & Hs & ->)%(allocate_lookup f64_eps_neg).
  pose proof (f64_shares_not_neg _ _ _ _ _ _ Hsoc Hsh Hs) as Hpos.
  exists c. split_and!; [done|done| |].
  - rewrite f64_signed_abs. apply f64_abs_capped; [done|].
    pose proof (unsigned_shares_capped _ _ _ _ _ _ Hsh Hs) as Hcap.
    unfold cap_of in Hcap. change (List.map headroom ?l) with (headroom <$> l) in Hcap.
    by erewrite nth_lookup_Some in Hcap by (by rewrite list_lookup_fmap, Hc).
  - unfold total_sign. destruct (f_ltb total (of_Z 0)).
    + rewrite fs_mul_m1. by apply f64_opp_not_pos.
    + by rewrite fs_mul_1.
Qed.

Lemma allocate_within_headroom_witness :
  allocate (of_Z (-90)) demo_children EqualSplit =
    [("ess1"%string, of_Z (-60)); ("ess3"%string, of_Z (-30))] ∧
  ∃ c, eligible_children demo_children !! 1 = Some c ∧ device_id c = "ess3"%string ∧
    f_ltb (f_max (headroom c) (of_Z 0)) (f_abs (of_Z (-30))) = false ∧
    (if f_ltb (of_Z (-90)) (of_Z 0) then f_ltb (of_Z 0) (of_Z (-30))
     else f_ltb (of_Z (-30)) (of_Z 0)) = false.
Proof.
  split; [by vm_compute|].
  apply (allocate_within_headroom (of_Z (-90)) demo_children EqualSplit 1 "ess3" (of_Z (-30)));
    [|by vm_compute].
  assert (forallb soc_in_range (eligible_children demo_children) = true) as Hall
    by (by vm_compute).
  intros c Hc. rewrite forallb_forall in Hall. by apply Hall, list_elem_of_In.
Defined.

(** A state of charge above 100 (or below 0) makes a weight negative: asked to
    charge at 60, the split discharges one child and charges the other at twice
    the total; with less headroom the capped child alone takes more than the
    total. *)
Example allocate_soc_out_of_range :
  let ess1 h : ChildCapacity f64 := mkChild "ess1" Standby h (of_Z 120) in
  let ess2 h := mkChild "ess2" Standby h (of_Z 60) in
  allocate (of_Z (-60)) [ess1 (of_Z 200); ess2 (of_Z 200)] SocWeighted =
    [("ess1"%string, of_Z 60); ("ess2"%string, of_Z (-120))] ∧
  List.map snd (allocate (of_Z (-60)) [ess1 (of_Z 100); ess2 (of_Z 100)] SocWeighted) =
    [f_opp (of_Z 0); of_Z (-100)].
Proof. split; by vm_compute. Qed.
