(* ===== verification/AllocationExact.v ===== *)
(** * AllocationExact: conservation and max-min fairness of the split

    The laws of [Allocation.allocate] in exact arithmetic ([Exact]): the same
    definition, run on the rationals.  The loop invariant [fair_state] says
    which children are closed at their caps, what is still to hand out, and
    that no closed child sits above the level the open ones are filled to. *)

From Stdlib Require Import ZArith QArith Qabs Lqa Lia Psatz.
From S2P Require Import Prelude F64 Exact Allocation.

Local Open Scope Q_scope.

(** ** Sums *)

Definition lsum (l : list Q) : Q := foldr Qplus 0 l.
Definition isum (f : nat → Q) (l : list nat) : Q := foldr (λ i a, f i + a) 0 l.

Lemma sum_from_lsum a l : sum_from a l == a + lsum l.
Proof.
  unfold sum_from. revert a; induction l as [|x l IH]; intros a; simpl; [ring|].
  rewrite IH. ring.
Qed.

Lemma f_sum_lsum l : f_sum l == lsum l.
Proof. unfold f_sum. change (foldl f_add (of_Z 0) l) with (sum_from (0:Q) l).
  rewrite sum_from_lsum. ring. Qed.

Lemma lsum_map f l : lsum (List.map f l) = isum f l.
Proof. induction l; simpl; congruence. Qed.

Lemma isum_le f g l : (∀ i, i ∈ l → f i <= g i) → isum f l <= isum g l.
Proof.
  induction l as [|i l IH]; simpl; intros Hfg; [lra|].
  assert (f i <= g i) by (apply Hfg; by left).
  assert (isum f l <= isum g l) by (apply IH; intros j Hj; apply Hfg; by right). lra.
Qed.

Lemma isum_eq f g l : (∀ i, i ∈ l → f i == g i) → isum f l == isum g l.
Proof.
  induction l as [|i l IH]; simpl; intros Hfg; [done|].
  rewrite (Hfg i) by by left. rewrite IH; [done|]. intros j Hj. apply Hfg. by right.
Qed.

Lemma isum_nonneg f l : (∀ i, i ∈ l → 0 <= f i) → 0 <= isum f l.
Proof.
  induction l as [|i l IH]; simpl; intros Hf; [lra|].
  assert (0 <= f i) by (apply Hf; by left).
  assert (0 <= isum f l) by (apply IH; intros j Hj; apply Hf; by right). lra.
Qed.

Lemma isum_elem f l i : (∀ j, j ∈ l → 0 <= f j) → i ∈ l → f i <= isum f l.
Proof.
  induction l as [|j l IH]; simpl; intros Hf; [by intros ?%not_elem_of_nil|].
  assert (0 <= f j) by (apply Hf; by left).
  assert (∀ k, k ∈ l → 0 <= f k) as Hf' by (intros k Hk; apply Hf; by right).
  pose proof (isum_nonneg f l Hf').
  intros [->|Hi]%elem_of_cons; [lra|]. specialize (IH Hf' Hi). lra.
Qed.

Lemma isum_scale c f l : isum (λ i, c * f i) l == c * isum f l.
Proof. induction l as [|i l IH]; simpl; [ring|]. rewrite IH. ring. Qed.

Lemma isum_const c l : isum (λ _, c) l == inject_Z (Z.of_nat (length l)) * c.
Proof.
  induction l as [|i l IH]; simpl length; simpl isum; [ring|].
  rewrite IH, Nat2Z.inj_succ. unfold Z.succ. rewrite inject_Z_plus. ring.
Qed.

Lemma isum_filter f (p : nat → bool) l :
  isum f l == isum f (List.filter p l) + isum f (List.filter (λ i, negb (p i)) l).
Proof.
  induction l as [|i l IH]; simpl; [ring|]. destruct (p i); simpl; rewrite IH; ring.
Qed.

Lemma lsum_insert sh i x v :
  sh !! i = Some x → lsum (<[i := v]> sh) == lsum sh - x + v.
Proof.
  revert i; induction sh as [|y sh IH]; intros [|i]; simpl; intros Hi; simplify_eq.
  - ring.
  - rewrite (IH i) by done. ring.
Qed.

(** ** Rounds on the rationals *)

Section Rounds.
Variables (hs ws : list Q).
Hypothesis ws_nonneg : ∀ i, 0 <= nth i ws 0.

Let cap (i : nat) : Q := cap_of hs i.
Let w (i : nat) : Q := nth i ws 0.

Lemma cap_nonneg i : 0 <= cap i.
Proof. apply Qle_bool_iff. exact (cap_of_nonneg (F:=Q) hs i). Qed.

(** What child [i] is offered when [d] is left for the children [open]. *)
Definition offer (open : list nat) (d : Q) (i : nat) : Q :=
  if Qltb 0 (isum w open) then d * (w i / isum w open)
  else d * (1 / inject_Z (Z.of_nat (length open))).

Lemma weight_sum_pos open :
  Qltb (inject_Z 0) (f_sum (List.map (λ i, nth i ws (of_Z 0)) open)) = Qltb 0 (isum w open).
Proof.
  apply eq_iff_eq_true. rewrite !Qltb_true, f_sum_lsum, lsum_map. done.
Qed.

Lemma Forall2_offers (f g : nat → Q) l :
  (∀ i, f i == g i) →
  Forall2 (λ p i, p.1 = i ∧ p.2 == g i) (List.map (λ i, (i, f i)) l) l.
Proof. intros Hfg. induction l; simpl; constructor; simpl; auto. Qed.

Lemma propose_offer open d :
  Forall2 (λ p i, p.1 = i ∧ (p.2 == offer open d i)) (propose ws open d) open.
Proof.
  assert (isum w open == f_sum (List.map (λ i, nth i ws (of_Z 0)) open)) as Hsum
    by (by rewrite f_sum_lsum, lsum_map).
  unfold propose, offer. rewrite <- weight_sum_pos.
  change (f_ltb (of_Z 0) ?x) with (Qltb (inject_Z 0) x).
  apply Forall2_offers. intros i. destruct (Qltb _ _); [|done].
  unfold w at 1. by rewrite Hsum.
Qed.

Definition capb (open : list nat) (d : Q) (i : nat) : bool :=
  Qle_bool (cap i) (offer open d i).

Lemma capped_propose open d :
  let l := propose ws open d in
  (List.filter (capped hs) l).*1 = List.filter (capb open d) open ∧
  (List.filter (λ p, negb (capped hs p)) l).*1 = List.filter (λ i, negb (capb open d i)) open ∧
  existsb (capped hs) l = existsb (capb open d) open.
Proof.
  cbv zeta. pose proof (propose_offer open d) as Hp. revert Hp.
  generalize (propose ws open d). unfold capb. generalize (offer open d). intros o l.
  induction 1 as [|[i s] j l open' [Hi Hs] Hl IH]; [done|]. simpl in Hi, Hs. subst j.
  cbn [List.filter existsb].
  assert (capped hs (i, s) = Qle_bool (cap i) (o i)) as Hc.
  { unfold capped. simpl. apply eq_iff_eq_true. rewrite !Qle_bool_iff. by rewrite Hs. }
  destruct IH as (IH1 & IH2 & IH3). rewrite Hc.
  destruct (Qle_bool (cap i) (o i)); cbn [negb orb]; rewrite ?fmap_cons, IH1, IH2, ?IH3; done.
Qed.

Lemma offer_sum open d : open ≠ [] → 0 <= d → isum (offer open d) open == d.
Proof.
  intros Hne Hd. unfold offer. destruct (Qltb 0 (isum w open)) eqn:Hpos.
  - apply Qltb_true in Hpos.
    rewrite (isum_eq _ (λ i, (d / isum w open) * w i)) by (intros; field; lra).
    rewrite isum_scale. field. lra.
  - rewrite isum_const. set (n := inject_Z (Z.of_nat (length open))).
    assert (~ n == 0); [|by field].
    unfold n. change 0 with (inject_Z 0). rewrite inject_Z_injective.
    destruct open; simpl length; [done|lia].
Qed.

Lemma offer_nonneg open d i : 0 <= d → 0 <= offer open d i.
Proof.
  intros Hd. unfold offer. destruct (Qltb 0 (isum w open)) eqn:Hpos.
  - apply Qltb_true in Hpos. apply Qmult_le_0_compat; [done|].
    apply Qle_shift_div_l; [done|]. rewrite Qmult_0_l. apply ws_nonneg.
  - apply Qmult_le_0_compat; [done|]. apply Qmult_le_0_compat; [done|].
    apply Qinv_le_0_compat. change 0 with (inject_Z 0). rewrite <- Zle_Qle. lia.
Qed.
(** *** The loop invariant *)

Record fair_state (D : Q) (sh : list Q) (open : list nat) (d : Q) : Prop := {
  fst_nodup : NoDup open;
  fst_open : ∀ i, i ∈ open → sh !! i = Some 0;
  fst_closed : ∀ i s, sh !! i = Some s → i ∉ open → s = cap i;
  fst_sum : lsum sh + d == D;
  fst_demand : 0 <= d;
  fst_level : ∀ j s, sh !! j = Some s → j ∉ open → 0 < isum w open →
    s * isum w open <= d * w j;
}.

Lemma cap_all_lookup sh l i :
  cap_all hs sh l !! i =
  if bool_decide (i ∈ l) then (λ _, cap i) <$> sh !! i else sh !! i.
Proof.
  unfold cap_all. revert sh; induction l as [|j l IH]; intros sh; simpl; [done|].
  rewrite IH. destruct (decide (i = j)) as [->|Hne].
  - rewrite bool_decide_true with (P := j ∈ j :: l) by by left.
    destruct (decide (j < length sh)%nat) as [Hl|Hl].
    + rewrite list_lookup_insert_eq by done.
      apply lookup_lt_is_Some_2 in Hl as [x ->]. by case_bool_decide.
    + rewrite list_insert_ge by lia. rewrite (lookup_ge_None_2 sh j) by lia.
      by case_bool_decide.
  - rewrite list_lookup_insert_ne by done.
    assert (bool_decide (i ∈ l) = bool_decide (i ∈ j :: l)) as ->; [|done].
    apply bool_decide_ext. rewrite elem_of_cons. naive_solver.
Qed.

Lemma lsum_cap_all sh l : NoDup l → (∀ i, i ∈ l → sh !! i = Some 0) →
  lsum (cap_all hs sh l) == lsum sh + isum cap l.
Proof.
  unfold cap_all. revert sh; induction l as [|j l IH]; intros sh Hnd Hl; simpl; [ring|].
  apply NoDup_cons in Hnd as [Hj Hnd]. rewrite IH; [|done|].
  - rewrite (lsum_insert _ _ 0) by (apply Hl; by left). unfold cap. ring.
  - intros i Hi. rewrite list_lookup_insert_ne; [|by intros ->]. apply Hl. by right.
Qed.

Definition closing (open : list nat) (d : Q) := List.filter (capb open d) open.
Definition staying (open : list nat) (d : Q) :=
  List.filter (λ i, negb (capb open d i)) open.

Lemma elem_closing open d i :
  i ∈ closing open d ↔ i ∈ open ∧ cap i <= offer open d i.
Proof. unfold closing. rewrite elem_of_filterb. unfold capb. by rewrite Qle_bool_iff. Qed.

Lemma elem_staying open d i :
  i ∈ staying open d ↔ i ∈ open ∧ offer open d i < cap i.
Proof.
  unfold staying. rewrite elem_of_filterb, negb_true_iff. unfold capb.
  by rewrite Qle_bool_false.
Qed.

(** Closing children can only raise the level of the others. *)
Lemma closing_demand open d : open ≠ [] → 0 <= d →
  isum cap (closing open d) <= d.
Proof.
  intros Hne Hd. rewrite <- (offer_sum open d Hne Hd) at 2.
  rewrite (isum_filter _ (capb open d) open). fold (closing open d) (staying open d).
  assert (isum cap (closing open d) <= isum (offer open d) (closing open d)).
  { apply isum_le. by intros i [_ Hi]%elem_closing. }
  assert (0 <= isum (offer open d) (staying open d)); [|lra].
  apply isum_nonneg. intros. by apply offer_nonneg.
Qed.

Lemma closing_level open d : 0 < isum w open → 0 <= d →
  isum cap (closing open d) * isum w open <= d * isum w (closing open d).
Proof.
  intros Hw Hd.
  assert (isum cap (closing open d) <= (d / isum w open) * isum w (closing open d)) as Hle.
  { rewrite <- isum_scale. apply isum_le. intros i [_ Hi]%elem_closing.
    unfold offer in Hi. rewrite (proj2 (Qltb_true _ _) Hw) in Hi.
    eapply Qle_trans; [exact Hi|]. apply Qle_lteq. right. field. lra. }
  apply (Qmult_le_r _ _ (isum w open) Hw) in Hle. eapply Qle_trans; [exact Hle|].
  apply Qle_lteq. right. field. lra.
Qed.

Lemma fair_state_close D sh open d :
  open ≠ [] → fair_state D sh open d →
  fair_state D (cap_all hs sh (closing open d)) (staying open d)
    (d - sum_from 0 (List.map cap (closing open d))).
Proof.
  intros Hne [Hnd Hop Hcl Hsum Hd Hlev].
  assert (sum_from 0 (List.map cap (closing open d)) == isum cap (closing open d)) as Hs
    by (rewrite sum_from_lsum, lsum_map; ring).
  assert (∀ i, i ∈ open → i ∉ staying open d → i ∈ closing open d) as Hsplit.
  { intros i Hi Hn. apply elem_closing. split; [done|].
    destruct (Qlt_le_dec (offer open d i) (cap i)); [|done].
    destruct Hn. by apply elem_staying. }
  split.
  - by apply NoDup_filterb.
  - intros i Hi. rewrite cap_all_lookup, bool_decide_false.
    + apply Hop. by apply elem_staying in Hi as [? _].
    + intros [_ ?]%elem_closing. apply elem_staying in Hi as [_ ?]. lra.
  - intros i s. rewrite cap_all_lookup. case_bool_decide as Hc.
    + intros (x & _ & <-)%fmap_Some _. done.
    + intros Hi Hn. apply Hcl; [done|]. intros Ho. by apply Hc, Hsplit.
  - rewrite Hs, lsum_cap_all; [|by apply NoDup_filterb|].
    + rewrite <- Hsum. ring.
    + intros i [Hi _]%elem_closing. by apply Hop.
  - rewrite Hs. pose proof (closing_demand open d Hne Hd). lra.
  - intros j s. rewrite cap_all_lookup, Hs. intros Hj Hn Hpos.
    assert (isum w open == isum w (closing open d) + isum w (staying open d)) as HW
      by apply isum_filter.
    assert (0 <= isum w (closing open d)) by (apply isum_nonneg; intros; apply ws_nonneg).
    assert (0 < isum w open) as HW0 by lra.
    pose proof (closing_level open d HW0 Hd) as Hc.
    assert (s * isum w open <= d * w j) as Hsj.
    { case_bool_decide as Hcj.
      - apply fmap_Some in Hj as (x & _ & ->). apply elem_closing in Hcj as [_ Hcj].
        unfold offer in Hcj. rewrite (proj2 (Qltb_true _ _) HW0) in Hcj.
        apply (Qmult_le_r _ _ (isum w open) HW0) in Hcj. eapply Qle_trans; [exact Hcj|].
        apply Qle_lteq. right. field. lra.
      - apply Hlev; [done| |done]. intros Ho. by apply Hcj, Hsplit. }
    assert (0 <= w j) by apply ws_nonneg.
    set (W := isum w open) in *. set (C := isum cap (closing open d)) in *.
    set (Wc := isum w (closing open d)) in *. set (W' := isum w (staying open d)) in *.
    apply (Qmult_le_r _ _ W HW0).
    assert (s * W * W' <= d * w j * W') by (apply Qmult_le_compat_r; lra).
    assert (C * W * w j <= d * Wc * w j) by (by apply Qmult_le_compat_r).
    assert ((d - C) * w j * W == d * w j * W - C * W * w j) as E1 by ring.
    assert (s * W' * W == s * W * W') as E2 by ring.
    assert (d * w j * W == d * Wc * w j + d * w j * W') as E3 by (rewrite HW; ring).
    rewrite E1, E2. lra.
Qed.

(** *** The last round, and the result *)

Lemma accept_lookup_notin (sh : list Q) (l : list (nat * Q)) i :
  i ∉ l.*1 → accept sh l !! i = sh !! i.
Proof.
  unfold accept. revert sh; induction l as [|[j s] l IH]; intros sh; simpl; [done|].
  intros [Hne Hn]%not_elem_of_cons. rewrite IH by done.
  by rewrite list_lookup_insert_ne.
Qed.

Lemma accept_lookup_in (sh : list Q) (l : list (nat * Q)) i s :
  NoDup l.*1 → (i, s) ∈ l → (i < length sh)%nat → accept sh l !! i = Some s.
Proof.
  unfold accept. revert sh; induction l as [|[j t] l IH]; intros sh; simpl;
    [by intros _ ?%not_elem_of_nil|].
  intros [Hj Hnd]%NoDup_cons [[= -> ->]|Hin]%elem_of_cons Hlt.
  - fold (accept (<[j := t]> sh) l). rewrite accept_lookup_notin by done.
    by apply list_lookup_insert_eq.
  - apply IH; [done|done|by rewrite length_insert].
Qed.

Lemma lsum_accept (sh : list Q) (l : list (nat * Q)) :
  NoDup l.*1 → (∀ i, i ∈ l.*1 → sh !! i = Some 0) →
  lsum (accept sh l) == lsum sh + lsum l.*2.
Proof.
  unfold accept. revert sh; induction l as [|[j t] l IH]; intros sh; simpl; [intros; ring|].
  intros [Hj Hnd]%NoDup_cons Hl. rewrite IH; [|done|].
  - rewrite (lsum_insert _ _ 0) by (apply Hl; by left).
    change (list_fmap _ _ snd l) with (l.*2). ring.
  - intros i Hi. rewrite list_lookup_insert_ne; [|by intros ->]. apply Hl. by right.
Qed.

Record fair_result (D : Q) (r : list Q) : Prop := {
  frs_le : lsum r <= D;
  frs_served : D - f_epsilon <= lsum r ∨ ∀ i s, r !! i = Some s → s = cap i;
  frs_fair : ∀ i j si sj, r !! i = Some si → r !! j = Some sj → si < cap i →
    sj * w i <= (si + f_epsilon) * w j;
}.

Lemma eps_Q_pos : 0 < f_epsilon.
Proof. done. Qed.

Lemma weight_share open i : i ∈ open → 0 <= w i <= isum w open.
Proof.
  intros Hi. split; [apply ws_nonneg|]. apply isum_elem; [|done].
  intros; apply ws_nonneg.
Qed.

(** Leaving the loop with at most [EPSILON] of the demand unserved. *)
Lemma fair_exit D sh open d :
  fair_state D sh open d → open = [] ∨ d <= f_epsilon → fair_result D sh.
Proof.
  intros [Hnd Hop Hcl Hsum Hd Hlev] Hexit. pose proof eps_Q_pos as Heps.
  split; revert Heps Hexit; generalize (f_epsilon : Q); intros eps Heps Hexit.
  - lra.
  - destruct Hexit as [->|He]; [right|left; lra].
    intros i s Hi. apply (Hcl i s Hi), not_elem_of_nil.
  - intros i j si sj Hi Hj Hlt.
    destruct (decide (i ∈ open)) as [Hio|Hio]; [|rewrite (Hcl i si Hi Hio) in Hlt; lra].
    destruct Hexit as [->|He]; [by apply not_elem_of_nil in Hio|].
    rewrite (Hop i Hio) in Hi. injection Hi as <-.
    destruct (weight_share open i Hio) as [Hwi HwW]. pose proof (ws_nonneg j) as Hwj.
    fold (w j) in Hwj.
    assert (0 <= eps * w j) by (apply Qmult_le_0_compat; lra).
    destruct (decide (j ∈ open)) as [Hjo|Hjo].
    { rewrite (Hop j Hjo) in Hj. injection Hj as <-. lra. }
    assert (0 <= sj) by (rewrite (Hcl j sj Hj Hjo); apply cap_nonneg).
    assert (sj * w i <= sj * isum w open) by (rewrite !(Qmult_comm sj); by apply Qmult_le_compat_r).
    destruct (Qlt_le_dec 0 (isum w open)) as [Hpos|Hneg].
    + pose proof (Hlev j sj Hj Hjo Hpos) as Hl.
      assert (d * w j <= eps * w j) by (by apply Qmult_le_compat_r). lra.
    + assert (isum w open == 0) as HW0 by lra. rewrite HW0 in *. lra.
Qed.

(** No child capped: every open child gets its offer. *)
Lemma fair_accept D sh open d r :
  open ≠ [] → fair_state D sh open d → closing open d = [] →
  Forall2 (λ p i, p.1 = i ∧ (p.2 == offer open d i)) r open →
  fair_result D (accept sh r).
Proof.
  intros Hne [Hnd Hop Hcl Hsum Hd Hlev] Hnone Hoff. pose proof eps_Q_pos as Heps.
  assert (r.*1 = open) as Hfst.
  { clear -Hoff. induction Hoff as [|[??] ??? [??]]; simpl in *; [done|subst; by f_equal]. }
  assert (lsum r.*2 == isum (offer open d) open) as Hsnd.
  { clear -Hoff. revert Hoff. generalize (offer open d). intros o Hoff.
    induction Hoff as [|[? q] ??? [? Hq]]; simpl in *; [done|]. by rewrite Hq, IHHoff. }
  rewrite offer_sum in Hsnd by done.
  assert (lsum (accept sh r) == D) as Htotal.
  { rewrite lsum_accept; rewrite ?Hfst; [|done|done]. rewrite Hsnd, <- Hsum. done. }
  assert (∀ i s, accept sh r !! i = Some s →
    (i ∈ open ∧ (s == offer open d i)) ∨ (i ∉ open ∧ sh !! i = Some s)) as Hcase.
  { intros i s Hi. destruct (decide (i ∈ open)) as [Hio|Hio].
    - left. split; [done|].
      assert (∃ q, (i, q) ∈ r ∧ q == offer open d i) as (q & Hq & Heq).
      { clear -Hoff Hio. revert Hoff Hio. generalize (offer open d). intros o Hoff.
        induction Hoff as [|[k q] k' ?? [Hk Hq] _ IH]; [by intros ?%not_elem_of_nil|].
        simpl in Hk, Hq. subst k'. intros [->|Hio]%elem_of_cons.
        - exists q. split; [by left|done].
        - destruct (IH Hio) as (q' & ? & ?). exists q'. split; [by right|done]. }
      rewrite (accept_lookup_in sh r i q) in Hi; [by simplify_eq|by rewrite Hfst|done|].
      apply lookup_lt_is_Some. eauto.
    - right. split; [done|]. rewrite accept_lookup_notin in Hi; [done|by rewrite Hfst]. }
  split; [lra|left; lra|].
  intros i j si sj Hi Hj Hlt.
  destruct (Hcase i si Hi) as [[Hio Hsi]|[Hio Hsi]];
    [|rewrite (Hcl i si Hsi Hio) in Hlt; lra].
  destruct (weight_share open i Hio) as [Hwi HwW].
  pose proof (ws_nonneg j) as Hwj. fold (w j) in Hwj.
  assert (0 <= si) by (rewrite Hsi; by apply offer_nonneg).
  assert (0 <= (f_epsilon : Q) * w j) as Hej by (apply Qmult_le_0_compat; lra).
  revert Hej. generalize (f_epsilon : Q). intros eps Hej.
  assert (0 <= si * w j) by (by apply Qmult_le_0_compat).
  destruct (Qlt_le_dec 0 (isum w open)) as [Hpos|Hneg].
  2:{ assert (w i == 0) as Hwi0 by lra. rewrite Hwi0. lra. }
  unfold offer in Hsi. rewrite (proj2 (Qltb_true _ _) Hpos) in Hsi.
  assert (si * isum w open == d * w i) as Hli by (rewrite Hsi; field; lra).
  assert (sj * isum w open <= d * w j) as Hlj.
  { destruct (Hcase j sj Hj) as [[Hjo Hsj]|[Hjo Hsj]]; [|by apply Hlev].
    unfold offer in Hsj. rewrite (proj2 (Qltb_true _ _) Hpos) in Hsj.
    apply Qle_lteq. right. rewrite Hsj. field. lra. }
  apply (Qmult_le_r _ _ (isum w open) Hpos).
  assert (sj * isum w open * w i <= d * w j * w i) by (by apply Qmult_le_compat_r).
  assert (d * w j * w i == si * isum w open * w j) by (rewrite Hli; ring).
  assert (0 <= eps * w j * isum w open) by (apply Qmult_le_0_compat; lra).
  assert ((si + eps) * w j * isum w open ==
    si * isum w open * w j + eps * w j * isum w open) as -> by ring.
  assert (sj * w i * isum w open == sj * isum w open * w i) as -> by ring. lra.
Qed.

Lemma fill_fair D fuel sh open d r :
  fair_state D sh open d → fill fuel hs ws sh open d = Some r → fair_result D r.
Proof.
  revert sh open d. induction fuel as [|fuel IH]; intros sh open d Hst; cbn [fill]; [done|].
  destruct (f_ltb f_epsilon d && negb (bool_decide (open = []))) eqn:Hgo.
  - apply andb_true_iff in Hgo as [Hd Hne%negb_true_iff%bool_decide_eq_false].
    rewrite settle_eq.
    destruct (capped_propose open d) as (Hc1 & Hc2 & Hc3).
    fold (closing open d) in Hc1. fold (staying open d) in Hc2.
    rewrite Hc1, Hc2, Hc3. destruct (existsb _ open) eqn:Hany.
    + intros Hr. eapply IH; [|exact Hr]. by apply fair_state_close.
    + assert (closing open d = []) as Hnone.
      { unfold closing. apply filterb_none. intros i Hi.
        destruct (capb open d i) eqn:Hb; [|done].
        assert (existsb (capb open d) open = true); [|congruence].
        apply existsb_exists. exists i. split; [by apply list_elem_of_In|done]. }
      rewrite Hnone. cbn [cap_all foldl]. destruct fuel as [|fuel]; [done|].
      change (fill (S fuel) hs ws (cap_all hs sh []) open 0) with (fill (S fuel) hs ws sh open (of_Z 0)).
      intros Hr. rewrite (fill_zero (F := Q)) in Hr by done. injection Hr as <-.
      eapply fair_accept; [done|done|done|]. apply propose_offer.
  - intros [= <-]. eapply fair_exit; [done|].
    apply andb_false_iff in Hgo as [Hd|Hne%negb_false_iff%bool_decide_eq_true]; [right|by left].
    by apply Qltb_false.
Qed.
End Rounds.

(** ** The laws of [allocate] *)

Definition soc_in_range (children : list (ChildCapacity Q)) : Prop :=
  ∀ c, c ∈ children → 0 <= state_of_charge c <= 100.

Lemma policy_weights_nonneg policy (eligible : list (ChildCapacity Q)) sign i :
  soc_in_range eligible → 0 <= nth i (policy_weights policy eligible sign) 0.
Proof.
  intros Hsoc.
  assert (∀ w, w ∈ policy_weights policy eligible sign → 0 <= w) as Hw.
  { assert (∀ w, w ∈ List.map (λ _ : ChildCapacity Q, of_Z 1 : Q) eligible → 0 <= w) as H1.
    { intros w (c & <- & _)%list_elem_of_In%in_map_iff. done. }
    unfold policy_weights. destruct policy; [done|].
    destruct (f_leb _ _); [done|].
    intros w (c & <- & Hc)%list_elem_of_In%in_map_iff. apply list_elem_of_In in Hc.
    destruct (Hsoc c Hc). destruct (f_ltb _ _); simpl; [done|].
    change (inject_Z 100) with 100. lra. }
  destruct (nth_in_or_default i (policy_weights policy eligible sign) 0) as [Hin| ->];
    [|lra]. by apply Hw, list_elem_of_In.
Qed.

Lemma soc_in_range_eligible children :
  soc_in_range children → soc_in_range (eligible_children children).
Proof. intros Hs c Hc. apply Hs. by apply elem_of_filterb in Hc as [? _]. Qed.

Lemma lsum_zeros (l : list (ChildCapacity Q)) : lsum (List.map (λ _, of_Z 0) l) == 0.
Proof. induction l as [|c l IH]; [done|]. simpl List.map. simpl lsum. rewrite IH. ring. Qed.

Lemma unsigned_shares_fair total eligible policy sh :
  soc_in_range eligible → unsigned_shares total eligible policy = Some sh →
  fair_result (List.map headroom eligible) (policy_weights policy eligible (total_sign total))
    (Qabs total) sh.
Proof.
  intros Hsoc. unfold unsigned_shares. apply fill_fair.
  { intros i. by apply policy_weights_nonneg. }
  assert (∀ i s, List.map (λ _ : ChildCapacity Q, of_Z 0 : Q) eligible !! i = Some s →
    s = of_Z 0 ∧ (i < length eligible)%nat) as Hz.
  { intros i s Hi. split; [by eapply zero_shares_lookup|].
    apply lookup_lt_Some in Hi. by rewrite List.length_map in Hi. }
  assert (∀ i s, List.map (λ _ : ChildCapacity Q, of_Z 0 : Q) eligible !! i = Some s →
    i ∈ seq 0 (length eligible)) as Hin.
  { intros i s [_ Hi]%Hz. apply elem_of_seq. lia. }
  split.
  - apply NoDup_seq.
  - intros i Hi%elem_of_seq. change (List.map ?f eligible) with (f <$> eligible).
    rewrite list_lookup_fmap. destruct (lookup_lt_is_Some_2 eligible i) as [c ->]; [lia|done].
  - intros i s Hi Hn. destruct Hn. by eapply Hin.
  - rewrite lsum_zeros. simpl. ring.
  - apply Qabs_nonneg.
  - intros j s Hj Hn. destruct Hn. by eapply Hin.
Qed.

Lemma lsum_pointwise_le l1 l2 : length l1 = length l2 →
  (∀ i x y, l1 !! i = Some x → l2 !! i = Some y → x <= y) → lsum l1 <= lsum l2.
Proof.
  revert l2; induction l1 as [|x l1 IH]; intros [|y l2]; simpl; intros Hl Hle; try done.
  assert (x <= y) by (by apply (Hle 0%nat)).
  assert (lsum l1 <= lsum l2); [|lra]. apply IH; [lia|]. intros i. apply (Hle (S i)).
Qed.

Lemma lsum_lookup_nonneg l : (∀ i x, l !! i = Some x → 0 <= x) → 0 <= lsum l.
Proof.
  induction l as [|x l IH]; simpl; intros Hl; [lra|].
  assert (0 <= x) by (by apply (Hl 0%nat)).
  assert (0 <= lsum l); [|lra]. apply IH. intros i. apply (Hl (S i)).
Qed.

Definition caps (l : list (ChildCapacity Q)) : list Q :=
  List.map (λ c, f_max (headroom c) (of_Z 0)) l.

Lemma caps_lookup l i c : l !! i = Some c →
  cap_of (List.map headroom l) i = f_max (headroom c) (of_Z 0).
Proof.
  intros Hi. unfold cap_of. f_equal.
  apply nth_lookup_Some.
  change (List.map headroom l) with (headroom <$> l). rewrite list_lookup_fmap, Hi. done.
Qed.

Lemma total_sign_abs total s : 0 <= s → Qabs (total_sign total * s) == s.
Proof.
  intros Hs. unfold total_sign. rewrite Qabs_Qmult, (Qabs_pos s Hs).
  destruct (f_ltb total (of_Z 0));
    [change (Qabs (of_Z (-1))) with 1|change (Qabs (of_Z 1)) with 1]; ring.
Qed.

Lemma lsum_scale c l : lsum (List.map (λ s, c * s) l) == c * lsum l.
Proof. induction l as [|x l IH]; simpl; [ring|]. rewrite IH. ring. Qed.

Lemma zip_with_snd {A} (f : A → string) (g : Q → Q) (l : list A) sh :
  length sh = length l → (zip_with (λ c s, (f c, g s)) l sh).*2 = List.map g sh.
Proof.
  revert sh; induction l as [|c l IH]; intros [|s sh]; simpl; intros Hl; try done.
  f_equal. apply IH. lia.
Qed.

Lemma Q_eps_pos : f_ltb f_epsilon (of_Z 0 : Q) = false.
Proof. done. Qed.

Lemma not_neg_Q (s : Q) : f_ltb s (of_Z 0) = false ↔ 0 <= s.
Proof. apply Qltb_false. Qed.

Lemma not_above_Q (s t : Q) : f_ltb s t = false ↔ t <= s.
Proof. apply Qltb_false. Qed.

(** The sum of what [allocate] hands out, and its unsigned shares. *)
Lemma allocate_given total children policy :
  soc_in_range children →
  ∃ sh, unsigned_shares total (eligible_children children) policy = Some sh ∧
    length sh = length (eligible_children children) ∧
    (∀ i s, sh !! i = Some s → 0 <= s) ∧
    (Qabs (f_sum (allocate total children policy).*2) == lsum sh).
Proof.
  intros Hsoc%soc_in_range_eligible.
  destruct (allocate_unfold (F := Q) Q_eps_pos total children policy) as (sh & Hsh & Hlen & Hal).
  assert (∀ i s, sh !! i = Some s → 0 <= s) as Hpos.
  { intros i s Hi. apply not_neg_Q.
    eapply (unsigned_shares_not_neg (F := Q)); [done| |exact Hsh|exact Hi].
    intros w (k & Hk)%list_elem_of_lookup. apply not_neg_Q.
    pose proof (policy_weights_nonneg policy _ (total_sign total) k Hsoc) as Hw.
    by rewrite (nth_lookup_Some _ _ _ _ Hk) in Hw. }
  exists sh. split_and!; [done|done|done|].
  rewrite Hal, zip_with_snd by done. rewrite f_sum_lsum.
  change (f_mul (total_sign total)) with (Qmult (total_sign total)).
  rewrite lsum_scale. by apply total_sign_abs, lsum_lookup_nonneg.
Qed.

(** C8: in exact rational arithmetic, and for children whose
    states of charge are all between 0 and 100: [allocate] never gives more than
    asked, never more than the eligible children's caps together, and falls short of
    the smaller of the two by at most [EPSILON]. Outside that range the weights can
    be negative and shares go beyond the total (Example
    [AllocationF64.allocate_soc_out_of_range]). *)
Theorem allocate_conserves total children policy :
  soc_in_range children →
  let given := Qabs (f_sum (allocate total children policy).*2) in
  let room := lsum (caps (eligible_children children)) in
  given <= Qabs total ∧ given <= room ∧
  (Qabs total - f_epsilon <= given ∨ given == room).
Proof.
  intros Hsoc. cbv zeta.
  destruct (allocate_given total children policy Hsoc) as (sh & Hsh & Hlen & Hpos & ->).
  destruct (unsigned_shares_fair _ _ _ _ (soc_in_range_eligible _ Hsoc) Hsh) as [Hle Hserved _].
  assert (lsum sh <= lsum (caps (eligible_children children))) as Hroom.
  { apply lsum_pointwise_le; [unfold caps; by rewrite List.length_map|].
    intros i x y Hx Hy. unfold caps in Hy. change (List.map ?f ?l) with (f <$> l) in Hy.
    apply list_lookup_fmap_Some in Hy as (c & -> & Hc).
    apply not_above_Q. rewrite <- (caps_lookup _ _ _ Hc).
    by eapply (unsigned_shares_capped (F := Q)). }
  split_and!; [done|done|]. destruct Hserved as [Hs|Hall]; [by left|right].
  apply Qle_antisym; [done|]. apply lsum_pointwise_le; [unfold caps; by rewrite List.length_map|].
  intros i x y Hx Hy. unfold caps in Hx. change (List.map ?f ?l) with (f <$> l) in Hx.
  apply list_lookup_fmap_Some in Hx as (c & -> & Hc).
  rewrite (Hall i y Hy), (caps_lookup _ _ _ Hc). lra.
Qed.

(** C9: in exact rational arithmetic, and for children whose
    states of charge are all between 0 and 100: an eligible child whose share is
    below its cap never holds less, per unit of its policy's weight, than any other
    eligible child (up to [EPSILON]): raising it would take from a child that is
    worse off. *)
Theorem allocate_max_min_fair total children policy i j ci cj idi idj si sj :
  soc_in_range children →
  let el := eligible_children children in
  let weight k := nth k (policy_weights policy el (total_sign total)) (of_Z 0) in
  el !! i = Some ci → el !! j = Some cj →
  allocate total children policy !! i = Some (idi, si) →
  allocate total children policy !! j = Some (idj, sj) →
  Qabs si < f_max (headroom ci) (of_Z 0) →
  Qabs sj * weight i <= (Qabs si + f_epsilon) * weight j.
Proof.
  intros Hsoc. cbv zeta. intros Hci Hcj Hi Hj Hlt.
  destruct (allocate_given total children policy Hsoc) as (sh & Hsh & Hlen & Hpos & _).
  destruct (allocate_lookup (F := Q) Q_eps_pos _ _ _ _ _ _ Hi)
    as (ci' & sh1 & s1 & Hci' & _ & Hsh1 & Hs1 & ->).
  destruct (allocate_lookup (F := Q) Q_eps_pos _ _ _ _ _ _ Hj)
    as (cj' & sh2 & s2 & Hcj' & _ & Hsh2 & Hs2 & ->).
  simplify_eq. pose proof (Hpos _ _ Hs1). pose proof (Hpos _ _ Hs2).
  destruct (unsigned_shares_fair _ _ _ _ (soc_in_range_eligible _ Hsoc) Hsh) as [_ _ Hfair].
  change (f_mul ?x ?y) with (Qmult x y) in *.
  rewrite !total_sign_abs by done. rewrite total_sign_abs in Hlt by done.
  apply Hfair; [done|done|]. by rewrite (caps_lookup _ _ _ Hci).
Qed.

(** ** Two children, one of them capped at 10 of the 60 asked for *)

Definition demo_pair : list (ChildCapacity Q) :=
  [mkChild "ess1" Standby 10 50; mkChild "ess2" Standby 80 50].

Lemma demo_pair_soc : soc_in_range demo_pair.
Proof.
  intros c [->|[->|Hc]%elem_of_cons]%elem_of_cons; [simpl; lra|simpl; lra|].
  by apply not_elem_of_nil in Hc.
Qed.

Lemma allocate_conserves_witness :
  let given := Qabs (f_sum (allocate (-60) demo_pair EqualSplit).*2) in
  given <= Qabs (-60) ∧ given <= lsum (caps (eligible_children demo_pair)) ∧
  (Qabs (-60) - f_epsilon <= given ∨ given == lsum (caps (eligible_children demo_pair))).
Proof. exact (allocate_conserves (-60) demo_pair EqualSplit demo_pair_soc). Defined.

(** What child [i] of the demonstration pair is given. *)
Definition demo_given (i : nat) : Q :=
  match allocate (-60) demo_pair EqualSplit !! i with Some s => s.2 | None => 0 end.

Lemma allocate_max_min_fair_witness :
  demo_given 0 == -10 ∧ demo_given 1 == -50 ∧
  Qabs (demo_given 0) * 1 <= (Qabs (demo_given 1) + f_epsilon) * 1.
Proof.
  split; [by vm_compute|]. split; [by vm_compute|].
  refine (allocate_max_min_fair (-60) demo_pair EqualSplit 1 0
    (mkChild "ess2" Standby 80 50) (mkChild "ess1" Standby 10 50) "ess2" "ess1"
    (demo_given 1) (demo_given 0) demo_pair_soc _ _ _ _ _); by vm_compute.
Defined.
