(* ===== verification/WriteOrder.v ===== *)
(** * Write order: [src/dispatch/write_order.rs]

    The order of child writes when shares move between children.  [last] is
    the map of last landed shares.  The laws are proved for every float type
    with a total [total_cmp] ([FloatTotal]) and hold in particular on [f64]. *)

From Stdlib Require Import ZArith Lia Permutation Sorted.
From S2P Require Import Prelude F64 Binary64 Rounding.

(** [slice::sort_by]: the stable sort, as insertion after every element that
    is not greater. *)
Section SortBy.
Context {A : Type} (le : A → A → bool).

Fixpoint sort_insert (a : A) (l : list A) : list A :=
  match l with
  | [] => [a]
  | b :: l' => if le a b then a :: b :: l' else b :: sort_insert a l'
  end.

Definition sort_by (l : list A) : list A := foldr sort_insert [] l.

Lemma sort_insert_perm a l : sort_insert a l ≡ₚ a :: l.
Proof.
  induction l as [|b l IH]; simpl; [done|]. destruct (le a b); [done|].
  rewrite IH. constructor.
Qed.

Lemma sort_by_perm l : sort_by l ≡ₚ l.
Proof.
  induction l as [|a l IH]; simpl; [done|]. by rewrite sort_insert_perm, IH.
Qed.

Hypothesis le_total : ∀ a b, le a b = true ∨ le b a = true.
Hypothesis le_trans : ∀ a b c, le a b = true → le b c = true → le a c = true.

Definition sorted_by : list A → Prop := StronglySorted (λ a b, le a b = true).

Lemma sort_insert_sorted a l : sorted_by l → sorted_by (sort_insert a l).
Proof.
  induction 1 as [|b l Hl IH Hall]; simpl; [by repeat constructor|].
  destruct (le a b) eqn:Hab.
  - constructor; [by constructor|]. constructor; [done|].
    eapply Forall_impl; [exact Hall|]. intros c Hc. by eapply le_trans.
  - constructor; [done|]. rewrite sort_insert_perm. constructor; [|done].
    destruct (le_total a b); congruence.
Qed.

Lemma sort_by_sorted l : sorted_by (sort_by l).
Proof. induction l as [|a l IH]; simpl; [constructor|by apply sort_insert_sorted]. Qed.
End SortBy.

Lemma StronglySorted_lookup_lt {A} (R : A → A → Prop) (l : list A) i j a b :
  StronglySorted R l → l !! i = Some a → l !! j = Some b → i < j → R a b.
Proof.
  intros Hl. revert i j. induction Hl as [|c l Hl IH Hall]; intros i j; [done|].
  destruct i as [|i], j as [|j]; simpl; intros Ha Hb Hij; try lia.
  - simplify_eq. rewrite Forall_forall in Hall. by eapply Hall, list_elem_of_lookup_2.
  - apply (IH i j); [done|done|lia].
Qed.

Section WriteOrder.
Context {F : Type} `{Float F}.
Local Open Scope flt_scope.
Implicit Types (c : string * F) (last : gmap string F).

(** [last.get(id).map_or(0.0, |p| p.abs())]. *)
Definition last_abs last (id : string) : F :=
  match last !! id with Some p => f_abs p | None => of_Z 0 end.

Definition growth c last : F := f_abs c.2 - last_abs last c.1.

Definition reductions_first (changed : list (string * F)) last : list (string * F) :=
  sort_by (λ a b, f_total_leb (growth a last) (growth b last)) changed.

(** 0.01. *)
Definition HANDOFF_MIN_FRACTION : F := lit 1 100.

Definition material_shrink c last : bool :=
  - growth c last >? HANDOFF_MIN_FRACTION * last_abs last c.1.

Definition handoff_batch (changed : list (string * F)) last (deferred_last_tick : bool)
    : list (string * F) * bool :=
  let shrinks := existsb (λ c, material_shrink c last) changed in
  let grows := existsb (λ c, growth c last >? of_Z 0) changed in
  if shrinks && grows && negb deferred_last_tick
  then (List.filter (λ c, growth c last <? of_Z 0) changed, true)
  else (changed, false).
End WriteOrder.

Section Facts.
Context {F : Type} `{FloatTotal F}.
Implicit Types (c : string * F) (last : gmap string F).

Lemma reductions_first_perm (changed : list (string * F)) last :
  reductions_first changed last ≡ₚ changed.
Proof. apply sort_by_perm. Qed.

Lemma reductions_first_ordered (changed : list (string * F)) last i j a b :
  reductions_first changed last !! i = Some a →
  reductions_first changed last !! j = Some b →
  (i < j)%nat → f_ltb (growth b last) (growth a last) = false.
Proof.
  intros Ha Hb Hij. apply ft_ltb.
  eapply (StronglySorted_lookup_lt (λ a b, f_total_leb (growth a last) (growth b last) = true));
    [|exact Ha|exact Hb|exact Hij].
  apply (sort_by_sorted (λ a b, f_total_leb (growth a last) (growth b last))).
  - intros x y. apply ft_total.
  - intros x y z. apply ft_trans.
Qed.

(** A deferring batch is a sublist of the changes that only shrinks. *)
Lemma handoff_batch_deferred (changed : list (string * F)) last held batch :
  handoff_batch changed last held = (batch, true) →
  held = false ∧
  ∀ c, c ∈ batch ↔ c ∈ changed ∧ f_ltb (growth c last) (of_Z 0) = true.
Proof.
  unfold handoff_batch. destruct (_ && negb held) eqn:Hd; [|done].
  intros [= <-]. apply andb_true_iff in Hd as [_ Hh%negb_true_iff].
  split; [done|]. intros c.
  exact (elem_of_filterb (λ c, f_ltb (growth c last) (of_Z 0)) changed c).
Qed.

Lemma handoff_batch_all (changed : list (string * F)) last held batch :
  handoff_batch changed last held = (batch, false) → batch = changed.
Proof. unfold handoff_batch. destruct (_ && negb held); congruence. Qed.

Lemma handoff_batch_sub (changed : list (string * F)) last held c :
  c ∈ (handoff_batch changed last held).1 → c ∈ changed.
Proof.
  unfold handoff_batch. destruct (_ && negb held); simpl; [|done].
  by intros [? _]%elem_of_filterb.
Qed.

Lemma handoff_batch_flag (changed : list (string * F)) last held :
  (handoff_batch changed last held).2 = true → held = false.
Proof.
  destruct (handoff_batch changed last held) as [batch d] eqn:Hb. simpl.
  intros ->. by apply handoff_batch_deferred in Hb as [].
Qed.

(** At most one tick: after a deferring tick nothing is held back. *)
Lemma handoff_batch_after_deferral (changed : list (string * F)) last :
  handoff_batch changed last true = (changed, false).
Proof. unfold handoff_batch. by rewrite andb_false_r. Qed.
End Facts.

(** [reductions_first] writes the same shares (a
    permutation), and no write that lowers its child's output magnitude comes
    after one that raises another's. *)
Theorem shrinks_before_growth (changed : list (string * f64)) (last : gmap string f64)
    i j grow shrink :
  reductions_first changed last !! i = Some grow →
  reductions_first changed last !! j = Some shrink →
  f_ltb (of_Z 0) (growth grow last) = true →
  f_ltb (growth shrink last) (of_Z 0) = true →
  reductions_first changed last ≡ₚ changed ∧ j < i.
Proof.
  intros Hi Hj Hg Hs. split; [apply reductions_first_perm|].
  assert (f_ltb (growth shrink last) (growth grow last) = true) as Hlt
    by (by eapply ltb_leb_trans, ltb_leb).
  destruct (Nat.lt_trichotomy i j) as [Hij|[->|Hji]]; [| |done].
  - pose proof (reductions_first_ordered _ _ _ _ _ _ Hi Hj Hij). congruence.
  - assert (grow = shrink) as -> by congruence. by rewrite ltb_irrefl in Hlt.
Qed.

Definition demo_last : gmap string f64 :=
  {[ "ess1"%string := of_Z 100; "ess2"%string := of_Z 0 ]}.

Lemma shrinks_before_growth_witness :
  reductions_first [("ess2"%string, of_Z 80); ("ess1"%string, of_Z 20)] demo_last
    ≡ₚ [("ess2"%string, of_Z 80); ("ess1"%string, of_Z 20)] ∧ 0 < 1.
Proof.
  apply (shrinks_before_growth _ demo_last 1 0 ("ess2"%string, of_Z 80) ("ess1"%string, of_Z 20));
    by vm_compute.
Defined.

(** The rounded difference of two magnitudes is negative only if they are in
    order. *)
Lemma growth_neg_shrinks (c : string * f64) (last : gmap string f64) :
  f_ltb (growth c last) (of_Z 0) = true → f_leb (last_abs last c.1) (f_abs c.2) = false.
Proof.
  intros Hg. destruct (f_leb _ _) eqn:Hle; [|done].
  unfold growth in Hg. by rewrite (fs_sub_nonneg _ _ Hle) in Hg.
Qed.

(** A batch that holds growth back contains exactly
    the changes whose growth is negative, each of which lowers its child's
    magnitude, and is never sent on the tick after another deferral; any other
    batch is all the changes. *)
Theorem handoff_defers_growth (changed : list (string * f64)) (last : gmap string f64) held :
  let '(batch, deferred) := handoff_batch changed last held in
  if deferred
  then held = false ∧
       (∀ c, c ∈ batch ↔ c ∈ changed ∧ f_ltb (growth c last) (of_Z 0) = true) ∧
       (∀ c, c ∈ batch → f_leb (last_abs last c.1) (f_abs c.2) = false)
  else batch = changed.
Proof.
  destruct (handoff_batch changed last held) as [batch []] eqn:Hb.
  - apply handoff_batch_deferred in Hb as [Hheld Hiff]. split_and!; [done|done|].
    intros c [_ Hc]%Hiff. by apply growth_neg_shrinks.
  - by eapply handoff_batch_all.
Qed.

Example handoff_batch_moves_share :
  handoff_batch [("ess1"%string, of_Z 20); ("ess2"%string, of_Z 80)] demo_last false
    = ([("ess1"%string, of_Z 20)], true) ∧
  handoff_batch [("ess1"%string, of_Z 20); ("ess2"%string, of_Z 80)] demo_last true
    = ([("ess1"%string, of_Z 20); ("ess2"%string, of_Z 80)], false).
Proof. split; by vm_compute. Qed.
