(* ===== verification/Writes.v ===== *)
(** * An envelope task's memory of its own writes:
    [src/envelope/writes.rs] and [src/envelope/poi_gate.rs]

    [PoiGate] is the freshness and handoff gate of the POI servo, [WriteState]
    the last landed share per child.  An [Instant] is a number of nanoseconds
    on the monotonic clock; [landed] takes the instant [Instant::now()] returns
    as an argument. *)

From Stdlib Require Import ZArith Lia.
From S2P Require Import Prelude F64 Binary64 WriteOrder.
Local Open Scope Z_scope.

(** ** [PoiGate] *)

Definition READINGS_AFTER_GROWTH : Z := 2.

Inductive Handoff :=
| Idle
| Deferred
| GrowthWritten (at_ seen : Z).

#[export] Instance Handoff_eq_dec : EqDecision Handoff.
Proof. solve_decision. Defined.

Record PoiGate := mkGate {
  last_used : option Z;
  handoff : Handoff;
}.

Definition new_gate : PoiGate := mkGate None Idle.

(** [take]: the new gate and [(fresh, hold_approach)]. *)
Definition take (g : PoiGate) (received_at : Z) : PoiGate * (bool * bool) :=
  let fresh := bool_decide (last_used g ≠ Some received_at) in
  let handoff' :=
    match handoff g with
    | GrowthWritten at_ seen =>
        if fresh && (at_ <? received_at) then
          let seen := seen + 1 in
          if READINGS_AFTER_GROWTH <=? seen then Idle else GrowthWritten at_ seen
        else GrowthWritten at_ seen
    | h => h
    end in
  (mkGate (Some received_at) handoff', (fresh, bool_decide (handoff' ≠ Idle))).

Definition growth_deferred (g : PoiGate) : PoiGate :=
  mkGate (last_used g) Deferred.

Definition growth_written (g : PoiGate) (at_ : Z) : PoiGate :=
  if bool_decide (handoff g = Deferred)
  then mkGate (last_used g) (GrowthWritten at_ 0) else g.

(** ** [WriteState] *)

Section Writes.
Context {F : Type} `{Float F}.
Local Open Scope flt_scope.

Record WriteState := mkWrites {
  last_written : gmap string F;
  deferred_growth : bool;
  gate : PoiGate;
}.

Definition new_writes : WriteState := mkWrites ∅ false new_gate.

Record Plan := mkPlan {
  writes : list (string * F);
  completes_handoff : bool;
}.

(** [is_none_or(|prev| (share - prev).abs() >= EPSILON)]. *)
Definition share_changed (last : gmap string F) (s : string * F) : bool :=
  match last !! s.1 with
  | None => true
  | Some prev => f_abs (s.2 - prev) >=? f_epsilon
  end.

(** Every child not already in [batch], at its last landed share. *)
Definition reasserts (last : gmap string F) (batch : list (string * F))
    (ids : list string) : list (string * F) :=
  omap (λ id, (λ v, (id, v)) <$> last !! id)
    (List.filter (λ id, forallb (λ w, negb (bool_decide (w.1 = id))) batch) ids).

Definition plan (ws : WriteState) (shares : list (string * F)) : WriteState * option Plan :=
  let ids := shares.*1 in
  let changed := List.filter (share_changed (last_written ws)) shares in
  let held := deferred_growth ws in
  let '(ws', batch) :=
    match changed with
    | [] => (ws, [])
    | _ =>
        let ordered := reductions_first changed (last_written ws) in
        let '(batch, deferred) := handoff_batch ordered (last_written ws) held in
        (mkWrites (last_written ws) deferred
           (if deferred then growth_deferred (gate ws) else gate ws), batch)
    end in
  let writes := batch ++ reasserts (last_written ws) batch ids in
  match writes with
  | [] => (ws', None)
  | _ => (ws', Some (mkPlan writes (held && negb (deferred_growth ws'))))
  end.

Definition landed (ws : WriteState) (p : Plan) (now : Z) : WriteState :=
  mkWrites (map_extend (last_written ws) (writes p)) (deferred_growth ws)
    (if completes_handoff p then growth_written (gate ws) now else gate ws).

(** What [task::tick_once] does to the state: read the POI, then plan, then
    record the plan unless a write failed. *)
Inductive event :=
| PoiReading (received_at : Z)
| Tick (shares : list (string * F)) (landed_at : option Z).

Definition on_event (ws : WriteState) (e : event) : WriteState :=
  match e with
  | PoiReading t => mkWrites (last_written ws) (deferred_growth ws) (take (gate ws) t).1
  | Tick shares landed_at =>
      match plan ws shares, landed_at with
      | (ws', Some p), Some now => landed ws' p now
      | (ws', _), _ => ws'
      end
  end.

Definition run : WriteState → list event → WriteState := foldl on_event.
End Writes.
Arguments WriteState : clear implicits.
Arguments Plan : clear implicits.
Arguments event : clear implicits.

(** ** The gate *)

(** Fresh readings after [at_] in a sequence of readings, the one before it
    being [prev]. *)
Fixpoint fresh_after (at_ : Z) (prev : option Z) (readings : list Z) : Z :=
  match readings with
  | [] => 0
  | t :: l =>
      (if bool_decide (prev ≠ Some t) && (at_ <? t) then 1 else 0) +
      fresh_after at_ (Some t) l
  end.

Definition take_all (g : PoiGate) (readings : list Z) : PoiGate :=
  foldl (λ g t, (take g t).1) g readings.

Lemma fresh_after_nonneg at_ prev l : 0 <= fresh_after at_ prev l.
Proof.
  revert prev; induction l as [|t l IH]; intros prev; simpl; [lia|].
  specialize (IH (Some t)). destruct (_ && _); lia.
Qed.

Lemma take_all_idle prev l : handoff (take_all (mkGate prev Idle) l) = Idle.
Proof. revert prev; induction l as [|t l IH]; intros prev; [done|]. apply IH. Qed.

Lemma take_all_deferred prev l : handoff (take_all (mkGate prev Deferred) l) = Deferred.
Proof. revert prev; induction l as [|t l IH]; intros prev; [done|]. apply IH. Qed.

Lemma take_all_counts at_ l : ∀ prev seen,
  0 <= seen < 2 →
  handoff (take_all (mkGate prev (GrowthWritten at_ seen)) l) =
  if seen + fresh_after at_ prev l <? 2
  then GrowthWritten at_ (seen + fresh_after at_ prev l) else Idle.
Proof.
  induction l as [|t l IH]; intros prev seen Hs.
  - simpl. rewrite Z.add_0_r. by destruct (Z.ltb_spec seen 2); [|lia].
  - change (take_all ?g (t :: l)) with (take_all (take g t).1 l).
    unfold take; simpl fst. cbn [fresh_after handoff last_used].
    pose proof (fresh_after_nonneg at_ (Some t) l).
    destruct (bool_decide (prev ≠ Some t) && (at_ <? t)) eqn:Hf; [|by apply IH].
    unfold READINGS_AFTER_GROWTH. destruct (Z.leb_spec 2 (seen + 1)).
    + rewrite take_all_idle. destruct (Z.ltb_spec (seen + (1 + fresh_after at_ (Some t) l)) 2); [lia|done].
    + rewrite IH by lia. by rewrite Z.add_assoc.
Qed.

(** Once the held-back growth is written at
    [at_], the approach hold lifts exactly when two fresh readings received
    after [at_] have been taken; re-used readings and readings received before
    the write never count. *)
Theorem hold_lifts_on_second_reading (prev : option Z) (at_ : Z) (readings : list Z) t :
  let g := take_all (growth_written (mkGate prev Deferred) at_) readings in
  (take g t).2.2 = bool_decide (fresh_after at_ prev (readings ++ [t]) < 2).
Proof.
  intros g. assert (handoff (take g t).1 =
    if fresh_after at_ prev (readings ++ [t]) <? 2
    then GrowthWritten at_ (fresh_after at_ prev (readings ++ [t])) else Idle) as Hh.
  { rewrite <- (Z.add_0_l (fresh_after at_ prev (readings ++ [t]))).
    rewrite <- take_all_counts by lia. unfold take_all. by rewrite foldl_app. }
  change ((take g t).2.2) with (bool_decide (handoff (take g t).1 ≠ Idle)). rewrite Hh.
  destruct (Z.ltb_spec (fresh_after at_ prev (readings ++ [t])) 2);
    case_bool_decide; case_bool_decide; done || lia.
Qed.

(** ** The plan *)

Section Plan.
Context {F : Type} `{FloatTotal F}.
Implicit Types (ws : WriteState F) (shares batch : list (string * F)) (last : gmap string F).

Definition plan_changed ws shares := List.filter (share_changed (last_written ws)) shares.

(** The changes sent this tick, and whether growth is held back after it. *)
Definition plan_batch ws shares : list (string * F) * bool :=
  match plan_changed ws shares with
  | [] => ([], deferred_growth ws)
  | changed => handoff_batch (reductions_first changed (last_written ws))
                 (last_written ws) (deferred_growth ws)
  end.

Definition plan_writes (o : option (Plan F)) : list (string * F) :=
  match o with Some p => writes p | None => [] end.

Lemma plan_shape ws shares :
  let '(batch, d) := plan_batch ws shares in
  let '(ws', o) := plan ws shares in
  last_written ws' = last_written ws ∧ deferred_growth ws' = d ∧
  (gate ws' = if d && bool_decide (plan_changed ws shares ≠ [])
              then growth_deferred (gate ws) else gate ws) ∧
  plan_writes o = batch ++ reasserts (last_written ws) batch shares.*1 ∧
  ∀ p, o = Some p → completes_handoff p = deferred_growth ws && negb d.
Proof.
  unfold plan, plan_batch, plan_changed.
  destruct (List.filter _ shares) as [|c changed] eqn:Hc.
  - destruct (_ ++ _) eqn:Hw; split_and!; try done;
      try (by rewrite andb_false_r); intros; by simplify_eq.
  - destruct (handoff_batch _ _ _) as [batch d].
    destruct (batch ++ _) eqn:Hw; split_and!; try done;
      try (by destruct d); intros; by simplify_eq.
Qed.

Lemma plan_batch_sub ws shares c :
  c ∈ (plan_batch ws shares).1 → c ∈ shares ∧ share_changed (last_written ws) c = true.
Proof.
  unfold plan_batch. destruct (plan_changed ws shares) as [|x l] eqn:Hc;
    [by intros ?%not_elem_of_nil|].
  intros Hin%handoff_batch_sub. rewrite reductions_first_perm, <- Hc in Hin.
  by apply elem_of_filterb in Hin.
Qed.

(** What of the changes is sent. *)
Lemma elem_of_plan_batch ws shares c :
  c ∈ shares → share_changed (last_written ws) c = true →
  c ∈ (plan_batch ws shares).1 ↔
  (plan_batch ws shares).2 = false ∨ f_ltb (growth c (last_written ws)) (of_Z 0) = true.
Proof.
  intros Hc Hch. unfold plan_batch.
  assert (c ∈ plan_changed ws shares) as Hin by (by apply elem_of_filterb).
  destruct (plan_changed ws shares) as [|x l] eqn:Heq; [by apply not_elem_of_nil in Hin|].
  rewrite <- Heq in *. destruct (handoff_batch _ _ _) as [batch []] eqn:Hb; simpl.
  - apply handoff_batch_deferred in Hb as [_ Hiff]. rewrite Hiff, reductions_first_perm.
    split; [intros [_ ?]; by right|intros [?|?]; [done|by split]].
  - apply handoff_batch_all in Hb as ->. rewrite reductions_first_perm.
    split; [by left|done].
Qed.

Lemma plan_batch_NoDup ws shares : NoDup shares.*1 → NoDup (plan_batch ws shares).1.*1.
Proof.
  intros Hnd. unfold plan_batch.
  assert (NoDup (plan_changed ws shares).*1) as Hch by (by apply NoDup_fmap_filterb).
  destruct (plan_changed ws shares) as [|x l]; [constructor|]. unfold handoff_batch.
  destruct (_ && negb _); cbn [fst]; [apply NoDup_fmap_filterb|];
    by rewrite (reductions_first_perm (x :: l) (last_written ws)).
Qed.

Lemma elem_of_reasserts last batch ids id v :
  ((id, v) ∈ reasserts last batch ids) ↔ (id ∈ ids ∧ id ∉ (batch.*1) ∧ (last !! id = Some v)).
Proof.
  unfold reasserts. rewrite list_elem_of_omap.
  assert (∀ i, forallb (λ w, negb (bool_decide (w.1 = i))) batch = true ↔ i ∉ batch.*1) as Hf.
  { intros i. rewrite forallb_forall. setoid_rewrite <- list_elem_of_In.
    setoid_rewrite negb_true_iff. setoid_rewrite bool_decide_eq_false. split.
    - intros Hall (w & -> & Hw)%list_elem_of_fmap. by apply (Hall w).
    - intros Hnin w Hw <-. apply Hnin. by apply list_elem_of_fmap_2. }
  setoid_rewrite elem_of_filterb. setoid_rewrite Hf. split.
  - intros (i & [Hi Hn] & (w & Hw & [= -> ->])%fmap_Some). done.
  - intros (Hi & Hn & Hv). exists id. split; [done|]. by rewrite Hv.
Qed.

Lemma NoDup_reasserts last batch ids : NoDup ids → NoDup (reasserts last batch ids).*1.
Proof.
  intros Hnd%(NoDup_filterb (λ id, forallb (λ w, negb (bool_decide (w.1 = id))) batch)).
  unfold reasserts. induction Hnd as [|i l Hi Hnd IH]; simpl; [constructor|].
  destruct (last !! i) as [v|]; simpl; [|done]. apply NoDup_cons. split; [|done].
  intros ([j w] & -> & (k & Hk & (u & _ & [= -> ->])%fmap_Some)%list_elem_of_omap)%list_elem_of_fmap.
  done.
Qed.

Lemma plan_writes_gen ws shares :
  NoDup shares.*1 →
  let '(ws', o) := plan ws shares in
  NoDup (plan_writes o).*1 ∧
  (∀ id v, (id, v) ∈ plan_writes o →
     (id, v) ∈ shares ∨ id ∈ shares.*1 ∧ last_written ws !! id = Some v) ∧
  ∀ id share, (id, share) ∈ shares →
    if negb (share_changed (last_written ws) (id, share))
       || (deferred_growth ws' && negb (f_ltb (growth (id, share) (last_written ws)) (of_Z 0)))
    then (∀ v, (id, v) ∈ plan_writes o ↔ last_written ws !! id = Some v)
    else (id, share) ∈ plan_writes o.
Proof.
  intros Hnd. pose proof (plan_shape ws shares) as Hs.
  pose proof (plan_batch_sub ws shares) as Hsub.
  pose proof (elem_of_plan_batch ws shares) as Hel.
  pose proof (plan_batch_NoDup ws shares Hnd) as Hbn.
  destruct (plan_batch ws shares) as [batch d], (plan ws shares) as [ws' o]. simpl in *.
  destruct Hs as (_ & -> & _ & -> & _). split_and!.
  - rewrite fmap_app. apply NoDup_app. split_and!; [done| |by apply NoDup_reasserts].
    intros i Hi ([j w] & -> & Hj)%list_elem_of_fmap. by apply elem_of_reasserts in Hj as (_ & ? & _).
  - intros id v [Hin|Hin]%elem_of_app; [left; by apply Hsub|].
    apply elem_of_reasserts in Hin as (? & _ & ?). by right.
  - intros id share Hin. destruct (negb _ || _) eqn:Hkeep.
    + assert (id ∉ batch.*1) as Hnb; [|intros v; rewrite elem_of_app, elem_of_reasserts; split].
      2: { intros [Hb|(_ & _ & Hv)]; [|done]. destruct Hnb. by eapply list_elem_of_fmap_2'. }
      2: { intros Hv. right. split_and!; [by apply (list_elem_of_fmap_2' _ _ _ _ Hin)|done|done]. }
      intros ([j w] & Hj & Hb)%list_elem_of_fmap. simpl in Hj; subst j.
      pose proof (Hsub _ Hb) as [Hw Hch].
      assert (w = share) as -> by (by eapply (NoDup_fst_inj shares)).
      rewrite Hch in Hkeep; simpl in Hkeep. apply andb_true_iff in Hkeep as [-> Hg].
      apply (proj1 (Hel _ Hin Hch)) in Hb as [?|Hlt]; [done|]. by rewrite Hlt in Hg.
    + apply orb_false_iff in Hkeep as [Hch%negb_false_iff Hg]. apply elem_of_app. left.
      apply Hel; [done|done|]. destruct d; [right|by left]. by apply negb_false_iff in Hg.
Qed.

(** A plan writes no child that has no share. *)
Lemma plan_ids ws shares id : id ∈ (plan_writes (plan ws shares).2).*1 → id ∈ shares.*1.
Proof.
  intros ([i v] & -> & Hin)%list_elem_of_fmap. pose proof (plan_shape ws shares) as Hs.
  pose proof (plan_batch_sub ws shares) as Hsub.
  destruct (plan_batch ws shares) as [batch d], (plan ws shares) as [ws' o]. simpl in *.
  destruct Hs as (_ & _ & _ & Hw & _). rewrite Hw in Hin. apply elem_of_app in Hin as [Hin|Hin].
  - apply list_elem_of_fmap. exists (i, v). split; [done|]. by apply Hsub.
  - by apply elem_of_reasserts in Hin as (? & _).
Qed.

(** What a child is remembered at once the plan has landed. *)
Lemma plan_landing ws shares ws' o id share :
  NoDup shares.*1 → plan ws shares = (ws', o) → (id, share) ∈ shares →
  map_extend (last_written ws) (plan_writes o) !! id =
  if negb (share_changed (last_written ws) (id, share))
     || (deferred_growth ws' && negb (f_ltb (growth (id, share) (last_written ws)) (of_Z 0)))
  then last_written ws !! id else Some share.
Proof.
  intros Hnd Hp Hin. pose proof (plan_writes_gen ws shares Hnd) as Hw. rewrite Hp in Hw.
  destruct Hw as (Hwn & _ & Hcov). specialize (Hcov _ _ Hin).
  destruct (negb _ || _); [|by apply map_extend_lookup_in].
  destruct (last_written ws !! id) as [v|] eqn:Hv.
  - apply map_extend_lookup_in; [done|]. by apply Hcov.
  - rewrite map_extend_lookup_notin; [done|].
    intros ([j w] & Hj & Hjw)%list_elem_of_fmap. simpl in Hj; subst j.
    by apply Hcov in Hjw.
Qed.
End Plan.

(** C19: a plan writes no child twice and nothing but
    the fresh shares and re-assertions of last landed ones.  Every child is
    covered: a changed share is sent unless it is growth being held back; an
    unchanged or held-back child is written its last landed share, if it has
    one, and nothing else. *)
Theorem plan_covers_every_child (ws : WriteState f64) (shares : list (string * f64)) :
  NoDup shares.*1 →
  let '(ws', o) := plan ws shares in
  NoDup (plan_writes o).*1 ∧
  (∀ id v, (id, v) ∈ plan_writes o →
     (id, v) ∈ shares ∨ id ∈ shares.*1 ∧ last_written ws !! id = Some v) ∧
  ∀ id share, (id, share) ∈ shares →
    if negb (share_changed (last_written ws) (id, share))
       || (deferred_growth ws' && negb (f_ltb (growth (id, share) (last_written ws)) (of_Z 0)))
    then (∀ v, (id, v) ∈ plan_writes o ↔ last_written ws !! id = Some v)
    else (id, share) ∈ plan_writes o.
Proof. apply plan_writes_gen. Qed.

Definition demo_writes : WriteState f64 := mkWrites demo_last false new_gate.
Definition demo_shares : list (string * f64) :=
  [("ess1"%string, of_Z 20); ("ess2"%string, of_Z 80)].

Lemma demo_shares_NoDup : NoDup demo_shares.*1.
Proof. by apply (bool_decide_unpack _). Qed.

Lemma plan_covers_every_child_witness :
  (plan demo_writes demo_shares).1 =
    mkWrites demo_last true (mkGate None Deferred) ∧
  plan_writes (plan demo_writes demo_shares).2 =
    [("ess1"%string, of_Z 20); ("ess2"%string, of_Z 0)] ∧
  NoDup (plan_writes (plan demo_writes demo_shares).2).*1.
Proof.
  split; [by vm_compute|]. split; [by vm_compute|].
  pose proof (plan_covers_every_child demo_writes demo_shares demo_shares_NoDup) as Hp.
  destruct (plan demo_writes demo_shares) as [ws' o]. exact (proj1 Hp).
Defined.

Section HeldGrowth.
Context {F : Type} `{FloatTotal F} `{!FloatOrd F}.
Implicit Types (ws : WriteState F) (shares : list (string * F)).

(** A tick held growth back only if it wrote something else and left a
    growing share changed. *)
Lemma plan_deferred ws shares ws' o :
  plan ws shares = (ws', o) → deferred_growth ws = false → deferred_growth ws' = true →
  handoff (gate ws') = Deferred ∧
  ∃ c, c ∈ shares ∧ share_changed (last_written ws) c = true ∧
    f_ltb (of_Z 0) (growth c (last_written ws)) = true.
Proof.
  intros Hp Hold Hnew. pose proof (plan_shape ws shares) as Hs. rewrite Hp in Hs.
  destruct (plan_batch ws shares) as [batch d] eqn:Hb. simpl in Hs.
  destruct Hs as (_ & Hd & Hg & _). rewrite Hnew in Hd; subst d.
  unfold plan_batch in Hb. destruct (plan_changed ws shares) as [|x l] eqn:Hc.
  { rewrite Hold in Hb. by simplify_eq. }
  rewrite <- Hc in Hb. rewrite bool_decide_true in Hg by done.
  split; [by rewrite Hg|].
  unfold handoff_batch in Hb. destruct (_ && negb (deferred_growth ws)) eqn:Hcond; [|by simplify_eq].
  bool_simpl. match goal with Hx : existsb (λ c, f_ltb _ _) _ = true |- _ =>
    apply existsb_exists in Hx as (c & Hin%list_elem_of_In & Hgrow) end.
  rewrite reductions_first_perm in Hin. apply elem_of_filterb in Hin as [??]. by exists c.
Qed.

(** The growth a landed, deferring plan held back is still to be written. *)
Lemma held_growth_still_changed ws ws1 shares p now :
  NoDup shares.*1 → plan ws shares = (ws1, Some p) →
  deferred_growth ws = false → deferred_growth ws1 = true →
  ∃ c, c ∈ shares ∧ share_changed (last_written (landed ws1 p now)) c = true.
Proof.
  intros Hnd Hp Hold Hnew.
  destruct (plan_deferred _ _ _ _ Hp Hold Hnew) as (_ & [id share] & Hin & Hch & Hgrow).
  exists (id, share). split; [done|]. pose proof (plan_landing _ _ _ _ _ _ Hnd Hp Hin) as Hl.
  rewrite Hch, Hnew, (leb_not_ltb _ _ (ltb_leb _ _ Hgrow)) in Hl. simpl in Hl.
  pose proof (plan_shape ws shares) as Hs. rewrite Hp in Hs.
  destruct (plan_batch ws shares) as [b d]. destruct Hs as (Hlast & _).
  unfold share_changed, landed. cbn [last_written fst]. rewrite Hlast, Hl. exact Hch.
Qed.
End HeldGrowth.

(** Growth is held back for one tick at most.
    When a deferring plan has landed and the shares are unchanged on the next
    tick, that tick's plan sends every share that had not landed, completes the
    handoff and holds nothing back. *)
Theorem held_growth_goes_next_tick (ws ws1 : WriteState f64) (shares : list (string * f64)) p now :
  NoDup shares.*1 →
  plan ws shares = (ws1, Some p) →
  deferred_growth ws = false → deferred_growth ws1 = true →
  let ws2 := landed ws1 p now in
  ∃ ws3 p', plan ws2 shares = (ws3, Some p') ∧
    deferred_growth ws3 = false ∧ completes_handoff p' = true ∧
    ∀ c, c ∈ shares → share_changed (last_written ws2) c = true → c ∈ writes p'.
Proof.
  intros Hnd Hp Hold Hnew ws2.
  assert (∃ c, c ∈ shares ∧ share_changed (last_written ws2) c = true) as (c & Hc & Hch).
  { by eapply held_growth_still_changed. }
  assert (deferred_growth ws2 = true) as Hheld by done.
  pose proof (plan_shape ws2 shares) as Hs. pose proof (elem_of_plan_batch ws2 shares) as Hel.
  assert ((plan_batch ws2 shares).2 = false) as Hd.
  { unfold plan_batch. assert (c ∈ plan_changed ws2 shares) as Hcc by (by apply elem_of_filterb).
    destruct (plan_changed ws2 shares) as [|x l]; [by apply not_elem_of_nil in Hcc|].
    by rewrite Hheld, handoff_batch_after_deferral. }
  destruct (plan_batch ws2 shares) as [b d], (plan ws2 shares) as [ws3 o].
  simpl in Hd, Hel; subst d. destruct Hs as (_ & Hd3 & _ & Hw & Hcomp).
  assert (∀ s, s ∈ shares → share_changed (last_written ws2) s = true → s ∈ plan_writes o) as Hall.
  { intros s Hs1 Hs2. rewrite Hw. apply elem_of_app. left. apply Hel; [done|done|by left]. }
  destruct o as [p'|]; [|by pose proof (Hall c Hc Hch) as ?%not_elem_of_nil].
  exists ws3, p'. split_and!; [done|done| |done]. by rewrite Hcomp, Hheld by done.
Qed.

Lemma held_growth_goes_next_tick_witness :
  ∃ ws1 p ws3 p',
    plan demo_writes demo_shares = (ws1, Some p) ∧
    plan (landed ws1 p 7) demo_shares = (ws3, Some p') ∧
    deferred_growth ws3 = false ∧ completes_handoff p' = true ∧
    ("ess2"%string, of_Z 80) ∈ writes p'.
Proof.
  destruct (plan demo_writes demo_shares) as [ws1 [p|]] eqn:Hp; [|vm_compute in Hp; discriminate].
  assert (deferred_growth ws1 = true) as Hd.
  { transitivity (deferred_growth (plan demo_writes demo_shares).1); [by rewrite Hp|by vm_compute]. }
  destruct (held_growth_goes_next_tick demo_writes ws1 demo_shares p 7 demo_shares_NoDup Hp eq_refl Hd)
    as (ws3 & p' & Hp' & Hd' & Hc & Hall).
  exists ws1, p, ws3, p'. split_and!; [done|done|done|done|].
  apply Hall; [unfold demo_shares; apply elem_of_cons; right; apply elem_of_cons; by left|].
  transitivity (share_changed (last_written
    (match plan demo_writes demo_shares with (w, Some q) => landed w q 7 | (w, None) => w end))
    ("ess2"%string, of_Z 80)); [by rewrite Hp|by vm_compute].
Defined.

(** ** The life of the state *)

Section Run.
Context {F : Type} `{FloatTotal F}.
Implicit Types (ws : WriteState F) (e : event F).

(** Growth held back is always known to the gate, and a written growth has
    seen fewer than [READINGS_AFTER_GROWTH] readings. *)
Definition writes_ok ws : Prop :=
  (deferred_growth ws = true → handoff (gate ws) = Deferred) ∧
  match handoff (gate ws) with GrowthWritten _ seen => 0 <= seen < 2 | _ => True end.

Lemma take_deferred g t : handoff g = Deferred → handoff (take g t).1 = Deferred.
Proof. unfold take. cbn [fst handoff]. by intros ->. Qed.

Lemma take_ok g t :
  match handoff g with GrowthWritten _ seen => 0 <= seen < 2 | _ => True end →
  match handoff (take g t).1 with GrowthWritten _ seen => 0 <= seen < 2 | _ => True end.
Proof.
  unfold take, READINGS_AFTER_GROWTH. cbn [fst handoff].
  destruct (handoff g) as [| |at_ seen]; [done|done|].
  intros Hs. destruct (_ && _); [|done]. by destruct (Z.leb_spec 2 (seen + 1)); [|lia].
Qed.

(** A plan changes the gate only by deferring. *)
Lemma plan_gate ws shares :
  gate (plan ws shares).1 =
  (if deferred_growth (plan ws shares).1 && bool_decide (plan_changed ws shares ≠ [])
   then growth_deferred (gate ws) else gate ws) ∧
  (plan_changed ws shares = [] → deferred_growth (plan ws shares).1 = deferred_growth ws).
Proof.
  pose proof (plan_shape ws shares) as Hs. destruct (plan_batch ws shares) as [b d] eqn:Hb.
  destruct (plan ws shares) as [ws' o]. destruct Hs as (_ & <- & Hg & _).
  split; [done|]. intros Hc. unfold plan_batch in Hb. rewrite Hc in Hb. by simplify_eq.
Qed.

Lemma writes_ok_plan ws shares : writes_ok ws → writes_ok (plan ws shares).1.
Proof.
  intros [Hd Hs]. destruct (plan_gate ws shares) as [Hg Hn]. unfold writes_ok. rewrite Hg.
  destruct (deferred_growth (plan ws shares).1) eqn:Hd'; simpl.
  - case_bool_decide as Hc; [done|]. split; [|done]. intros _. apply Hd.
    rewrite <- Hn; [done|]. by destruct (plan_changed ws shares).
  - by split.
Qed.

Lemma writes_ok_landed ws shares ws' p now :
  writes_ok ws' → plan ws shares = (ws', Some p) → writes_ok (landed ws' p now).
Proof.
  intros [Hd Hs] Hp. pose proof (plan_shape ws shares) as Hsh. rewrite Hp in Hsh.
  destruct (plan_batch ws shares) as [b d]. destruct Hsh as (_ & Hdd & _ & _ & Hc).
  unfold landed, writes_ok. cbn [deferred_growth gate]. rewrite (Hc p eq_refl), <- Hdd.
  destruct (deferred_growth ws') eqn:Hws'; simpl.
  - rewrite andb_false_r. split; [by intros _; apply Hd|done].
  - rewrite andb_true_r. split; [done|]. destruct (deferred_growth ws); [|done].
    unfold growth_written. by case_bool_decide.
Qed.

Lemma writes_ok_run ws es : writes_ok ws → writes_ok (run ws es).
Proof.
  revert ws. induction es as [|e es IH]; intros ws Hok; [done|]. apply IH.
  destruct e as [t|shares landed_at]; simpl.
  - destruct Hok as [Hd Hs]. split; [|by apply take_ok].
    intros Hh. by apply take_deferred, Hd.
  - destruct (plan ws shares) as [ws' o] eqn:Hp.
    assert (writes_ok ws') as Hok' by (replace ws' with (plan ws shares).1;
      [by apply writes_ok_plan|by rewrite Hp]).
    destruct o as [p|], landed_at as [now|]; try done. by eapply writes_ok_landed.
Qed.

(** No tick of the run holds growth back. *)
Fixpoint never_defers ws (es : list (event F)) : bool :=
  match es with
  | [] => true
  | e :: es => negb (deferred_growth (on_event ws e)) && never_defers (on_event ws e) es
  end.

(** A gate that waits for a growth nobody holds back any more keeps waiting. *)
Lemma run_stuck ws es :
  deferred_growth ws = false → handoff (gate ws) = Deferred →
  never_defers ws es = true → handoff (gate (run ws es)) = Deferred.
Proof.
  revert ws. induction es as [|e es IH]; intros ws Hd Hg; [done|].
  cbn [never_defers]. intros [Hn%negb_true_iff Hns]%andb_true_iff.
  apply IH; [done| |done].
  destruct e as [t|shares landed_at]; simpl; [by apply take_deferred|]. simpl in Hn.
  pose proof (plan_shape ws shares) as Hs. destruct (plan_batch ws shares) as [b d].
  destruct (plan ws shares) as [ws' o]. destruct Hs as (_ & Hd' & Hg' & _ & Hc).
  assert (deferred_growth ws' = false) as Hws' by (by destruct o, landed_at).
  rewrite <- Hd', Hws' in Hg'. simpl in Hg'.
  destruct o as [p|], landed_at as [now|]; simpl; rewrite ?Hg'; try done.
  by rewrite (Hc p eq_refl), Hd.
Qed.
End Run.

(** In every state a task can reach, growth that is
    held back is known to the gate, which then holds the approach. *)
Theorem deferral_reaches_gate (es : list (event f64)) :
  let ws := run new_writes es in
  (deferred_growth ws → handoff (gate ws) = Deferred) ∧
  (deferred_growth ws → ∀ t, (take (gate ws) t).2.2 = true).
Proof.
  intros ws. assert (writes_ok ws) as [Hd _] by (by apply writes_ok_run).
  assert (deferred_growth ws → handoff (gate ws) = Deferred) as Hh
    by (intros ?; apply Hd; by destruct (deferred_growth ws)).
  split; [done|]. intros Hws t. specialize (Hh Hws). unfold take. cbn [fst snd]. by rewrite Hh.
Qed.

(** When the write that would complete a handoff
    fails, the gate is left waiting for a growth the state no longer knows it
    holds back: whatever is read, planned and landed afterwards, the approach
    stays on hold for as long as no new handoff defers growth. *)
Theorem failed_growth_write_sticks (ws : WriteState f64) shares es :
  deferred_growth ws = true → handoff (gate ws) = Deferred →
  deferred_growth (plan ws shares).1 = false →
  never_defers (plan ws shares).1 es = true →
  let ws' := run ws (Tick shares None :: es) in
  handoff (gate ws') = Deferred ∧ ∀ t, (take (gate ws') t).2.2 = true.
Proof.
  intros Hd Hg Hd' Hn ws'. assert (handoff (gate ws') = Deferred) as Hs.
  { unfold ws', run. cbn [foldl]. apply run_stuck.
    - cbn [on_event]. by destruct (plan ws shares) as [w [p|]].
    - cbn [on_event]. destruct (plan_gate ws shares) as [Hgate _]. rewrite Hd' in Hgate.
      simpl in Hgate. destruct (plan ws shares) as [w [p|]]; simpl in *; by rewrite Hgate.
    - cbn [on_event]. by destruct (plan ws shares) as [w [p|]]. }
  split; [done|]. intros t. unfold take. cbn [fst snd]. by rewrite Hs.
Qed.

(** The handoff of [demo_shares]: the shrink lands, the growth fails once and
    lands on the next tick; the hold is still on three fresh readings later. *)
Lemma failed_growth_write_sticks_witness :
  let ws1 := run demo_writes [Tick demo_shares (Some 10)] in
  let ws' := run ws1 [Tick demo_shares None; Tick demo_shares (Some 20);
                      PoiReading 30; PoiReading 40; PoiReading 50] in
  last_written ws' !! "ess2"%string = Some (of_Z 80) ∧
  handoff (gate ws') = Deferred ∧ ∀ t, (take (gate ws') t).2.2 = true.
Proof.
  split; [by vm_compute|].
  apply (failed_growth_write_sticks (run demo_writes [Tick demo_shares (Some 10)]) demo_shares
    [Tick demo_shares (Some 20); PoiReading 30; PoiReading 40; PoiReading 50]); by vm_compute.
Defined.
