(* ===== verification/PoiServo.v ===== *)
(** * Envelope bounds: [src/envelope/poi_servo.rs], [src/envelope/bounds.rs]
    and the per-tick inputs of [src/envelope/inputs.rs]

    [Module PoiServo] is the integrator on the measured POI headroom,
    [for_tick] the choice between it and the battery-only law.  The flow at the
    POI is positive for import, the battery's output positive for discharge. *)

From Stdlib Require Import ZArith Lia QArith Qabs Qminmax Lqa.
From S2P Require Import Prelude F64 Binary64 Exact.
Local Open Scope Z_scope.

Record EnvelopeConfig (F : Type) := mkConfig {
  ramp_rate_per_sec : F;
  hysteresis_margin : F;
  hysteresis_dwell : Z;              (* [Duration], ns *)
}.
Arguments mkConfig {F}.
Arguments ramp_rate_per_sec {F}.
Arguments hysteresis_margin {F}.
Arguments hysteresis_dwell {F}.

Record EnvelopeTick (F : Type) := mkTick {
  import_limit : option F;
  export_limit : option F;
  active_power : F;
  requested_setpoint : F;
  poi_active_power : option F;
  poi_fresh : bool;
  hold_approach : bool;
  power_min : F;
  power_max : F;
  dt : Z;
}.
Arguments mkTick {F}.
Arguments import_limit {F}.
Arguments export_limit {F}.
Arguments active_power {F}.
Arguments requested_setpoint {F}.
Arguments poi_active_power {F}.
Arguments poi_fresh {F}.
Arguments hold_approach {F}.
Arguments power_min {F}.
Arguments power_max {F}.
Arguments dt {F}.

Record Bounds (F : Type) := mkBounds {
  ceiling : F;
  floor : F;
  headroom_export : F;
  headroom_import : F;
  jumped : bool;
}.
Arguments mkBounds {F}.
Arguments ceiling {F}.
Arguments floor {F}.
Arguments headroom_export {F}.
Arguments headroom_import {F}.
Arguments jumped {F}.

Section Servo.
Context {F : Type} `{Float F} `{!FloatInf F}.
Local Open Scope flt_scope.

(** 0.1 and 0.3 per second. *)
Definition APPROACH_GAIN_PER_SEC : F := lit 1 10.
Definition VIOLATION_GAIN_PER_SEC : F := lit 3 10.

Record Limit := mkLimit { now : option F; prev : option F }.

Definition headroom (signed_poi : F) (limit : option F) : F :=
  match limit with None => f_infinity | Some l => signed_poi + l end.

Definition jump (signed_poi : F) (limit : Limit) (headroom : F) : F :=
  let before := match prev limit with None => f_infinity | Some p => signed_poi + p end in
  f_max (f_min before (of_Z 0) - f_min headroom (of_Z 0)) (of_Z 0).

Definition step (signed_poi : F) (limit : Limit) (headroom opposite : F) (dt : Z) : F :=
  match now limit with
  | None => f_infinity
  | Some _ =>
      let jump := jump signed_poi limit headroom in
      let measured := headroom + jump in
      let rate :=
        if measured >=? of_Z 0 then APPROACH_GAIN_PER_SEC * measured
        else
          let excess := - measured in
          - f_max (f_min (VIOLATION_GAIN_PER_SEC * excess)
                     (APPROACH_GAIN_PER_SEC * opposite))
              (APPROACH_GAIN_PER_SEC * excess) in
      rate * as_secs dt - jump
  end.

Definition bounds (u p_poi : F) (import export : Limit) (dt : Z) : Bounds F :=
  let headroom_export := headroom p_poi (now export) in
  let headroom_import := headroom (- p_poi) (now import) in
  let up := step p_poi export headroom_export headroom_import dt in
  let down := step (- p_poi) import headroom_import headroom_export dt in
  let export_jumped := jump p_poi export headroom_export >? of_Z 0 in
  let import_jumped := jump (- p_poi) import headroom_import >? of_Z 0 in
  let ceiling := u + up in
  let floor := u - down in
  let '(ceiling, floor) :=
    if floor >? ceiling then
      if import_jumped && negb export_jumped then (floor, floor) else (ceiling, ceiling)
    else (ceiling, floor) in
  mkBounds ceiling floor headroom_export headroom_import (export_jumped || import_jumped).

Definition for_tick (u : F) (prev_limits : option F * option F) (t : EnvelopeTick F) : Bounds F :=
  match poi_active_power t with
  | Some p_poi =>
      let dt := if poi_fresh t then dt t else 0%Z in
      let import := mkLimit (import_limit t) prev_limits.1 in
      let export := mkLimit (export_limit t) prev_limits.2 in
      let b := bounds u p_poi import export dt in
      if hold_approach t then
        let ceiling := if u >=? of_Z 0 then f_min (ceiling b) u else ceiling b in
        let floor := if u >=? of_Z 0 then floor b else f_max (floor b) u in
        mkBounds ceiling (f_min floor ceiling) (headroom_export b) (headroom_import b) (jumped b)
      else b
  | None =>
      let ceiling := match export_limit t with Some e => e | None => f_infinity end in
      let floor := match import_limit t with Some i => - i | None => - f_infinity end in
      mkBounds ceiling floor (ceiling - active_power t) (active_power t - floor) false
  end.
End Servo.
Arguments Limit : clear implicits.

(** ** Laws that hold on every float type *)

Section Laws.
Context {F : Type} `{FloatOrd F} `{!FloatInf F}.

(** The servo's bounds are never crossed. *)
Lemma bounds_ordered (u p_poi : F) import export dt :
  f_ltb (ceiling (bounds u p_poi import export dt)) (floor (bounds u p_poi import export dt))
    = false.
Proof.
  unfold bounds. destruct (f_ltb (_ + step p_poi _ _ _ _)%F _) eqn:Hx.
  - destruct (_ && _); simpl; apply ltb_irrefl.
  - exact Hx.
Qed.

Lemma hold_approach_caps (u : F) prev_limits t p :
  poi_active_power t = Some p → hold_approach t = true → f_leb (of_Z 0) u = true →
  f_leb (ceiling (for_tick u prev_limits t)) u = true.
Proof.
  intros Hp Hh Hu. unfold for_tick. rewrite Hp, Hh, Hu. simpl.
  apply min_le_r. by eapply leb_nan_r.
Qed.

(** On a re-used reading (no elapsed time) only a jump moves a bound. *)
Lemma for_tick_headrooms (u : F) prev_limits t p :
  poi_active_power t = Some p →
  headroom_export (for_tick u prev_limits t) = headroom p (export_limit t) ∧
  headroom_import (for_tick u prev_limits t) = headroom (f_opp p) (import_limit t).
Proof.
  intros Hp. unfold for_tick. rewrite Hp.
  destruct (hold_approach t); simpl; unfold bounds; simpl;
    destruct (f_ltb _ _); try done; by destruct (_ && _).
Qed.
End Laws.

(** ** The servo without rounding

    [inf] stands for [f64::INFINITY]; with both limits known it plays no part. *)

Section Exact.
Variable inf : Q.
#[local] Instance Q_inf : FloatInf Q := inf.
Local Open Scope Q_scope.

Lemma Q_max_cases (x y : Q) :
  (f_max x y = x ∧ y <= x) ∨ (f_max x y = y ∧ x <= y).
Proof.
  unfold f_max, f_nan. simpl. rewrite Qle_bool_refl. simpl.
  destruct (Qltb x y) eqn:Hxy; [right|left]; (split; [done|]).
  - apply Qltb_true in Hxy. lra.
  - by apply Qltb_false in Hxy.
Qed.

Lemma Q_min_cases (x y : Q) :
  (f_min x y = x ∧ x <= y) ∨ (f_min x y = y ∧ y <= x).
Proof.
  unfold f_min, f_nan. simpl. rewrite Qle_bool_refl. simpl.
  destruct (Qltb y x) eqn:Hxy; [right|left]; (split; [done|]).
  - apply Qltb_true in Hxy. lra.
  - by apply Qltb_false in Hxy.
Qed.

Lemma Q_as_secs (ns : Z) :
  (0 <= ns <= 10 * 1000000000)%Z → 0 <= (as_secs ns : Q) <= 10.
Proof.
  intros Hns. unfold as_secs. simpl.
  assert ((inject_Z (ns / 1000000000) + inject_Z (ns mod 1000000000) / inject_Z 1000000000)
    == inject_Z ns / inject_Z 1000000000) as ->.
  { rewrite (Z_div_mod_eq_full ns 1000000000) at 3. rewrite inject_Z_plus, inject_Z_mult.
    field. }
  destruct Hns as [H0 H1]. rewrite Zle_Qle in H0, H1. rewrite inject_Z_mult in H1.
  change (inject_Z 0) with 0 in H0. change (inject_Z 10) with 10 in H1.
  split; [apply Qle_shift_div_l|apply Qle_shift_div_r]; [done|lra|done|done].
Qed.

(** Split a [jump] on what its [min]s and [max] select. *)
Ltac jump_cases s p l :=
  change (of_Z 0) with 0; change f_add with Qplus in *; change f_sub with Qminus in *;
  destruct (Q_min_cases (s + p) 0) as [[E1 H1]|[E1 H1]],
    (Q_min_cases (s + l) 0) as [[E2 H2]|[E2 H2]]; rewrite E1, E2;
  match goal with |- context [f_max ?x 0] =>
    destruct (Q_max_cases x 0) as [[E3 H3]|[E3 H3]]; rewrite E3 end.

(** A limit that was met before: a tick moves the output by no more than the
    headroom there is now, a violation the tightening created included. *)
Lemma step_within_headroom (s : Q) (p : Q) l opposite dt :
  (0 <= dt <= 10 * 1000000000)%Z → 0 <= s + p →
  step s (mkLimit (Some l) (Some p)) (headroom s (Some l)) opposite dt <= s + l.
Proof.
  intros Hdt%Q_as_secs Hp. unfold step, headroom, jump. cbn [now prev].
  set (secs := as_secs dt) in *. clearbody secs.
  jump_cases s p l.
  all: match goal with |- context [f_leb 0 ?m] =>
         destruct (f_leb 0 m) eqn:Hm; [apply Qle_bool_iff in Hm|apply Qle_bool_false in Hm] end.
  all: unfold APPROACH_GAIN_PER_SEC, lit; simpl; change (inject_Z 1 / inject_Z 10) with (1 # 10).
  all: try nra.
Qed.

(** Within both limits the servo never asks to back off. *)
Lemma step_nonneg (s p l opposite : Q) dt :
  (0 <= dt <= 10 * 1000000000)%Z → 0 <= s + p → 0 <= s + l →
  0 <= step s (mkLimit (Some l) (Some p)) (headroom s (Some l)) opposite dt.
Proof.
  intros Hdt%Q_as_secs Hp Hl. unfold step, headroom, jump. cbn [now prev].
  set (secs := as_secs dt) in *. clearbody secs.
  jump_cases s p l.
  all: match goal with |- context [f_leb 0 ?m] =>
         destruct (f_leb 0 m) eqn:Hm; [apply Qle_bool_iff in Hm|apply Qle_bool_false in Hm] end.
  all: unfold APPROACH_GAIN_PER_SEC, lit; simpl; change (inject_Z 1 / inject_Z 10) with (1 # 10).
  all: try nra.
Qed.

(** A limit that is met now has not jumped. *)
Lemma met_not_jumped (s p l : Q) :
  0 <= s + p → 0 <= s + l →
  Qltb 0 (jump s (mkLimit (Some l) (Some p)) (headroom s (Some l))) = false.
Proof.
  intros Hp Hl. apply Qltb_false. unfold jump, headroom. cbn [prev].
  jump_cases s p l; lra.
Qed.

(** A limit that was met and no longer is has. *)
Lemma unmet_jumped (s p l : Q) :
  0 <= s + p → s + l < 0 →
  Qltb 0 (jump s (mkLimit (Some l) (Some p)) (headroom s (Some l))) = true.
Proof.
  intros Hp Hl. apply Qltb_true. unfold jump, headroom. cbn [prev].
  jump_cases s p l; lra.
Qed.
End Exact.

Section OneStep.
Variable inf : Q.
Local Open Scope Q_scope.

(** C4: one tick of the servo, in exact rational arithmetic,
    on a fresh reading that met both limits as they were on the previous tick, at
    most 10 s after it and with the site load unchanged. Whatever output [v] inside
    the tick's bounds the battery moves to from [u], the POI ends within the export
    limit, a tightening of it on this very tick included, provided the import limit
    is not violated by the reading; and symmetrically for import. So from a POI
    inside its limits an approach never overshoots, and a limit tightened on this
    tick is met in one step. A POI that was already past a limit comes back over
    several ticks instead (see [violation_fades]). *)
Theorem servo_keeps_poi_inside (u p e pe i pi v : Q) (dt : Z) :
  (0 <= dt <= 10 * 1000000000)%Z →
  0 <= p + pe → 0 <= - p + pi →
  let b := @bounds Q Q_Float inf u p (mkLimit (Some i) (Some pi)) (mkLimit (Some e) (Some pe)) dt in
  floor b <= v <= ceiling b →
  let p' := p - (v - u) in
  (0 <= - p + i → 0 <= p' + e) ∧ (0 <= p + e → 0 <= - p' + i).
Proof.
  intros Hdt Hpe Hpi b Hv p'.
  pose proof (step_within_headroom inf p pe e (- p + i) dt Hdt Hpe) as Hup.
  pose proof (step_within_headroom inf (- p) pi i (p + e) dt Hdt Hpi) as Hdown.
  pose proof (λ H, step_nonneg inf p pe e (- p + i) dt Hdt Hpe H) as Hup0.
  pose proof (λ H, step_nonneg inf (- p) pi i (p + e) dt Hdt Hpi H) as Hdown0.
  pose proof (met_not_jumped inf p pe e Hpe) as Hej.
  pose proof (met_not_jumped inf (- p) pi i Hpi) as Hij.
  pose proof (unmet_jumped inf (- p) pi i Hpi) as Hiu.
  unfold bounds in b; cbn [now prev f_opp f_ltb Q_Float] in b.
  change (@headroom Q Q_Float inf p (Some e)) with (p + e) in *.
  change (@headroom Q Q_Float inf (- p) (Some i)) with (- p + i) in *.
  change (of_Z 0) with 0 in b. cbn [f_add f_sub Q_Float] in b.
  set (up := step p _ _ _ _) in *. set (down := step (- p) _ _ _ _) in *.
  set (ej := Qltb 0 (jump p _ _)) in *. set (ij := Qltb 0 (jump (- p) _ _)) in *.
  clearbody up down ej ij. unfold b in Hv; clear b.
  destruct (Qltb (u + up) (u - down)) eqn:Hx;
    [apply Qltb_true in Hx|apply Qltb_false in Hx]; cbn [ceiling floor] in Hv.
  - split; intros Hok.
    + rewrite (Hij Hok) in Hv. simpl in Hv. unfold p'. lra.
    + rewrite (Hej Hok), andb_true_r in Hv. specialize (Hup0 Hok).
      destruct ij; simpl in Hv; [unfold p'; lra|].
      destruct (Qlt_le_dec (- p + i) 0) as [Hbad|Hgood].
      * by specialize (Hiu Hbad).
      * specialize (Hdown0 Hgood). lra.
  - split; intros _; unfold p'; lra.
Qed.
End OneStep.

Lemma servo_keeps_poi_inside_witness :
  (0 <= -40 - (100.5 - 100) + 45)%Q ∧ (0 <= - (-40 - (100.5 - 100)) + 200)%Q.
Proof.
  destruct (servo_keeps_poi_inside 1000000 100 (-40) 50 45 250 200 100.5 1000000000)
    as [Hexport Himport].
  - done.
  - by apply Qle_bool_iff.
  - by apply Qle_bool_iff.
  - split; apply Qle_bool_iff; by vm_compute.
  - split; [apply Hexport|apply Himport]; by apply Qle_bool_iff.
Defined.

(** The servo on [f64]: 5 W of export headroom raise the ceiling by 0.5 W in a
    second; a tightening by 30 W takes off 25 W, the violation it creates. *)
Example servo_f64 :
  ceiling (bounds (of_Z 100 : f64) (of_Z (-40)) (mkLimit (Some (of_Z 200)) (Some (of_Z 200)))
    (mkLimit (Some (of_Z 45)) (Some (of_Z 45))) 1000000000) = lit 1005 10 ∧
  ceiling (bounds (of_Z 100 : f64) (of_Z (-40)) (mkLimit (Some (of_Z 200)) (Some (of_Z 200)))
    (mkLimit (Some (of_Z 15)) (Some (of_Z 45))) 1000000000) = of_Z 75.
Proof. split; by vm_compute. Qed.
