(* ===== verification/ControlLaw.v ===== *)
(** * Envelope control law: [src/envelope/control_law.rs],
    [src/envelope/anti_windup.rs] and [src/envelope/stale.rs]

    The controller is passed as a value; [None] is a panic (a [clamp] with
    crossed bounds, a [Duration] overflow, the [unreachable!] arm). *)

From Stdlib Require Import ZArith Lia QArith Qabs Qminmax Lqa.
From S2P Require Import Prelude F64 Binary64 Exact PoiServo.
Local Open Scope Z_scope.

Definition JUMP_HOLD_READINGS : Z := 3.

Inductive Mode := Normal | Constrained | Ramping.

#[export] Instance Mode_eq_dec : EqDecision Mode.
Proof. solve_decision. Defined.

(** [Duration + Duration]: panics past [Duration::MAX]. *)
Definition duration_add (a b : Z) : option Z :=
  if max_duration <? a + b then None else Some (a + b).

Section ControlLaw.
Context {F : Type} `{Float F} `{!FloatInf F}.
Local Open Scope flt_scope.

Record EnvelopeController := mkController {
  mode : Mode;
  dwell_elapsed : Z;
  current_output : F;
  config : EnvelopeConfig F;
  prev_limits : option F * option F;
  jump_hold : Z;
}.

Definition new_controller (config : EnvelopeConfig F) (initial_output : F) :=
  mkController Normal 0 initial_output config (None, None) 0.

Definition set_mode (c : EnvelopeController) (m : Mode) (dwell : Z) : EnvelopeController :=
  mkController m dwell (current_output c) (config c) (prev_limits c) (jump_hold c).

(** [write]. *)
Definition write (c : EnvelopeController) (value : F) : EnvelopeController * option F :=
  if f_abs (value - current_output c) <? f_epsilon then (c, None)
  else (mkController (mode c) (dwell_elapsed c) value (config c) (prev_limits c) (jump_hold c),
        Some value).

(** The input with its reading held while the meter still shows the violation
    a jump took off, and the readings left to hold. *)
Definition hold_reading (c : EnvelopeController) (input : EnvelopeTick F)
    : EnvelopeTick F * Z :=
  if (0 <? jump_hold c)%Z && poi_fresh input then
    (mkTick (import_limit input) (export_limit input) (active_power input)
       (requested_setpoint input) (poi_active_power input) false (hold_approach input)
       (power_min input) (power_max input) (dt input), (jump_hold c - 1)%Z)
  else (input, jump_hold c).

Definition tick_bounds (c : EnvelopeController) (input : EnvelopeTick F) : Bounds F :=
  for_tick (current_output c) (prev_limits c) (hold_reading c input).1.

(** The bounds, never past the module's own rating. *)
Definition tick_ceiling (c : EnvelopeController) (input : EnvelopeTick F) : F :=
  f_min (ceiling (tick_bounds c input)) (power_max input).
Definition tick_floor (c : EnvelopeController) (input : EnvelopeTick F) : F :=
  f_min (f_max (floor (tick_bounds c input)) (power_min input)) (tick_ceiling c input).

(** The [Mode::Constrained] block: count the dwell while the side the ramp
    moves toward has margin; leave for [Ramping] once it is long enough. *)
Definition recover (c : EnvelopeController) (input : EnvelopeTick F) (b : Bounds F)
    (target : F) : option EnvelopeController :=
  let margin_export := hysteresis_margin (config c) * power_max input in
  let margin_import := hysteresis_margin (config c) * f_abs (power_min input) in
  let clear := if target <? current_output c then headroom_import b >=? margin_import
               else headroom_export b >=? margin_export in
  if clear then
    dwell ← duration_add (dwell_elapsed c) (dt input);
    Some (set_mode c (if (hysteresis_dwell (config c) <=? dwell)%Z then Ramping else Constrained) dwell)
  else Some (set_mode c Constrained 0).

(** The final [match self.mode]. *)
Definition drive (c : EnvelopeController) (input : EnvelopeTick F) (target : F)
    : option (EnvelopeController * option F) :=
  match mode c with
  | Normal => Some (write c target)
  | Ramping =>
      let delta := target - current_output c in
      let rated := if delta >=? of_Z 0 then power_max input else f_abs (power_min input) in
      let max_step := ramp_rate_per_sec (config c) * rated * as_secs (dt input) in
      if f_abs delta <=? max_step
      then Some (write (set_mode c Normal (dwell_elapsed c)) target)
      else Some (write c (current_output c + max_step * f_signum delta))
  | Constrained => None
  end.

(** [EnvelopeController::tick]. *)
Definition tick (c0 : EnvelopeController) (input : EnvelopeTick F)
    : option (EnvelopeController * option F) :=
  let b := tick_bounds c0 input in
  let ceiling := tick_ceiling c0 input in
  let floor := tick_floor c0 input in
  let c := mkController (mode c0) (dwell_elapsed c0) (current_output c0) (config c0)
             (import_limit input, export_limit input)
             (if jumped b then JUMP_HOLD_READINGS else (hold_reading c0 input).2) in
  target ← f_clamp (requested_setpoint input) floor ceiling;
  if (headroom_export b <=? of_Z 0) || (headroom_import b <=? of_Z 0)
  then Some (write (set_mode c Constrained 0) target)
  else if bool_decide (mode c = Constrained) then
    c' ← recover c input b target;
    if bool_decide (mode c' = Constrained) then Some (c', None)
    else drive c' input target
  else drive c input target.

(** [sync_to_delivered]. *)
Definition sync_to_delivered (c : EnvelopeController) (delivered : F) : EnvelopeController :=
  mkController (mode c) (dwell_elapsed c) delivered (config c) (prev_limits c) (jump_hold c).

(** [stale::ramp_to_zero]. *)
Definition ramp_to_zero (c : EnvelopeController) (power_min power_max : F) (dt : Z)
    : EnvelopeController :=
  let u := current_output c in
  let rated := if u >? of_Z 0 then power_max else f_abs power_min in
  let step := ramp_rate_per_sec (config c) * rated * as_secs dt in
  sync_to_delivered c (if f_abs u <=? step then of_Z 0 else u - step * f_signum u).
End ControlLaw.
Arguments EnvelopeController : clear implicits.

(** ** What a tick does *)

Section TickFacts.
Context {F : Type} `{FloatOrd F} `{!FloatInf F}.
Implicit Types (c : EnvelopeController F) (t : EnvelopeTick F).

(** The bounds a tick clamps to are ordered, whatever the readings are. *)
Lemma tick_bounds_ordered c t :
  f_nan (power_max t) = false →
  f_leb (tick_floor c t) (tick_ceiling c t) = true ∧
  f_leb (tick_ceiling c t) (power_max t) = true.
Proof.
  intros Hp. unfold tick_floor, tick_ceiling. split; [|by apply min_le_r].
  apply min_le_r. rewrite min_nan, Hp. by rewrite andb_false_r.
Qed.

Lemma write_mode c v : mode (write c v).1 = mode c ∧ dwell_elapsed (write c v).1 = dwell_elapsed c.
Proof. unfold write. by destruct (f_ltb _ _). Qed.

Lemma write_output c v c' o :
  write c v = (c', o) →
  (o = Some v ∧ current_output c' = v) ∨
  (o = None ∧ c' = c ∧ f_ltb (f_abs (f_sub v (current_output c))) f_epsilon = true).
Proof. unfold write. destruct (f_ltb _ _) eqn:Hx; intros [= <- <-]; [right|left]; done. Qed.

Lemma recover_Some c t b target :
  0 <= dwell_elapsed c + dt t <= max_duration →
  is_Some (recover c t b target).
Proof.
  intros Hd. unfold recover. destruct (if f_ltb _ _ then _ else _); [|by eexists].
  unfold duration_add. destruct (Z.ltb_spec max_duration (dwell_elapsed c + dt t)); [lia|].
  by eexists.
Qed.

(** Leaving [Constrained] means the dwell is complete. *)
Lemma recover_dwell c t b target c' :
  recover c t b target = Some c' →
  let clear := if f_ltb target (current_output c)
    then f_leb (f_mul (hysteresis_margin (config c)) (f_abs (power_min t))) (headroom_import b)
    else f_leb (f_mul (hysteresis_margin (config c)) (power_max t)) (headroom_export b) in
  (clear = true ∧ mode c' = Ramping ∧ hysteresis_dwell (config c) <= dwell_elapsed c + dt t) ∨
  (clear = true ∧ mode c' = Constrained ∧ dwell_elapsed c' = dwell_elapsed c + dt t) ∨
  (mode c' = Constrained ∧ dwell_elapsed c' = 0).
Proof.
  unfold recover. cbv zeta. destruct (if f_ltb _ _ then _ else _).
  - unfold duration_add. destruct (Z.ltb_spec max_duration (dwell_elapsed c + dt t)); [done|].
    simpl. destruct (Z.leb_spec (hysteresis_dwell (config c)) (dwell_elapsed c + dt t));
      intros [= <-]; [by left|by right; left].
  - intros [= <-]. by right; right.
Qed.

Lemma recover_same c t b target c' :
  recover c t b target = Some c' →
  current_output c' = current_output c ∧ config c' = config c ∧ mode c' ≠ Normal.
Proof.
  unfold recover. destruct (if f_ltb _ _ then _ else _).
  - unfold duration_add. destruct (Z.ltb_spec max_duration (dwell_elapsed c + dt t)); [done|].
    simpl. destruct (Z.leb_spec (hysteresis_dwell (config c)) (dwell_elapsed c + dt t));
      by intros [= <-].
  - by intros [= <-].
Qed.

Lemma drive_output c t target c' o :
  drive c t target = Some (c', o) → mode c' ≠ Ramping →
  (o = Some target ∧ current_output c' = target) ∨ (o = None ∧ current_output c' = current_output c).
Proof.
  unfold drive. destruct (mode c) eqn:Hm; [|done|].
  - intros [= Hw] _. apply write_output in Hw as [?|(-> & -> & _)]; auto.
  - destruct (f_leb _ _).
    + intros [= Hw] _. apply write_output in Hw as [?|(-> & -> & _)]; auto.
    + intros [= Hw] Hr. pose proof (write_mode c (f_add (current_output c)
        (f_mul (f_mul (f_mul (ramp_rate_per_sec (config c))
           (if f_leb (of_Z 0) (f_sub target (current_output c)) then power_max t else f_abs (power_min t)))
           (as_secs (dt t))) (f_signum (f_sub target (current_output c)))))) as [Hmode _].
      rewrite Hw in Hmode. simpl in Hmode. congruence.
Qed.

(** A tick that does not end in the middle of a ramp writes its clamped
    target or nothing. *)
Lemma tick_output c t c' o :
  tick c t = Some (c', o) → mode c' ≠ Ramping →
  ∃ target, f_clamp (requested_setpoint t) (tick_floor c t) (tick_ceiling c t) = Some target ∧
    ((o = Some target ∧ current_output c' = target) ∨
     (o = None ∧ current_output c' = current_output c)).
Proof.
  unfold tick. destruct (f_clamp _ _ _) as [target|]; simpl; [|done].
  intros Ht Hr. exists target. split; [done|].
  destruct (f_leb _ _ || _).
  { injection Ht as Hw. apply write_output in Hw as [?|(-> & -> & _)]; auto. }
  destruct (bool_decide (mode c = Constrained)); [|by apply (drive_output _ _ _ _ _ Ht)].
  destruct (recover _ _ _ _) as [c1|] eqn:Hrec; simpl in Ht; [|done].
  apply recover_same in Hrec as (Hcur & _ & _). simpl in Hcur.
  destruct (bool_decide (mode c1 = Constrained)).
  - injection Ht as <- <-. by right.
  - rewrite <- Hcur. by apply (drive_output _ _ _ _ _ Ht).
Qed.

Lemma tick_violation c t c' o :
  tick c t = Some (c', o) →
  f_leb (headroom_export (tick_bounds c t)) (of_Z 0) = true ∨
  f_leb (headroom_import (tick_bounds c t)) (of_Z 0) = true →
  ∃ target, f_clamp (requested_setpoint t) (tick_floor c t) (tick_ceiling c t) = Some target ∧
    mode c' = Constrained ∧ dwell_elapsed c' = 0 ∧
    ((o = Some target ∧ current_output c' = target) ∨
     (o = None ∧ current_output c' = current_output c ∧
      f_ltb (f_abs (f_sub target (current_output c))) f_epsilon = true)).
Proof.
  unfold tick. destruct (f_clamp _ _ _) as [target|]; simpl; [|done].
  intros Ht Hv. exists target. split; [done|].
  apply orb_true_iff in Hv. rewrite Hv in Ht. injection Ht as Hw.
  match type of Hw with write ?c1 ?v = _ => pose proof (write_mode c1 v) as [Hm Hd] end.
  rewrite Hw in Hm, Hd. split; [done|]. split; [done|].
  apply write_output in Hw as [?|(-> & -> & ?)]; auto.
Qed.

Lemma drive_total c t target : mode c ≠ Constrained → is_Some (drive c t target).
Proof.
  unfold drive. destruct (mode c); [by eexists|done|]. intros _. destruct (f_leb _ _); by eexists.
Qed.

Lemma tick_total c t :
  f_nan (power_max t) = false → 0 <= dwell_elapsed c + dt t <= max_duration →
  is_Some (tick c t).
Proof.
  intros Hp Hd. unfold tick.
  destruct (clamp_Some (requested_setpoint t) _ _ (proj1 (tick_bounds_ordered c t Hp))) as [target ->].
  simpl. destruct (f_leb _ _ || _); [by eexists|].
  case_bool_decide as Hm; [|by apply drive_total].
  match goal with |- context [recover ?c1 t ?b target] =>
    destruct (recover_Some c1 t b target Hd) as [c2 Hc2]; rewrite Hc2 end.
  simpl. case_bool_decide; [by eexists|by apply drive_total].
Qed.
End TickFacts.

(** C35: a tick never panics, whatever the readings, limits and
    earlier state are (NaN included), as long as the module's rating is a
    number and the dwell timer does not overflow a [Duration]. *)
Theorem tick_never_panics (c : EnvelopeController f64) (t : EnvelopeTick f64) :
  f_nan (power_max t) = false → 0 <= dwell_elapsed c + dt t <= max_duration →
  is_Some (tick c t).
Proof. apply tick_total. Qed.

Definition demo_config : EnvelopeConfig f64 := mkConfig (lit 1 10) (lit 5 100) 5000000000.
(** Battery-only tick: limits, reading, request; rated -100..100, 1 s. *)
Definition demo_tick (import export : option Z) (active requested : Z) : EnvelopeTick f64 :=
  mkTick (of_Z <$> import) (of_Z <$> export) (of_Z active) (of_Z requested) None true false
    (of_Z (-100)) (of_Z 100) 1000000000.

Lemma tick_never_panics_witness :
  is_Some (tick (new_controller demo_config (of_Z 80))
    (mkTick (Some PrimFloat.nan) (Some PrimFloat.nan) PrimFloat.nan PrimFloat.nan
       (Some PrimFloat.nan) true true PrimFloat.nan (of_Z 100) 1000000000)).
Proof. apply tick_never_panics; [by vm_compute|split; by vm_compute]. Defined.

(** C3: from any mode, a tick that sees no headroom
    left on either side enters [Constrained] with a fresh dwell and puts the
    output, without a ramp, at the request clamped to the tick's bounds (or
    leaves it there, within [f64::EPSILON]); that value is inside the bounds
    and not above the module's rating. *)
Theorem violation_clamps_at_once (c c' : EnvelopeController f64) (t : EnvelopeTick f64) o :
  f_nan (power_max t) = false → f_nan (requested_setpoint t) = false →
  tick c t = Some (c', o) →
  f_leb (headroom_export (tick_bounds c t)) (of_Z 0) = true ∨
  f_leb (headroom_import (tick_bounds c t)) (of_Z 0) = true →
  mode c' = Constrained ∧ dwell_elapsed c' = 0 ∧
  ∃ target, f_clamp (requested_setpoint t) (tick_floor c t) (tick_ceiling c t) = Some target ∧
    f_leb (tick_floor c t) target = true ∧ f_leb target (tick_ceiling c t) = true ∧
    f_leb target (power_max t) = true ∧
    (current_output c' = target ∨
     current_output c' = current_output c ∧
     f_ltb (f_abs (f_sub target (current_output c))) f_epsilon = true).
Proof.
  intros Hp Hr Ht Hv.
  destruct (tick_violation c t c' o Ht Hv) as (target & Hc & Hm & Hd & Ho).
  split; [done|]. split; [done|]. exists target. split; [done|].
  destruct (clamp_bounds _ _ _ _ Hc Hr) as [Hlo Hhi].
  destruct (tick_bounds_ordered c t Hp) as [_ Hmax].
  split_and!; [done|done|by eapply ford_trans|]. destruct Ho as [[_ ?]|(_ & ? & ?)]; auto.
Qed.

(** A battery discharging 80 W when the export limit drops to 50 W. *)
Lemma violation_clamps_at_once_witness :
  ∃ c' o, tick (new_controller demo_config (of_Z 80)) (demo_tick (Some 100) (Some 50) 80 80)
            = Some (c', o) ∧
    mode c' = Constrained ∧ dwell_elapsed c' = 0 ∧
    ∃ target, f_clamp (of_Z 80)
        (tick_floor (new_controller demo_config (of_Z 80)) (demo_tick (Some 100) (Some 50) 80 80))
        (tick_ceiling (new_controller demo_config (of_Z 80)) (demo_tick (Some 100) (Some 50) 80 80))
        = Some target ∧ target = of_Z 50.
Proof.
  destruct (tick (new_controller demo_config (of_Z 80)) (demo_tick (Some 100) (Some 50) 80 80))
    as [[c' o]|] eqn:Ht; [|vm_compute in Ht; discriminate].
  exists c', o. split; [done|].
  destruct (violation_clamps_at_once (new_controller demo_config (of_Z 80)) c'
    (demo_tick (Some 100) (Some 50) 80 80) o) as (Hm & Hd & target & Hc & _);
    [by vm_compute|by vm_compute|done|left; by vm_compute|].
  split; [done|]. split; [done|]. exists target. split; [done|].
  vm_compute in Hc. injection Hc as <-. by vm_compute.
Defined.

(** C2: a value a tick writes, unless it is a step in the
    middle of a recovery ramp, lies inside that tick's bounds and is not above
    the module's rating, and is what the controller then believes the device
    holds. *)
Theorem written_within_bounds (c c' : EnvelopeController f64) (t : EnvelopeTick f64) v :
  f_nan (power_max t) = false → f_nan (requested_setpoint t) = false →
  tick c t = Some (c', Some v) → mode c' ≠ Ramping →
  f_leb (tick_floor c t) v = true ∧ f_leb v (tick_ceiling c t) = true ∧
  f_leb v (power_max t) = true ∧ current_output c' = v.
Proof.
  intros Hp Hr Ht Hm.
  destruct (tick_output c t c' _ Ht Hm) as (target & Hc & [[[= ->] Hcur]|[? _]]); [|done].
  destruct (clamp_bounds _ _ _ _ Hc Hr) as [Hlo Hhi].
  destruct (tick_bounds_ordered c t Hp) as [_ Hmax].
  split_and!; [done|done|by eapply ford_trans|done].
Qed.

Lemma written_within_bounds_witness :
  tick (new_controller demo_config (of_Z 0)) (demo_tick None (Some 50) 0 80)
    = Some (mkController Normal 0 (of_Z 50) demo_config (None, Some (of_Z 50)) 0, Some (of_Z 50)) ∧
  f_leb (of_Z 50) (tick_ceiling (new_controller demo_config (of_Z 0)) (demo_tick None (Some 50) 0 80))
    = true.
Proof.
  split; [by vm_compute|].
  apply (written_within_bounds (new_controller demo_config (of_Z 0))
    (mkController Normal 0 (of_Z 50) demo_config (None, Some (of_Z 50)) 0)); by vm_compute.
Defined.

(** The step of a ramp that is not its last is not clamped: with the battery's
    reading lagging its output, an export limit lowered to 50 W while the ramp
    is on lets the tick write 70 W. *)
Definition ramping_at_80 : EnvelopeController f64 :=
  mkController Ramping 5000000000 (of_Z 80) demo_config (None, None) 0.

(** The intermediate step of a recovery ramp is not
    clamped to the tick's bounds: with the export limit at 50 W and a battery
    reading (40 W) that lags the commanded 80 W, the tick writes 70 W, above
    its own ceiling of 50 W. *)
Theorem ramp_step_past_limit :
  let t := demo_tick None (Some 50) 40 80 in
  tick_ceiling ramping_at_80 t = of_Z 50 ∧
  (option_map snd (tick ramping_at_80 t)) = Some (Some (of_Z 70)) ∧
  f_ltb (tick_ceiling ramping_at_80 t) (of_Z 70) = true.
Proof. split_and!; by vm_compute. Qed.

(** ** The dwell *)

Section Dwell.
Context {F : Type} `{FloatOrd F} `{!FloatInf F}.
Implicit Types (c : EnvelopeController F) (t : EnvelopeTick F).

(** A sequence of ticks, none of which panics. *)
Fixpoint run_ticks c (ts : list (EnvelopeTick F)) : option (EnvelopeController F) :=
  match ts with
  | [] => Some c
  | t :: ts => '(c', _) ← tick c t; run_ticks c' ts
  end.

Definition elapsed (ts : list (EnvelopeTick F)) : Z := foldr (λ t a, dt t + a) 0 ts.

Lemma drive_config c t target c' o : drive c t target = Some (c', o) → config c' = config c.
Proof.
  unfold drive, write. destruct (mode c); [|done|destruct (f_leb _ _)];
    destruct (f_ltb _ _); by intros [= <- _].
Qed.

(** A tick that meets both limits, with the hysteresis margin on the side the
    output would move to. *)
Definition clear_tick c t : bool :=
  let b := tick_bounds c t in
  negb (f_leb (headroom_export b) (of_Z 0)) && negb (f_leb (headroom_import b) (of_Z 0)) &&
  match f_clamp (requested_setpoint t) (tick_floor c t) (tick_ceiling c t) with
  | Some target =>
      if f_ltb target (current_output c)
      then f_leb (f_mul (hysteresis_margin (config c)) (f_abs (power_min t))) (headroom_import b)
      else f_leb (f_mul (hysteresis_margin (config c)) (power_max t)) (headroom_export b)
  | None => false
  end.

(** Each of the ticks is one, from [c] on. *)
Fixpoint all_clear c (ts : list (EnvelopeTick F)) : bool :=
  match ts with
  | [] => true
  | t :: ts => clear_tick c t && match tick c t with Some (c', _) => all_clear c' ts | None => false end
  end.

(** One tick in [Constrained]: the timer grows by the elapsed time of a clear
    tick or starts again, and the mode is left only when it is complete. *)
Lemma tick_constrained c t c' o :
  mode c = Constrained → tick c t = Some (c', o) →
  config c' = config c ∧
  ((clear_tick c t = true ∧ hysteresis_dwell (config c) <= dwell_elapsed c + dt t) ∨
   (clear_tick c t = true ∧ mode c' = Constrained ∧ dwell_elapsed c' = dwell_elapsed c + dt t) ∨
   (mode c' = Constrained ∧ dwell_elapsed c' = 0)).
Proof.
  intros Hm. unfold tick, clear_tick. cbv zeta. destruct (f_clamp _ _ _) as [target|]; simpl; [|done].
  destruct (f_leb (headroom_export _) _); simpl.
  { unfold write. destruct (f_ltb _ _); intros [= <- _]; simpl; split; auto. }
  destruct (f_leb (headroom_import _) _); simpl.
  { unfold write. destruct (f_ltb _ _); intros [= <- _]; simpl; split; auto. }
  rewrite Hm. rewrite bool_decide_true by done.
  destruct (recover _ _ _ _) as [c1|] eqn:Hrec; simpl; [|done].
  pose proof (recover_same _ _ _ _ _ Hrec) as (_ & Hcfg & _).
  apply recover_dwell in Hrec. cbv zeta in Hrec. simpl in Hrec, Hcfg.
  case_bool_decide as Hm1; intros Ht.
  - simplify_eq. split; [done|]. right. destruct Hrec as [(_ & ? & _)|[?|?]]; [congruence|by left|by right].
  - split; [by rewrite (drive_config _ _ _ _ _ Ht)|].
    destruct Hrec as [(? & _ & ?)|[(_ & ? & _)|[? _]]]; [by left|done|done].
Qed.

(** How the dwell of a run that leaves [Constrained] was waited for: with the
    time on the timer, or from some tick on. *)
Lemma run_waits ts : ∀ c c',
  mode c = Constrained → run_ticks c ts = Some c' → mode c' ≠ Constrained →
  (∃ waited rest, ts = waited ++ rest ∧ all_clear c waited = true ∧
     hysteresis_dwell (config c) <= dwell_elapsed c + elapsed waited) ∨
  (∃ earlier waited rest c1, ts = earlier ++ waited ++ rest ∧ run_ticks c earlier = Some c1 ∧
     mode c1 = Constrained ∧ all_clear c1 waited = true ∧ hysteresis_dwell (config c) <= elapsed waited).
Proof.
  induction ts as [|t ts IH]; intros c c' Hm; cbn [run_ticks]; [by intros [= <-]|].
  destruct (tick c t) as [[c1 o]|] eqn:Ht; simpl; [|done]. intros Hrun Hm'.
  destruct (tick_constrained _ _ _ _ Hm Ht) as (Hcfg & [[Hc Hd]|[(Hc & Hm1 & Hd)|[Hm1 Hd]]]).
  - left. exists [t], ts. split; [done|]. cbn [all_clear elapsed foldr]. rewrite Hc, Ht. split; [done|lia].
  - destruct (IH c1 c' Hm1 Hrun Hm') as [(waited & rest & -> & Hw & Hle)|(pre & waited & rest & c2 & -> & Hpre & Hm2 & Hw & Hle)].
    + left. exists (t :: waited), rest. split; [done|]. cbn [all_clear elapsed foldr]. rewrite Hc, Ht.
      split; [done|]. unfold elapsed in Hle. rewrite Hcfg in Hle. lia.
    + right. exists (t :: pre), waited, rest, c2. cbn [run_ticks]. rewrite Ht. simpl. by rewrite <- Hcfg.
  - right. destruct (IH c1 c' Hm1 Hrun Hm') as [(waited & rest & -> & Hw & Hle)|(pre & waited & rest & c2 & -> & Hpre & Hm2 & Hw & Hle)].
    + exists [t], waited, rest, c1. cbn [run_ticks]. rewrite Ht. split_and!; try done. rewrite <- Hcfg. lia.
    + exists (t :: pre), waited, rest, c2. cbn [run_ticks]. rewrite Ht. simpl. by rewrite <- Hcfg.
Qed.
End Dwell.

(** C11: after a violation (mode [Constrained], the dwell timer at zero) the
    controller leaves [Constrained] only after a row of ticks, one after
    another, each of which met both limits and had the hysteresis margin on the
    side the output would move to, and which together last at least the
    hysteresis dwell; ticks before such a row, however many, do not count
    towards it. *)
Theorem recovery_waits_the_dwell (c c' : EnvelopeController f64) (ts : list (EnvelopeTick f64)) :
  mode c = Constrained → dwell_elapsed c = 0 →
  run_ticks c ts = Some c' → mode c' ≠ Constrained →
  ∃ earlier waited rest c1, ts = earlier ++ waited ++ rest ∧ run_ticks c earlier = Some c1 ∧
    mode c1 = Constrained ∧ all_clear c1 waited = true ∧ hysteresis_dwell (config c) <= elapsed waited.
Proof.
  intros Hm Hd Hrun Hm'. destruct (run_waits ts c c' Hm Hrun Hm') as [(waited & rest & -> & Hw & Hle)|?]; [|done].
  exists [], waited, rest, c. split_and!; try done. lia.
Qed.

(** Five clear seconds after the limit lifts, with a dwell of 5 s. *)
Definition demo_constrained : EnvelopeController f64 :=
  mkController Constrained 0 (of_Z 50) demo_config (None, Some (of_Z 50)) 0.
Definition demo_recovery : list (EnvelopeTick f64) :=
  replicate 5 (demo_tick None (Some 100) 50 80).

Lemma recovery_waits_the_dwell_witness :
  (mode <$> run_ticks demo_constrained demo_recovery) = Some Ramping ∧
  ∃ earlier waited rest c1, demo_recovery = earlier ++ waited ++ rest ∧ run_ticks demo_constrained earlier = Some c1 ∧
    mode c1 = Constrained ∧ all_clear c1 waited = true ∧ hysteresis_dwell (config demo_constrained) <= elapsed waited.
Proof.
  assert ((mode <$> run_ticks demo_constrained demo_recovery) = Some Ramping) as Hmode
    by (by vm_compute).
  split; [exact Hmode|].
  destruct (run_ticks demo_constrained demo_recovery) as [c'|] eqn:Hrun; [|discriminate Hmode].
  injection Hmode as Hmode.
  refine (recovery_waits_the_dwell demo_constrained c' demo_recovery eq_refl eq_refl Hrun _).
  intros Hc. rewrite Hc in Hmode. discriminate Hmode.
Defined.

(** ** Ramping to zero on a silent meter, without rounding *)

Section RampExact.
Implicit Types (c : EnvelopeController Q).
Local Open Scope Q_scope.

Definition ramp_step c (power_min power_max : Q) (dt : Z) : Q :=
  ramp_rate_per_sec (config c) *
  (if f_ltb (of_Z 0) (current_output c) then power_max else f_abs power_min) * as_secs dt.

(** One tick shortens the output by the step, not past zero, and keeps its
    side. *)
Lemma ramp_to_zero_step c power_min power_max dt :
  0 <= ramp_step c power_min power_max dt →
  let u' := current_output (ramp_to_zero c power_min power_max dt) in
  Qabs u' <= Qabs (current_output c) - ramp_step c power_min power_max dt ∨ u' == 0.
Proof.
  unfold ramp_step, ramp_to_zero. simpl. set (u := current_output c).
  match goal with |- 0 <= ?s → _ => set (s0 := s) end. clearbody s0 u. intros Hs.
  destruct (Qle_bool (Qabs u) s0) eqn:Hle; [by right|left]. apply Qle_bool_false in Hle.
  destruct (Qle_bool 0 u) eqn:Hu;
    [apply Qle_bool_iff in Hu|apply Qle_bool_false in Hu].
  - rewrite (Qabs_pos u) in * by done. rewrite Qabs_pos; lra.
  - rewrite (Qabs_neg u) in * by lra. rewrite Qabs_neg; lra.
Qed.

Fixpoint ramp_ticks (n : nat) c (power_min power_max : Q) (dt : Z) : EnvelopeController Q :=
  match n with
  | O => c
  | S n => ramp_to_zero (ramp_ticks n c power_min power_max dt) power_min power_max dt
  end.

Lemma ramp_ticks_config n c power_min power_max dt :
  config (ramp_ticks n c power_min power_max dt) = config c.
Proof. by induction n. Qed.

Lemma ramp_ticks_abs n c power_min power_max dt s :
  0 <= s → s <= ramp_rate_per_sec (config c) * power_max * as_secs dt →
  s <= ramp_rate_per_sec (config c) * Qabs power_min * as_secs dt →
  Qabs (current_output (ramp_ticks n c power_min power_max dt))
    <= Qmax (Qabs (current_output c) - inject_Z (Z.of_nat n) * s) 0.
Proof.
  intros Hs Hmax Hmin. induction n as [|n IH].
  - cbn [ramp_ticks]. change (inject_Z (Z.of_nat 0)) with 0.
    eapply Qle_trans; [|apply Q.le_max_l]. lra.
  - set (c' := ramp_ticks n c power_min power_max dt) in *.
    assert (s <= ramp_step c' power_min power_max dt) as Hs'.
    { unfold ramp_step, c'. rewrite ramp_ticks_config. by destruct (f_ltb _ _). }
    destruct (ramp_to_zero_step c' power_min power_max dt ltac:(lra)) as [Hle|Hz].
    + change (ramp_ticks (S n) c power_min power_max dt)
        with (ramp_to_zero c' power_min power_max dt).
      rewrite Nat2Z.inj_succ, <- Z.add_1_r, inject_Z_plus.
      change (inject_Z 1) with 1. pose proof (Qabs_nonneg (current_output c')) as Hn.
      pose proof (Qabs_nonneg (current_output (ramp_to_zero c' power_min power_max dt))) as Hn'.
      revert IH. apply Q.max_case_strong; [by intros ?? ->| |]; intros Hcase IH.
      * eapply Qle_trans; [|apply Q.le_max_l]. lra.
      * eapply Qle_trans; [|apply Q.le_max_r]. lra.
    + change (ramp_ticks (S n) c power_min power_max dt)
        with (ramp_to_zero c' power_min power_max dt).
      rewrite Hz. apply Q.le_max_r.
Qed.
End RampExact.

(** While the POI meter is silent the output
    ramps to exactly 0 W: with at least [s] watts of ramp per tick on both
    sides, [n] ticks reach zero from any output of magnitude at most [n * s],
    and the magnitude never grows on the way. *)
Theorem silent_meter_ramps_to_zero (c : EnvelopeController Q) (power_min power_max s : Q) dt n :
  (0 <= s → s <= ramp_rate_per_sec (config c) * power_max * as_secs dt →
   s <= ramp_rate_per_sec (config c) * Qabs power_min * as_secs dt →
   (Qabs (current_output (ramp_ticks n c power_min power_max dt)) <= Qabs (current_output c)) ∧
   (Qabs (current_output c) <= inject_Z (Z.of_nat n) * s →
    current_output (ramp_ticks n c power_min power_max dt) == 0))%Q.
Proof.
  intros Hs Hmax Hmin. pose proof (ramp_ticks_abs n c _ _ _ _ Hs Hmax Hmin) as Hle.
  split.
  - eapply Qle_trans; [exact Hle|]. apply Q.max_lub; [|apply Qabs_nonneg].
    assert (0 <= inject_Z (Z.of_nat n) * s)%Q by (apply Qmult_le_0_compat; [|done];
      change 0%Q with (inject_Z 0); rewrite <- Zle_Qle; lia). lra.
  - intros Hn. rewrite Q.max_r in Hle by lra.
    pose proof (Qabs_nonneg (current_output (ramp_ticks n c power_min power_max dt))).
    apply Qabs_Qle_condition in Hle. lra.
Qed.

Lemma silent_meter_ramps_to_zero_witness :
  let c := mkController Normal 0 (-25)%Q (mkConfig (1 # 10) 0 0)%Q (None, None) 0 in
  (current_output (ramp_ticks 3 c (-100) 100 1000000000) == 0)%Q.
Proof.
  refine (proj2 (silent_meter_ramps_to_zero
    (mkController Normal 0 (-25)%Q (mkConfig (1 # 10) 0 0)%Q (None, None) 0)
    (-100) 100 10 1000000000 3 _ _ _) _); by apply Qle_bool_iff.
Defined.
