(* ===== verification/Recovery.v ===== *)
(** * Recovery: a constrained module comes back

    [src/envelope/control_law.rs], without rounding.  A module that a limit
    pushed back, whose limits then leave room, waits out its dwell, ramps, and
    is at its request after a number of ticks that can be told beforehand; the
    limits are those of the battery-only law (no POI meter), and the module's
    meter reports what it was told. *)

From Stdlib Require Import ZArith Lia QArith Qabs Qminmax Lqa.
From S2P Require Import Prelude F64 Binary64 Exact PoiServo ControlLaw.
Local Open Scope Z_scope.

Section Recovery.
Variable inf : Q.
#[local] Instance recovery_inf : FloatInf Q := inf.
Context (export import request power_min power_max : Q) (dt : Z).
Implicit Types (c : EnvelopeController Q).
Local Open Scope Q_scope.

Definition steady_tick (u : Q) : EnvelopeTick Q :=
  mkTick (Some import) (Some export) u request None true false power_min power_max dt.

(** Ticks of a loop whose meter follows. *)
Fixpoint follow (n : nat) c : option (EnvelopeController Q) :=
  match n with
  | O => Some c
  | S n => '(c, _) ← tick c (steady_tick (current_output c)); follow n c
  end.

(** A power strictly inside both limits. *)
Definition room (u : Q) : Prop := - import < u ∧ u < export.

Definition eps : Q := f_epsilon.

Hypothesis request_room : - import + eps < request ∧ request < export - eps.
Hypothesis request_rated : power_min <= request <= power_max.

Lemma eps_pos : 0 < eps.
Proof. by apply Qltb_true. Qed.

Lemma near_request_room (u : Q) : Qabs (request - u) <= eps → room u.
Proof. intros Hu%Qabs_Qle_condition. unfold room. lra. Qed.

Lemma clamp_request lo hi : lo <= request → request <= hi → f_clamp request lo hi = Some request.
Proof.
  intros Hlo Hhi. unfold f_clamp. simpl. assert (Qle_bool lo hi = true) as -> by (apply Qle_bool_iff; lra).
  assert (Qltb request lo = false) as -> by (by apply Qltb_false).
  by assert (Qltb hi request = false) as -> by (by apply Qltb_false).
Qed.

Definition steady_bounds (u : Q) : Bounds Q := mkBounds export (- import) (export - u) (u - - import) false.

(** A tick in which neither limit is used up. *)
Lemma steady_tick_eq c : room (current_output c) →
  ∃ h, let t := steady_tick (current_output c) in
    let c1 := mkController (mode c) (dwell_elapsed c) (current_output c) (config c) (Some import, Some export) h in
    tick c t =
    if bool_decide (mode c = Constrained) then
      c' ← recover c1 t (steady_bounds (current_output c)) request;
      if bool_decide (mode c' = Constrained) then Some (c', None) else drive c' t request
    else drive c1 t request.
Proof.
  intros [Hlo Hhi]. set (t := steady_tick (current_output c)).
  assert (tick_bounds c t = steady_bounds (current_output c)) as Hb.
  { unfold tick_bounds, hold_reading, for_tick. by destruct (_ && _). }
  exists (hold_reading c t).2. cbv zeta. unfold tick. rewrite Hb. unfold tick_ceiling, tick_floor, tick_ceiling.
  rewrite Hb. cbn [ceiling floor headroom_export headroom_import jumped steady_bounds].
  change (requested_setpoint t) with request. rewrite clamp_request.
  - cbn [mbind option_bind]. simpl f_leb. change (inject_Z 0) with 0.
    assert (Qle_bool (export - current_output c) 0 = false) as -> by (apply Qle_bool_false; lra).
    assert (Qle_bool (current_output c - - import) 0 = false) as -> by (apply Qle_bool_false; lra). done.
  - change (PoiServo.power_min t) with power_min. change (PoiServo.power_max t) with power_max.
    pose proof eps_pos.
    destruct (Q_max_cases (- import) power_min) as [[-> Hm]|[-> Hm]];
      match goal with |- f_min ?x ?y <= _ => destruct (Q_min_cases x y) as [[-> Hx]|[-> Hx]] end; lra.
  - change (PoiServo.power_max t) with power_max. pose proof eps_pos.
    destruct (Q_min_cases export power_max) as [[-> Hx]|[-> Hx]]; lra.
Qed.

(** ** One tick *)

Section Config.
Context (cfg : EnvelopeConfig Q) (s : Q).

(** The least a tick moves the output, on either side. *)
Hypothesis step_seen : eps <= s.
Hypothesis step_max : s <= ramp_rate_per_sec cfg * power_max * as_secs dt.
Hypothesis step_min : s <= ramp_rate_per_sec cfg * Qabs power_min * as_secs dt.

Definition arrived c : Prop :=
  mode c = Normal ∧ config c = cfg ∧ Qabs (request - current_output c) <= eps.

(** On the way, with at most [d] to go. *)
Definition ramping c (d : Q) : Prop :=
  mode c = Ramping ∧ config c = cfg ∧ room (current_output c) ∧ Qabs (request - current_output c) <= d.

Lemma write_arrives c c' o :
  write c request = (c', o) → mode c = Normal → config c = cfg → arrived c'.
Proof.
  unfold write. intros Hw Hm Hc. pose proof eps_pos. destruct (f_abs _ <? f_epsilon)%F eqn:He; injection Hw as <- <-.
  - split; [done|]. split; [done|]. apply Qltb_true in He. apply Qlt_le_weak, He.
  - split; [done|]. split; [done|]. cbn [current_output]. apply Qabs_Qle_condition. lra.
Qed.

Lemma drive_ramping c c' o u d :
  mode c = Ramping → config c = cfg → room (current_output c) → Qabs (request - current_output c) <= d →
  drive c (steady_tick u) request = Some (c', o) → arrived c' ∨ ramping c' (d - s).
Proof.
  intros Hm Hc Hroom Hd. unfold drive. rewrite Hm.
  change (PoiServo.power_min (steady_tick u)) with power_min.
  change (PoiServo.power_max (steady_tick u)) with power_max.
  change (PoiServo.dt (steady_tick u)) with dt. rewrite Hc. cbv zeta.
  match goal with |- context [f_leb _ ?m] => match m with context [as_secs] => set (max_step := m) end end.
  assert (s <= max_step) as Hs by (unfold max_step; by destruct (f_leb _ _)). clearbody max_step.
  set (u0 := current_output c) in *.
  change (f_leb (f_abs (f_sub request u0)) max_step) with (Qle_bool (Qabs (request - u0)) max_step).
  change (f_add u0 (f_mul max_step (f_signum (f_sub request u0)))) with
    (u0 + max_step * (if Qle_bool 0 (request - u0) then 1 else - (1))).
  destruct (Qle_bool (Qabs (request - u0)) max_step) eqn:Hle.
  - intros Hw. apply (inj Some) in Hw. left. eapply write_arrives; [exact Hw|done|exact Hc].
  - apply Qle_bool_false in Hle. unfold write. intros Hw. apply (inj Some) in Hw. pose proof eps_pos.
    destruct Hroom as [Hlo Hhi].
    destruct (f_abs _ <? f_epsilon)%F eqn:He.
    { exfalso. apply Qltb_true in He. change (f_epsilon : Q) with eps in He.
      change (f_abs (f_sub ?x (current_output c))) with (Qabs (x - u0)) in He.
      destruct (Qle_bool 0 (request - u0));
        [rewrite Qabs_pos in He by lra|rewrite Qabs_neg in He by lra]; lra. }
    injection Hw as <- <-. right. split; [done|]. split; [done|]. cbn [current_output].
    destruct (Qle_bool 0 (request - u0)) eqn:Hsg;
      [apply Qle_bool_iff in Hsg; rewrite Qabs_pos in Hle, Hd by lra
      |apply Qle_bool_false in Hsg; rewrite Qabs_neg in Hle, Hd by lra].
    + split; [split; lra|]. rewrite Qabs_pos; lra.
    + split; [split; lra|]. rewrite Qabs_neg; lra.
Qed.

Lemma follow_arrived c : arrived c →
  ∃ c' o, tick c (steady_tick (current_output c)) = Some (c', o) ∧ arrived c'.
Proof.
  intros (Hm & Hc & Hd). destruct (steady_tick_eq c) as (h & ->); [by apply near_request_room|].
  rewrite bool_decide_false by (by rewrite Hm). unfold drive. cbn [mode]. rewrite Hm.
  destruct (write _ request) as [c' o] eqn:Hw. exists c', o. split; [done|]. by eapply write_arrives.
Qed.

Lemma follow_ramping c d : ramping c d →
  ∃ c' o, tick c (steady_tick (current_output c)) = Some (c', o) ∧ (arrived c' ∨ ramping c' (d - s)).
Proof.
  intros (Hm & Hc & Hroom & Hd). destruct (steady_tick_eq c Hroom) as (h & ->).
  rewrite bool_decide_false by (by rewrite Hm).
  match goal with |- context [drive ?c1 ?t _] => destruct (drive c1 t request) as [[c' o]|] eqn:Hdr end.
  - exists c', o. split; [done|]. by eapply drive_ramping in Hdr.
  - exfalso. unfold drive in Hdr. cbn [mode] in Hdr. rewrite Hm in Hdr. by destruct (_ <=? _)%F.
Qed.

(** ** The dwell, the ramp, the request *)

Lemma arrived_stays n : ∀ c, arrived c → ∃ c', follow n c = Some c' ∧ arrived c'.
Proof.
  induction n as [|n IH]; intros c Ha; [by exists c|]. cbn [follow].
  destruct (follow_arrived c Ha) as (c1 & o & -> & Ha1). by apply IH.
Qed.

Lemma ramping_arrives n : ∀ c, ramping c (inject_Z (Z.of_nat n) * s) →
  ∃ c', follow (S n) c = Some c' ∧ arrived c'.
Proof.
  induction n as [|n IH]; intros c Hr; cbn [follow];
    destruct (follow_ramping c _ Hr) as (c1 & o & -> & [Ha|Hr1]); cbn [mbind option_bind].
  - by exists c1.
  - exfalso. destruct Hr1 as (_ & _ & _ & Hd). change (inject_Z (Z.of_nat 0)) with 0 in Hd.
    pose proof eps_pos. pose proof (Qabs_nonneg (request - current_output c1)). lra.
  - by apply (arrived_stays (S n)).
  - apply IH. destruct Hr1 as (Hm & Hc & Hroom & Hd). split_and!; [done..|].
    rewrite Nat2Z.inj_succ, <- Z.add_1_r, inject_Z_plus in Hd. change (inject_Z 1) with 1 in Hd. lra.
Qed.

(** The side the ramp moves toward has its hysteresis margin. *)
Definition clear_side (u : Q) : Prop :=
  if Qltb request u then hysteresis_margin cfg * Qabs power_min <= u - - import
  else hysteresis_margin cfg * power_max <= export - u.

Definition waiting c (elapsed : Z) : Prop :=
  mode c = Constrained ∧ config c = cfg ∧ room (current_output c) ∧ clear_side (current_output c) ∧
  dwell_elapsed c = elapsed.

Lemma follow_waiting c elapsed d :
  waiting c elapsed → (0 <= dt)%Z → (elapsed + dt <= max_duration)%Z → Qabs (request - current_output c) <= d →
  ∃ c' o, tick c (steady_tick (current_output c)) = Some (c', o) ∧
    if (hysteresis_dwell cfg <=? elapsed + dt)%Z then arrived c' ∨ ramping c' (d - s)
    else waiting c' (elapsed + dt) ∧ current_output c' = current_output c.
Proof.
  intros (Hm & Hc & Hroom & Hcl & He) Hdt Hmax Hd. destruct (steady_tick_eq c Hroom) as (h & ->).
  rewrite bool_decide_true by done. unfold recover. cbv zeta.
  cbn [headroom_export headroom_import steady_bounds current_output config dwell_elapsed].
  change (PoiServo.power_min (steady_tick (current_output c))) with power_min.
  change (PoiServo.power_max (steady_tick (current_output c))) with power_max.
  change (PoiServo.dt (steady_tick (current_output c))) with dt. rewrite Hc, He.
  simpl f_ltb. simpl f_leb. simpl f_mul. simpl f_abs.
  assert ((if Qltb request (current_output c)
           then Qle_bool (hysteresis_margin cfg * Qabs power_min) (current_output c - - import)
           else Qle_bool (hysteresis_margin cfg * power_max) (export - current_output c)) = true) as Hclear.
  { unfold clear_side in Hcl. destruct (Qltb _ _); by apply Qle_bool_iff. }
  match goal with |- context [match ?b with true => _ | false => Some _ end] =>
    replace b with true by (symmetry; exact Hclear) end.
  unfold duration_add. assert ((max_duration <? elapsed + dt)%Z = false) as -> by (apply Z.ltb_ge; lia).
  cbn [mbind option_bind]. destruct (hysteresis_dwell cfg <=? elapsed + dt)%Z eqn:Hdw; cbn [set_mode mode].
  - rewrite bool_decide_false by done.
    match goal with |- context [drive ?c1 ?t _] => destruct (drive c1 t request) as [[c' o]|] eqn:Hdr end.
    + exists c', o. split; [done|]. by eapply drive_ramping in Hdr.
    + exfalso. unfold drive in Hdr. cbn [mode set_mode] in Hdr. by destruct (_ <=? _)%F.
  - rewrite bool_decide_true by done. eexists _, _. split; [done|]. by split_and!.
Qed.

Lemma waiting_ramps n k : ∀ c elapsed,
  waiting c elapsed → (0 <= dt)%Z → (elapsed + Z.of_nat k * dt <= max_duration)%Z →
  (hysteresis_dwell cfg <= elapsed + Z.of_nat k * dt)%Z → (0 < k)%nat →
  Qabs (request - current_output c) <= inject_Z (Z.of_nat n) * s →
  ∃ c', follow (k + n) c = Some c' ∧ arrived c'.
Proof.
  induction k as [|k IH]; intros c elapsed Hw Hdt Hmax Hdw Hk Hd; [lia|]. cbn [follow Nat.add].
  destruct (follow_waiting c elapsed _ Hw Hdt ltac:(nia) Hd) as (c1 & o & -> & Hc1). cbn [mbind option_bind].
  destruct (Z.leb_spec (hysteresis_dwell cfg) (elapsed + dt)).
  - destruct Hc1 as [Ha|Hr]; [by apply arrived_stays|]. destruct n as [|n].
    + exfalso. destruct Hr as (_ & _ & _ & Hd1). change (inject_Z (Z.of_nat 0)) with 0 in Hd1.
      pose proof eps_pos. pose proof (Qabs_nonneg (request - current_output c1)). lra.
    + assert (ramping c1 (inject_Z (Z.of_nat n) * s)) as Hr1.
      { destruct Hr as (Hm & Hc & Hroom & Hd1). split_and!; [done..|].
        rewrite Nat2Z.inj_succ, <- Z.add_1_r, inject_Z_plus in Hd1. change (inject_Z 1) with 1 in Hd1. lra. }
      destruct (ramping_arrives n c1 Hr1) as (c2 & Hf & Ha).
      assert (∀ m c, follow (m + S n) c = follow (S n + m) c) as Hcomm by (intros m c0; f_equal; lia).
      rewrite Hcomm. assert (∀ a b c, follow (a + b) c = follow a c ≫= follow b) as Happ.
      { induction a as [|a IHa]; intros b c0; [done|]. cbn [follow Nat.add].
        destruct (tick c0 _) as [[c3 o3]|]; [apply IHa|done]. }
      rewrite Happ, Hf. cbn [mbind option_bind]. by apply arrived_stays.
  - destruct Hc1 as [Hw1 Hout]. destruct k as [|k]; [lia|].
    apply (IH c1 (elapsed + dt)%Z); [done|done|nia|nia|lia|]. by rewrite Hout.
Qed.
End Config.

End Recovery.

(** A constrained module whose limits leave room for its request, with
    the hysteresis margin on the side it must move to, is back in normal mode
    at its request after at most the ticks of its dwell and the ticks of its
    ramp, and no tick on the way panics. *)
Theorem recovery_completes (inf : Q) export import request power_min power_max dt cfg s c k n :
  (- import + eps < request ∧ request < export - eps)%Q → (power_min <= request <= power_max)%Q →
  (eps <= s)%Q → (s <= ramp_rate_per_sec cfg * power_max * as_secs dt)%Q →
  (s <= ramp_rate_per_sec cfg * Qabs power_min * as_secs dt)%Q →
  waiting export import request power_min power_max cfg c (dwell_elapsed c) →
  0 <= dt → dwell_elapsed c + Z.of_nat k * dt <= max_duration →
  hysteresis_dwell cfg <= dwell_elapsed c + Z.of_nat k * dt → (0 < k)%nat →
  (Qabs (request - current_output c) <= inject_Z (Z.of_nat n) * s)%Q →
  ∃ c', follow inf export import request power_min power_max dt (k + n) c = Some c' ∧
    mode c' = Normal ∧ (Qabs (request - current_output c') <= eps)%Q.
Proof.
  intros Hroom Hrated Hs Hmax Hmin Hw Hdt Hk Hdw Hk0 Hd.
  destruct (waiting_ramps inf export import request power_min power_max dt Hroom Hrated cfg s Hs Hmax Hmin n k c
    (dwell_elapsed c) Hw Hdt Hk Hdw Hk0 Hd) as (c' & Hf & Hm & _ & Hout).
  by exists c'.
Qed.

(** Held at 20 W by a limit that is now 120 W, with a dwell of 3 s and 10 W a
    tick toward 55 W: there within seven ticks of a second. *)
Definition held_at_20 : EnvelopeController Q :=
  mkController Constrained 0 20%Q (mkConfig (1 # 10) (1 # 20) (3 * 1000000000))%Q (Some 100, Some 20)%Q 0.

Lemma recovery_completes_witness :
  ∃ c', follow 0 120 100 55 (-100) 100 1000000000 (3 + 4) held_at_20 = Some c' ∧
    mode c' = Normal ∧ (Qabs (55 - current_output c') <= eps)%Q.
Proof.
  refine (recovery_completes 0 120 100 55 (-100) 100 1000000000
    (mkConfig (1 # 10) (1 # 20) (3 * 1000000000)%Z)%Q 10 held_at_20 3 4 _ _ _ _ _ _ _ _ _ _ _).
  - split; apply Qltb_true; by vm_compute.
  - split; apply Qle_bool_iff; by vm_compute.
  - apply Qle_bool_iff; by vm_compute.
  - apply Qle_bool_iff; by vm_compute.
  - apply Qle_bool_iff; by vm_compute.
  - split_and!; [done|done|split; apply Qltb_true; by vm_compute| |done].
    unfold clear_side. replace (Qltb 55 (current_output held_at_20)) with false by (by vm_compute).
    apply Qle_bool_iff; by vm_compute.
  - done.
  - by vm_compute.
  - by vm_compute.
  - lia.
  - apply Qle_bool_iff; by vm_compute.
Defined.
