(* ===== verification/ClosedLoop.v ===== *)
(** * Closed loop: the envelope controller and the site's POI meter

    [src/envelope/control_law.rs] with [poi_servo.rs], without rounding, in a
    loop with the site it steers: the flow at the POI is the site's load less
    the battery's output, the meter reports it, late by a number of ticks, and
    the battery does what it is told.  The limits stay as they are. *)

From Stdlib Require Import ZArith Lia QArith Qabs Qminmax Lqa.
From S2P Require Import Prelude F64 Binary64 Exact PoiServo ControlLaw.
Local Open Scope Z_scope.

Section Site.
Context {F : Type} `{Float F} `{!FloatInf F}.
(** The limits, the module's rating, the time between ticks. *)
Context (export import power_min power_max : F) (dt : Z).

(** A tick on a fresh reading [p]. *)
Definition meter_tick (u p request : F) : EnvelopeTick F :=
  mkTick (Some import) (Some export) u request (Some p) true false power_min power_max dt.

(** A site's ticks, each with the load at its reading and the request: the
    meter shows the output of [lag] ticks ago.  [past] are the earlier outputs,
    newest first. *)
Fixpoint loop (lag : nat) (c : EnvelopeController F) (past : list F) (inputs : list (F * F))
    : option (EnvelopeController F * list F) :=
  match inputs with
  | [] => Some (c, past)
  | (load, request) :: inputs =>
      let outs := current_output c :: past in
      '(c', _) ← tick c (meter_tick (current_output c) (f_sub load (nth lag outs (of_Z 0))) request);
      loop lag c' outs inputs
  end.
End Site.

Section Loop.
Variable inf : Q.
#[local] Instance loop_inf : FloatInf Q := inf.
(** The limits, the module's rating, the time between ticks. *)
Context (export import power_min power_max : Q) (dt : Z).
Implicit Types (c : EnvelopeController Q).
Local Open Scope Q_scope.

Local Abbreviation meter_tick := (meter_tick export import power_min power_max dt).
Local Abbreviation loop := (loop export import power_min power_max dt).

(** What a second of headroom is worth in a tick. *)
Definition gain : Q := APPROACH_GAIN_PER_SEC * as_secs dt.

Hypothesis dt_range : (0 <= dt <= 3 * 1000000000)%Z.
Hypothesis limits_ordered : 0 <= import + export.
Hypothesis rating_positive : 0 <= power_max.

(** A controller whose limits are those of its last tick. *)
Definition settled_limits c : Prop :=
  prev_limits c = (Some import, Some export) ∧ jump_hold c = 0%Z ∧ 0 <= ramp_rate_per_sec (config c).

Definition rated (u : Q) : Prop := power_min <= u <= power_max.

Lemma as_secs_eq : (as_secs dt : Q) == inject_Z dt / inject_Z 1000000000.
Proof.
  unfold as_secs. simpl. rewrite (Z_div_mod_eq_full dt 1000000000) at 3. rewrite inject_Z_plus, inject_Z_mult. field.
Qed.

Lemma secs_range : 0 <= (as_secs dt : Q) <= 3.
Proof.
  rewrite as_secs_eq.
  destruct dt_range as [H0 H1]. rewrite Zle_Qle in H0, H1. rewrite inject_Z_mult in H1.
  change (inject_Z 0) with 0 in H0. change (inject_Z 3) with 3 in H1.
  split; [apply Qle_shift_div_l|apply Qle_shift_div_r]; [done|lra|done|done].
Qed.

Lemma gain_eq : gain == (1 # 10) * as_secs dt.
Proof. unfold gain, APPROACH_GAIN_PER_SEC, lit. simpl. change (inject_Z 1 / inject_Z 10) with (1 # 10). reflexivity. Qed.

Lemma gain_range : 0 <= gain <= 3 # 10.
Proof. rewrite gain_eq. pose proof secs_range. lra. Qed.

Lemma gain_second : (dt <= 1000000000)%Z → gain <= 1 # 10.
Proof.
  intros Hdt. rewrite gain_eq. enough ((as_secs dt : Q) <= 1) by lra. rewrite as_secs_eq.
  apply Qle_shift_div_r; [done|]. rewrite Zle_Qle in Hdt. change (1 * inject_Z 1000000000) with (inject_Z 1000000000). lra.
Qed.

(** ** The servo while the limits stay *)

(** How far a tick moves a bound: toward the limit, or back from it. *)
Definition servo_step (measured opposite : Q) : Q :=
  (if Qle_bool 0 measured then APPROACH_GAIN_PER_SEC * measured
   else - f_max (f_min (VIOLATION_GAIN_PER_SEC * - measured) (APPROACH_GAIN_PER_SEC * opposite))
            (APPROACH_GAIN_PER_SEC * - measured)) * as_secs dt.

Lemma Q_max_comp (x x' y y' : Q) : x == x' → y == y' → f_max x y == f_max x' y'.
Proof.
  intros Hx Hy. destruct (Q_max_cases x y) as [[-> ?]|[-> ?]], (Q_max_cases x' y') as [[-> ?]|[-> ?]]; lra.
Qed.

Lemma Q_min_comp (x x' y y' : Q) : x == x' → y == y' → f_min x y == f_min x' y'.
Proof.
  intros Hx Hy. destruct (Q_min_cases x y) as [[-> ?]|[-> ?]], (Q_min_cases x' y') as [[-> ?]|[-> ?]]; lra.
Qed.

Lemma no_jump s (l : Q) : jump s (mkLimit (Some l) (Some l)) (headroom s (Some l)) == 0.
Proof.
  unfold jump, headroom. cbn [prev]. change (of_Z 0) with 0. change f_sub with Qminus. change f_add with Qplus.
  set (m := f_min (s + l) 0). clearbody m. destruct (Q_max_cases (m - m) 0) as [[-> H]|[-> H]]; lra.
Qed.

Lemma steady_step s (l opposite : Q) :
  step s (mkLimit (Some l) (Some l)) (headroom s (Some l)) opposite dt == servo_step (s + l) opposite.
Proof.
  unfold step, servo_step. cbn [now]. pose proof (no_jump s l) as Hj.
  set (j := jump s _ _) in *. clearbody j. change (headroom s (Some l)) with (s + l). change f_add with Qplus.
  change f_sub with Qminus. change f_mul with Qmult. change f_opp with Qopp. change (of_Z 0) with 0.
  change f_leb with Qle_bool.
  change (VIOLATION_GAIN_PER_SEC : Q) with (3 # 10). change (APPROACH_GAIN_PER_SEC : Q) with (1 # 10).
  set (sec := (as_secs dt : Q)). clearbody sec.
  assert (Qle_bool 0 (s + l + j) = Qle_bool 0 (s + l)) as ->.
  { apply eq_iff_eq_true. rewrite !Qle_bool_iff. split; lra. }
  assert (s + l + j == s + l) as Hm by lra. set (m := s + l) in *. set (m' := m + j) in *. clearbody m m'.
  destruct (Qle_bool 0 m); setoid_rewrite Hj; [setoid_rewrite Hm; ring|].
  assert (f_max (f_min ((3 # 10) * - m') ((1 # 10) * opposite)) ((1 # 10) * - m') ==
          f_max (f_min ((3 # 10) * - m) ((1 # 10) * opposite)) ((1 # 10) * - m)) as Hx
    by (apply Q_max_comp; [apply Q_min_comp|]; lra).
  setoid_rewrite Hx. ring.
Qed.
Lemma servo_approach x y : 0 <= x → servo_step x y == gain * x.
Proof.
  intros Hx. unfold servo_step. assert (Qle_bool 0 x = true) as -> by (by apply Qle_bool_iff).
  unfold gain. ring.
Qed.

(** A violation is taken off by no less than the approach would move, by no
    more than there is of it, and by no more than the other side has room for. *)
Lemma servo_violation x y : x < 0 → 0 <= x + y →
  gain * - x <= - servo_step x y ∧ - servo_step x y <= - x ∧ - servo_step x y <= gain * y.
Proof.
  intros Hx Hxy. unfold servo_step, gain. assert (Qle_bool 0 x = false) as -> by (by apply Qle_bool_false).
  change (VIOLATION_GAIN_PER_SEC : Q) with (3 # 10). change (APPROACH_GAIN_PER_SEC : Q) with (1 # 10).
  pose proof secs_range as Hsec. set (sec := (as_secs dt : Q)) in *. clearbody sec.
  destruct (Q_min_cases ((3 # 10) * - x) ((1 # 10) * y)) as [[-> ?]|[-> ?]];
    match goal with |- context [f_max ?a ?b] => destruct (Q_max_cases a b) as [[-> ?]|[-> ?]] end;
    split_and!; nra.
Qed.

(** The two sides' steps never cross. *)
Lemma servo_uncrossed x y : 0 <= x + y → 0 <= servo_step x y + servo_step y x.
Proof.
  intros Hxy. pose proof gain_range. destruct (Qlt_le_dec x 0) as [Hx|Hx].
  - rewrite (servo_approach y x) by lra. destruct (servo_violation x y Hx Hxy) as (_ & _ & ?). lra.
  - destruct (Qlt_le_dec y 0) as [Hy|Hy].
    + rewrite (servo_approach x y) by lra. destruct (servo_violation y x Hy ltac:(lra)) as (_ & _ & ?). lra.
    + rewrite (servo_approach x y), (servo_approach y x) by done. nra.
Qed.

Lemma meter_bounds c p request :
  settled_limits c →
  let b := tick_bounds c (meter_tick (current_output c) p request) in
  ceiling b == current_output c + servo_step (p + export) (- p + import) ∧
  floor b == current_output c - servo_step (- p + import) (p + export) ∧
  headroom_export b = p + export ∧ headroom_import b = - p + import ∧ jumped b = false.
Proof.
  intros (Hp & Hj & _). unfold tick_bounds, hold_reading. rewrite Hp, Hj. cbn [Z.ltb Z.compare andb fst].
  unfold for_tick. cbn [PoiServo.poi_active_power PoiServo.poi_fresh PoiServo.hold_approach PoiServo.dt
    PoiServo.import_limit PoiServo.export_limit meter_tick fst snd].
  unfold bounds. cbn [now].
  pose proof (steady_step p export (headroom (- p) (Some import))) as Hup.
  pose proof (steady_step (- p) import (headroom p (Some export))) as Hdown.
  pose proof (no_jump p export) as Hje. pose proof (no_jump (- p) import) as Hji.
  change (f_opp p) with (- p) in *. change (headroom (- p) (Some import)) with (- p + import) in *.
  change (headroom p (Some export)) with (p + export) in *.
  change (f_ltb (of_Z 0) ?x) with (Qltb 0 x).
  assert (Qltb 0 (jump p (mkLimit (Some export) (Some export)) (p + export)) = false) as ->
    by (apply Qltb_false; lra).
  assert (Qltb 0 (jump (- p) (mkLimit (Some import) (Some import)) (- p + import)) = false) as ->
    by (apply Qltb_false; lra).
  set (up := step p _ _ _ _) in *. set (down := step (- p) _ _ _ _) in *.
  pose proof (servo_uncrossed (p + export) (- p + import) ltac:(lra)) as Hx.
  change (f_add ?x ?y) with (x + y). change (f_sub ?x ?y) with (x - y).
  change (f_ltb ?x ?y) with (Qltb x y).
  assert (Qltb (current_output c + up) (current_output c - down) = false) as -> by (apply Qltb_false; lra).
  cbn [ceiling floor headroom_export headroom_import jumped orb]. split_and!; try done; lra.
Qed.
(** ** One tick of the loop *)

Definition eps : Q := f_epsilon.

Definition between (u v w : Q) : Prop := u <= v <= w ∨ w <= v <= u.

Lemma write_between c v c' o :
  write c v = (c', o) → between (current_output c) (current_output c') v ∧
    (current_output c' = v ∨ current_output c' = current_output c ∧ Qabs (v - current_output c) < eps).
Proof.
  unfold write, between. destruct (f_ltb _ _) eqn:He; intros [= <- <-]; cbn [current_output].
  - apply Qltb_true in He. split; [destruct (Qlt_le_dec (current_output c) v); lra|by right].
  - split; [destruct (Qlt_le_dec (current_output c) v); lra|by left].
Qed.

(** A ramp ends at its target or a step on the way to it. *)
Lemma drive_between c u p r target c' o :
  0 <= ramp_rate_per_sec (config c) → drive c (meter_tick u p r) target = Some (c', o) →
  between (current_output c) (current_output c') target.
Proof.
  intros Hr. unfold drive. destruct (mode c) eqn:Hm; [|done|].
  - intros [= Hw]. by destruct (write_between _ _ _ _ Hw).
  - cbn [PoiServo.power_min PoiServo.power_max PoiServo.dt meter_tick]. set (delta := f_sub target (current_output c)).
    match goal with |- context [f_leb (f_abs delta) ?m] => assert (0 <= m) as Hs; [|set (step := m) in *] end.
    { pose proof secs_range. apply Qmult_le_0_compat; [apply Qmult_le_0_compat; [done|]|lra].
      destruct (f_leb _ _); [done|apply Qabs_nonneg]. }
    clearbody step. subst delta. change (f_sub target (current_output c)) with (target - current_output c).
    destruct (f_leb _ step) eqn:Hle.
    + intros [= Hw]. by destruct (write_between _ _ _ _ Hw).
    + apply Qle_bool_false in Hle. change (f_signum ?x) with (if Qle_bool 0 x then 1 else - (1)).
      intros [= Hw]. apply write_between in Hw as [Hw _].
      change (f_add ?x ?y) with (x + y) in Hw. change (f_mul ?x ?y) with (x * y) in Hw.
      change (f_abs ?x) with (Qabs x) in Hle. unfold between in *.
      destruct (Qle_bool 0 (target - current_output c)) eqn:Hsg;
        [apply Qle_bool_iff in Hsg; rewrite Qabs_pos in Hle by done
        |apply Qle_bool_false in Hsg; rewrite Qabs_neg in Hle by lra]; lra.
Qed.

Lemma Q_clamp_cases (x lo hi v : Q) :
  f_clamp x lo hi = Some v → lo <= v <= hi ∧ (v = x ∨ v = lo ∧ x < lo ∨ v = hi ∧ hi < x).
Proof.
  unfold f_clamp. destruct (f_leb lo hi) eqn:Hle; [|done]. apply Qle_bool_iff in Hle.
  destruct (f_ltb x lo) eqn:Hlo; [apply Qltb_true in Hlo|apply Qltb_false in Hlo];
    (destruct (f_ltb hi _) eqn:Hhi; [apply Qltb_true in Hhi|apply Qltb_false in Hhi]); intros [= <-];
    (split; [lra|]); first [by left|right; left; split; [done|lra]|right; right; split; [done|lra]|exfalso; lra].
Qed.
(** What no part of a tick but its start changes. *)
Definition frame c c' : Prop :=
  prev_limits c' = prev_limits c ∧ jump_hold c' = jump_hold c ∧ config c' = config c.

Lemma write_frame c v c' o : write c v = (c', o) → frame c c' ∧ dwell_elapsed c' = dwell_elapsed c.
Proof. unfold write. destruct (f_ltb _ _); by intros [= <- _]. Qed.

Lemma drive_frame c t target c' o : drive c t target = Some (c', o) → frame c c' ∧ dwell_elapsed c' = dwell_elapsed c.
Proof.
  unfold drive. destruct (mode c); [|done|destruct (f_leb _ _)]; intros Hw; apply (inj Some) in Hw;
    by apply write_frame in Hw.
Qed.

Lemma recover_frame c t b target c' :
  recover c t b target = Some c' →
  frame c c' ∧ (dwell_elapsed c' = 0 ∨ dwell_elapsed c' = dwell_elapsed c + PoiServo.dt t)%Z.
Proof.
  unfold recover. destruct (if f_ltb _ _ then _ else _).
  - unfold duration_add. destruct (_ <? _)%Z; [done|]. intros [= <-]. split; [done|by right].
  - intros [= <-]. split; [done|by left].
Qed.

Record moves c (p request : Q) c' : Prop := {
  moves_settled : settled_limits c';
  moves_config : config c' = config c;
  moves_dwell : (0 <= dwell_elapsed c → 0 <= dwell_elapsed c' <= dwell_elapsed c + dt)%Z;
  moves_out : ∃ lo hi target,
    let up := current_output c + servo_step (p + export) (- p + import) in
    let down := current_output c - servo_step (- p + import) (p + export) in
    (hi == up ∧ up <= power_max ∨ hi == power_max ∧ power_max <= up) ∧
    (lo == hi ∧ (hi <= down ∨ hi <= power_min) ∨ lo <= hi ∧ down <= lo ∧ power_min <= lo ∧ (lo == down ∨ lo == power_min)) ∧
    lo <= target <= hi ∧ (target = request ∨ target = lo ∧ request < lo ∨ target = hi ∧ hi < request) ∧
    between (current_output c) (current_output c') target ∧
    (p + export <= 0 ∨ - p + import <= 0 →
       current_output c' = target ∨ current_output c' = current_output c ∧ Qabs (target - current_output c) < eps);
}.

(** One tick of the controller: where it can put the output. *)
Lemma meter_tick_moves c c' o p request :
  settled_limits c → tick c (meter_tick (current_output c) p request) = Some (c', o) → moves c p request c'.
Proof.
  intros Hset Ht. destruct (meter_bounds c p request Hset) as (Hce & Hfl & Hhe & Hhi & Hju).
  destruct Hset as (Hp & Hj & Hr). set (t := meter_tick _ p request) in *.
  unfold tick in Ht. rewrite Hju, Hhe, Hhi in Ht. cbv zeta in Ht.
  unfold hold_reading in Ht. rewrite Hj in Ht. cbn [Z.ltb Z.compare andb snd] in Ht.
  destruct (f_clamp _ _ _) as [target|] eqn:Hcl; cbn [mbind option_bind] in Ht; [|done].
  apply Q_clamp_cases in Hcl as [Hin Hcases].
  set (c1 := mkController (mode c) _ _ _ _ _) in Ht. change (f_leb ?x (of_Z 0)) with (Qle_bool x 0) in Ht.
  assert (frame c1 c' ∧ (0 <= dwell_elapsed c → 0 <= dwell_elapsed c' <= dwell_elapsed c + dt)%Z ∧
    between (current_output c) (current_output c') target ∧
    (p + export <= 0 ∨ - p + import <= 0 →
       current_output c' = target ∨ current_output c' = current_output c ∧ Qabs (target - current_output c) < eps))
    as ((Hf1 & Hf2 & Hf3) & Hdw & Hbt & Hout).
  { destruct (Qle_bool (p + export) 0 || Qle_bool (- p + import) 0) eqn:Hv.
    - apply (inj Some) in Ht. destruct (write_between _ _ _ _ Ht) as [Hbt Hout].
      destruct (write_frame _ _ _ _ Ht) as [Hf Hd]. cbn [set_mode dwell_elapsed] in Hd.
      split_and!; [exact Hf|lia|exact Hbt|intros _; exact Hout].
    - apply orb_false_iff in Hv as [He%Qle_bool_false Hi%Qle_bool_false].
      assert (p + export <= 0 ∨ - p + import <= 0 → current_output c' = target ∨
        current_output c' = current_output c ∧ Qabs (target - current_output c) < eps) as Hvac by (intros [?|?]; lra).
      case_bool_decide as Hm.
      + destruct (recover _ _ _ _) as [c2|] eqn:Hrec; cbn [mbind option_bind] in Ht; [|done].
        destruct (recover_frame _ _ _ _ _ Hrec) as [Hf Hd]. pose proof (recover_same _ _ _ _ _ Hrec) as (Hcur & Hcfg & _).
        change (PoiServo.dt t) with dt in Hd. cbn [dwell_elapsed current_output config c1] in Hd, Hcur, Hcfg.
        case_bool_decide; [injection Ht as <- _; split_and!; [exact Hf|lia| |exact Hvac]|].
        * rewrite Hcur. unfold between. destruct (Qlt_le_dec (current_output c) target); lra.
        * destruct (drive_frame _ _ _ _ _ Ht) as [(Hg1 & Hg2 & Hg3) Hd']. destruct Hf as (Hf1 & Hf2 & Hf3).
          split_and!; [split_and!; congruence|lia| |exact Hvac]. rewrite <- Hcur.
          eapply drive_between; [|exact Ht]. by rewrite Hcfg.
      + destruct (drive_frame _ _ _ _ _ Ht) as [Hf Hd]. cbn [dwell_elapsed c1] in Hd.
        split_and!; [exact Hf|lia| |exact Hvac].
        exact (drive_between c1 _ _ _ _ _ _ Hr Ht). }
  split; [split_and!; [exact Hf1|exact Hf2|by rewrite Hf3]|exact Hf3|exact Hdw|].
  exists (tick_floor c t), (tick_ceiling c t), target. cbv zeta.
  split_and!; [| |apply Hin|apply Hin|exact Hcases|exact Hbt|exact Hout].
  - unfold tick_ceiling. change (PoiServo.power_max t) with power_max.
    destruct (Q_min_cases (ceiling (tick_bounds c t)) power_max) as [[-> ?]|[-> ?]]; [left|right]; lra.
  - unfold tick_floor. change (PoiServo.power_min t) with power_min. set (hi := tick_ceiling c t).
    destruct (Q_max_cases (floor (tick_bounds c t)) power_min) as [[-> ?]|[-> ?]];
      match goal with |- context [f_min ?x hi] => destruct (Q_min_cases x hi) as [[-> ?]|[-> ?]] end; lra.
Qed.
(** Both limits met by the reading: each bound nears its limit by the gain. *)
Lemma moves_inside c p request c' :
  moves c p request c' → 0 <= p + export → 0 <= - p + import → rated (current_output c) →
  rated (current_output c') ∧
  current_output c - gain * (- p + import) <= current_output c' <= current_output c + gain * (p + export).
Proof.
  intros [_ _ _ (lo & hi & target & Hhi & Hlo & Hin & _ & Hbt & _)] He Hi Hu. cbv zeta in *.
  pose proof (servo_approach (p + export) (- p + import) He) as Hup.
  pose proof (servo_approach (- p + import) (p + export) Hi) as Hdn. pose proof gain_range as Hg.
  assert (0 <= gain * (p + export) ∧ 0 <= gain * (- p + import)) as [Hge Hgi] by (split; apply Qmult_le_0_compat; lra).
  set (x := gain * (p + export)) in *. set (y := gain * (- p + import)) in *.
  set (sx := servo_step (p + export) _) in *. set (sy := servo_step (- p + import) _) in *.
  clearbody x y sx sy. unfold rated, between in *. destruct Hhi as [[? ?]|[? ?]], Hlo as [[? [?|?]]|(? & ? & ? & [?|?])], Hbt; lra.
Qed.

(** An export violation that the rating can take off. *)
Lemma moves_exporting c p request c' :
  moves c p request c' → p + export < 0 → rated (current_output c) → power_min <= current_output c + (p + export) →
  rated (current_output c') ∧ current_output c - gain * (- p + import) <= current_output c' ∧
  (current_output c' <= current_output c - gain * - (p + export) ∨
   current_output c' <= current_output c ∧ gain * - (p + export) <= eps).
Proof.
  intros [_ _ _ (lo & hi & target & Hhi & Hlo & Hin & _ & _ & Hout)] He Hu Hmin. cbv zeta in *.
  destruct (servo_violation (p + export) (- p + import) He ltac:(lra)) as (H1 & H2 & _).
  pose proof (servo_approach (- p + import) (p + export) ltac:(lra)) as Hdn. pose proof gain_range as Hg.
  pose proof (servo_uncrossed (p + export) (- p + import) ltac:(lra)) as Hx.
  assert (0 <= gain * - (p + export) ∧ 0 <= gain * (- p + import)) as [Hge Hgi] by (split; apply Qmult_le_0_compat; lra).
  specialize (Hout (or_introl (Qlt_le_weak _ _ He))).
  set (x := gain * - (p + export)) in *. set (y := gain * (- p + import)) in *.
  set (sx := servo_step (p + export) _) in *. set (sy := servo_step (- p + import) _) in *.
  clearbody x y sx sy. unfold rated in *.
  assert (hi <= current_output c + sx ∧ power_min <= lo ∧ current_output c - y <= lo) as (Hh & Hl1 & Hl2)
    by (destruct Hhi as [[? ?]|[? ?]], Hlo as [[? [?|?]]|(? & ? & ? & [?|?])]; lra).
  destruct Hout as [->|[-> Heps%Qabs_Qlt_condition]]; [split; [lra|split; [lra|left; lra]]|].
  split; [lra|]. split; [lra|]. right. lra.
Qed.

Lemma moves_importing c p request c' :
  moves c p request c' → - p + import < 0 → rated (current_output c) →
  current_output c - (- p + import) <= power_max →
  rated (current_output c') ∧ current_output c' <= current_output c + gain * (p + export) ∧
  (current_output c + gain * - (- p + import) <= current_output c' ∨
   current_output c <= current_output c' ∧ gain * - (- p + import) <= eps).
Proof.
  intros [_ _ _ (lo & hi & target & Hhi & Hlo & Hin & _ & _ & Hout)] Hi Hu Hmax. cbv zeta in *.
  destruct (servo_violation (- p + import) (p + export) Hi ltac:(lra)) as (H1 & H2 & _).
  pose proof (servo_approach (p + export) (- p + import) ltac:(lra)) as Hup. pose proof gain_range as Hg.
  pose proof (servo_uncrossed (p + export) (- p + import) ltac:(lra)) as Hx.
  assert (0 <= gain * - (- p + import) ∧ 0 <= gain * (p + export)) as [Hgi Hge] by (split; apply Qmult_le_0_compat; lra).
  specialize (Hout (or_intror (Qlt_le_weak _ _ Hi))).
  set (x := gain * (p + export)) in *. set (y := gain * - (- p + import)) in *.
  set (sx := servo_step (p + export) _) in *. set (sy := servo_step (- p + import) _) in *.
  clearbody x y sx sy. unfold rated in *.
  assert (hi <= power_max ∧ hi <= current_output c + x ∧ current_output c - sy <= lo ∧ power_min <= lo) as (Hh1 & Hh2 & Hl1 & Hl2)
    by (destruct Hhi as [[? ?]|[? ?]], Hlo as [[? [?|?]]|(? & ? & ? & [?|?])]; lra).
  destruct Hout as [->|[-> Heps%Qabs_Qlt_condition]]; [split; [lra|split; [lra|left; lra]]|].
  split; [lra|]. split; [lra|]. right. lra.
Qed.

(** ** The loop *)

(** The dwell timer does not overflow within [n] ticks. *)
Definition dwell_fits c (n : nat) : Prop :=
  (0 <= dwell_elapsed c ∧ dwell_elapsed c + Z.of_nat n * dt <= max_duration)%Z.

Lemma loop_tick c p request n :
  settled_limits c → dwell_fits c (S n) →
  ∃ c' o, tick c (meter_tick (current_output c) p request) = Some (c', o) ∧ moves c p request c' ∧ dwell_fits c' n.
Proof.
  intros Hs Hd. unfold dwell_fits in *. rewrite Nat2Z.inj_succ in Hd.
  destruct (tick_total c (meter_tick (current_output c) p request)) as [[c' o] Ht].
  - unfold f_nan. simpl. by rewrite Qle_bool_refl.
  - change (PoiServo.dt _) with dt. nia.
  - exists c', o. split; [done|]. pose proof (meter_tick_moves _ _ _ _ _ Hs Ht) as Hm. split; [done|].
    pose proof (moves_dwell _ _ _ _ Hm (proj1 Hd)). nia.
Qed.

Section Steady.
Context (load : Q).

Definition room_export (u : Q) : Q := load - u + export.
Definition room_import (u : Q) : Q := - (load - u) + import.

(** Outputs, newest first, none of which took more than a quarter of either
    room there was. *)
Fixpoint slow (u : Q) (past : list Q) : Prop :=
  match past with
  | [] => 0 <= room_export u ∧ 0 <= room_import u
  | v :: past => (3 # 4) * room_export v <= room_export u ∧ (3 # 4) * room_import v <= room_import u ∧ slow v past
  end.

Lemma slow_inside past : ∀ u, slow u past → ∀ v, v ∈ u :: past → 0 <= room_export v ∧ 0 <= room_import v.
Proof.
  induction past as [|w past IH]; intros u Hs v Hv.
  - by apply list_elem_of_singleton in Hv as ->.
  - destruct Hs as (He & Hi & Hs). apply elem_of_cons in Hv as [->|Hv]; [|by apply (IH w)].
    destruct (IH w Hs w ltac:(by left)). lra.
Qed.

(** The room a meter late by at most three ticks shows is not much more than
    there is. *)
Lemma slow_lag lag past u :
  slow u past → (lag <= 3)%nat → (lag <= length past)%nat →
  let v := nth lag (u :: past) (of_Z 0) in
  0 <= room_export v ∧ 0 <= room_import v ∧
  (27 # 64) * room_export v <= room_export u ∧ (27 # 64) * room_import v <= room_import u.
Proof.
  intros Hs Hlag Hlen v. assert (v ∈ u :: past) as Hv.
  { apply list_elem_of_In, nth_In. simpl. lia. }
  destruct (slow_inside _ _ Hs _ Hv) as [H1 H2]. split; [done|]. split; [done|]. subst v. clear Hv.
  destruct past as [|v1 past]; [destruct lag; simpl in *; [lra|lia]|]. destruct Hs as (? & ? & Hs).
  destruct lag as [|lag]; [simpl in *; lra|].
  destruct past as [|v2 past]; [destruct lag; simpl in *; [lra|lia]|]. destruct Hs as (? & ? & Hs).
  destruct lag as [|lag]; [simpl in *; lra|].
  destruct past as [|v3 past]; [destruct lag; simpl in *; [lra|lia]|]. destruct Hs as (? & ? & _).
  destruct lag as [|lag]; [simpl in *; lra|]. assert (lag = 0)%nat as -> by lia. simpl in *. lra.
Qed.

Lemma loop_slow lag requests : ∀ c past,
  (lag <= 3)%nat → (lag <= length past)%nat → (dt <= 1000000000)%Z →
  settled_limits c → rated (current_output c) → dwell_fits c (length requests) → slow (current_output c) past →
  ∃ c' past', loop lag c past ((λ r, (load, r)) <$> requests) = Some (c', past') ∧ slow (current_output c') past'.
Proof.
  induction requests as [|r requests IH]; intros c past Hlag Hlen Hdt Hset Hu Hd Hs; [by exists c, past|].
  cbn [fmap list_fmap ClosedLoop.loop length]. set (v := nth lag (current_output c :: past) (of_Z 0)). change (f_sub load v) with (load - v).
  destruct (loop_tick c (load - v) r _ Hset Hd) as (c' & o & -> & Hm & Hd'). cbn [mbind option_bind].
  destruct (slow_lag lag past _ Hs Hlag Hlen) as (Hve & Hvi & Hle & Hli). fold v in Hve, Hvi, Hle, Hli.
  destruct (moves_inside _ _ _ _ Hm Hve Hvi Hu) as [Hu' [Hlo Hhi]].
  pose proof (gain_second Hdt) as Hg. pose proof gain_range as [Hg0 _]. change (load - v + export) with (room_export v) in Hhi.
  change (- (load - v) + import) with (room_import v) in Hlo.
  apply IH; [done|simpl; lia|done|apply (moves_settled _ _ _ _ Hm)|done|done|].
  split; [|split; [|exact Hs]].
  - unfold room_export in *. nra.
  - unfold room_import in *. nra.
Qed.
End Steady.
(** ** A violation fades *)

(** By how much the POI is past a limit. *)
Definition violation (load u : Q) : Q := Qmax 0 (Qmax (- (load - u + export)) (- (- (load - u) + import))).

(** The module's rating can bring the POI to its limits. *)
Definition suffices (load : Q) : Prop := power_min <= load + export ∧ load - import <= power_max.

Lemma violation_le load u v :
  0 <= v → - (load - u + export) <= v → - (- (load - u) + import) <= v → violation load u <= v.
Proof. intros. by repeat apply Q.max_lub. Qed.

Lemma violation_ge load u :
  0 <= violation load u ∧ - (load - u + export) <= violation load u ∧ - (- (load - u) + import) <= violation load u.
Proof.
  unfold violation. split_and!; [apply Q.le_max_l| |];
    (eapply Qle_trans; [|apply Q.le_max_r]); [apply Q.le_max_l|apply Q.le_max_r].
Qed.

Lemma moves_violation c load r c' :
  moves c (load - current_output c) r c' → rated (current_output c) → suffices load →
  rated (current_output c') ∧ violation load (current_output c') <= (1 - gain) * violation load (current_output c) + eps.
Proof.
  intros Hm Hu [Hs1 Hs2]. pose proof gain_range as Hg. assert (0 < eps) as Heps by (by apply Qltb_true).
  pose proof (violation_ge load (current_output c)) as (Hv0 & Hve & Hvi).
  set (v := violation load (current_output c)) in *. set (u := current_output c) in *.
  destruct (Qlt_le_dec (load - u + export) 0) as [He|He]; [|destruct (Qlt_le_dec (- (load - u) + import) 0) as [Hi|Hi]].
  - destruct (moves_exporting _ _ _ _ Hm He Hu) as (Hu' & Hlo & Hhi); [fold u; lra|]. split; [done|]. fold u in Hlo, Hhi.
    assert (0 <= (1 - gain) * (- (load - u) + import)) by (apply Qmult_le_0_compat; lra).
    assert (0 <= (1 - gain) * v) by (apply Qmult_le_0_compat; lra).
    assert (0 <= (1 - gain) * (v - - (load - u + export))) by (apply Qmult_le_0_compat; lra).
    apply violation_le; lra.
  - destruct (moves_importing _ _ _ _ Hm Hi Hu) as (Hu' & Hhi & Hlo); [fold u; lra|]. split; [done|]. fold u in Hlo, Hhi.
    assert (0 <= (1 - gain) * (load - u + export)) by (apply Qmult_le_0_compat; lra).
    assert (0 <= (1 - gain) * v) by (apply Qmult_le_0_compat; lra).
    assert (0 <= (1 - gain) * (v - - (- (load - u) + import))) by (apply Qmult_le_0_compat; lra).
    apply violation_le; lra.
  - destruct (moves_inside _ _ _ _ Hm He Hi Hu) as (Hu' & Hlo & Hhi). split; [done|]. fold u in Hlo, Hhi.
    assert (0 <= (1 - gain) * (load - u + export)) by (apply Qmult_le_0_compat; lra).
    assert (0 <= (1 - gain) * (- (load - u) + import)) by (apply Qmult_le_0_compat; lra).
    assert (0 <= (1 - gain) * v) by (apply Qmult_le_0_compat; lra).
    apply violation_le; lra.
Qed.

Lemma violation_load load load' u : violation load' u <= violation load u + Qabs (load' - load).
Proof.
  pose proof (violation_ge load u) as (? & ? & ?). pose proof (Qabs_nonneg (load' - load)).
  pose proof (Qle_Qabs (load' - load)). pose proof (Qle_Qabs (- (load' - load))) as Hneg. rewrite Qabs_opp in Hneg.
  apply violation_le; lra.
Qed.

(** A site load that moves by at most [d] from a tick to the next. *)
Fixpoint wanders (d load : Q) (inputs : list (Q * Q)) : Prop :=
  match inputs with
  | [] => True
  | (load', _) :: inputs => Qabs (load' - load) <= d ∧ suffices load' ∧ wanders d load' inputs
  end.

Fixpoint last_load (load : Q) (inputs : list (Q * Q)) : Q :=
  match inputs with [] => load | (load', _) :: inputs => last_load load' inputs end.

(** What a violation of [v] is after [n] ticks. *)
Fixpoint faded (n : nat) (v : Q) : Q :=
  match n with O => v | S n => faded n ((1 - gain) * v) end.

Lemma loop_violation d rest inputs : ∀ c past load v,
  eps + d <= gain * rest → 0 <= v →
  settled_limits c → rated (current_output c) → dwell_fits c (length inputs) → wanders d load inputs →
  violation load (current_output c) <= v + rest →
  ∃ c' past', loop 0 c past inputs = Some (c', past') ∧
    violation (last_load load inputs) (current_output c') <= faded (length inputs) v + rest.
Proof.
  induction inputs as [|[load' r] inputs IH]; intros c past load v Hrest Hv Hset Hu Hd Hw Hvio; [by exists c, past|].
  cbn [ClosedLoop.loop length nth last_load faded]. destruct Hw as (Hdl & Hsuf & Hw).
  destruct (loop_tick c (load' - current_output c) r _ Hset Hd) as (c' & o & Ht & Hm & Hd').
  change (f_sub load' (current_output c)) with (load' - current_output c). rewrite Ht. cbn [mbind option_bind].
  destruct (moves_violation _ _ _ _ Hm Hu Hsuf) as [Hu' Hv']. pose proof gain_range as Hg.
  pose proof (violation_load load load' (current_output c)) as Hvl.
  assert (0 <= (1 - gain) * (v + rest + d - violation load' (current_output c))) by (apply Qmult_le_0_compat; lra).
  pose proof (Qabs_nonneg (load' - load)) as Habs.
  assert (0 <= gain * d) by (apply Qmult_le_0_compat; lra).
  apply (IH c' (current_output c :: past) load'); try done.
  - apply Qmult_le_0_compat; lra.
  - apply (moves_settled _ _ _ _ Hm).
  - lra.
Qed.
(** ** A request with room *)

Section Settle.
Context (load request : Q) (cfg : EnvelopeConfig Q) (s : Q).
Implicit Types (u : Q).

(** The least a tick moves the output: what the gain makes of the room left at
    the request, and the ramp on either side. *)
Hypothesis request_rated : rated request.
Hypothesis step_seen : eps < s.
Hypothesis step_gain : s <= gain * room_export load request ∧ s <= gain * room_import load request.
Hypothesis step_max : s <= ramp_rate_per_sec cfg * power_max * as_secs dt.
Hypothesis step_min : s <= ramp_rate_per_sec cfg * Qabs power_min * as_secs dt.

Definition open u : Prop := 0 < room_export load u ∧ 0 < room_import load u.

Definition lagged_tick u : EnvelopeTick Q := meter_tick u (load - u) request.

Lemma loop_eps_pos : 0 < eps.
Proof. by apply Qltb_true. Qed.

Lemma request_open : 0 < room_export load request ∧ 0 < room_import load request.
Proof. pose proof gain_range. pose proof loop_eps_pos. split; nra. Qed.

(** The target of a tick inside both limits: the request, or as near to it as
    the servo lets it come. *)
Lemma site_target c :
  settled_limits c → rated (current_output c) → open (current_output c) →
  ∃ target h, f_clamp request (tick_floor c (lagged_tick (current_output c))) (tick_ceiling c (lagged_tick (current_output c))) = Some target ∧
    (target == request ∨
     s <= target - current_output c ∧ target < request ∨ s <= current_output c - target ∧ request < target) ∧
    let c1 := mkController (mode c) (dwell_elapsed c) (current_output c) (config c) (Some import, Some export) h in
    h = 0%Z ∧
    tick c (lagged_tick (current_output c)) =
    if bool_decide (mode c = Constrained) then
      c' ← recover c1 (lagged_tick (current_output c)) (tick_bounds c (lagged_tick (current_output c))) target;
      if bool_decide (mode c' = Constrained) then Some (c', None) else drive c' (lagged_tick (current_output c)) target
    else drive c1 (lagged_tick (current_output c)) target.
Proof.
  intros Hset Hu [He Hi]. destruct (meter_bounds c (load - current_output c) request Hset) as (Hce & Hfl & Hhe & Hhi & Hju).
  fold (lagged_tick (current_output c)) in Hce, Hfl, Hhe, Hhi, Hju.
  change (load - current_output c + export) with (room_export load (current_output c)) in *.
  change (- (load - current_output c) + import) with (room_import load (current_output c)) in *.
  pose proof (servo_approach (room_export load (current_output c)) (room_import load (current_output c)) (Qlt_le_weak _ _ He)) as Hup0.
  pose proof (servo_approach (room_import load (current_output c)) (room_export load (current_output c)) (Qlt_le_weak _ _ Hi)) as Hdn0.
  pose proof gain_range as Hg. pose proof request_open as [Hre Hri]. destruct step_gain as [Hse Hsi].
  destruct (tick_bounds_ordered c (lagged_tick (current_output c))) as [Hord _]; [unfold f_nan; simpl; by rewrite Qle_bool_refl|].
  destruct (clamp_Some request _ _ Hord) as [target Hcl]. exists target, 0%Z. split; [exact Hcl|]. split.
  - apply Q_clamp_cases in Hcl as [Hin Hcases]. revert Hin Hcases.
    assert (0 <= gain * room_export load (current_output c) ∧ 0 <= gain * room_import load (current_output c)) as [Hge Hgi]
      by (split; apply Qmult_le_0_compat; lra).
    assert ((request <= current_output c ∨ s <= gain * room_export load (current_output c)) ∧ (current_output c <= request ∨ s <= gain * room_import load (current_output c))) as [Hup Hdn].
    { unfold room_export, room_import in *.
      split; [destruct (Qlt_le_dec (current_output c) request)|destruct (Qlt_le_dec request (current_output c))]; (by left) || (right; nra). }
    pose proof loop_eps_pos. unfold tick_floor, tick_ceiling. change (PoiServo.power_max _) with power_max.
    change (PoiServo.power_min _) with power_min. unfold rated in *.
    destruct (Q_min_cases (ceiling (tick_bounds c (lagged_tick (current_output c)))) power_max) as [[-> ?]|[-> ?]];
      destruct (Q_max_cases (floor (tick_bounds c (lagged_tick (current_output c)))) power_min) as [[-> ?]|[-> ?]];
      match goal with |- context [f_min ?x ?y] => destruct (Q_min_cases x y) as [[-> ?]|[-> ?]] end;
      intros Hin [->|[[-> ?]|[-> ?]]];
      destruct Hup, Hdn; first [left; lra | right; left; lra | right; right; lra].
  - cbv zeta. split; [done|]. unfold tick.
    change (requested_setpoint (lagged_tick (current_output c))) with request. rewrite Hju, Hhe, Hhi, Hcl. destruct Hset as (_ & Hj & _).
    unfold hold_reading. rewrite Hj. cbn [Z.ltb Z.compare andb snd mbind option_bind].
    change (f_leb ?x (of_Z 0)) with (Qle_bool x 0).
    assert (Qle_bool (room_export load (current_output c)) 0 = false) as -> by (by apply Qle_bool_false).
    by assert (Qle_bool (room_import load (current_output c)) 0 = false) as -> by (by apply Qle_bool_false).
Qed.
Definition close c (d : Q) : Prop :=
  settled_limits c ∧ config c = cfg ∧ rated (current_output c) ∧ open (current_output c) ∧
  Qabs (request - current_output c) <= d.

Definition arrived c : Prop := mode c = Normal ∧ close c eps.
Definition under_way c (d : Q) : Prop := mode c ≠ Constrained ∧ close c d.

(** An output nearer the request is inside as well. *)
Lemma nearer_inside u v : rated u → open u → between u v request → rated v ∧ open v.
Proof.
  intros Hu [He Hi] Hb. pose proof request_open as [Hre Hri]. unfold rated, open, room_export, room_import, between in *.
  destruct Hb; (split; [lra|split; lra]).
Qed.

Lemma write_nearer c target c' o d :
  close c d → mode c = Normal →
  (target == request ∨ s <= target - current_output c ∧ target < request ∨
   s <= current_output c - target ∧ request < target) →
  write c target = (c', o) → arrived c' ∨ under_way c' (d - s).
Proof.
  intros (Hset & Hcfg & Hu & Hop & Hd) Hm Ht Hw. pose proof loop_eps_pos.
  destruct (write_between _ _ _ _ Hw) as [Hb Hout]. destruct (write_frame _ _ _ _ Hw) as [(Hf1 & Hf2 & Hf3) _].
  pose proof (write_mode c target) as [Hm' _]. rewrite Hw in Hm'. cbn [fst] in Hm'.
  assert (settled_limits c') as Hset' by (destruct Hset as (? & ? & ?); split_and!; congruence).
  apply Qabs_Qle_condition in Hd.
  assert (rated (current_output c') ∧ open (current_output c')) as [Hu' Hop'].
  { apply (nearer_inside (current_output c)); [done|done|]. unfold between in *. destruct Ht as [?|[?|?]], Hb; lra. }
  destruct Ht as [Ht|Ht]; [left|right]; (split; [congruence|split_and!; [done|congruence|done|done|]]);
    apply Qabs_Qle_condition.
  - destruct Hout as [->|[-> Hq%Qabs_Qlt_condition]]; lra.
  - destruct Hout as [->|[-> Hq%Qabs_Qlt_condition]]; destruct Ht; lra.
Qed.

Lemma drive_nearer c u target c' o d :
  close c d → mode c ≠ Constrained →
  (target == request ∨ s <= target - current_output c ∧ target < request ∨
   s <= current_output c - target ∧ request < target) →
  drive c (lagged_tick u) target = Some (c', o) → arrived c' ∨ under_way c' (d - s).
Proof.
  intros Hc Hm Ht. unfold drive. destruct (mode c) eqn:Hmode; [|done|].
  { intros Hw. apply (inj Some) in Hw. by eapply write_nearer. }
  cbn [PoiServo.power_min PoiServo.power_max PoiServo.dt meter_tick lagged_tick]. cbv zeta.
  change (f_sub target (current_output c)) with (target - current_output c).
  match goal with |- context [f_leb (f_abs ?x) ?m] => assert (s <= m) as Hs; [|set (max_step := m) in *] end.
  { destruct Hc as (_ & -> & _). by destruct (f_leb _ _). }
  clearbody max_step. change (f_leb (f_abs ?x) max_step) with (Qle_bool (Qabs x) max_step).
  destruct (Qle_bool _ max_step) eqn:Hle; intros Hw; apply (inj Some) in Hw.
  { exact (write_nearer (set_mode c Normal (dwell_elapsed c)) target c' o d Hc eq_refl Ht Hw). }
  apply Qle_bool_false in Hle. pose proof loop_eps_pos. pose proof (write_mode c) as Hwm.
  change (f_add ?x (f_mul ?y (f_signum ?z))) with (x + y * (if Qle_bool 0 z then 1 else - (1))) in Hw.
  destruct Hc as (Hset & Hcfg & Hu & Hop & Hd).
  destruct (write_between _ _ _ _ Hw) as [_ Hout]. destruct (write_frame _ _ _ _ Hw) as [(Hf1 & Hf2 & Hf3) _].
  specialize (Hwm (current_output c + max_step * (if Qle_bool 0 (target - current_output c) then 1 else - (1)))).
  rewrite Hw in Hwm. destruct Hwm as [Hwm _]. cbn [fst] in Hwm.
  assert (settled_limits c') as Hset' by (destruct Hset as (? & ? & ?); split_and!; congruence).
  apply Qabs_Qle_condition in Hd. right. split; [congruence|].
  assert (current_output c' == current_output c + max_step * (if Qle_bool 0 (target - current_output c) then 1 else - (1)))
    as Heq.
  { destruct Hout as [->|[_ Hq%Qabs_Qlt_condition]]; [lra|]. destruct (Qle_bool _ _); lra. }
  assert (between (current_output c) (current_output c') request ∧
          Qabs (request - current_output c') <= d - s) as [Hb Hd'].
  { unfold between. rewrite Qabs_Qle_condition. destruct (Qle_bool 0 _) eqn:Hsg;
      [apply Qle_bool_iff in Hsg; rewrite Qabs_pos in Hle by done
      |apply Qle_bool_false in Hsg; rewrite Qabs_neg in Hle by lra]; destruct Ht as [?|[?|?]]; lra. }
  destruct (nearer_inside _ _ Hu Hop Hb) as [Hu' Hop']. split_and!; [done|congruence|done..].
Qed.

Lemma site_under_way c d :
  under_way c d → ∃ c' o, tick c (lagged_tick (current_output c)) = Some (c', o) ∧ (arrived c' ∨ under_way c' (d - s)).
Proof.
  intros [Hm Hc]. pose proof Hc as (Hset & Hcfg & Hu & Hop & Hd).
  destruct (site_target c Hset Hu Hop) as (target & h & _ & Ht & Hh & ->). rewrite bool_decide_false by done.
  match goal with |- context [drive ?c0 ?t target] => set (c1 := c0) end.
  assert (mode c1 ≠ Constrained) as Hm1 by done.
  destruct (drive_total c1 (lagged_tick (current_output c)) target Hm1) as [[c' o] Hdr]. rewrite Hdr.
  exists c', o. split; [done|]. eapply (drive_nearer c1 _ target _ _ d); [|done|exact Ht|exact Hdr].
  destruct Hset as (_ & _ & Hr). by split_and!.
Qed.

Lemma arrived_under_way c : arrived c → under_way c eps.
Proof. intros [Hm Hc]. split; [congruence|done]. Qed.

Lemma site_arrived c :
  arrived c → ∃ c' o, tick c (lagged_tick (current_output c)) = Some (c', o) ∧ arrived c'.
Proof.
  intros Ha. destruct (site_under_way c eps (arrived_under_way c Ha)) as (c' & o & Ht & [Ha'|[_ Hc]]); [by exists c', o|].
  exfalso. destruct Hc as (_ & _ & _ & _ & Hd). pose proof (Qabs_nonneg (request - current_output c')). lra.
Qed.

(** ** The dwell, the way back, the request *)

Definition site_loop (n : nat) c (past : list Q) := loop 0 c past (replicate n (load, request)).

Lemma site_loop_S n c past c' o :
  tick c (lagged_tick (current_output c)) = Some (c', o) →
  site_loop (S n) c past = site_loop n c' (current_output c :: past).
Proof.
  intros Ht. unfold site_loop. cbn [replicate ClosedLoop.loop nth].
  change (f_sub load (current_output c)) with (load - current_output c). unfold lagged_tick in Ht. by rewrite Ht.
Qed.

Lemma arrived_loops n : ∀ c past, arrived c → ∃ c' past', site_loop n c past = Some (c', past') ∧ arrived c'.
Proof.
  induction n as [|n IH]; intros c past Ha; [by exists c, past|].
  destruct (site_arrived c Ha) as (c1 & o & Ht & Ha1). rewrite (site_loop_S _ _ _ _ _ Ht). by apply IH.
Qed.

Lemma under_way_loops n : ∀ c past, under_way c (inject_Z (Z.of_nat n) * s) →
  ∃ c' past', site_loop (S n) c past = Some (c', past') ∧ arrived c'.
Proof.
  induction n as [|n IH]; intros c past Hw;
    destruct (site_under_way c _ Hw) as (c1 & o & Ht & [Ha|Hw1]); rewrite (site_loop_S _ _ _ _ _ Ht);
    try (by apply arrived_loops).
  - exfalso. destruct Hw1 as (_ & _ & _ & _ & _ & Hd). change (inject_Z (Z.of_nat 0)) with 0 in Hd.
    pose proof loop_eps_pos. pose proof (Qabs_nonneg (request - current_output c1)). lra.
  - apply IH. destruct Hw1 as (Hm & Hset & Hc & Hu & Hop & Hd). split; [done|]. split_and!; [done..|].
    rewrite Nat2Z.inj_succ, <- Z.add_1_r, inject_Z_plus in Hd. change (inject_Z 1) with 1 in Hd. lra.
Qed.

(** Held back, with the hysteresis margin on the side the request is. *)
Definition held c (d : Q) : Prop :=
  mode c = Constrained ∧ close c d ∧
  hysteresis_margin cfg * Qabs power_min <= room_import load (current_output c) ∧
  hysteresis_margin cfg * power_max <= room_export load (current_output c).

Lemma site_held c d :
  held c d → (0 <= dwell_elapsed c)%Z → (dwell_elapsed c + dt <= max_duration)%Z →
  ∃ c' o, tick c (lagged_tick (current_output c)) = Some (c', o) ∧
    if (hysteresis_dwell cfg <=? dwell_elapsed c + dt)%Z then arrived c' ∨ under_way c' (d - s)
    else held c' d ∧ dwell_elapsed c' = (dwell_elapsed c + dt)%Z.
Proof.
  intros (Hm & Hc & Hmi & Hme) Hd0 Hmax. pose proof Hc as (Hset & Hcfg & Hu & Hop & Hd).
  destruct (site_target c Hset Hu Hop) as (target & h & _ & Ht & Hh & ->). rewrite bool_decide_true by done.
  unfold recover. cbv zeta. cbn [current_output config dwell_elapsed].
  destruct (meter_bounds c (load - current_output c) request Hset) as (_ & _ & Hhe & Hhi & _).
  fold (lagged_tick (current_output c)) in Hhe, Hhi. rewrite Hhe, Hhi, Hcfg.
  change (PoiServo.power_min (lagged_tick (current_output c))) with power_min.
  change (PoiServo.power_max (lagged_tick (current_output c))) with power_max.
  change (PoiServo.dt (lagged_tick (current_output c))) with dt.
  match goal with |- context [match ?b with true => _ | false => Some _ end] =>
    replace b with true by (destruct (f_ltb target (current_output c)); symmetry; apply Qle_bool_iff; assumption) end.
  unfold duration_add. assert ((max_duration <? dwell_elapsed c + dt)%Z = false) as -> by (apply Z.ltb_ge; lia).
  cbn [mbind option_bind]. destruct (hysteresis_dwell cfg <=? dwell_elapsed c + dt)%Z eqn:Hdw; cbn [set_mode mode].
  - rewrite bool_decide_false by done.
    match goal with |- context [drive ?c0 ?t target] => set (c1 := c0) end.
    assert (mode c1 ≠ Constrained) as Hm1 by done.
    destruct (drive_total c1 (lagged_tick (current_output c)) target Hm1) as [[c' o] Hdr]. rewrite Hdr.
    exists c', o. split; [done|]. eapply (drive_nearer c1 _ target _ _ d); [|done|exact Ht|exact Hdr].
    destruct Hset as (_ & _ & Hr). rewrite Hcfg in Hr. split; [split_and!; [done|exact Hh|exact Hr]|]. by split_and!.
  - rewrite bool_decide_true by done. eexists _, _. split; [done|]. split; [|done].
    destruct Hset as (_ & _ & Hr). rewrite Hcfg in Hr. split; [done|]. split; [|done].
    split; [split_and!; [done|exact Hh|exact Hr]|]. by split_and!.
Qed.

Lemma held_loops n k : ∀ c past,
  held c (inject_Z (Z.of_nat n) * s) → (0 <= dwell_elapsed c)%Z →
  (dwell_elapsed c + Z.of_nat k * dt <= max_duration)%Z →
  (hysteresis_dwell cfg <= dwell_elapsed c + Z.of_nat k * dt)%Z → (0 < k)%nat →
  ∃ c' past', site_loop (k + n) c past = Some (c', past') ∧ arrived c'.
Proof.
  induction k as [|k IH]; intros c past Hh Hd0 Hmax Hdw Hk; [lia|]. cbn [Nat.add].
  destruct (site_held c _ Hh Hd0 ltac:(nia)) as (c1 & o & Ht & Hc1). rewrite (site_loop_S _ _ _ _ _ Ht).
  destruct (Z.leb_spec (hysteresis_dwell cfg) (dwell_elapsed c + dt)).
  - destruct Hc1 as [Ha|Hw]; [by apply arrived_loops|]. destruct n as [|n].
    + exfalso. destruct Hw as (_ & _ & _ & _ & _ & Hd). change (inject_Z (Z.of_nat 0)) with 0 in Hd.
      pose proof loop_eps_pos. pose proof (Qabs_nonneg (request - current_output c1)). lra.
    + assert (under_way c1 (inject_Z (Z.of_nat n) * s)) as Hw1.
      { destruct Hw as (Hm & Hset & Hc & Hu & Hop & Hd). split; [done|]. split_and!; [done..|].
        rewrite Nat2Z.inj_succ, <- Z.add_1_r, inject_Z_plus in Hd. change (inject_Z 1) with 1 in Hd. lra. }
      destruct (under_way_loops n c1 (current_output c :: past) Hw1) as (c2 & past2 & Hl & Ha).
      rewrite Nat.add_comm. unfold site_loop. rewrite replicate_add.
      assert (∀ l1 l2 c p, loop 0 c p (l1 ++ l2) = '(c, p) ← loop 0 c p l1; loop 0 c p l2) as Happ.
      { intros l1. induction l1 as [|[l r] l1 IHl]; intros l2 c0 p0; [done|]. cbn [app ClosedLoop.loop].
        destruct (tick c0 _) as [[c3 o3]|]; [apply IHl|done]. }
      rewrite Happ. unfold site_loop in Hl. rewrite Hl. cbn [mbind option_bind]. by apply arrived_loops.
  - destruct Hc1 as [Hh1 He]. destruct k as [|k]; [lia|]. rewrite <- He in *. apply IH; [done|lia|nia|nia|lia].
Qed.
End Settle.
End Loop.

(** A battery at rest inside both limits, its meter at most three ticks of
    a second late, steered by whatever requests: every output the controller
    ever takes keeps the POI inside both limits, and no tick panics.  The
    approach never overshoots, up to the lag the gain was chosen for. *)
Theorem lag_never_overshoots (inf export import power_min power_max load : Q) dt lag c requests :
  0 <= dt <= 1000000000 → (lag <= 3)%nat → (0 <= power_max)%Q →
  settled_limits export import c → rated power_min power_max (current_output c) →
  (0 <= load - current_output c + export ∧ 0 <= - (load - current_output c) + import)%Q →
  dwell_fits dt c (length requests) →
  ∃ c' past', @loop Q Q_Float inf export import power_min power_max dt lag c (replicate lag (current_output c))
      ((λ r, (load, r)) <$> requests) = Some (c', past') ∧
    ∀ u, u ∈ current_output c' :: past' → (0 <= load - u + export ∧ 0 <= - (load - u) + import)%Q.
Proof.
  intros Hdt Hlag Hmax Hset Hu Hin Hd.
  destruct (loop_slow inf export import power_min power_max dt ltac:(lia) ltac:(lra) Hmax load lag requests c
    (replicate lag (current_output c))) as (c' & past' & Hl & Hs); try done; [by rewrite length_replicate|lia| |].
  - clear -Hin. induction lag as [|lag IH]; [exact Hin|]. cbn [replicate slow]. unfold room_export, room_import.
    split; [lra|]. split; [lra|exact IH].
  - exists c', past'. split; [exact Hl|]. by apply slow_inside.
Qed.


(** C26: in exact rational arithmetic, with a meter that shows the
    output of the last tick, fresh readings at most 3 s apart, limits that stay, a
    rating that can bring each load inside them, and a dwell timer that does not
    overflow: a POI past a limit comes back. Each tick takes off at least the gain's
    share of what is over (a tenth a second), whatever is requested and whatever
    mode the controller is in, down to a rest with [gain * rest] at least the
    controller's [EPSILON] dead band plus the [d] watts by which the load moves from
    one tick to the next; with a load that stays, only the dead band's share
    remains. *)
Theorem violation_fades (inf export import power_min power_max load d rest v : Q) dt c past inputs :
  0 <= dt <= 3 * 1000000000 → (0 <= import + export)%Q → (0 <= power_max)%Q →
  settled_limits export import c → rated power_min power_max (current_output c) →
  dwell_fits dt c (length inputs) → wanders export import power_min power_max d load inputs →
  (eps + d <= gain dt * rest)%Q → (0 <= v)%Q → (violation export import load (current_output c) <= v + rest)%Q →
  ∃ c' past', @loop Q Q_Float inf export import power_min power_max dt 0 c past inputs = Some (c', past') ∧
    (violation export import (last_load load inputs) (current_output c') <= faded dt (length inputs) v + rest)%Q.
Proof. intros. by eapply loop_violation. Qed.

(** C13: in exact rational arithmetic, with a meter that shows the
    output of the last tick, fresh readings at most 3 s apart, and a load, limits
    and a request that stay: a module in Constrained mode, at most [n] steps of [s]
    watts from a request that is inside its rating and leaves room on both sides of
    the POI, and with the hysteresis margin met where it stands, is back in Normal
    mode and within [EPSILON] of its request after the [k] ticks that fill its dwell
    and [n] more, with the POI strictly inside both limits and no panic. A step [s]
    is more than [EPSILON] and no more than the gain of the room at the request and
    the ramp rate allow in a tick. *)
Theorem closed_loop_settles (inf export import power_min power_max load request s : Q) dt cfg c past k n :
  0 <= dt <= 3 * 1000000000 → (0 <= import + export)%Q →
  rated power_min power_max request → (eps < s)%Q →
  (s <= gain dt * room_export export load request ∧ s <= gain dt * room_import import load request)%Q →
  (s <= ramp_rate_per_sec cfg * power_max * as_secs dt)%Q →
  (s <= ramp_rate_per_sec cfg * Qabs power_min * as_secs dt)%Q →
  held export import power_min power_max load request cfg c (inject_Z (Z.of_nat n) * s) →
  0 <= dwell_elapsed c → dwell_elapsed c + Z.of_nat k * dt <= max_duration →
  hysteresis_dwell cfg <= dwell_elapsed c + Z.of_nat k * dt → (0 < k)%nat →
  ∃ c' past', @loop Q Q_Float inf export import power_min power_max dt 0 c past (replicate (k + n) (load, request)) =
      Some (c', past') ∧
    mode c' = Normal ∧ (Qabs (request - current_output c') <= eps)%Q ∧
    (0 < room_export export load (current_output c') ∧ 0 < room_import import load (current_output c'))%Q.
Proof.
  intros Hdt Hlim Hr Hs Hg Hs1 Hs2 Hh Hd0 Hd1 Hd2 Hk.
  destruct (held_loops inf export import power_min power_max dt Hdt Hlim load request cfg s Hr Hs Hg Hs1 Hs2
    n k c past Hh Hd0 Hd1 Hd2 Hk) as (c' & past' & Hl & Hm & _ & _ & _ & Hop & Hd).
  by exists c', past'.
Qed.

(** A battery of 5 MW at rest on a site importing 1 MW, asked for all it has,
    with a meter three seconds late. *)
Definition at_rest : EnvelopeController Q :=
  mkController Normal 0 0%Q (mkConfig (1 # 10) (1 # 20) (30 * 1000000000))%Q (Some 2000, Some 0)%Q 0.

Lemma lag_never_overshoots_witness :
  ∃ c' past', @loop Q Q_Float 0%Q 0%Q 2000%Q (-5000)%Q 5000%Q 1000000000 3 at_rest [0; 0; 0]%Q
      ((λ r, (1000, r)) <$> replicate 40 5000)%Q = Some (c', past') ∧
    ∀ u, u ∈ current_output c' :: past' → (0 <= 1000 - u + 0 ∧ 0 <= - (1000 - u) + 2000)%Q.
Proof.
  refine (lag_never_overshoots 0%Q 0%Q 2000%Q (-5000)%Q 5000%Q 1000%Q 1000000000 3 at_rest (replicate 40 5000%Q) _ _ _ _ _ _ _).
  - done.
  - lia.
  - by apply Qle_bool_iff.
  - split_and!; [done|done|by apply Qle_bool_iff].
  - split; by apply Qle_bool_iff.
  - split; by apply Qle_bool_iff.
  - split; by vm_compute.
Defined.

(** 400 kW of export where none is allowed, a load that then moves by up to 10
    kW a second: after five seconds no more than 59% of 290 kW, and 110 kW. *)
Definition exporting : EnvelopeController Q :=
  mkController Normal 0 1400%Q (mkConfig (1 # 10) (1 # 20) (30 * 1000000000))%Q (Some 2000, Some 0)%Q 0.

Lemma violation_fades_witness :
  ∃ c' past', @loop Q Q_Float 0%Q 0%Q 2000%Q (-5000)%Q 5000%Q 1000000000 0 exporting []
      [(1000, 5000); (990, 0); (1000, 5000); (1005, -5000); (1000, 5000)]%Q = Some (c', past') ∧
    (violation 0 2000 1000 (current_output c') <= (59050 # 100000) * 290 + 110)%Q.
Proof.
  destruct (violation_fades 0 0 2000 (-5000) 5000 1000 10 110 290 1000000000 exporting []
    [(1000, 5000); (990, 0); (1000, 5000); (1005, -5000); (1000, 5000)]%Q) as (c' & past' & Hl & Hv).
  - done.
  - by apply Qle_bool_iff.
  - by apply Qle_bool_iff.
  - split_and!; [done|done|by apply Qle_bool_iff].
  - split; by apply Qle_bool_iff.
  - split; by vm_compute.
  - repeat (split; [by apply Qle_bool_iff|split; [split; by apply Qle_bool_iff|]]). done.
  - by apply Qle_bool_iff; vm_compute.
  - by apply Qle_bool_iff.
  - by apply Qle_bool_iff; vm_compute.
  - exists c', past'. split; [exact Hl|]. eapply Qle_trans; [exact Hv|]. by apply Qle_bool_iff; vm_compute.
Defined.

(** Held at 200 kW on a site importing 1 MW, asked for 600 kW, with a dwell of
    3 s: 20 kW a second or more. *)
Definition held_at_200 : EnvelopeController Q :=
  mkController Constrained 0 200%Q (mkConfig (1 # 10) (1 # 100) (3 * 1000000000))%Q (Some 2000, Some 0)%Q 0.

Lemma closed_loop_settles_witness :
  ∃ c' past', @loop Q Q_Float 0%Q 0%Q 2000%Q (-5000)%Q 5000%Q 1000000000 0 held_at_200 []
      (replicate (3 + 20) (1000, 600)%Q) = Some (c', past') ∧
    mode c' = Normal ∧ (Qabs (600 - current_output c') <= eps)%Q ∧
    (0 < room_export 0 1000 (current_output c') ∧ 0 < room_import 2000 1000 (current_output c'))%Q.
Proof.
  refine (closed_loop_settles 0 0 2000 (-5000) 5000 1000 600 20 1000000000
    (mkConfig (1 # 10) (1 # 100) (3 * 1000000000)%Z)%Q held_at_200 [] 3 20 _ _ _ _ _ _ _ _ _ _ _ _).
  - done.
  - by apply Qle_bool_iff.
  - split; by apply Qle_bool_iff.
  - by apply Qltb_true; vm_compute.
  - split; by apply Qle_bool_iff; vm_compute.
  - by apply Qle_bool_iff; vm_compute.
  - by apply Qle_bool_iff; vm_compute.
  - split; [done|]. split; [|split; by apply Qle_bool_iff; vm_compute].
    split; [split_and!; [done|done|by apply Qle_bool_iff]|]. split; [done|].
    split; [split; by apply Qle_bool_iff|]. split; [split; by apply Qltb_true; vm_compute|].
    by apply Qle_bool_iff; vm_compute.
  - done.
  - by vm_compute.
  - by vm_compute.
  - lia.
Defined.

(** ** The numbers of [poi_servo.rs] on [f64] *)

(** What the POI shows after each tick, oldest first. *)
Definition poi_trace (lag : nat) (output : Z) (loads : list Z) (import : Z) : option (list f64) :=
  let c := mkController Normal 0 (of_Z output) (mkConfig (lit 1 10) (lit 1 20) 30000000000)
             (Some (of_Z import), Some (of_Z 0)) 0 in
  '(c, past) ← loop (of_Z 0) (of_Z import) (of_Z (-5000)) (of_Z 5000) 1000000000 lag c
                 (replicate lag (of_Z output)) ((λ l, (of_Z l, of_Z 5000)) <$> loads);
  Some (zip_with (λ l u, f_sub (of_Z l) u) loads (drop (S lag) (rev (current_output c :: past)))).

(** [APPROACH_GAIN_PER_SEC]: no overshoot up to a lag of 3 s, 1.3% at 4 s. *)
Example overshoot_at_four_seconds :
  let least lag := foldr f_min (of_Z 1000) <$> poi_trace lag 0 (replicate 60 1000) 2000 in
  let at_least lag bound := if least lag is Some x then f_leb bound x else false in
  at_least 0%nat (of_Z 0) = true ∧ at_least 1%nat (of_Z 0) = true ∧ at_least 2%nat (of_Z 0) = true ∧
  at_least 3%nat (of_Z 0) = true ∧ at_least 4%nat (of_Z (-13)) = false ∧ at_least 4%nat (of_Z (-14)) = true.
Proof. split_and!; by vm_compute. Qed.

(** [VIOLATION_GAIN_PER_SEC]: after a load drop of 520 kW seen two seconds late,
    export is cleared on the fourth tick and the correction goes 135 kW
    too far. *)
Example load_drop_over_corrects :
  (λ ps, (f_ltb (nth 2 ps (of_Z 0)) (of_Z 0), f_ltb (of_Z 0) (nth 3 ps (of_Z 0)),
          f_round (foldr f_max (of_Z 0) ps))) <$> poi_trace 2 1000 (replicate 40 480) 2000
  = Some (true, true, of_Z 135).
Proof. by vm_compute. Qed.
