(* ===== verification/Fleet.v ===== *)
(** * Fleet: several modules behind one POI meter

    Each guarded module has an envelope task of its own
    ([src/envelope/control_law.rs], [poi_servo.rs]); those whose bindings name
    the same POI meter all read it and each takes its share of the same
    headroom.  They tick once between two readings of the meter, which shows the
    site's load less all they put out, late by a number of ticks.  The limits
    stay as they are.  At the end the figures [poi_servo.rs] gives for its gains
    are computed on [f64]. *)

From Stdlib Require Import ZArith Lia QArith Qabs Lqa.
From S2P Require Import Prelude F64 Binary64 Exact PoiServo ControlLaw ClosedLoop.
Local Open Scope Z_scope.

(** A module: its rating and its controller. *)
Record FleetModule (F : Type) := mkModule {
  m_min : F;
  m_max : F;
  m_control : EnvelopeController F;
}.
Arguments mkModule {F}.
Arguments m_min {F}.
Arguments m_max {F}.
Arguments m_control {F}.

Section Fleet.
Context {F : Type} `{Float F} `{!FloatInf F}.
(** The limits at the POI, the time between ticks. *)
Context (export import : F) (dt : Z).

Definition module_tick (p request : F) (m : FleetModule F) : option (FleetModule F) :=
  let c := m_control m in
  '(c, _) ← tick c (meter_tick export import (m_min m) (m_max m) dt (current_output c) p request);
  Some (mkModule (m_min m) (m_max m) c).

(** Every module's tick on one reading, each with its own request. *)
Fixpoint fleet_tick (p : F) (request : nat → F) (ms : list (FleetModule F)) : option (list (FleetModule F)) :=
  match ms with
  | [] => Some []
  | m :: ms =>
      m ← module_tick p (request 0%nat) m;
      ms ← fleet_tick p (λ i, request (S i)) ms;
      Some (m :: ms)
  end.

Fixpoint fleet_output (ms : list (FleetModule F)) : F :=
  match ms with [] => of_Z 0 | m :: ms => f_add (current_output (m_control m)) (fleet_output ms) end.

(** [past]: what the fleet put out before, newest first. *)
Fixpoint fleet_loop (lag : nat) (ms : list (FleetModule F)) (past : list F) (inputs : list (F * (nat → F)))
    : option (list (FleetModule F) * list F) :=
  match inputs with
  | [] => Some (ms, past)
  | (load, request) :: inputs =>
      let outs := fleet_output ms :: past in
      ms ← fleet_tick (f_sub load (nth lag outs (of_Z 0))) request ms;
      fleet_loop lag ms outs inputs
  end.
End Fleet.

Section Exact.
Variable inf : Q.
#[local] Instance fleet_inf : FloatInf Q := inf.
Context (export import load : Q) (dt : Z).
Local Open Scope Q_scope.
Implicit Types (ms : list (FleetModule Q)).

Hypothesis dt_range : (0 <= dt <= 1000000000)%Z.
Hypothesis limits_ordered : 0 <= import + export.

Local Abbreviation room_export := (room_export export load).
Local Abbreviation room_import := (room_import import load).
Local Abbreviation fleet_tick := (fleet_tick export import dt).
Local Abbreviation fleet_loop := (fleet_loop export import dt).

(** What a module keeps: limits that stay, a rating it is inside, a dwell timer
    that [n] ticks do not overflow. *)
Definition module_ok (n : nat) (m : FleetModule Q) : Prop :=
  settled_limits export import (m_control m) ∧ rated (m_min m) (m_max m) (current_output (m_control m)) ∧
  0 <= m_max m ∧ dwell_fits dt (m_control m) n.

Lemma module_tick_steps p request m n :
  module_ok (S n) m → 0 <= p + export → 0 <= - p + import →
  ∃ m', module_tick export import dt p request m = Some m' ∧ module_ok n m' ∧
    current_output (m_control m) - gain dt * (- p + import) <= current_output (m_control m') <=
      current_output (m_control m) + gain dt * (p + export).
Proof.
  intros (Hset & Hu & Hmax & Hd) He Hi.
  destruct (loop_tick inf export import (m_min m) (m_max m) dt ltac:(lia) limits_ordered Hmax
    (m_control m) p request n Hset Hd) as (c' & o & Ht & Hm & Hd').
  destruct (moves_inside export import (m_min m) (m_max m) dt ltac:(lia) _ _ _ _ Hm He Hi Hu) as [Hu' Hstep].
  change (tick (m_control m) (meter_tick export import (m_min m) (m_max m) dt (current_output (m_control m)) p request) =
    Some (c', o)) in Ht. unfold module_tick. rewrite Ht. cbn [mbind option_bind].
  eexists. split; [done|]. split; [|exact Hstep].
  split; [exact (moves_settled _ _ _ _ _ _ _ _ _ Hm)|]. by split_and!.
Qed.

(** Together they take up to the gain's share each. *)
Lemma fleet_tick_steps p n ms : ∀ request,
  Forall (module_ok (S n)) ms → 0 <= p + export → 0 <= - p + import →
  let total := inject_Z (Z.of_nat (length ms)) * gain dt in
  ∃ ms', fleet_tick p request ms = Some ms' ∧ Forall (module_ok n) ms' ∧ length ms' = length ms ∧
    fleet_output ms - total * (- p + import) <= fleet_output ms' <= fleet_output ms + total * (p + export).
Proof.
  induction ms as [|m ms IH]; intros request Hms He Hi; cbv zeta.
  - exists []. split_and!; [done..| |]; cbn [fleet_output length];
      change (inject_Z (Z.of_nat 0)) with 0; lra.
  - apply Forall_cons in Hms as [Hm Hms]. cbn [Fleet.fleet_tick fleet_output length].
    destruct (module_tick_steps p (request 0%nat) m n Hm He Hi) as (m' & -> & Hm' & Hstep).
    destruct (IH (λ i, request (S i)) Hms He Hi) as (ms' & -> & Hms' & Hlen & Hsteps). cbn [mbind option_bind].
    exists (m' :: ms'). split_and!; [done|by constructor|by simpl; rewrite Hlen| |]; cbn [fleet_output];
      rewrite Nat2Z.inj_succ; unfold Z.succ; rewrite inject_Z_plus; change (inject_Z 1) with 1;
      change f_add with Qplus; lra.
Qed.

(** Outputs, newest first, none of which left less than [r] of either room. *)
Section Slow.
Context (r : Q).
Hypothesis r_range : 0 <= r <= 1.

Fixpoint slow_by (u : Q) (past : list Q) : Prop :=
  match past with
  | [] => 0 <= room_export u ∧ 0 <= room_import u
  | v :: past => r * room_export v <= room_export u ∧ r * room_import v <= room_import u ∧ slow_by v past
  end.

Lemma slow_by_inside past : ∀ u, slow_by u past → ∀ v, v ∈ u :: past → 0 <= room_export v ∧ 0 <= room_import v.
Proof.
  induction past as [|w past IH]; intros u Hs v Hv; [by apply list_elem_of_singleton in Hv as ->|].
  destruct Hs as (He & Hi & Hs). apply elem_of_cons in Hv as [->|Hv]; [|by apply (IH w)].
  destruct (IH w Hs w ltac:(by left)) as [Hwe Hwi].
  pose proof (Qmult_le_0_compat r _ (proj1 r_range) Hwe). pose proof (Qmult_le_0_compat r _ (proj1 r_range) Hwi).
  lra.
Qed.

(** [r] to the number of ticks the meter is late. *)
Fixpoint shrunk (lag : nat) : Q := match lag with O => 1 | S lag => r * shrunk lag end.

Lemma shrunk_pos lag : 0 <= shrunk lag.
Proof. induction lag as [|lag IH]; simpl; [lra|]. by apply Qmult_le_0_compat; [apply r_range|]. Qed.

(** The room a late meter shows is not much more than there is. *)
Lemma slow_by_lag lag : ∀ past u, slow_by u past → (lag <= length past)%nat →
  let v := nth lag (u :: past) (of_Z 0) in
  0 <= room_export v ∧ 0 <= room_import v ∧
  shrunk lag * room_export v <= room_export u ∧ shrunk lag * room_import v <= room_import u.
Proof.
  induction lag as [|lag IH]; intros past u Hs Hlen v.
  - subst v. simpl. destruct (slow_by_inside past u Hs u ltac:(by left)). split_and!; lra.
  - destruct past as [|w past]; [simpl in Hlen; lia|]. destruct Hs as (He & Hi & Hs).
    destruct (IH past w Hs ltac:(simpl in Hlen; lia)) as (Hve & Hvi & Hle & Hli).
    change (nth lag (w :: past) (of_Z 0)) with v in *. cbn [shrunk].
    split; [done|]. split; [done|]. destruct r_range as [Hr _].
    pose proof (Qmult_le_0_compat r _ Hr (proj1 (Qle_minus_iff _ _) Hle)).
    pose proof (Qmult_le_0_compat r _ Hr (proj1 (Qle_minus_iff _ _) Hli)). split; lra.
Qed.

Lemma fleet_loop_slow lag requests : ∀ ms past,
  inject_Z (Z.of_nat (length ms)) * gain dt <= shrunk lag * (1 - r) →
  (lag <= length past)%nat → Forall (module_ok (length requests)) ms → slow_by (fleet_output ms) past →
  ∃ ms' past', fleet_loop lag ms past ((λ q, (load, q)) <$> requests) = Some (ms', past') ∧
    slow_by (fleet_output ms') past'.
Proof.
  induction requests as [|q requests IH]; intros ms past Hg Hlen Hms Hs; [by exists ms, past|].
  cbn [fmap list_fmap Fleet.fleet_loop length].
  destruct (slow_by_lag lag past _ Hs Hlen) as (Hve & Hvi & Hle & Hli).
  set (v := nth lag (fleet_output ms :: past) (of_Z 0)) in *. change (f_sub load v) with (load - v).
  destruct (fleet_tick_steps (load - v) (length requests) ms q Hms Hve Hvi) as (ms' & -> & Hms' & Hl' & Hlo & Hhi).
  cbn [mbind option_bind]. cbv zeta in Hlo, Hhi. rewrite <- Hl' in Hg, Hlo, Hhi.
  change (load - v + export) with (room_export v) in Hhi. change (- (load - v) + import) with (room_import v) in Hlo.
  pose proof Hg as Hg'. set (g := inject_Z (Z.of_nat (length ms')) * gain dt) in Hg', Hlo, Hhi. clearbody g v.
  apply IH; [exact Hg|simpl; lia|done|]. clear IH Hg. rename Hg' into Hg.
  pose proof (Qmult_le_0_compat _ _ (proj1 (Qle_minus_iff _ _) Hg) Hve).
  pose proof (Qmult_le_0_compat _ _ (proj1 (Qle_minus_iff _ _) Hg) Hvi).
  assert (0 <= 1 - r) as Hr by lra.
  pose proof (Qmult_le_0_compat _ _ Hr (proj1 (Qle_minus_iff _ _) Hle)).
  pose proof (Qmult_le_0_compat _ _ Hr (proj1 (Qle_minus_iff _ _) Hli)).
  split; [|split; [|exact Hs]]; unfold ClosedLoop.room_export, ClosedLoop.room_import in *; lra.
Qed.
End Slow.
End Exact.

(** C5: in exact rational arithmetic, with a site load
    and POI limits that stay as they are and ticks at most a second apart: batteries
    at rest inside both limits of one POI, each inside its rating and steered by
    whatever requests on the same meter, which shows what they put out [lag] ticks
    ago. As long as their gains together (a tenth each) are at most [r^lag * (1 -
    r)] for some [r] between 0 and 1, no output they ever take puts the POI past a
    limit, and no tick panics. So one module may read a meter three ticks late, two
    one tick late, ten a prompt one. What a moving load costs is the subject of
    [violation_fades]. *)
Theorem shared_meter_never_overshoots (inf export import load r : Q) dt lag ms requests :
  0 <= dt <= 1000000000 → (0 <= r <= 1)%Q →
  (inject_Z (Z.of_nat (length ms)) * (1 # 10) <= shrunk r lag * (1 - r))%Q →
  Forall (module_ok export import dt (length requests)) ms →
  (0 <= load - fleet_output ms + export ∧ 0 <= - (load - fleet_output ms) + import)%Q →
  ∃ ms' past', @fleet_loop Q Q_Float inf export import dt lag ms (replicate lag (fleet_output ms))
      ((λ q, (load, q)) <$> requests) = Some (ms', past') ∧
    ∀ u, u ∈ fleet_output ms' :: past' → (0 <= load - u + export ∧ 0 <= - (load - u) + import)%Q.
Proof.
  intros Hdt Hr Hg Hms Hin.
  assert (inject_Z (Z.of_nat (length ms)) * gain dt <= shrunk r lag * (1 - r))%Q as Hg'.
  { assert (0 <= inject_Z (Z.of_nat (length ms)))%Q as Hn by (change 0%Q with (inject_Z 0); rewrite <- Zle_Qle; lia).
    pose proof (gain_second dt ltac:(lia)) as Hs.
    pose proof (Qmult_le_0_compat _ _ Hn (proj1 (Qle_minus_iff _ _) Hs)). lra. }
  destruct (fleet_loop_slow inf export import load dt Hdt ltac:(lra) r Hr lag requests ms
    (replicate lag (fleet_output ms)) Hg') as (ms' & past' & Hl & Hs); [by rewrite length_replicate|done| |].
  - destruct Hin as [He Hi]. destruct Hr as [Hr0 Hr1].
    pose proof (Qmult_le_0_compat _ _ (proj1 (Qle_minus_iff _ _) Hr1) He).
    pose proof (Qmult_le_0_compat _ _ (proj1 (Qle_minus_iff _ _) Hr1) Hi).
    clear Hms Hg Hg'. induction lag as [|lag IH]; [done|]. cbn [replicate slow_by].
    unfold room_export, room_import. split; [lra|]. split; [lra|exact IH].
  - exists ms', past'. split; [exact Hl|]. by apply slow_by_inside with r.
Qed.

(** Two batteries of 5 MW at rest on a site importing 1 MW that may not export,
    both asked for all they have. *)
Definition resting {F} `{Float F} (u : F) : FleetModule F :=
  mkModule (of_Z (-5000)) (of_Z 5000)
    (mkController Normal 0 u (mkConfig (lit 1 10) (lit 1 20) (30 * 1000000000)) (Some (of_Z 2000), Some (of_Z 0)) 0).

Lemma shared_meter_never_overshoots_witness :
  ∃ ms' past', @fleet_loop Q Q_Float 0%Q 0%Q 2000%Q 1000000000 1 [resting 0%Q; resting 0%Q] [0]%Q
      ((λ q, (1000%Q, q)) <$> replicate 30 (λ _, 5000%Q)) = Some (ms', past') ∧
    ∀ u, u ∈ fleet_output ms' :: past' → (0 <= 1000 - u + 0 ∧ 0 <= - (1000 - u) + 2000)%Q.
Proof.
  apply (shared_meter_never_overshoots 0%Q 0%Q 2000%Q 1000%Q (1 # 2)%Q 1000000000 1 [resting 0%Q; resting 0%Q]
    (replicate 30 (λ _, 5000%Q))).
  - done.
  - split; by apply Qle_bool_iff.
  - by apply Qle_bool_iff.
  - assert (module_ok 0%Q 2000%Q 1000000000 30 (resting 0%Q)) as Hok.
    { split_and!; try done; first [by apply Qle_bool_iff | by vm_compute]. }
    by repeat constructor.
  - split; by apply Qle_bool_iff.
Defined.

(** ** The figures of [poi_servo.rs], computed *)

(** [n] modules at rest at [u] behind a meter [lag] seconds late, the site's load
    at 1 MW or [load] from then on, each asked for 5 MW: what they put out,
    newest first, over [secs] seconds. *)
Definition put_out (n lag : nat) (u : f64) (load : Z) (secs : nat) : list f64 :=
  let ms := replicate n (resting u) in
  match fleet_loop (of_Z 0) (of_Z 2000) 1000000000 lag ms (replicate lag (fleet_output ms))
          (replicate secs (of_Z load, λ _, of_Z 5000)) with
  | Some (ms, past) => fleet_output ms :: past
  | None => []
  end.

Definition peak (l : list f64) : f64 := foldr f_max (of_Z 0) l.

(** No overshoot up to 3 s of lag, bit for bit, over ten minutes; 1.3% at 4 s;
    settled within 1% after 30 s. *)
Example documented_approach :
  f_leb (peak (put_out 1 3 (of_Z 0) 1000 600)) (of_Z 1000) = true ∧
  f_leb (of_Z 1013) (peak (put_out 1 4 (of_Z 0) 1000 600)) && f_leb (peak (put_out 1 4 (of_Z 0) 1000 600)) (of_Z 1014) = true ∧
  f_leb (of_Z 990) (nth 0 (put_out 1 3 (of_Z 0) 1000 30) (of_Z 0)) = true.
Proof. by vm_compute. Qed.

(** The load drops by 520 kW behind a meter 2 s late: the export is cleared at
    the fourth tick, which the meter shows at the sixth second, and the output
    comes to rest some 135 kW below. *)
Example documented_load_drop :
  f_ltb (of_Z 480) (nth 0 (put_out 1 2 (of_Z 1000) 480 4) (of_Z 0)) = false ∧
  f_ltb (of_Z 480) (nth 0 (put_out 1 2 (of_Z 1000) 480 3) (of_Z 0)) = true ∧
  nth 0 (put_out 1 2 (of_Z 1000) 480 20) (of_Z 0) = lit 3448 10.
Proof. by vm_compute. Qed.

(** The gain is each module's: two of them behind a meter 3 s late export 208 kW
    where none is allowed, four behind one 2 s late 520 kW, and more when they
    come back after their dwell. *)
Example shared_meter_overshoots :
  peak (put_out 2 3 (of_Z 0) 1000 60) = of_Z 1208 ∧ peak (put_out 4 2 (of_Z 0) 1000 20) = of_Z 1520 ∧
  f_leb (of_Z 1600) (peak (put_out 4 2 (of_Z 0) 1000 60)) = true.
Proof. by vm_compute. Qed.
