(* ===== verification/Shed.v ===== *)
(** * Compute shed: [src/envelope/shed.rs]

    The fleet power-cap controller.  [None] is a panic: [clamp] with its bounds
    out of order or NaN, or an overflowing [Duration]. *)

From Stdlib Require Import ZArith Lia QArith Qabs Qround Lqa Floats.
From S2P Require Import Prelude F64 Binary64 Exact PoiServo ControlLaw.
Local Open Scope Z_scope.

Section Shed.
Context {F : Type} `{Float F}.
Local Open Scope flt_scope.

Definition SHRINK_DEADBAND : F := lit 1 1000.
Definition STEP_PERCENT : F := lit 1 10.

Definition quantize (current target : F) : F :=
  let steps := f_ceil ((target - current) / STEP_PERCENT) in
  f_round ((current + steps * STEP_PERCENT) * of_Z 10) / of_Z 10.

Record ShedTick := mkShedTick {
  shed_poi : F;
  shed_import_limit : F;
  shed_export_limit : F;
  requested_percent : F;
  fleet_max_w : F;
  fleet_min_w : F;
  storage_spare_w : F;
  shed_dt : Z;
}.

Record ShedController := mkShed {
  shed_config : EnvelopeConfig F;
  percent : option F;
  over_for : Z;
  clear_for : Z;
  last_over : option F;
}.

Definition new_shed (config : EnvelopeConfig F) : ShedController :=
  mkShed config None 0 0 None.

Definition reset (s : ShedController) : ShedController :=
  mkShed (shed_config s) (percent s) 0 0 None.

Definition confirm (s : ShedController) (p : F) : ShedController :=
  mkShed (shed_config s) (Some p) (over_for s) (clear_for s) (last_over s).

(** The cap the devices hold, never above the operator's. *)
Definition shed_current (s : ShedController) (t : ShedTick) : F :=
  f_min (match percent s with Some p => p | None => requested_percent t end)
    (requested_percent t).

Definition shed_over (t : ShedTick) : F := shed_poi t - shed_import_limit t.
Definition shed_exported (t : ShedTick) : F := - shed_poi t - shed_export_limit t.
Definition shed_headroom (s : ShedController) (t : ShedTick) : F :=
  shed_import_limit t - shed_poi t - hysteresis_margin (shed_config s) * fleet_max_w t.
(** Storage has no spare discharge to answer with. *)
Definition storage_spent (s : ShedController) (t : ShedTick) : bool :=
  storage_spare_w t <? hysteresis_margin (shed_config s) * fleet_max_w t.

(** The [let target = if .. else ..] of [tick]: the new timers, and the
    target unless the tick returns early. *)
Definition shed_target (s : ShedController) (t : ShedTick)
    : option (ShedController * option F) :=
  let current := shed_current s t in
  let watts_to_percent := of_Z 100 / fleet_max_w t in
  let step := ramp_rate_per_sec (shed_config s) * of_Z 100 * as_secs (shed_dt t) in
  let over := shed_over t in
  let exported := shed_exported t in
  let headroom := shed_headroom s t in
  let dwell := hysteresis_dwell (shed_config s) in
  if exported >? of_Z 0 then
    Some (reset s, Some (current + f_min (exported * watts_to_percent) step))
  else if over >? of_Z 0 then
    let storage_closing :=
      match last_over s with
      | Some prev => prev - over >? SHRINK_DEADBAND * fleet_max_w t
      | None => false
      end in
    over_for' ← duration_add (over_for s) (shed_dt t);
    let timed o := mkShed (shed_config s) (percent s) o 0 (Some over) in
    let cut := Some (current - f_min (over * watts_to_percent) step) in
    if storage_spent s t then Some (timed over_for', cut)
    else if storage_closing && (over_for' <? dwell)%Z then Some (timed 0%Z, None)
    else if (over_for' <? dwell)%Z then Some (timed over_for', None)
    else Some (timed over_for', cut)
  else if (headroom >? of_Z 0) && (current <? requested_percent t) then
    clear_for' ← duration_add (clear_for s) (shed_dt t);
    let s' := mkShed (shed_config s) (percent s) 0 clear_for' (last_over s) in
    if (clear_for' <? dwell)%Z then Some (s', None)
    else Some (s', Some (current + f_min (headroom * watts_to_percent) step))
  else Some (reset s, Some current).

Definition shed_floor (t : ShedTick) : F := fleet_min_w t * (of_Z 100 / fleet_max_w t).

(** [ShedController::tick]. *)
Definition shed_tick (s : ShedController) (t : ShedTick)
    : option (ShedController * option F) :=
  let current := shed_current s t in
  '(s', target) ← shed_target s t;
  match target with
  | None => Some (s', None)
  | Some target =>
      next ← f_clamp (quantize current target) (shed_floor t) (requested_percent t);
      Some (s', if f_abs (next - current) >=? STEP_PERCENT / of_Z 2 then Some next else None)
  end.
End Shed.
Arguments ShedTick : clear implicits.
Arguments ShedController : clear implicits.

Lemma f64_sub_nan (x y : f64) : f_nan x = true → f_nan (f_sub x y) = true.
Proof.
  rewrite !f64_nan_SF. simpl. rewrite sub_spec. by destruct (Prim2SF x).
Qed.

(** A cap the shed proposes is never above the operator's
    cap and never below the fleet's floor, whatever the readings are (NaN
    included), and differs from the cap held by at least half a step. *)
Theorem shed_cap_in_range (s s' : ShedController f64) (t : ShedTick f64) next :
  shed_tick s t = Some (s', Some next) →
  f_leb (shed_floor t) next = true ∧ f_leb next (requested_percent t) = true ∧
  f_leb (f_div STEP_PERCENT (of_Z 2)) (f_abs (f_sub next (shed_current s t))) = true.
Proof.
  unfold shed_tick. destruct (shed_target s t) as [[s1 [target|]]|]; simpl; [|done|done].
  destruct (f_clamp _ _ _) as [n|] eqn:Hc; simpl; [|done].
  destruct (PrimFloat.leb _ _) eqn:Hle; [|done]. intros [= <- <-].
  assert (f_nan n = false) as Hn.
  { destruct (f_nan n) eqn:Hn; [|done]. apply f64_sub_nan with (y := shed_current s t) in Hn.
    rewrite <- ford_abs_nan in Hn. by rewrite (nan_leb_r _ _ Hn) in Hle. }
  destruct (clamp_bounds _ _ _ _ Hc) as [Hlo Hhi]; [|done].
  rewrite <- (clamp_nan _ _ _ _ Hc). done.
Qed.

Definition demo_shed_config : EnvelopeConfig f64 := mkConfig (lit 2 100) (lit 2 100) 60000000000.
(** POI power, import limit, spare storage: a 10 kW fleet, down to 4 kW. *)
Definition demo_shed_tick (poi limit spare : Z) : ShedTick f64 :=
  mkShedTick (of_Z poi) (of_Z limit) (of_Z 0) (of_Z 100) (of_Z 10000) (of_Z 4000) (of_Z spare)
    1000000000.

(** 150 W over with no storage left: shed 1.5% of the fleet at once. *)
Lemma shed_cap_in_range_witness :
  shed_tick (new_shed demo_shed_config) (demo_shed_tick 5150 5000 0) =
    Some (mkShed demo_shed_config None 1000000000 0 (Some (of_Z 150)), Some (lit 985 10)) ∧
  f_leb (shed_floor (demo_shed_tick 5150 5000 0)) (lit 985 10) = true.
Proof.
  assert (shed_tick (new_shed demo_shed_config) (demo_shed_tick 5150 5000 0) =
    Some (mkShed demo_shed_config None 1000000000 0 (Some (of_Z 150)), Some (lit 985 10))) as Ht
    by (by vm_compute).
  split; [exact Ht|]. exact (proj1 (shed_cap_in_range _ _ _ _ Ht)).
Defined.

(** ** Lever order *)

Section LeverOrder.
Context {F : Type} `{FloatOrd F}.
Implicit Types (s : ShedController F) (t : ShedTick F).

Definition is_over t : bool := f_ltb (of_Z 0) (shed_over t).
Definition is_exporting t : bool := f_ltb (of_Z 0) (shed_exported t).

(** How long import has been over the limit without a break, a tick that
    exports counting as a break. *)
Definition over_since (ts : list (ShedTick F)) : Z :=
  foldl (λ a t, if is_over t && negb (is_exporting t) then a + shed_dt t else 0) 0 ts.

(** Ticks with, after each proposal, whether the write reached the devices. *)
Definition shed_step s (e : ShedTick F * bool) : option (ShedController F) :=
  '(s', o) ← shed_tick s e.1;
  Some (match o with Some p => if e.2 then confirm s' p else s' | None => s' end).

Fixpoint shed_run s (es : list (ShedTick F * bool)) : option (ShedController F) :=
  match es with
  | [] => Some s
  | e :: es => s' ← shed_step s e; shed_run s' es
  end.

Lemma shed_target_over_for s t s' o :
  shed_target s t = Some (s', o) → 0 <= shed_dt t → 0 <= over_for s →
  shed_config s' = shed_config s ∧
  0 <= over_for s' <= (if is_over t && negb (is_exporting t) then over_for s + shed_dt t else 0).
Proof.
  intros Ht Hdt Ho. unfold shed_target in Ht.
  change (f_ltb (of_Z 0) (shed_exported t)) with (is_exporting t) in Ht.
  change (f_ltb (of_Z 0) (shed_over t)) with (is_over t) in Ht.
  destruct (is_exporting t); [injection Ht as <- _; rewrite andb_false_r; simpl; split; [done|lia]|].
  destruct (is_over t); simpl.
  - unfold duration_add in Ht. destruct (Z.ltb_spec max_duration (over_for s + shed_dt t)); [done|].
    simpl in Ht. destruct (storage_spent s t); [injection Ht as <- _; simpl; split; [done|lia]|].
    destruct (_ && _); [injection Ht as <- _; simpl; split; [done|lia]|].
    destruct (Z.ltb _ _); injection Ht as <- _; simpl; (split; [done|lia]).
  - destruct (f_ltb _ _ && _).
    + unfold duration_add in Ht. destruct (Z.ltb_spec max_duration (clear_for s + shed_dt t)); [done|].
      simpl in Ht. destruct (Z.ltb _ _); injection Ht as <- _; simpl; (split; [done|lia]).
    + injection Ht as <- _. simpl. split; [done|lia].
Qed.

(** A target while over the limit: storage is spent or the dwell complete. *)
Lemma shed_target_cut s t s' target :
  shed_target s t = Some (s', Some target) → is_over t = true → is_exporting t = false →
  storage_spent s t = true ∨ hysteresis_dwell (shed_config s) <= over_for s + shed_dt t.
Proof.
  intros Ht Hov Hexp. unfold shed_target in Ht.
  change (f_ltb (of_Z 0) (shed_exported t)) with (is_exporting t) in Ht.
  change (f_ltb (of_Z 0) (shed_over t)) with (is_over t) in Ht.
  rewrite Hexp, Hov in Ht. unfold duration_add in Ht.
  destruct (Z.ltb_spec max_duration (over_for s + shed_dt t)); [done|]. simpl in Ht.
  destruct (storage_spent s t); [by left|]. destruct (_ && _); [done|].
  destruct (Z.ltb_spec (over_for s + shed_dt t) (hysteresis_dwell (shed_config s))); [done|by right].
Qed.

Lemma shed_tick_target s t s' o :
  shed_tick s t = Some (s', o) →
  ∃ target, shed_target s t = Some (s', target) ∧ (target = None → o = None).
Proof.
  unfold shed_tick. destruct (shed_target s t) as [[s1 [target|]]|]; simpl; [| |done].
  - destruct (f_clamp _ _ _); simpl; [|done]. intros [= <- <-]. by exists (Some target).
  - intros [= <- <-]. by exists None.
Qed.

Lemma shed_run_over_for es : ∀ s s' a,
  shed_run s es = Some s' → (∀ e, e ∈ es → 0 <= shed_dt e.1) → 0 <= over_for s <= a →
  shed_config s' = shed_config s ∧
  0 <= over_for s' <= foldl (λ a t, if is_over t && negb (is_exporting t) then a + shed_dt t else 0)
                        a es.*1.
Proof.
  induction es as [|e es IH]; intros s s' a; simpl; [intros [= <-]; auto|].
  destruct (shed_step s e) as [s1|] eqn:Hst; simpl; [|done]. intros Hrun Hes Ha.
  unfold shed_step in Hst. destruct (shed_tick s e.1) as [[s2 o]|] eqn:Ht; simpl in Hst; [|done].
  apply shed_tick_target in Ht as (target & Ht & _).
  assert (0 <= shed_dt e.1) as Hdt by (apply Hes; by left).
  destruct (shed_target_over_for _ _ _ _ Ht Hdt ltac:(lia)) as [Hc Ho].
  assert (shed_config s1 = shed_config s2 ∧ over_for s1 = over_for s2) as [Hc1 Ho1].
  { injection Hst as <-. destruct o; [|done]. by destruct e.2. }
  destruct (IH s1 s' (if is_over e.1 && negb (is_exporting e.1) then a + shed_dt e.1 else 0) Hrun)
    as [Hc' Ho']; [intros e' He'; apply Hes; by right| |].
  - rewrite Ho1. destruct (_ && _); lia.
  - split; [congruence|done].
Qed.
End LeverOrder.

(** C34: lever order.  On any run from start-up, with any
    writes failing, a tick that finds import over the limit (and no export past
    its limit) proposes a cap only if storage has no spare discharge left or
    import has stayed over, without a break, for the whole hysteresis dwell. *)
Theorem shed_waits_for_storage (cfg : EnvelopeConfig f64) es s t s' next :
  (∀ e, e ∈ es → 0 <= shed_dt e.1) → 0 <= shed_dt t →
  shed_run (new_shed cfg) es = Some s → shed_tick s t = Some (s', Some next) →
  is_over t = true → is_exporting t = false →
  storage_spent s t = true ∨ hysteresis_dwell cfg <= over_since (es.*1 ++ [t]).
Proof.
  intros Hes Hdt Hrun Ht Hov Hexp.
  destruct (shed_run_over_for es _ _ 0 Hrun Hes) as [Hcfg Ho]; [simpl; lia|].
  apply shed_tick_target in Ht as ([target|] & Ht & Hn); [|by specialize (Hn eq_refl)].
  destruct (shed_target_cut _ _ _ _ Ht Hov Hexp) as [?|Hd]; [by left|right].
  rewrite Hcfg in Hd. unfold over_since. rewrite foldl_app. cbn [foldl]. rewrite Hov, Hexp.
  cbn [negb andb shed_config new_shed] in *. lia.
Qed.

(** 5000 W of spare storage: 59 ticks pass before the 60th proposes a cap. *)
Definition demo_wait : list (ShedTick f64 * bool) :=
  replicate 59 (demo_shed_tick 5150 5000 5000, true).

Lemma shed_waits_for_storage_witness :
  ∃ s s', shed_run (new_shed demo_shed_config) demo_wait = Some s ∧ percent s = None ∧
    shed_tick s (demo_shed_tick 5150 5000 5000) = Some (s', Some (lit 985 10)) ∧
    (storage_spent s (demo_shed_tick 5150 5000 5000) = true ∨
     60000000000 <= over_since (demo_wait.*1 ++ [demo_shed_tick 5150 5000 5000])).
Proof.
  set (s := mkShed demo_shed_config None 59000000000 0 (Some (of_Z 150)) : ShedController f64).
  assert (shed_run (new_shed demo_shed_config) demo_wait = Some s) as Hrun by (by vm_compute).
  assert (shed_tick s (demo_shed_tick 5150 5000 5000) =
    Some (mkShed demo_shed_config None 60000000000 0 (Some (of_Z 150)), Some (lit 985 10))) as Ht
    by (by vm_compute).
  assert (∀ e, e ∈ demo_wait → 0 <= shed_dt e.1) as Hes
    by (intros e ->%elem_of_replicate_inv; by vm_compute).
  exists s, (mkShed demo_shed_config None 60000000000 0 (Some (of_Z 150))).
  split; [exact Hrun|]. split; [done|]. split; [exact Ht|].
  refine (shed_waits_for_storage demo_shed_config demo_wait s _ _ _ Hes _ Hrun Ht _ _);
    by vm_compute.
Defined.

(** ** The cap grid, without rounding errors *)

Lemma Q_round_int (x : Q) k : (x == inject_Z k)%Q → (Q_round x == inject_Z k)%Q.
Proof.
  intros Hx. unfold Q_round. destruct (Qle_bool 0 x).
  - replace (Qfloor (x + (1 # 2))) with k; [done|]. rewrite Hx.
    symmetry. rewrite <- (Z.add_0_r k) at 2. unfold Qfloor, Qplus, inject_Z. simpl.
    symmetry. apply (Z.div_unique _ _ _ 1); lia.
  - replace (Qfloor (- x + (1 # 2))) with (- k); [by rewrite Z.opp_involutive|].
    rewrite Hx. unfold Qfloor, Qplus, Qopp, inject_Z. simpl.
    apply (Z.div_unique _ _ _ 1); lia.
Qed.

(** From a cap on the 0.1% grid, [quantize] returns the
    smallest grid value that is not below the target: a cut never goes past
    its target (it rounds toward the current cap), a raise overshoots it by
    less than a step. *)
Theorem quantize_keeps_grid (current target : Q) (k : Z) :
  (current == inject_Z k / 10 →
   (∃ j, quantize current target == inject_Z j / 10) ∧
   target <= quantize current target < target + (1 # 10))%Q.
Proof.
  intros Hk. unfold quantize, STEP_PERCENT, lit.
  cbn [f_ceil f_sub f_div f_add f_mul f_round of_Z Q_Float].
  set (n := Qceiling ((target - current) / (inject_Z 1 / inject_Z 10))).
  assert (Q_round ((current + inject_Z n * (inject_Z 1 / inject_Z 10)) * inject_Z 10) / inject_Z 10
          == inject_Z (k + n) / 10)%Q as Hq.
  { rewrite (Q_round_int _ (k + n)); [done|]. rewrite Hk, inject_Z_plus.
    change (inject_Z 1) with 1%Q. change (inject_Z 10) with 10%Q. field. }
  rewrite Hq. split; [by exists (k + n)|]. rewrite inject_Z_plus.
  pose proof (Qle_ceiling ((target - current) / (inject_Z 1 / inject_Z 10))) as Hle.
  pose proof (Qceiling_lt ((target - current) / (inject_Z 1 / inject_Z 10))) as Hlt.
  fold n in Hle, Hlt. rewrite Hk in Hle, Hlt.
  change (inject_Z 1 / inject_Z 10)%Q with (1 # 10)%Q in *.
  assert (inject_Z (n - 1) == inject_Z n - 1)%Q as Hn1
    by (unfold Z.sub; rewrite inject_Z_plus; done).
  rewrite Hn1 in Hlt.
  assert ((target - inject_Z k / 10) / (1 # 10) == 10 * target - inject_Z k)%Q as Hd by field.
  rewrite Hd in Hle, Hlt.
  assert ((inject_Z k + inject_Z n) / 10 == (inject_Z k + inject_Z n) * (1 # 10))%Q as -> by field.
  split; lra.
Qed.

Lemma quantize_keeps_grid_witness :
  (∃ j, quantize (1000 # 10) (2975 # 30) == inject_Z j / 10)%Q ∧
  ((2975 # 30) <= quantize (1000 # 10) (2975 # 30) < (2975 # 30) + (1 # 10))%Q.
Proof. apply (quantize_keeps_grid (1000 # 10) (2975 # 30) 1000). done. Defined.

(** ** Panics *)

(** A tick that gets to a target panics exactly
    when the fleet's floor is not below the operator's cap. *)
Theorem shed_panics_iff_range_empty (s s' : ShedController f64) (t : ShedTick f64) target :
  shed_target s t = Some (s', Some target) →
  shed_tick s t = None ↔ f_leb (shed_floor t) (requested_percent t) = false.
Proof.
  intros Ht. unfold shed_tick. rewrite Ht. cbn [mbind option_bind].
  etransitivity; [|apply (clamp_None (quantize (shed_current s t) target))].
  by destruct (f_clamp _ _ _).
Qed.

(** A fleet whose devices accept a single power (302 W to 302 W): its floor is
    a rounding step above 100%, and the first tick with import over the limit
    panics; so does a fleet of no children, whose floor is NaN. *)
Definition fixed_fleet_tick (w : Z) : ShedTick f64 :=
  mkShedTick (of_Z 5150) (of_Z 5000) (of_Z 0) (of_Z 100) (of_Z w) (of_Z w) (of_Z (-1)) 1000000000.

Definition fixed_fleet_target (w : Z) : f64 :=
  match shed_target (new_shed demo_shed_config) (fixed_fleet_tick w) with
  | Some (_, Some target) => target
  | _ => of_Z 0
  end.

Lemma shed_panics_iff_range_empty_witness :
  shed_tick (new_shed demo_shed_config) (fixed_fleet_tick 302) = None ∧
  shed_tick (new_shed demo_shed_config) (fixed_fleet_tick 0) = None.
Proof.
  set (s' := mkShed demo_shed_config None 1000000000 0 (Some (of_Z 150)) : ShedController f64).
  split.
  - apply (proj2 (shed_panics_iff_range_empty (new_shed demo_shed_config) s'
      (fixed_fleet_tick 302) (fixed_fleet_target 302) ltac:(by vm_compute))). by vm_compute.
  - apply (proj2 (shed_panics_iff_range_empty (new_shed demo_shed_config) s'
      (fixed_fleet_tick 0) (fixed_fleet_target 0) ltac:(by vm_compute))). by vm_compute.
Defined.
