(* ===== verification/Integers.v ===== *)
(** * Integers and [f64]

    A finite binary64 value as an exact integer multiple of 2^-1074
    ([sf_units]); comparison, truncation and rounding in those terms; and the
    two's-complement views of machine integers.  Used where the code moves
    values between [f64] and registers. *)

From Stdlib Require Import ZArith Lia Floats.
From S2P Require Import Prelude F64 Binary64 Rounding.
Local Open Scope Z_scope.

(** ** Machine integers *)

(** [x as uW] and [x as iW] between integer types: keep the low [w] bits. *)
Definition as_unsigned (w z : Z) : Z := z mod 2 ^ w.
Definition as_signed (w z : Z) : Z :=
  let u := z mod 2 ^ w in if 2 ^ (w - 1) <=? u then u - 2 ^ w else u.

Lemma as_unsigned_range w z : 0 <= w → 0 <= as_unsigned w z < 2 ^ w.
Proof. intros Hw. apply Z.mod_pos_bound. lia. Qed.

Lemma as_unsigned_id w z : 0 <= z < 2 ^ w → as_unsigned w z = z.
Proof. intros Hz. by apply Z.mod_small. Qed.

Lemma as_signed_unsigned w z :
  0 < w → - 2 ^ (w - 1) <= z < 2 ^ (w - 1) → as_signed w (as_unsigned w z) = z.
Proof.
  intros Hw Hz. assert (2 ^ w = 2 * 2 ^ (w - 1)) as Hp
    by (rewrite <- Z.pow_succ_r by lia; f_equal; lia).
  unfold as_signed, as_unsigned. rewrite Z.mod_mod by lia.
  destruct (Z.leb_spec 0 z).
  - rewrite Z.mod_small by lia. destruct (Z.leb_spec (2 ^ (w - 1)) z); lia.
  - assert (z mod 2 ^ w = z + 2 ^ w) as ->
      by (symmetry; apply (Z.mod_unique _ _ (-1)); lia).
    destruct (Z.leb_spec (2 ^ (w - 1)) (z + 2 ^ w)); lia.
Qed.

Lemma as_signed_range w z : 0 < w → - 2 ^ (w - 1) <= as_signed w z < 2 ^ (w - 1).
Proof.
  intros Hw. assert (2 ^ w = 2 * 2 ^ (w - 1)) as Hp
    by (rewrite <- Z.pow_succ_r by lia; f_equal; lia).
  unfold as_signed. pose proof (Z.mod_pos_bound z (2 ^ w)) as Hm.
  destruct (Z.leb_spec (2 ^ (w - 1)) (z mod 2 ^ w)); lia.
Qed.

(** ** Finite values as integers *)

Definition sf_finite (x : spec_float) : bool :=
  match x with S754_zero _ | S754_finite _ _ _ => true | _ => false end.

(** The value, in units of 2^-1074. *)
Definition sf_units (x : spec_float) : Z :=
  match x with
  | S754_finite s m e => cond_Zopp s (Zpos m * 2 ^ (e + 1074))
  | _ => 0
  end.

Lemma bounded_emin m e : bounded prec emax m e = true → -1074 <= e.
Proof. intros H%bounded_canonical. lia. Qed.

Lemma units_lt_exp m1 e1 m2 e2 :
  bounded prec emax m1 e1 = true → bounded prec emax m2 e2 = true → e1 < e2 →
  Zpos m1 * 2 ^ (e1 + 1074) < Zpos m2 * 2 ^ (e2 + 1074).
Proof.
  intros H1 H2 He. pose proof (bounded_lt_exp _ _ _ _ H1 H2 He) as Hlt.
  pose proof (bounded_emin _ _ H1).
  replace (e2 + 1074) with ((e2 - e1) + (e1 + 1074)) by lia.
  rewrite (Z.pow_add_r 2 (e2 - e1)), Z.mul_assoc by lia.
  apply Z.mul_lt_mono_pos_r; [apply Z.pow_pos_nonneg; lia|done].
Qed.

Lemma units_pos m e : bounded prec emax m e = true → 0 < Zpos m * 2 ^ (e + 1074).
Proof. intros H%bounded_emin. apply Z.mul_pos_pos; [lia|]. apply Z.pow_pos_nonneg; lia. Qed.

Lemma SFcompare_units x y :
  valid_binary x = true → valid_binary y = true → sf_finite x = true → sf_finite y = true →
  SFcompare x y = Some (sf_units x ?= sf_units y).
Proof.
  destruct x as [sx|sx| |sx mx ex], y as [sy|sy| |sy my ey]; try done; intros Hx Hy _ _;
    unfold SFcompare, sf_units, cond_Zopp; try done.
  - pose proof (units_pos _ _ Hy). destruct sy; f_equal; symmetry;
      [apply Z.compare_gt_iff|apply Z.compare_lt_iff]; lia.
  - pose proof (units_pos _ _ Hx). destruct sx; f_equal; symmetry;
      [apply Z.compare_lt_iff|apply Z.compare_gt_iff]; lia.
  - change (Pos.compare_cont Eq mx my) with (Pos.compare mx my).
    pose proof (units_pos _ _ Hx). pose proof (units_pos _ _ Hy).
    pose proof (bounded_emin _ _ Hx). pose proof (units_lt_exp mx ex my ey Hx Hy).
    pose proof (units_lt_exp my ey mx ex Hy Hx).
    destruct sx, sy;
      [rewrite Z.compare_opp
      |f_equal; symmetry; apply Z.compare_lt_iff; lia
      |f_equal; symmetry; apply Z.compare_gt_iff; lia|];
      (destruct (Z.compare_spec ex ey) as [->|He|He];
       [f_equal; rewrite <- Zmult_compare_compat_r by (apply Z.lt_gt, Z.pow_pos_nonneg; lia)
       |f_equal; symmetry; (apply Z.compare_lt_iff || apply Z.compare_gt_iff); auto..]).
    + symmetry. apply Pos.compare_antisym.
    + done.
Qed.

Definition units (x : f64) : Z := sf_units (Prim2SF x).
Definition f64_is_finite (x : f64) : bool := sf_finite (Prim2SF x).

Lemma f64_leb_units (x y : f64) :
  f64_is_finite x = true → f64_is_finite y = true → f_leb x y = (units x <=? units y).
Proof.
  intros Hx Hy. simpl. rewrite leb_spec. unfold SFleb.
  rewrite SFcompare_units by (done || apply Prim2SF_valid). unfold Z.leb, units.
  by destruct (_ ?= _).
Qed.

Lemma f64_ltb_units (x y : f64) :
  f64_is_finite x = true → f64_is_finite y = true → f_ltb x y = (units x <? units y).
Proof.
  intros Hx Hy. simpl. rewrite ltb_spec. unfold SFltb.
  rewrite SFcompare_units by (done || apply Prim2SF_valid). unfold Z.ltb, units.
  by destruct (_ ?= _).
Qed.

Lemma f64_finite_sf (x : f64) : f_finite x = f64_is_finite x.
Proof.
  unfold f_finite, f64_is_finite. simpl. rewrite ltb_spec, abs_spec.
  replace (Prim2SF f_infinity) with (S754_infinity false) by (by vm_compute).
  by destruct (Prim2SF x).
Qed.

Lemma f64_is_finite_nan (x : f64) : f64_is_finite x = true → f_nan x = false.
Proof. rewrite f64_nan_SF. unfold f64_is_finite. by destruct (Prim2SF x). Qed.

(** A value inside finite bounds is finite. *)
Lemma f64_between_finite (lo x hi : f64) :
  f64_is_finite lo = true → f64_is_finite hi = true →
  f_leb lo x = true → f_ltb x hi = true → f64_is_finite x = true.
Proof.
  unfold f64_is_finite. simpl. rewrite leb_spec, ltb_spec.
  destruct (Prim2SF lo), (Prim2SF hi), (Prim2SF x) as [|[]| |]; try done; by destruct s.
Qed.

Lemma quot_units s m e :
  -1074 <= e →
  Z.quot (cond_Zopp s (Zpos m * 2 ^ (e + 1074))) (2 ^ 1074) =
  cond_Zopp s (match e with Zneg d => Zpos m / 2 ^ Zpos d | _ => Zpos m * 2 ^ e end).
Proof.
  intros He.
  assert (Z.quot (Zpos m * 2 ^ (e + 1074)) (2 ^ 1074) =
    match e with Zneg d => Zpos m / 2 ^ Zpos d | _ => Zpos m * 2 ^ e end) as Hq.
  { assert (2 ^ 1074 <> 0) as H2 by (by apply Z.pow_nonzero).
    destruct e as [|d|d].
    - rewrite Z.add_0_l, Z.quot_mul by done. simpl. lia.
    - rewrite Z.pow_add_r, Z.mul_assoc by lia. by rewrite Z.quot_mul.
    - assert (0 <= 2 ^ (Zneg d + 1074)) by (apply Z.pow_nonneg; lia).
      rewrite Z.quot_div_nonneg by (lia || (apply Z.pow_pos_nonneg; lia)).
      replace 1074 with (Zpos d + (Zneg d + 1074)) at 2 by lia.
      rewrite (Z.pow_add_r 2 (Zpos d)) by lia. apply Z.div_mul_cancel_r; apply Z.pow_nonzero; lia. }
  destruct s; unfold cond_Zopp; [|done]. rewrite Z.quot_opp_l, Hq; [done|].
  by apply Z.pow_nonzero.
Qed.

(** Truncation drops what is below one. *)
Lemma f64_trunc_units (x : f64) :
  f64_is_finite x = true → f64_trunc x = Some (Z.quot (units x) (2 ^ 1074)).
Proof.
  unfold f64_is_finite, f64_trunc, units. pose proof (Prim2SF_valid x) as Hv.
  destruct (Prim2SF x) as [s|s| |s m e]; try done; intros _.
  pose proof (bounded_emin _ _ Hv). unfold sf_units. rewrite quot_units by done.
  by destruct s, e.
Qed.

(** ** Small integers are exact *)

Lemma binary_round_aux_canonical s m e :
  bounded prec emax m e = true →
  binary_round_aux prec emax s (Zpos m) e loc_Exact = S754_finite s m e.
Proof.
  intros H. unfold binary_round_aux. rewrite shr_fexp_canonical by done. simpl.
  rewrite shr_fexp_canonical by done. simpl.
  unfold bounded in H. by apply andb_true_iff in H as [_ ->].
Qed.

Lemma binary_round_int s p :
  Zpos p < 2 ^ 53 →
  ∃ m e, binary_round prec emax s p 0 = S754_finite s m e ∧
    bounded prec emax m e = true ∧ Zpos m * 2 ^ (e + 1074) = Zpos p * 2 ^ 1074.
Proof.
  intros Hp. unfold binary_round. rewrite fexp_eq.
  destruct (digits2_pos_bounds p) as [Hl Hh]. set (d := Zpos (digits2_pos p)) in *.
  assert (d - 1 < 53) as Hd by (apply (Z.pow_lt_mono_r_iff 2); lia).
  replace (Z.max (d + 0 - 53) (-1074)) with (d - 53) by lia.
  pose proof (shl_align_fst p 0 (d - 53) ltac:(lia)) as Hm.
  destruct (shl_align_exp p 0 (d - 53)) as [He Hdg]. fold d in Hdg.
  destruct (shl_align p 0 (d - 53)) as [m e]. cbn [fst snd] in *.
  rewrite Z.min_r in He by lia. subst e.
  assert (bounded prec emax m (d - 53) = true) as Hb.
  { unfold bounded, canonical_mantissa. rewrite fexp_eq. apply andb_true_iff. split.
    - apply Z.eqb_eq. lia.
    - apply Z.leb_le. unfold emax, prec. lia. }
  exists m, (d - 53). split; [by apply binary_round_aux_canonical|]. split; [done|].
  rewrite Hm, <- Z.mul_assoc, <- Z.pow_add_r by lia. do 2 f_equal. lia.
Qed.

Lemma normalize_int z sz :
  Z.abs z < 2 ^ 53 →
  sf_finite (binary_normalize prec emax z 0 sz) = true ∧
  sf_units (binary_normalize prec emax z 0 sz) = z * 2 ^ 1074.
Proof.
  intros Hz. destruct z as [|p|p]; [done|..]; unfold binary_normalize.
  - destruct (binary_round_int false p Hz) as (m & e & -> & _ & Hu). by split.
  - destruct (binary_round_int true p Hz) as (m & e & -> & _ & Hu). split; [done|].
    unfold sf_units, cond_Zopp. rewrite Hu. by rewrite <- Z.mul_opp_l.
Qed.

Lemma units_of_Z z :
  Z.abs z < 2 ^ 53 → f64_is_finite (f64_of_Z z) = true ∧ units (f64_of_Z z) = z * 2 ^ 1074.
Proof. unfold f64_is_finite, units. rewrite Prim2SF_of_Z. apply normalize_int. Qed.

Lemma units_of_signed s n :
  0 <= n < 2 ^ 53 →
  f64_is_finite (f64_of_signed s n) = true ∧
  units (f64_of_signed s n) = (if s then - n else n) * 2 ^ 1074.
Proof.
  intros Hn. unfold f64_is_finite, units, f64_of_signed.
  rewrite Prim2SF_SF2Prim by apply binary_normalize_valid.
  apply normalize_int. destruct s; lia.
Qed.

(** ** Rounding *)

(** [x] to the nearest integer, half away from zero. *)
Definition nearest (x : f64) : Z :=
  let u := units x in
  if 0 <=? u then (u + 2 ^ 1073) / 2 ^ 1074 else - ((- u + 2 ^ 1073) / 2 ^ 1074).

Lemma nearest_pos_units m e :
  -1074 <= e →
  (Zpos m * 2 ^ (e + 1074) + 2 ^ 1073) / 2 ^ 1074 =
  match e with Zneg d => (Zpos m + 2 ^ (Zpos d - 1)) / 2 ^ Zpos d | _ => Zpos m * 2 ^ e end.
Proof.
  intros He. assert (0 < 2 ^ 1074) by (by apply Z.pow_pos_nonneg).
  assert (2 ^ 1074 = 2 * 2 ^ 1073) as H2 by (by rewrite <- Z.pow_succ_r).
  assert (0 <= e → (Zpos m * 2 ^ (e + 1074) + 2 ^ 1073) / 2 ^ 1074 = Zpos m * 2 ^ e) as Hpos.
  { intros. rewrite (Z.pow_add_r 2 e), Z.mul_assoc, Z.add_comm, Z.div_add by lia.
    rewrite Z.div_small by lia. lia. }
  destruct e as [|d|d]; [by apply Hpos..|].
  assert (2 ^ 1074 = 2 ^ Zpos d * 2 ^ (Zneg d + 1074)) as H3
    by (rewrite <- Z.pow_add_r by lia; f_equal; lia).
  assert (2 ^ 1073 = 2 ^ (Zpos d - 1) * 2 ^ (Zneg d + 1074)) as H4
    by (rewrite <- Z.pow_add_r by lia; f_equal; lia).
  rewrite H3, H4, <- Z.mul_add_distr_r. apply Z.div_mul_cancel_r; apply Z.pow_nonzero; lia.
Qed.

(** [round] returns the nearest integer, exactly. *)
Lemma f64_round_units (x : f64) :
  f64_is_finite x = true →
  f64_is_finite (f64_round x) = true ∧ units (f64_round x) = nearest x * 2 ^ 1074.
Proof.
  unfold f64_is_finite, nearest, units at 2 3 4, f64_round.
  pose proof (Prim2SF_valid x) as Hv.
  destruct (Prim2SF x) as [s|s| |s m e] eqn:Hx; try done; intros _.
  { unfold units. rewrite Hx. split; [done|]. simpl.
    by rewrite Z.div_small by (split; [by apply Z.pow_nonneg|by apply Z.pow_lt_mono_r]). }
  pose proof (bounded_emin _ _ Hv) as He. pose proof (nearest_pos_units m e He) as Hn.
  pose proof (units_pos _ _ Hv) as Hp. unfold sf_units.
  assert ((if 0 <=? cond_Zopp s (Zpos m * 2 ^ (e + 1074))
    then (cond_Zopp s (Zpos m * 2 ^ (e + 1074)) + 2 ^ 1073) / 2 ^ 1074
    else - ((- cond_Zopp s (Zpos m * 2 ^ (e + 1074)) + 2 ^ 1073) / 2 ^ 1074)) =
    cond_Zopp s (match e with Zneg d => (Zpos m + 2 ^ (Zpos d - 1)) / 2 ^ Zpos d
                 | _ => Zpos m * 2 ^ e end)) as ->.
  { destruct s; unfold cond_Zopp; destruct (Z.leb_spec 0 (Zpos m * 2 ^ (e + 1074)));
      destruct (Z.leb_spec 0 (- (Zpos m * 2 ^ (e + 1074)))); try lia;
      by rewrite ?Z.opp_involutive, Hn. }
  destruct e as [|d|d].
  - unfold units. rewrite Hx. split; [done|]. unfold sf_units. destruct s; simpl; lia.
  - unfold units. rewrite Hx. split; [done|]. unfold sf_units.
    rewrite Z.pow_add_r, Z.mul_assoc by lia. destruct s; unfold cond_Zopp; lia.
  - destruct (units_of_signed s ((Zpos m + 2 ^ (Zpos d - 1)) / 2 ^ Zpos d)) as [Hf Hu].
    { pose proof (bounded_canonical _ _ Hv). destruct (digits2_pos_bounds m) as [_ Hm].
      assert (Zpos m < 2 ^ 53).
      { eapply Z.lt_le_trans; [exact Hm|]. apply Z.pow_le_mono_r; lia. }
      split; [apply Z.div_pos; [|apply Z.pow_pos_nonneg; lia]; pose proof (Z.pow_nonneg 2 (Zpos d - 1)); lia|].
      apply Z.div_lt_upper_bound; [apply Z.pow_pos_nonneg; lia|].
      assert (2 ^ Zpos d = 2 * 2 ^ (Zpos d - 1)) as Hd by (rewrite <- Z.pow_succ_r by lia; f_equal; lia).
      assert (1 <= 2 ^ (Zpos d - 1)) by (change 1 with (2 ^ 0); apply Z.pow_le_mono_r; lia). nia. }
    split; [done|]. rewrite Hu. by destruct s.
Qed.

(** An integer bound that [f64] represents exactly. *)
Definition exact_bound (z : Z) : bool :=
  f64_is_finite (f64_of_Z z) && (units (f64_of_Z z) =? z * 2 ^ 1074).

(** A rounded value between two exact bounds: the nearest integer is. *)
Lemma nearest_in_range (lo hi : Z) (x : f64) :
  exact_bound lo = true → exact_bound hi = true →
  f64_is_finite x = true →
  f_leb (of_Z lo) (f_round x) = true → f_ltb (f_round x) (of_Z hi) = true →
  lo <= nearest x < hi.
Proof.
  unfold exact_bound. intros [Hlf Hlu%Z.eqb_eq]%andb_true_iff [Hhf Hhu%Z.eqb_eq]%andb_true_iff Hx.
  destruct (f64_round_units x Hx) as [Hf Hu].
  assert (0 < 2 ^ 1074) by (by apply Z.pow_pos_nonneg).
  rewrite f64_leb_units by done. rewrite f64_ltb_units by done.
  change (of_Z ?z) with (f64_of_Z z). change (f_round ?y) with (f64_round y).
  rewrite Hlu, Hhu, Hu. intros Hlo%Z.leb_le Hhi%Z.ltb_lt.
  split; [by apply (Z.mul_le_mono_pos_r _ _ (2 ^ 1074))|by apply (Z.mul_lt_mono_pos_r (2 ^ 1074))].
Qed.

(** The cast of a rounded value in range is the nearest integer. *)
Lemma as_int_round (lo hi : Z) (x : f64) :
  f64_is_finite x = true → lo <= nearest x <= hi → f64_as_int lo hi (f_round x) = nearest x.
Proof.
  intros Hx Hr. destruct (f64_round_units x Hx) as [Hf Hu].
  pose proof (f64_trunc_units (f64_round x) Hf) as Ht. rewrite Hu in Ht.
  rewrite Z.quot_mul in Ht by (by apply Z.pow_nonzero).
  change (f_round x) with (f64_round x). unfold f64_as_int. rewrite Ht.
  unfold f64_is_finite in Hf. destruct (Prim2SF (f64_round x)); try done; lia.
Qed.
