(* ===== verification/Codec.v ===== *)
(** * Modbus codec: [src/modbus/codec.rs], [src/modbus/function_code.rs] and
    [src/modbus/sunspec.rs]

    Registers are 16-bit words as [Z].  Decoding indexes the word list, so it
    returns [None] where the code panics on a short read. *)

From Stdlib Require Import ZArith Lia Floats.
From S2P Require Import Prelude F64 Binary64 Rounding Integers.
Local Open Scope Z_scope.

Inductive WordOrder := HighLow | LowHigh.

Inductive ModbusDataType := Int16 | Uint16 | Int32 | Uint32 | Float32 | Int64.

Definition default_word_order : WordOrder := HighLow.
Definition default_data_type : ModbusDataType := Int32.

Definition register_count (t : ModbusDataType) : Z :=
  match t with
  | Int16 | Uint16 => 1
  | Int32 | Uint32 | Float32 => 2
  | Int64 => 4
  end.

Definition decode_uint32 (words : list Z) (order : WordOrder) : option Z :=
  w0 ← words !! 0%nat;
  w1 ← words !! 1%nat;
  let '(high, low) := match order with HighLow => (w0, w1) | LowHigh => (w1, w0) end in
  Some (Z.lor (Z.shiftl high 16) low).

Definition encode_uint32 (value : Z) (order : WordOrder) : list Z :=
  let high := as_unsigned 16 (Z.shiftr value 16) in
  let low := as_unsigned 16 value in
  match order with HighLow => [high; low] | LowHigh => [low; high] end.

Definition decode_int32 (words : list Z) (order : WordOrder) : option Z :=
  as_signed 32 <$> decode_uint32 words order.

Definition encode_int32 (value : Z) (order : WordOrder) : list Z :=
  encode_uint32 (as_unsigned 32 value) order.

Definition decode_int64 (words : list Z) (order : WordOrder) : option Z :=
  w0 ← words !! 0%nat;
  w1 ← words !! 1%nat;
  w2 ← words !! 2%nat;
  w3 ← words !! 3%nat;
  let ordered := match order with HighLow => [w0; w1; w2; w3] | LowHigh => [w3; w2; w1; w0] end in
  Some (as_signed 64 (foldl (λ acc w, Z.lor (as_unsigned 64 (Z.shiftl acc 16)) w) 0 ordered)).

Definition encode_int64 (value : Z) (order : WordOrder) : list Z :=
  let raw := as_unsigned 64 value in
  let big_endian :=
    [as_unsigned 16 (Z.shiftr raw 48); as_unsigned 16 (Z.shiftr raw 32);
     as_unsigned 16 (Z.shiftr raw 16); as_unsigned 16 raw] in
  match order with HighLow => big_endian | LowHigh => rev big_endian end.

Definition decode_raw (words : list Z) (t : ModbusDataType) (order : WordOrder) : option f64 :=
  match t with
  | Uint16 => w0 ← words !! 0%nat; Some (of_Z w0)
  | Int16 => w0 ← words !! 0%nat; Some (of_Z (as_signed 16 w0))
  | Int32 => of_Z <$> decode_int32 words order
  | Uint32 => of_Z <$> decode_uint32 words order
  | Float32 => (λ b, f32_as_f64 (f32_from_bits b)) <$> decode_uint32 words order
  | Int64 => of_Z <$> decode_int64 words order
  end.

(** ["{raw} doesn't fit a {data_type:?} register"]. *)
Inductive codec_error := DoesntFit (raw : f64) (t : ModbusDataType).

Definition in_range (raw : f64) (lo hi : Z) : bool :=
  f_finite raw && f_leb (of_Z lo) (f_round raw) && f_ltb (f_round raw) (of_Z hi).

Definition fits (raw : f64) (t : ModbusDataType) : bool :=
  match t with
  | Uint16 => in_range raw 0 65536
  | Int16 => in_range raw (-32768) 32768
  | Int32 => in_range raw (-2147483648) 2147483648
  | Uint32 => in_range raw 0 4294967296
  | Int64 => in_range raw (-9223372036854775808) 9223372036854775808
  | Float32 => f32_is_finite (f64_as_f32 raw)
  end.

Definition encode_raw (raw : f64) (t : ModbusDataType) (order : WordOrder)
    : result codec_error (list Z) :=
  if negb (fits raw t) then Err (DoesntFit raw t)
  else Ok match t with
    | Uint16 => [f64_as_u16 (f_round raw)]
    | Int16 => [as_unsigned 16 (f64_as_i16 (f_round raw))]
    | Int32 => encode_int32 (f64_as_i32 (f_round raw)) order
    | Uint32 => encode_uint32 (f64_as_u32 (f_round raw)) order
    | Float32 => encode_uint32 (f32_to_bits (f64_as_f32 raw)) order
    | Int64 => encode_int64 (f64_as_i64 (f_round raw)) order
    end.

Definition apply_scale_offset (raw scale offset : f64) : f64 :=
  f_add (f_mul raw scale) offset.

Definition to_raw (value scale offset : f64) : f64 :=
  f_div (f_sub value offset) scale.

(** ** Function codes *)

Inductive ReadFunction := Holding | Input.
Inductive WriteFunction := Single | Multiple.

Inductive function_error :=
| NotARead (code : Z)
| NotAWrite (code : Z)
| TooWide (t : ModbusDataType).

Definition read_function (code : option Z) : result function_error ReadFunction :=
  match code with
  | None => Ok Holding
  | Some c => if c =? 3 then Ok Holding else if c =? 4 then Ok Input else Err (NotARead c)
  end.

Definition write_function (code : option Z) (t : ModbusDataType)
    : result function_error WriteFunction :=
  match code with
  | None => Ok Multiple
  | Some c =>
      if c =? 16 then Ok Multiple
      else if c =? 6 then (if register_count t =? 1 then Ok Single else Err (TooWide t))
      else Err (NotAWrite c)
  end.

(** ** SunSpec scale factors *)

Definition NOT_IMPLEMENTED : Z := 0x8000.

(** [f64::powi] as compiled: repeated squaring, the reciprocal of the positive
    power for a negative exponent. *)
Fixpoint powi_loop (fuel : nat) (a r : f64) (b : Z) : f64 :=
  match fuel with
  | O => r
  | S fuel =>
      let r := if Z.odd b then f_mul r a else r in
      let b := b / 2 in
      if b =? 0 then r else powi_loop fuel (f_mul a a) r b
  end.

Definition powi (a : f64) (n : Z) : f64 :=
  let r := powi_loop 32 a (of_Z 1) (Z.abs n) in
  if n <? 0 then f_div (of_Z 1) r else r.

Definition apply_sunssf (raw : f64) (sf_word : Z) : result string f64 :=
  if sf_word =? NOT_IMPLEMENTED
  then Err "scale factor register reads 0x8000 (not implemented)"%string
  else Ok (f_mul raw (powi (of_Z 10) (as_signed 16 sf_word))).

(** ** Round trips *)

Lemma lor_shiftl h l n : 0 <= n → 0 <= l < 2 ^ n → Z.lor (Z.shiftl h n) l = h * 2 ^ n + l.
Proof.
  intros Hn Hl. assert (Z.land (Z.shiftl h n) l = 0) as Hz.
  { apply Z.bits_inj'. intros i Hi. rewrite Z.land_spec, Z.bits_0.
    destruct (Z.lt_ge_cases i n); [by rewrite Z.shiftl_spec_low|].
    rewrite <- (Z.mod_small l (2 ^ n)) by done. rewrite Z.mod_pow2_bits_high by lia.
    apply andb_false_r. }
  rewrite <- Z.lxor_lor by done. rewrite <- Z.add_nocarry_lxor by done.
  by rewrite Z.shiftl_mul_pow2.
Qed.

Definition word (w : Z) : Prop := 0 <= w < 2 ^ 16.

Lemma as_unsigned_word z : word (as_unsigned 16 z).
Proof. by apply as_unsigned_range. Qed.

Lemma encode_uint32_words v order :
  length (encode_uint32 v order) = 2%nat ∧ Forall word (encode_uint32 v order).
Proof. destruct order; (split; [done|]); repeat constructor; apply as_unsigned_word. Qed.

Lemma decode_encode_uint32 v order :
  0 <= v < 2 ^ 32 → decode_uint32 (encode_uint32 v order) order = Some v.
Proof.
  intros Hv. assert (Z.lor (Z.shiftl (as_unsigned 16 (Z.shiftr v 16)) 16) (as_unsigned 16 v) = v) as E.
  { rewrite lor_shiftl by (done || apply as_unsigned_word). unfold as_unsigned.
    rewrite Z.shiftr_div_pow2 by done. rewrite (Z.mod_small (v / 2 ^ 16))
      by (split; [apply Z.div_pos|apply Z.div_lt_upper_bound]; lia).
    symmetry. rewrite Z.mul_comm. by apply Z.div_mod. }
  unfold decode_uint32, encode_uint32.
  by destruct order; cbn [lookup list_lookup mbind option_bind]; rewrite E.
Qed.

Lemma decode_encode_int32 v order :
  - 2 ^ 31 <= v < 2 ^ 31 → decode_int32 (encode_int32 v order) order = Some v.
Proof.
  intros Hv. unfold decode_int32, encode_int32.
  rewrite decode_encode_uint32 by (by apply as_unsigned_range). simpl. f_equal.
  by apply as_signed_unsigned.
Qed.

Lemma int64_words raw :
  0 <= raw < 2 ^ 64 →
  foldl (λ acc w, Z.lor (as_unsigned 64 (Z.shiftl acc 16)) w) 0
    [as_unsigned 16 (Z.shiftr raw 48); as_unsigned 16 (Z.shiftr raw 32);
     as_unsigned 16 (Z.shiftr raw 16); as_unsigned 16 raw] = raw.
Proof.
  intros Hr. cbn [foldl]. unfold as_unsigned. rewrite !Z.shiftr_div_pow2 by done.
  set (a := raw / 2 ^ 48 mod 2 ^ 16). set (b := raw / 2 ^ 32 mod 2 ^ 16).
  set (c := raw / 2 ^ 16 mod 2 ^ 16). set (d := raw mod 2 ^ 16).
  assert (0 <= a < 2 ^ 16 ∧ 0 <= b < 2 ^ 16 ∧ 0 <= c < 2 ^ 16 ∧ 0 <= d < 2 ^ 16) as (Ha & Hb & Hc & Hd)
    by (split_and!; apply Z.mod_pos_bound; lia).
  assert (raw = ((a * 2 ^ 16 + b) * 2 ^ 16 + c) * 2 ^ 16 + d) as Hraw.
  { unfold a, b, c, d. change (2 ^ 48) with (2 ^ 16 * 2 ^ 16 * 2 ^ 16).
    change (2 ^ 32) with (2 ^ 16 * 2 ^ 16). rewrite <- !Z.div_div by done.
    pose proof (Z.div_mod raw (2 ^ 16) ltac:(done)).
    pose proof (Z.div_mod (raw / 2 ^ 16) (2 ^ 16) ltac:(done)).
    pose proof (Z.div_mod (raw / 2 ^ 16 / 2 ^ 16) (2 ^ 16) ltac:(done)).
    assert (raw / 2 ^ 16 / 2 ^ 16 / 2 ^ 16 < 2 ^ 16).
    { rewrite !Z.div_div by done. apply Z.div_lt_upper_bound; [done|]. by destruct Hr. }
    rewrite (Z.mod_small (raw / 2 ^ 16 / 2 ^ 16 / 2 ^ 16)); [lia|].
    split; [|done]. repeat apply Z.div_pos; lia. }
  clearbody a b c d.
  assert (∀ acc w, 0 <= acc < 2 ^ 48 → 0 <= w < 2 ^ 16 →
    Z.lor (Z.shiftl acc 16 mod 2 ^ 64) w = acc * 2 ^ 16 + w) as Hstep.
  { intros acc w Hacc Hw. rewrite Z.mod_small by (rewrite Z.shiftl_mul_pow2; lia).
    by apply lor_shiftl. }
  rewrite (Hstep 0 a), (Hstep _ b), (Hstep _ c), (Hstep _ d) by lia. lia.
Qed.

Lemma decode_encode_int64 v order :
  - 2 ^ 63 <= v < 2 ^ 63 → decode_int64 (encode_int64 v order) order = Some v.
Proof.
  intros Hv. assert (0 <= as_unsigned 64 v < 2 ^ 64) as Hr by (by apply as_unsigned_range).
  pose proof (int64_words _ Hr) as Hw. unfold decode_int64, encode_int64.
  destruct order; cbn [rev app lookup list_lookup mbind option_bind]; rewrite Hw; f_equal;
    by apply as_signed_unsigned.
Qed.

Lemma encode_int64_words v order :
  length (encode_int64 v order) = 4%nat ∧ Forall word (encode_int64 v order).
Proof. destruct order; (split; [done|]); repeat constructor; apply as_unsigned_word. Qed.

(** The half-open range of an integer register type. *)
Definition type_range (t : ModbusDataType) : option (Z * Z) :=
  match t with
  | Uint16 => Some (0, 65536)
  | Int16 => Some (-32768, 32768)
  | Int32 => Some (-2147483648, 2147483648)
  | Uint32 => Some (0, 4294967296)
  | Int64 => Some (-9223372036854775808, 9223372036854775808)
  | Float32 => None
  end.

Lemma type_range_exact t lo hi :
  type_range t = Some (lo, hi) → exact_bound lo = true ∧ exact_bound hi = true.
Proof. destruct t; intros [= <- <-]; split; by vm_compute. Qed.

Lemma fits_in_range t lo hi raw : type_range t = Some (lo, hi) → fits raw t = in_range raw lo hi.
Proof. by destruct t; intros [= <- <-]. Qed.

(** [(min..max).contains(&raw.round())] decides the nearest integer's range. *)
Lemma in_range_spec raw lo hi :
  exact_bound lo = true → exact_bound hi = true →
  in_range raw lo hi = true ↔ f64_is_finite raw = true ∧ lo <= nearest raw < hi.
Proof.
  intros Hlo Hhi. unfold in_range. rewrite f64_finite_sf, !andb_true_iff. split.
  - intros [[Hf H1] H2]. split; [done|]. by apply nearest_in_range.
  - intros [Hf [H1 H2]]. destruct (f64_round_units raw Hf) as [Hrf Hru].
    unfold exact_bound in Hlo, Hhi.
    apply andb_true_iff in Hlo as [Hlf Hlu%Z.eqb_eq], Hhi as [Hhf Hhu%Z.eqb_eq].
    change (f_round raw) with (f64_round raw). rewrite f64_leb_units, f64_ltb_units by done.
    change (of_Z ?z) with (f64_of_Z z). rewrite Hlu, Hhu, Hru.
    assert (0 < 2 ^ 1074) by (by apply Z.pow_pos_nonneg). split_and!; [done| |].
    + apply Z.leb_le. by apply Z.mul_le_mono_pos_r.
    + apply Z.ltb_lt. by apply Z.mul_lt_mono_pos_r.
Qed.

(** C23: a value is accepted for an integer register
    type exactly when it is finite and the nearest integer is in the type's
    range: nothing is saturated, wrapped or truncated silently. *)
Theorem encode_accepts_iff_fits (raw : f64) (t : ModbusDataType) (order : WordOrder) lo hi :
  type_range t = Some (lo, hi) →
  is_ok (encode_raw raw t order) = true ↔ f64_is_finite raw = true ∧ lo <= nearest raw < hi.
Proof.
  intros Ht. destruct (type_range_exact _ _ _ Ht) as [Hlo Hhi].
  etransitivity; [|by apply in_range_spec]. unfold encode_raw.
  rewrite (fits_in_range _ _ _ _ Ht). by destruct (in_range raw lo hi).
Qed.

Lemma encode_accepts_iff_fits_witness :
  is_ok (encode_raw (lit 327675 10) Int16 HighLow) = true ↔
  f64_is_finite (lit 327675 10) = true ∧ -32768 <= nearest (lit 327675 10) < 32768.
Proof. apply (encode_accepts_iff_fits _ Int16 HighLow). reflexivity. Defined.

(** An accepted value goes on the wire as exactly the
    registers its type spans, each a 16-bit word, and reading them back with
    the same type and word order gives the nearest integer to the value. *)
Theorem register_round_trip (raw : f64) (t : ModbusDataType) (order : WordOrder) lo hi words :
  type_range t = Some (lo, hi) → encode_raw raw t order = Ok words →
  Z.of_nat (length words) = register_count t ∧ Forall word words ∧
  decode_raw words t order = Some (of_Z (nearest raw)).
Proof.
  intros Ht He. destruct (type_range_exact _ _ _ Ht) as [Hlo Hhi].
  unfold encode_raw in He. destruct (fits raw t) eqn:Hfit; [|done].
  rewrite (fits_in_range _ _ _ _ Ht) in Hfit.
  apply in_range_spec in Hfit as [Hf Hn]; [|done|done].
  assert (∀ l h, l <= lo → hi <= h + 1 → f64_as_int l h (f_round raw) = nearest raw) as Hcast
    by (intros l h ??; apply as_int_round; [done|lia]).
  assert (- 2 ^ 15 = -32768 ∧ - 2 ^ 31 = -2147483648 ∧ - 2 ^ 63 = -9223372036854775808)
    as (E15 & E31 & E63) by done.
  destruct t; try discriminate Ht; injection Ht as <- <-; cbn [negb] in He; injection He as <-; cbn [register_count decode_raw].
  - unfold f64_as_i16. rewrite Hcast by lia. split; [done|].
    split; [repeat constructor; apply as_unsigned_word|]. cbn [lookup list_lookup mbind option_bind].
    rewrite as_signed_unsigned by lia. done.
  - unfold f64_as_u16. rewrite Hcast by lia. split; [done|]. split; [|done].
    repeat constructor; unfold word; lia.
  - unfold f64_as_i32. rewrite Hcast by lia. unfold encode_int32.
    destruct (encode_uint32_words (as_unsigned 32 (nearest raw)) order) as [-> Hw].
    split; [done|]. split; [done|]. fold (encode_int32 (nearest raw) order).
    rewrite decode_encode_int32 by lia. done.
  - unfold f64_as_u32. rewrite Hcast by lia.
    destruct (encode_uint32_words (nearest raw) order) as [-> Hw].
    split; [done|]. split; [done|]. rewrite decode_encode_uint32 by lia. done.
  - unfold f64_as_i64. rewrite Hcast by lia.
    destruct (encode_int64_words (nearest raw) order) as [-> Hw].
    split; [done|]. split; [done|]. rewrite decode_encode_int64 by lia. done.
Qed.

(** -1234567.4 W into two registers, low word first. *)
Lemma register_round_trip_witness :
  encode_raw (lit (-12345674) 10) Int32 LowHigh = Ok [10617; 65517] ∧
  decode_raw [10617; 65517] Int32 LowHigh = Some (of_Z (nearest (lit (-12345674) 10))).
Proof.
  assert (encode_raw (lit (-12345674) 10) Int32 LowHigh = Ok [10617; 65517]) as He by (by vm_compute).
  split; [exact He|]. exact (proj2 (proj2 (register_round_trip _ Int32 LowHigh _ _ _ eq_refl He))).
Defined.

(** SunSpec: 5123 with exponent -1 (0xFFFF) is 512.3; 0x8000 is refused. *)
Example sunssf_applied :
  apply_sunssf (of_Z 5123) 0xFFFF = Ok (f_mul (of_Z 5123) (lit 1 10)) ∧
  is_ok (apply_sunssf (of_Z 5123) 0x8000) = false.
Proof. split; by vm_compute. Qed.

(** Function code 6 is accepted only for types of
    one register, so every accepted write sends the registers its function
    takes: one for FC6, all of the type's for FC16. *)
Theorem single_write_one_register (code : option Z) (t : ModbusDataType) f :
  write_function code t = Ok f →
  match f with
  | Single => code = Some 6 ∧ register_count t = 1
  | Multiple => code = None ∨ code = Some 16
  end.
Proof.
  unfold write_function. destruct code as [c|]; [|intros [= <-]; by left].
  destruct (Z.eqb_spec c 16) as [->|]; [intros [= <-]; by right|].
  destruct (Z.eqb_spec c 6) as [->|]; [|done].
  destruct (Z.eqb_spec (register_count t) 1); [by intros [= <-]|done].
Qed.

Lemma single_write_one_register_witness :
  match write_function (Some 6) Uint16 with
  | Ok Single => Some 6 = Some 6 ∧ register_count Uint16 = 1
  | _ => False
  end.
Proof. exact (single_write_one_register (Some 6) Uint16 Single eq_refl). Defined.
