(* ===== verification/Cache.v ===== *)
(** * Readings: [src/synthetic/cache.rs], JSON values and topic templates

    A cached reading is a JSON value and the instant it landed; the cache maps
    topics to readings.  [Instant::elapsed] is the difference to an explicit
    [now], never negative. *)

From Stdlib Require Import ZArith Lia Floats.
From S2P Require Import Prelude F64 Binary64 Text.
Local Open Scope Z_scope.

(** ** [serde_json::Value] *)

Set Warnings "-register-all".

Inductive Value :=
| VNull
| VBool (b : bool)
| VInt (z : Z)                       (* a u64 or i64 *)
| VFloat (x : f64)
| VString (s : string)
| VArray (l : list Value)
| VObject (fields : list (string * Value)).

(** [Value::as_f64], [as_bool], [as_str]. *)
Definition as_f64 (v : Value) : option f64 :=
  match v with VInt z => Some (of_Z z) | VFloat x => Some x | _ => None end.
Definition as_bool (v : Value) : option bool :=
  match v with VBool b => Some b | _ => None end.
Definition as_str (v : Value) : option string :=
  match v with VString s => Some s | _ => None end.

(** [Value::get] of a name. *)
Definition field (v : Value) (name : string) : option Value :=
  match v with
  | VObject fields => snd <$> find_first (λ f, bool_decide (f.1 = name)) fields
  | _ => None
  end.

(** [as_number]: numbers as they are, booleans as 1 and 0, labels never. *)
Definition as_number (v : Value) : option f64 :=
  match as_f64 v with
  | Some x => Some x
  | None => (λ b : bool, if b then of_Z 1 else of_Z 0) <$> as_bool v
  end.

(** ** The cache *)

Definition CacheEntry : Type := Value * Z.
Definition InputCache : Type := gmap string CacheEntry.

Definition new_input_cache : InputCache := ∅.

(** [cache.get(topic).and_then(|e| as_number(&e.0))]. *)
Definition reading (cache : InputCache) (topic : string) : option f64 :=
  e ← cache !! topic; as_number e.1.

(** The same with the instant it landed. *)
Definition reading_at (cache : InputCache) (topic : string) : option (f64 * Z) :=
  e ← cache !! topic; x ← as_number e.1; Some (x, e.2).

Lemma cache_insert_eq (cache : InputCache) topic e : <[topic := e]> cache !! topic = Some e.
Proof. apply (lookup_insert_eq (M := gmap string)). Qed.

Lemma cache_insert_ne (cache : InputCache) topic t e :
  t ≠ topic → <[topic := e]> cache !! t = cache !! t.
Proof. intros. by apply (lookup_insert_ne (M := gmap string)). Qed.

(** [Instant::elapsed]. *)
Definition elapsed_since (now at_ : Z) : Z := Z.max 0 (now - at_).

Definition seconds (n : Z) : Z := n * 1000000000.

(** ** Topic templates: [inputs::substitute_site_id] *)

Definition substitute_site_id (template site_id : string) : string :=
  str_replace "{site_id}" site_id template.

Definition measurement_topic (site_id device_id measurement unit : string) : string :=
  "sites/" ++ site_id ++ "/devices/" ++ device_id ++ "/measurements/" ++ measurement ++ "/" ++ unit.

Example substitute_site_id_ex :
  substitute_site_id "sites/{site_id}/devices/d/{site_id}" "s1" = "sites/s1/devices/d/s1".
Proof. reflexivity. Qed.
