(* ===== verification/Payload.v ===== *)
(** * Payloads: [src/payload.rs], the samples of [src/mqtt/publisher.rs] and
    the caching half of [src/mqtt/subscriber.rs]

    How a raw reading becomes the sample the bus carries, and what a gateway
    caches of a sample it hears.  JSON text is parsed and printed by
    [serde_json], so a message is the document itself; [pointer] is
    [Value::pointer] and a compiled JSON schema is the set of documents it
    accepts. *)

From Stdlib Require Import ZArith Lia Floats Ascii.
From stdpp Require Import pretty.
From S2P Require Import Prelude F64 Binary64 Rounding Text Integers Cache.
Local Open Scope Z_scope.
Local Open Scope gateway_scope.

(** ** Printing an [f64] *)

(** [x.fract() == 0.0]. *)
Definition f64_integral (x : f64) : bool :=
  match Prim2SF x with
  | S754_zero _ => true
  | S754_finite _ m (Zneg d) => Zpos m mod 2 ^ Zpos d =? 0
  | S754_finite _ _ _ => true
  | _ => false
  end.

Fixpoint zeros (n : nat) : string :=
  match n with O => "" | S n => String "0" (zeros n) end.

(** [n] with at least [width] digits. *)
Definition pad_left (width : nat) (n : Z) : string :=
  let s := pretty n in (zeros (width - String.length s) ++ s)%string.

(** The shortest decimal [c / 10^digits] that reads back as [m / 2^k]: the
    nearer of the two neighbours of the value with that many decimals, if it
    lies in the rounding interval, else one more decimal.  [half] is the lower
    half of the interval in quarter units: half a unit, a quarter just above a
    power of two. *)
Fixpoint shortest (fuel : nat) (m k half : Z) (digits : nat) : option (Z * nat) :=
  match fuel with
  | O => None
  | S fuel =>
      let scale := 10 ^ Z.of_nat digits in
      let lo := m * scale / 2 ^ k in
      let below := m * scale - lo * 2 ^ k in
      let above := 2 ^ k - below in
      let within d r := (4 * d <? r * scale) || (Z.even m && (4 * d =? r * scale)) in
      let down := within below half in
      let up := within above 2 in
      if up && (negb down || (above <=? below)) then Some (lo + 1, digits)
      else if down then Some (lo, digits)
      else shortest fuel m k half (S digits)
  end.

(** [x.to_string()] of a value that is no integer. *)
Definition f64_to_string (x : f64) : string :=
  match Prim2SF x with
  | S754_nan => "NaN"
  | S754_infinity s => if s then "-inf" else "inf"
  | S754_finite s m (Zneg d) =>
      let half := if bool_decide (Zpos m = 2 ^ 52) then 1 else 2 in
      match shortest 1100 (Zpos m) (Zpos d) half 1 with
      | Some (c, digits) =>
          let scale := 10 ^ Z.of_nat digits in
          ((if s then "-" else "") ++ pretty (c / scale)%Z ++ "." ++ pad_left digits (c mod scale))%string
      | None => ""
      end
  | _ => pretty (f64_as_i64 x)
  end.

Example f64_prints :
  f64_to_string (lit 1 10) = "0.1"%string ∧ f64_to_string (lit 25 10) = "2.5"%string ∧
  f64_to_string (f_opp (lit 3 10)) = "-0.3"%string ∧
  f64_to_string (f_add (lit 1 10) (lit 2 10)) = "0.30000000000000004"%string ∧
  f64_to_string (lit 1 10000000) = "0.0000001"%string.
Proof. split_and!; by vm_compute. Qed.

(** ** [payload.rs] *)

(** A reading as the device gave it. *)
Inductive Raw := Number (x : f64) | Text (s : string).

Inductive Kind := KNumber | KBoolean | KLabel.

Record Payload := mkPayload {
  kind : Kind;
  validator : Value → bool;
}.

Inductive payload_error :=
| NoValueType
| BadSchema
| NoLabel (key : string)
| WrongKind (k : Kind)
| DoesNotFit (sample : Value)
| NotARef
| NotIntoSchemas (target : string)
| NoSchema (target : string)
| TextWithoutSchema (text : string)
| MqttFailed (reason : string).

(** [json!(x)] of a float: JSON has no NaN and no infinity. *)
Definition json_f64 (x : f64) : Value := if f_finite x then VFloat x else VNull.

(** [json!({ "ts": ts, "value": value })]. *)
Definition sample_doc (ts : string) (value : Value) : Value :=
  VObject [("ts"%string, VString ts); ("value"%string, value)].

Section Compile.
Context (pointer : Value → string → option Value).
(** [jsonschema::validator_for]. *)
Context (validator_for : Value → option (Value → bool)).

Definition kind_of (schema : Value) : option Kind :=
  v ← pointer schema "/properties/value/type"; t ← as_str v;
  if bool_decide (t = "number"%string ∨ t = "integer"%string) then Some KNumber
  else if bool_decide (t = "boolean"%string) then Some KBoolean
  else if bool_decide (t = "string"%string) then Some KLabel
  else None.

Definition compile (schema : Value) : result payload_error Payload :=
  k <-? ok_or (kind_of schema) NoValueType;
  v <-? ok_or (validator_for schema) BadSchema;
  Ok (mkPayload k v).

Definition resolve (reference : Value) (schemas : gmap string Value) : result payload_error Payload :=
  target <-? ok_or (v ← field reference "$ref"; as_str v) NotARef;
  name <-? ok_or (strip_prefix "#/components/schemas/" target) (NotIntoSchemas target);
  schema <-? ok_or (schemas !! name) (NoSchema target);
  compile schema.
End Compile.

(** The [value_map] key of a reading: a code as it is written. *)
Definition label_key (raw : Raw) : string :=
  match raw with
  | Text text => text
  | Number n => if f64_integral n then pretty (f64_as_i64 n) else f64_to_string n
  end.

Definition shaped (k : Kind) (raw : Raw) (value_map : option (gmap string string))
    : result payload_error Value :=
  match k, raw with
  | KNumber, Number n => Ok (json_f64 n)
  | KBoolean, Number n => Ok (VBool (negb (f_eqb n (of_Z 0))))
  | KLabel, raw =>
      label <-? ok_or (m ← value_map; m !! label_key raw) (NoLabel (label_key raw));
      Ok (VString label)
  | k, Text _ => Err (WrongKind k)
  end.

Definition sample (p : Payload) (raw : Raw) (value_map : option (gmap string string)) (ts : string)
    : result payload_error Value :=
  value <-? shaped (kind p) raw value_map;
  let doc := sample_doc ts value in
  if validator p doc then Ok doc else Err (DoesNotFit doc).

(** ** [mqtt/publisher.rs] *)

(** A [FloatSample] as JSON. *)
Definition float_sample (ts : string) (value : f64) : Value := sample_doc ts (json_f64 value).

(** What [poller::publish] sends for a reading. *)
Definition outgoing (payload : option Payload) (value_map : option (gmap string string)) (raw : Raw)
    (ts : string) : result payload_error Value :=
  match payload, raw with
  | Some payload, raw => sample payload raw value_map ts
  | None, Number n => Ok (float_sample ts n)
  | None, Text text => Err (TextWithoutSchema text)
  end.

(** paho's [Message]; [msg_doc] is its payload read back as JSON, [None] where
    the text is none. *)
Record MqttMessage := mkMessage {
  msg_topic : string;
  msg_doc : option Value;
  msg_qos : Z;
  msg_retained : bool;
}.

(** [AsyncClient::publish]: the error's text, if any. *)
Class Publisher (W : Type) := mqtt_publish : MqttMessage → W → option string * W.

(** [FloatSample]. *)
Record FloatSample := mkFloatSample { fs_ts : string; fs_value : f64 }.

Definition QOS_MEASUREMENT : Z := 0.

Section Publisher.
Context {W : Type} `{Publisher W}.

Definition publish_message (m : MqttMessage) (w : W) : result payload_error unit * W :=
  let '(refused, w) := mqtt_publish m w in
  (match refused with None => Ok () | Some e => Err (MqttFailed e) end, w).

Definition publish_sample (topic : string) (sample : Value) (w : W) : result payload_error unit * W :=
  publish_message (mkMessage topic (Some sample) QOS_MEASUREMENT false) w.

(** [now_rfc3339]: the wall clock. *)
Definition publish_measurement (now_rfc3339 topic : string) (value : f64) (w : W)
    : result payload_error unit * W :=
  let sample := mkFloatSample now_rfc3339 value in
  publish_message (mkMessage topic (Some (float_sample (fs_ts sample) (fs_value sample)))
                     QOS_MEASUREMENT false) w.
End Publisher.

(** A paho connect error: a CONNACK return code with its text, or any other
    error as its text. *)
Inductive ConnectError := ConnectReturn (rc : Z) (text : string) | OtherConnect (text : string).

Definition CONNACK_NOT_AUTHORIZED : Z := 5.
(** [ConnectReturnCode::BadUserNameOrPassword]. *)
Definition BAD_USER_NAME_OR_PASSWORD : Z := 4.

(** [s.contains(pat)]. *)
Fixpoint str_contains (pat s : string) : bool :=
  match strip_prefix pat s with
  | Some _ => true
  | None => match s with EmptyString => false | String _ s' => str_contains pat s' end
  end.

Definition connect_text (e : ConnectError) : string :=
  match e with ConnectReturn _ t | OtherConnect t => t end.

(** Whether the error is annotated [not_authorized]. *)
Definition classify_connect_error (e : ConnectError) : bool :=
  match e with
  | ConnectReturn rc _ => (rc =? CONNACK_NOT_AUTHORIZED) || (rc =? BAD_USER_NAME_OR_PASSWORD)
  | OtherConnect _ => false
  end || str_contains "Not authorized" (connect_text e)
      || str_contains "Bad User Name or Password" (connect_text e).

(** ** [mqtt/subscriber.rs]: the cache *)

(** [serde_json::from_slice::<Sample>] on a parsed document: a struct is read
    from an object, or from an array of its fields. *)
Definition sample_value (doc : Value) : option Value :=
  match doc with
  | VObject _ => field doc "value"
  | VArray [v] => Some v
  | _ => None
  end.

(** [is_number() || is_boolean() || is_string()]. *)
Definition is_measurement (v : Value) : bool :=
  match v with VInt _ | VFloat _ | VBool _ | VString _ => true | _ => false end.

(** [cache_sample]; [None]: the payload is not JSON. *)
Definition cache_sample (cache : InputCache) (topic : string) (doc : option Value) (now : Z)
    : InputCache :=
  match doc ≫= sample_value with
  | Some v => if is_measurement v then <[topic := (v, now)]> cache else cache
  | None => cache
  end.

(** ** Register codes *)

Lemma f64_integral_units (x : f64) :
  f64_is_finite x = true → f64_integral x = (units x mod 2 ^ 1074 =? 0).
Proof.
  unfold f64_is_finite, f64_integral, units. pose proof (Prim2SF_valid x) as Hv.
  destruct (Prim2SF x) as [s|s| |s m e]; try done; intros _.
  pose proof (bounded_emin _ _ Hv) as He. cbn [sf_units].
  set (u := Zpos m * 2 ^ (e + 1074)).
  assert ((cond_Zopp s u mod 2 ^ 1074 =? 0) = (u mod 2 ^ 1074 =? 0)) as ->.
  { destruct s; [|done]. cbn [cond_Zopp]. apply eq_true_iff_eq. rewrite !Z.eqb_eq.
    split; intros Hu; [rewrite <- (Z.opp_involutive u)|]; by apply Z.mod_opp_l_z. }
  unfold u. destruct e as [|p|d].
  - symmetry. apply Z.eqb_eq. by rewrite Z_mod_mult.
  - symmetry. apply Z.eqb_eq. rewrite Z.pow_add_r, Z.mul_assoc by lia. by rewrite Z_mod_mult.
  - replace (2 ^ 1074) with (2 ^ Zpos d * 2 ^ (Zneg d + 1074))
      by (rewrite <- Z.pow_add_r by lia; f_equal; lia).
    rewrite Z.mul_mod_distr_r by lia. apply eq_true_iff_eq. rewrite !Z.eqb_eq.
    assert (0 < 2 ^ (Zneg d + 1074)) by (apply Z.pow_pos_nonneg; lia). split; [lia|].
    intros Hm. by apply Z.mul_eq_0_l in Hm; [|lia].
Qed.

(** A register code is looked up as the integer it is: 2, not 2.0. *)
Lemma label_key_code z : Z.abs z < 2 ^ 53 → label_key (Number (of_Z z)) = pretty z.
Proof.
  intros Hz. destruct (units_of_Z z Hz) as [Hf Hu]. cbn [label_key].
  change (of_Z z) with (f64_of_Z z). rewrite f64_integral_units, Hu, Z_mod_mult by done.
  cbn [Z.eqb]. f_equal. pose proof (f64_trunc_units _ Hf) as Ht.
  rewrite Hu, Z.quot_mul in Ht by done. unfold f64_as_i64, f64_as_int. rewrite Ht.
  unfold f64_is_finite in Hf.
  destruct (Prim2SF (f64_of_Z z)) as [| | |]; try done; lia.
Qed.

(** ** From the device to a cache *)

(** A reading that is published fits its
    measurement's schema, and a gateway that hears the sample caches the
    reading under its topic alone: a finite number as itself, a boolean as 1
    or 0, an enum as the label its code or text maps to (which no computation
    takes for a number).  A NaN or an infinity is never cached, and a text
    reading is only ever published as a label. *)
Theorem cached_reading_is_the_reading payload value_map raw ts doc cache topic now :
  outgoing payload value_map raw ts = Ok doc →
  let cache' := cache_sample cache topic (Some doc) now in
  (∀ p, payload = Some p → validator p doc = true) ∧
  (∀ t, t ≠ topic → cache' !! t = cache !! t) ∧
  match kind <$> payload, raw with
  | (None | Some KNumber), Number n =>
      if f_finite n then reading_at cache' topic = Some (n, now) else cache' = cache
  | Some KBoolean, Number n =>
      reading_at cache' topic = Some (if f_eqb n (of_Z 0) then of_Z 0 else of_Z 1, now)
  | Some KLabel, raw =>
      ∃ m label, value_map = Some m ∧ m !! label_key raw = Some label ∧
        cache' !! topic = Some (VString label, now) ∧ reading cache' topic = None
  | _, Text _ => False
  end.
Proof.
  intros Ho cache'.
  assert (∀ v, doc = sample_doc ts v →
    cache' = if is_measurement v then <[topic := (v, now)]> cache else cache) as Hc
    by (by intros v ->).
  destruct payload as [p|]; cbn [outgoing fmap option_fmap option_map] in *.
  2: { destruct raw as [n|text]; [|done]. injection Ho as <-. rewrite (Hc _ eq_refl).
       unfold json_f64, reading_at. split; [done|].
       destruct (f_finite n); cbn [is_measurement]; [|done].
       split; [intros t Ht; by rewrite cache_insert_ne|]. by rewrite cache_insert_eq. }
  unfold sample, result_bind in Ho.
  destruct (shaped (kind p) raw value_map) as [v|e] eqn:Hs; [|done].
  destruct (validator p (sample_doc ts v)) eqn:Hv; [|done]. injection Ho as <-.
  rewrite (Hc v eq_refl). unfold reading_at, reading.
  split; [by intros p' [= <-]|].
  split; [intros t Ht; destruct (is_measurement v); by rewrite ?cache_insert_ne|].
  destruct (kind p), raw as [n|text]; cbn [shaped result_bind] in Hs; try done.
  - injection Hs as <-. unfold json_f64. destruct (f_finite n); cbn [is_measurement]; [|done].
    by rewrite cache_insert_eq.
  - injection Hs as <-. cbn [is_measurement]. rewrite cache_insert_eq. change (f64_of_Z 0) with (of_Z 0).
    change (PrimFloat.eqb n (of_Z 0)) with (f_eqb n (of_Z 0)). by destruct (f_eqb n (of_Z 0)).
  - destruct value_map as [m|]; [|done]. cbn [mbind option_bind] in Hs.
    destruct (m !! label_key (Number n)) as [l|] eqn:Hl; [|done]. injection Hs as <-.
    exists m, l. split; [done|]. split; [done|]. simpl. rewrite cache_insert_eq. done.
  - destruct value_map as [m|]; [|done]. cbn [mbind option_bind] in Hs.
    destruct (m !! label_key (Text text)) as [l|] eqn:Hl; [|done]. injection Hs as <-.
    exists m, l. split; [done|]. split; [done|]. simpl. rewrite cache_insert_eq. done.
Qed.

(** An operating state read as a register code, and its labels. *)
Definition demo_states : gmap string string :=
  {["2"%string := "RUNNING"%string; "7"%string := "FAULT"%string]}.

Definition demo_payload : Payload :=
  mkPayload KLabel (λ doc, match sample_value doc with
                           | Some (VString s) => bool_decide (s = "RUNNING" ∨ s = "FAULT")%string
                           | _ => false
                           end).

Lemma cached_reading_is_the_reading_witness :
  outgoing (Some demo_payload) (Some demo_states) (Number (of_Z 7)) "now" =
    Ok (sample_doc "now" (VString "FAULT")) ∧
  validator demo_payload (sample_doc "now" (VString "FAULT")) = true ∧
  ∃ m label, Some demo_states = Some m ∧ m !! label_key (Number (of_Z 7)) = Some label ∧
    cache_sample ∅ "s" (Some (sample_doc "now" (VString "FAULT"))) 5 !! "s"%string =
      Some (VString label, 5) ∧
    reading (cache_sample ∅ "s" (Some (sample_doc "now" (VString "FAULT"))) 5) "s" = None.
Proof.
  assert (outgoing (Some demo_payload) (Some demo_states) (Number (of_Z 7)) "now" =
    Ok (sample_doc "now" (VString "FAULT"))) as Ho by (by vm_compute).
  split; [done|].
  destruct (cached_reading_is_the_reading (Some demo_payload) (Some demo_states) (Number (of_Z 7))
    "now" _ ∅ "s" 5 Ho) as (Hv & _ & Hl).
  split; [by apply Hv|exact Hl].
Defined.
