(* ===== verification/Bindings.v ===== *)
(** * Bindings: [src/asyncapi/types/bindings.rs], [virtual_bindings.rs],
    [mod.rs] and [src/asyncapi/trust.rs]

    The typed spec entries: one record per protocol binding and the tagged
    union over them.  Ports, addresses and ids are integers of the width the
    source declares; connection strings are strings. *)

From Stdlib Require Import ZArith Lia Floats.
From S2P Require Import Prelude F64 Binary64 Codec Cache.

(** ** Trust *)

Inductive Snmpv3AuthProtocol := Sha256 | Sha384 | Sha512.
Inductive Snmpv3PrivProtocol := Aes128 | Aes192 | Aes256.

Inductive DeviceTrust :=
| TlsMutual (subject_name : string)
| Snmpv3Usm (security_name : string) (auth_protocol : Snmpv3AuthProtocol)
    (priv_protocol : Snmpv3PrivProtocol).

(** The gateway's own mTLS material ([config::GatewayCredentials]): the paths of
    its certificate, key and CA bundle. *)
Record GatewayCredentials := mkCredentials {
  cert_path : string;
  key_path : string;
  ca_bundle_path : string;
}.

(** ** Device bindings *)

Record ModbusTcpBinding := mkModbus {
  mb_host : string;
  mb_port : Z;
  mb_unit_id : string;
  mb_address : Z;
  mb_scale : f64;
  mb_offset : f64;
  mb_data_type : ModbusDataType;
  mb_word_order : WordOrder;
  mb_function_code : option Z;
  mb_scale_factor_address : option Z;
}.

Record SnmpBinding := mkSnmp {
  snmp_host : string;
  snmp_port : Z;
  snmp_oid : string;
  snmp_scale : f64;
}.

Record RedfishBinding := mkRedfish {
  rf_host : string;
  rf_port : Z;
  rf_uri : string;
  rf_json_pointer : option string;
  rf_scale : f64;
}.

Record BacnetIpBinding := mkBacnetIp {
  bip_host : string;
  bip_port : Z;
  bip_device_instance : Z;
  bip_object_type : string;
  bip_object_instance : Z;
  bip_property_id : string;
}.

Record BacnetScBinding := mkBacnetSc {
  bsc_hub_url : string;
  bsc_device_vmac : string;
  bsc_object_type : string;
  bsc_object_instance : Z;
  bsc_property_id : string;
}.

Record Dnp3TcpBinding := mkDnp3 {
  dnp3_host : string;
  dnp3_port : Z;
  dnp3_point_index : Z;
  dnp3_point_type : string;
  dnp3_variation : option Z;
  dnp3_scale : f64;
  dnp3_outstation_address : Z;
}.

(** Defaults of absent fields. *)
Definition default_outstation_address : Z := 1024.
Definition unit_scale : f64 := of_Z 1.

Record SunspecBinding := mkSunspec {
  ss_host : string;
  ss_port : Z;
  ss_unit_id : string;
  ss_model_id : Z;
  ss_point : string;
  ss_bit : option Z;
}.

(** ** Virtual bindings *)

Record WeightedPair := mkPair {
  wp_topic : string;
  wp_weight : f64;
}.

Record SyntheticBinding := mkSynthetic {
  syn_operation : string;
  syn_inputs : list string;
  syn_pairs : list WeightedPair;
}.

Record ChildAllocation := mkChildAllocation {
  ca_device_id : string;
  ca_operating_state_topic : string;
  ca_state_of_charge_topic : string;
  ca_power_min : f64;
  ca_power_max : f64;
}.

Record DistributeBinding := mkDistribute {
  db_allocation_policy : string;
  db_children : list ChildAllocation;
  db_state_of_charge_floor_percent : option f64;
  db_ramp_rate_per_sec : option f64;
  db_hysteresis_margin : option f64;
  db_hysteresis_dwell_secs : option f64;
  db_power_min : option f64;
  db_power_max : option f64;
  db_import_limit_topic : option string;
  db_export_limit_topic : option string;
  db_active_power_topic : option string;
  db_poi_active_power_topic : option string;
  db_operator_reserve_topic : option string;
  db_site_capacity_wh : option f64;
  db_readiness_soc_percent : option f64;
  db_recharge_power_w : option f64;
}.

Record CapChild := mkCapChild {
  cc_device_id : string;
  cc_target : string;
  cc_min_w : f64;
  cc_max_w : f64;
}.

Record PowerCapBinding := mkPowerCap {
  pc_children : list CapChild;
  pc_import_limit_topic : option string;
  pc_export_limit_topic : option string;
  pc_poi_active_power_topic : option string;
  pc_hysteresis_margin : option f64;
  pc_hysteresis_dwell_secs : option f64;
  pc_ramp_rate_per_sec : option f64;
}.

(** ** The union *)

Inductive ProtocolBinding :=
| ModbusTcp (b : ModbusTcpBinding)
| Snmp (b : SnmpBinding)
| Redfish (b : RedfishBinding)
| Dnp3Tcp (b : Dnp3TcpBinding)
| BacnetIp (b : BacnetIpBinding)
| BacnetSc (b : BacnetScBinding)
| Sunspec (b : SunspecBinding)
| Synthetic (b : SyntheticBinding)
| Distribute (b : DistributeBinding)
| PowerCap (b : PowerCapBinding).

(** [dispatch::protocol_name]. *)
Definition protocol_name (b : ProtocolBinding) : string :=
  match b with
  | ModbusTcp _ => "modbus_tcp"
  | Snmp _ => "snmp"
  | Redfish _ => "redfish"
  | Dnp3Tcp _ => "dnp3_tcp"
  | BacnetIp _ => "bacnet_ip"
  | BacnetSc _ => "bacnet_sc"
  | Sunspec _ => "sunspec"
  | Synthetic _ => "synthetic"
  | Distribute _ => "distribute"
  | PowerCap _ => "power_cap"
  end.

(** ** Spec entries *)

Record ProtocolSource := mkProtocolSource {
  src_unit : string;
  src_poll_rate_hz : option f64;
  src_payload : option Value;
  src_value_map : option (gmap string string);
  src_binding : ProtocolBinding;
}.

Record CommandSource := mkCommandSource {
  cmd_verb : string;
  cmd_target : string;
  cmd_unit : string;
  cmd_binding : ProtocolBinding;
}.

Record HeartbeatSource := mkHeartbeatSource {
  hb_counter_modulo : Z;
  hb_period_s : f64;
  hb_binding : ProtocolBinding;
}.

Record AsyncApiSpec := mkSpec {
  spec_version : string;
  x_protocol_source : gmap string (gmap string ProtocolSource);
  x_command_source : gmap string (gmap string CommandSource);
  x_heartbeat_source : gmap string HeartbeatSource;
  x_device_trust : gmap string DeviceTrust;
  components_schemas : gmap string Value;
}.
