(* ===== verification/Config.v ===== *)
(** * Configuration: [src/config.rs], [src/bootstrap.rs] and the choice
    between them in [src/main.rs]

    A YAML document is a tree; its mappings keep their keys in order and hold
    each key once.  Reading a file, parsing YAML and the cloud calls are
    parameters. *)

From S2P Require Import Prelude Bindings.
Local Open Scope string_scope.
Local Open Scope gateway_scope.

(** ** YAML *)

Inductive Yaml :=
| YNull
| YString (s : string)
| YPlain (text : string)               (* a number or a boolean, as written *)
| YSequence (l : list Yaml)
| YMapping (entries : list (string * Yaml)).

Definition Mapping : Type := list (string * Yaml).

(** [Mapping::get]. *)
Fixpoint yget (key : string) (m : Mapping) : option Yaml :=
  match m with
  | [] => None
  | (k, v) :: m => if bool_decide (k = key) then Some v else yget key m
  end.

(** [Mapping::insert]: in place when the key is there, else at the end. *)
Fixpoint yset (key : string) (val : Yaml) (m : Mapping) : Mapping :=
  match m with
  | [] => [(key, val)]
  | (k, v) :: m => if bool_decide (k = key) then (k, val) :: m else (k, v) :: yset key val m
  end.

(** [deep_merge(base, over)], [over] being a mapping. *)
Fixpoint deep_merge (base : Mapping) (over : Yaml) {struct over} : Mapping :=
  match over with
  | YMapping entries =>
      (fix merge_all (base : Mapping) (entries : Mapping) : Mapping :=
         match entries with
         | [] => base
         | (key, val) :: entries =>
             merge_all
               (match yget key base, val with
                | Some (YMapping b), YMapping _ => yset key (YMapping (deep_merge b val)) base
                | _, v => yset key v base
                end) entries
         end) base entries
  | _ => base
  end.

Definition merge_into_stage (all : Yaml) (env_name : string) (customer : Yaml) : Yaml :=
  match all with
  | YMapping top =>
      match yget env_name top, customer with
      | Some (YMapping stage), YMapping _ =>
          YMapping (yset env_name (YMapping (deep_merge stage customer)) top)
      | _, _ => all
      end
  | _ => all
  end.

(** ** [Config] *)

Record Config := mkConfig {
  device_api_url : string;
  broker_url : string;
  mqtt_username : string;
  site_id : string;
  log_level : string;
  gateway_credentials : option GatewayCredentials;
}.

Inductive config_error :=
| FileUnreadable (path : string)
| BadYaml (path : string)
| MissingBlock (env_name : string)
| MissingField (name : string)
| WrongType (name : string)
| MissingOutput (key : string)
| StackFailed (what : string)
| NoPassword.

(** Serde's derived decoders: a struct is read from a mapping by name or from a
    sequence by position. *)
Definition as_text (name : string) (v : option Yaml) : result config_error string :=
  match v with
  | Some (YString s) => Ok s
  | Some _ => Err (WrongType name)
  | None => Err (MissingField name)
  end.

Definition struct_field (block : Yaml) (i : nat) (name : string) : option Yaml :=
  match block with YMapping m => yget name m | YSequence l => l !! i | _ => None end.

Definition is_struct (fields : nat) (block : Yaml) : bool :=
  match block with
  | YMapping _ => true
  | YSequence l => bool_decide (List.length l ≤ fields)%nat
  | _ => false
  end.

Definition credentials_from_value (v : Yaml) : result config_error GatewayCredentials :=
  let text i name := as_text name (struct_field v i name) in
  if negb (is_struct 3 v) then Err (WrongType "gateway_credentials") else
  ca <-? text 0 "ca_bundle_path"; cert <-? text 1 "cert_path"; key <-? text 2 "key_path";
  Ok (mkCredentials cert key ca).

Definition config_from_value (block : Yaml) : result config_error Config :=
  let text i name := as_text name (struct_field block i name) in
  if negb (is_struct 6 block) then Err (WrongType "Config") else
  api <-? text 0 "device_api_url"; broker <-? text 1 "broker_url";
  user <-? text 2 "mqtt_username"; site <-? text 3 "site_id"; level <-? text 4 "log_level";
  creds <-? match struct_field block 5 "gateway_credentials" with
            | None | Some YNull => Ok None
            | Some v => c <-? credentials_from_value v; Ok (Some c)
            end;
  Ok (mkConfig api broker user site level creds).

Section Load.
(** [fs::read_to_string], [Path::exists], [serde_yaml::from_str]. *)
Context (read_to_string : string → option string) (path_exists : string → bool)
  (from_str : string → option Yaml).

Definition read_yaml (path : string) : result config_error Yaml :=
  raw <-? ok_or (read_to_string path) (FileUnreadable path); ok_or (from_str raw) (BadYaml path).

Definition load_config_from (defaults_path : string) (customer_path : option string)
    (env_name : string) : result config_error Config :=
  all <-? read_yaml defaults_path;
  all <-? match customer_path with
          | Some path =>
              if path_exists path then
                customer <-? read_yaml path; Ok (merge_into_stage all env_name customer)
              else Ok all
          | None => Ok all
          end;
  block <-? ok_or (match all with YMapping top => yget env_name top | _ => None end)
              (MissingBlock env_name);
  config_from_value block.

(** The process environment. *)
Context (env : string → option string).

Definition load_config : result config_error Config :=
  load_config_from "cfg.defaults.yml" (env "CFG_CUSTOMER_PATH") (default "local" (env "ENV")).

(** ** [bootstrap.rs] *)

Definition config_from_outputs (outputs : gmap string string) (base : Config)
    : result config_error Config :=
  let get key := ok_or (outputs !! key) (MissingOutput key) in
  api <-? get "DeviceApiUrl"; broker <-? get "BrokerWsUrl"; site <-? get "SiteId";
  Ok (mkConfig api broker (mqtt_username base) site (log_level base) (gateway_credentials base)).

(** The outputs of the stacks of a name, each a key and a value that may be
    absent; a secret's string. *)
Context (describe_stacks : string → result string (list (list (option string * option string))))
  (get_secret_value : string → result string (option string)).

Definition first_stack (stack_name : string)
    : result config_error (list (option string * option string)) :=
  match describe_stacks stack_name with
  | Err e => Err (StackFailed e)
  | Ok stacks => ok_or (head stacks) (StackFailed "not found")
  end.

Definition output_map (outputs : list (option string * option string)) : gmap string string :=
  map_extend ∅ (omap (λ o : option string * option string, k ← o.1; v ← o.2; Some (k, v)) outputs).

Definition config_from_stack : result config_error (option Config) :=
  match env "ARCNODE_STACK_NAME" with
  | None => Ok None
  | Some stack_name =>
      outputs <-? first_stack stack_name;
      base <-? load_config_from "cfg.defaults.yml" None "beta";
      cfg <-? config_from_outputs (output_map outputs) base;
      Ok (Some cfg)
  end.

Definition fetch_gateway_password : result config_error string :=
  stack_name <-? ok_or (env "ARCNODE_STACK_NAME") NoPassword;
  outputs <-? match describe_stacks stack_name with
              | Err e => Err (StackFailed e)
              | Ok stacks => ok_or (head stacks) (MissingOutput "GatewaySecretName")
              end;
  o <-? ok_or (find_first (λ o, bool_decide (o.1 = Some "GatewaySecretName")) outputs)
          (MissingOutput "GatewaySecretName");
  secret_name <-? ok_or o.2 (MissingOutput "GatewaySecretName");
  match get_secret_value secret_name with
  | Err e => Err (StackFailed e)
  | Ok secret => ok_or secret NoPassword
  end.

(** [main]'s configuration and [app::run]'s password. *)
Definition boot_config : result config_error Config :=
  cfg <-? config_from_stack;
  match cfg with Some cfg => Ok cfg | None => load_config end.

Definition mqtt_password : result config_error string :=
  match env "MQTT_GATEWAY_PASSWORD" with Some pw => Ok pw | None => fetch_gateway_password end.
End Load.

(** ** Merging, key by key *)

Lemma yget_yset key val m k :
  yget k (yset key val m) = if bool_decide (key = k) then Some val else yget k m.
Proof.
  induction m as [|[k' v'] m IH]; cbn [yset yget]; [done|].
  repeat (case_bool_decide; cbn [yget]; rewrite ?IH); simplify_eq; done.
Qed.

(** What a key of the merge holds. *)
Definition merged (b o : option Yaml) : option Yaml :=
  match b, o with
  | b, None => b
  | Some (YMapping b), Some (YMapping o) => Some (YMapping (deep_merge b (YMapping o)))
  | _, Some o => Some o
  end.

Lemma deep_merge_cons base key val entries :
  deep_merge base (YMapping ((key, val) :: entries)) =
  deep_merge (yset key (default val (merged (yget key base) (Some val))) base) (YMapping entries).
Proof. cbn [deep_merge merged]. by destruct (yget key base) as [[| | | |b]|], val. Qed.

Lemma yget_notin key m : key ∉ m.*1 → yget key m = None.
Proof.
  induction m as [|[k v] m IH]; simpl; [done|]. intros [Hk Hm]%not_elem_of_cons.
  rewrite bool_decide_false by done. by apply IH.
Qed.

Lemma yget_deep_merge base entries k :
  NoDup entries.*1 →
  yget k (deep_merge base (YMapping entries)) = merged (yget k base) (yget k entries).
Proof.
  revert base. induction entries as [|[key val] entries IH]; intros base Hnd.
  { simpl. by destruct (yget k base) as [[]|]. }
  apply NoDup_cons in Hnd as [Hkey Hnd]. rewrite deep_merge_cons, IH, yget_yset by done.
  cbn [yget]. case_bool_decide as Hk; [|done]. subst k. rewrite (yget_notin key entries) by done.
  by destruct (yget key base) as [[]|], val.
Qed.

(** Every mapping of a document holds each key once. *)
Inductive keys_once : Yaml → Prop :=
| once_leaf v : (∀ m, v ≠ YMapping m) → keys_once v
| once_mapping m : NoDup m.*1 → (∀ k v, yget k m = Some v → keys_once v) → keys_once (YMapping m).

Lemma keys_once_mapping m :
  keys_once (YMapping m) → NoDup m.*1 ∧ ∀ k v, yget k m = Some v → keys_once v.
Proof. intros H. inversion H as [v Hv|m' Hnd Hk]; subst; [by destruct (Hv m)|done]. Qed.

(** The value at a path of keys. *)
Fixpoint path_get (v : Yaml) (p : list string) : option Yaml :=
  match p with
  | [] => Some v
  | k :: p => match v with YMapping m => v ← yget k m; path_get v p | _ => None end
  end.

(** [v] says nothing about the path: some key on the way is absent, through
    mappings only. *)
Fixpoint silent (v : Yaml) (p : list string) : bool :=
  match p, v with
  | k :: p, YMapping m => match yget k m with None => true | Some v => silent v p end
  | _, _ => false
  end.

Lemma silent_absent v p : silent v p = true → path_get v p = None.
Proof.
  revert v. induction p as [|k p IH]; intros v; [done|]. destruct v as [| | | |m]; try done.
  cbn [silent path_get]. destruct (yget k m) as [v|]; [apply IH|done].
Qed.

(** Merging a customer's file over a stage overrides by path: a
    leaf of the customer's document is what the merge holds there, and a path
    the customer's document says nothing about keeps the default's value,
    however deep. *)
Theorem merge_by_path base over p :
  keys_once (YMapping over) →
  let result := YMapping (deep_merge base (YMapping over)) in
  (∀ v, path_get (YMapping over) p = Some v → (∀ m, v ≠ YMapping m) → path_get result p = Some v) ∧
  (silent (YMapping over) p = true → path_get result p = path_get (YMapping base) p).
Proof.
  cbv zeta. revert base over. induction p as [|k p IH]; intros base over Ho.
  { split; [|done]. intros v [= <-] Hv. by destruct (Hv over). }
  apply keys_once_mapping in Ho as [Hnd Hk]. cbn [path_get silent]. rewrite yget_deep_merge by done.
  specialize (Hk k). destruct (yget k over) as [o|]; [|by destruct (yget k base) as [[]|]].
  specialize (Hk o eq_refl). cbn [mbind option_bind].
  assert ((∃ b m, yget k base = Some (YMapping b) ∧ o = YMapping m) ∨
    merged (yget k base) (Some o) = Some o ∧
    ∀ b m, o = YMapping m → yget k base ≠ Some (YMapping b)) as [(b & m & -> & ->)|[-> Hno]].
  { destruct (yget k base) as [[| | | |b]|], o as [| | | |m]; try (right; split; [done|congruence]).
    left. by do 2 eexists. }
  { by apply IH. }
  cbn [mbind option_bind]. split; [done|]. intros Hs. rewrite silent_absent by done.
  destruct p as [|k' p]; [done|]. destruct o as [| | | |m]; try done.
  specialize (Hno). destruct (yget k base) as [[| | | |b]|]; try done. by destruct (Hno b m).
Qed.

Lemma merge_by_path_witness :
  let base := [("broker_url", YString "tcp://hivemq"); ("gateway_credentials",
    YMapping [("cert_path", YString "a.crt"); ("key_path", YString "a.key")])] in
  let over := [("gateway_credentials", YMapping [("cert_path", YString "b.crt")])] in
  let result := YMapping (deep_merge base (YMapping over)) in
  path_get result ["gateway_credentials"; "cert_path"] = Some (YString "b.crt") ∧
  path_get result ["gateway_credentials"; "key_path"] = Some (YString "a.key").
Proof.
  intros base over result.
  assert (keys_once (YMapping over)) as Ho.
  { constructor; [apply NoDup_singleton|]. intros k v. cbn [yget over].
    case_bool_decide; [|done]. intros [= <-]. constructor; [apply NoDup_singleton|].
    intros k' v'. cbn [yget]. case_bool_decide; [|done]. intros [= <-]. by constructor. }
  split.
  - apply (proj1 (merge_by_path base over ["gateway_credentials"; "cert_path"] Ho)); done.
  - apply (proj2 (merge_by_path base over ["gateway_credentials"; "key_path"] Ho)). done.
Defined.

(** Only the stage of this environment changes. *)
Lemma merge_into_stage_other all env_name customer k :
  k ≠ env_name →
  match all, merge_into_stage all env_name customer with
  | YMapping top, YMapping top' => yget k top' = yget k top
  | all, all' => all' = all
  end.
Proof.
  intros Hk. destruct all as [| | | |top]; try done. cbn [merge_into_stage].
  destruct (yget env_name top) as [[]|], customer; try done.
  rewrite yget_yset. by rewrite bool_decide_false by congruence.
Qed.

(** ** The loaded configuration *)

Definition text_fields : list (string * (Config → string)) :=
  [("device_api_url", device_api_url); ("broker_url", broker_url); ("mqtt_username", mqtt_username);
   ("site_id", site_id); ("log_level", log_level)].

Definition credential_fields : list (string * (GatewayCredentials → string)) :=
  [("ca_bundle_path", ca_bundle_path); ("cert_path", cert_path); ("key_path", key_path)].

Lemma as_text_Ok name v s : as_text name v = Ok s ↔ v = Some (YString s).
Proof. destruct v as [[]|]; simpl; split; congruence. Qed.

(** A decoded configuration holds each field of its block. *)
Lemma config_from_mapping m cfg :
  config_from_value (YMapping m) = Ok cfg →
  (∀ k f, (k, f) ∈ text_fields → yget k m = Some (YString (f cfg))) ∧
  match gateway_credentials cfg with
  | None => yget "gateway_credentials" m = None ∨ yget "gateway_credentials" m = Some YNull
  | Some c => ∃ v, yget "gateway_credentials" m = Some v ∧ credentials_from_value v = Ok c
  end.
Proof.
  unfold config_from_value. cbn [is_struct negb struct_field].
  intros (api & Ha%as_text_Ok & Hr)%result_bind_Ok.
  apply result_bind_Ok in Hr as (broker & Hb%as_text_Ok & Hr).
  apply result_bind_Ok in Hr as (user & Hu%as_text_Ok & Hr).
  apply result_bind_Ok in Hr as (site & Hs%as_text_Ok & Hr).
  apply result_bind_Ok in Hr as (level & Hl%as_text_Ok & Hr).
  apply result_bind_Ok in Hr as (creds & Hc & [= <-]). split.
  - intros k f Hin. unfold text_fields in Hin. rewrite !elem_of_cons in Hin.
    destruct Hin as [[= -> ->]|[[= -> ->]|[[= -> ->]|[[= -> ->]|[[= -> ->]|Hin]]]]]; try done.
    by apply not_elem_of_nil in Hin.
  - simpl. destruct (yget "gateway_credentials" m) as [v|].
    2: { injection Hc as <-. by left. }
    destruct v as [|s|t|l|e]; [injection Hc as <-; by right|..];
      apply result_bind_Ok in Hc as (c & Hc & Hcc); injection Hcc as <-;
      (eexists; split; [reflexivity|exact Hc]).
Qed.

Lemma credentials_from_mapping m c k f :
  credentials_from_value (YMapping m) = Ok c → (k, f) ∈ credential_fields →
  yget k m = Some (YString (f c)).
Proof.
  unfold credentials_from_value. cbn [is_struct negb struct_field].
  intros (ca & Ha%as_text_Ok & Hr)%result_bind_Ok Hin.
  apply result_bind_Ok in Hr as (cert & Hc%as_text_Ok & Hr).
  apply result_bind_Ok in Hr as (key & Hk%as_text_Ok & [= <-]).
  unfold credential_fields in Hin. rewrite !elem_of_cons in Hin.
  destruct Hin as [[= -> ->]|[[= -> ->]|[[= -> ->]|Hin]]]; try done. by apply not_elem_of_nil in Hin.
Qed.

(** The customer's value of a key, else the default's. *)
Definition chosen (stage over : Mapping) (k : string) : option Yaml :=
  match yget k over with Some v => Some v | None => yget k stage end.

Lemma merged_text b o s :
  merged b o = Some (YString s) → match o with Some v => Some v | None => b end = Some (YString s).
Proof. destruct b as [[]|], o as [[]|]; simpl; congruence. Qed.

Section Loaded.
Context (read_to_string : string → option string) (path_exists : string → bool)
  (from_str : string → option Yaml).

(** C37: loading with a customer file takes each
    field from the customer's file if it is there and from the stage's defaults
    otherwise; of the mTLS paths too each is chosen on its own, so a customer
    who moves only the key keeps the default certificate. *)
Theorem customer_overrides_field_by_field defaults path env_name top stage over cfg :
  read_yaml read_to_string from_str defaults = Ok (YMapping top) →
  yget env_name top = Some (YMapping stage) → path_exists path = true →
  read_yaml read_to_string from_str path = Ok (YMapping over) → keys_once (YMapping over) →
  load_config_from read_to_string path_exists from_str defaults (Some path) env_name = Ok cfg →
  (∀ k f, (k, f) ∈ text_fields → chosen stage over k = Some (YString (f cfg))) ∧
  (∀ b o c, yget "gateway_credentials" stage = Some (YMapping b) →
    yget "gateway_credentials" over = Some (YMapping o) → gateway_credentials cfg = Some c →
    ∀ k f, (k, f) ∈ credential_fields → chosen b o k = Some (YString (f c))).
Proof.
  intros Hd Hst Hp Hc [Hnd Hsub]%keys_once_mapping Hl. unfold load_config_from in Hl.
  rewrite Hd in Hl. cbn [result_bind] in Hl. rewrite Hp, Hc in Hl.
  cbn [result_bind merge_into_stage] in Hl. rewrite Hst in Hl. cbn [result_bind] in Hl.
  rewrite yget_yset, bool_decide_true in Hl by done. cbn [ok_or result_bind] in Hl.
  apply config_from_mapping in Hl as [Htext Hcreds]. split.
  - intros k f Hin. specialize (Htext k f Hin). rewrite yget_deep_merge in Htext by done.
    by apply merged_text.
  - intros b o c Hb Ho Hcfg k f Hin. rewrite Hcfg in Hcreds. destruct Hcreds as (v & Hv & Hval).
    rewrite yget_deep_merge, Hb, Ho in Hv by done.
    assert (v = YMapping (deep_merge b (YMapping o))) as -> by (unfold merged in Hv; congruence).
    apply Hsub, keys_once_mapping in Ho as [Hndo _].
    pose proof (credentials_from_mapping _ _ _ _ Hval Hin) as Hk.
    rewrite yget_deep_merge in Hk by done. by apply merged_text.
Qed.
End Loaded.

(** The defaults of [beta], and a customer who names the site and a key. *)
Definition demo_stage : Mapping :=
  [("device_api_url", YString "http://device-api:3000"); ("broker_url", YString "tcp://hivemq:1883");
   ("mqtt_username", YString "arcnode_gateway"); ("site_id", YString "beta_site");
   ("log_level", YString "info");
   ("gateway_credentials", YMapping [("ca_bundle_path", YString "ca.crt");
     ("cert_path", YString "gw.crt"); ("key_path", YString "gw.key")])].

Definition demo_over : Mapping :=
  [("site_id", YString "nevada"); ("gateway_credentials", YMapping [("key_path", YString "new.key")])].

(** The text of a demo file is its name. *)
Definition demo_from_str (raw : string) : option Yaml :=
  if bool_decide (raw = "defaults") then Some (YMapping [("beta", YMapping demo_stage)])
  else if bool_decide (raw = "customer") then Some (YMapping demo_over) else None.

Definition demo_config : Config :=
  mkConfig "http://device-api:3000" "tcp://hivemq:1883" "arcnode_gateway" "nevada" "info"
    (Some (mkCredentials "gw.crt" "new.key" "ca.crt")).

Lemma customer_overrides_field_by_field_witness :
  load_config_from Some (λ _, true) demo_from_str "defaults" (Some "customer") "beta" = Ok demo_config ∧
  (∀ k f, (k, f) ∈ text_fields → chosen demo_stage demo_over k = Some (YString (f demo_config))) ∧
  (∀ b o c, yget "gateway_credentials" demo_stage = Some (YMapping b) →
    yget "gateway_credentials" demo_over = Some (YMapping o) →
    gateway_credentials demo_config = Some c →
    ∀ k f, (k, f) ∈ credential_fields → chosen b o k = Some (YString (f c))).
Proof.
  split; [by vm_compute|].
  apply (customer_overrides_field_by_field Some (λ _, true) demo_from_str "defaults" "customer" "beta"
    [("beta", YMapping demo_stage)]); try done.
  apply once_mapping.
  - simpl. apply NoDup_cons. split; [|apply NoDup_singleton].
    by intros Hin%list_elem_of_singleton.
  - intros k v. cbn [yget demo_over]. case_bool_decide; [intros [= <-]; by apply once_leaf|].
    case_bool_decide; [|done]. intros [= <-]. apply once_mapping; [apply NoDup_singleton|].
    intros k' v'. cbn [yget]. case_bool_decide; [|done]. intros [= <-]. by apply once_leaf.
Defined.
