(* ===== verification/Distribute.v ===== *)
(** * Distribution: [src/dispatch/distribute.rs], [reserve.rs],
    [rack_limits.rs] and [operating_state.rs]

    A module's setpoint resolved into one share per child from the cached
    readings.  [now] is the instant the readings' ages are measured at.  The
    log of racks falling back to their static limit is not modelled. *)

From Stdlib Require Import ZArith Lia Floats.
From S2P Require Import Prelude F64 Binary64 Rounding Text Allocation AllocationF64.
From S2P Require Import Cache Bindings.
Local Open Scope Z_scope.
Local Open Scope gateway_scope.

(** ** Errors of a dispatch *)

Inductive error :=
| UnknownPolicy (name : string)
| NoOperatingState (device_id : string)
| NoStateOfCharge (device_id : string)
| BadStateOfCharge (device_id : string)
| BadOperatingState (v : Value)
| UnknownStateLabel (label : string)
| UnknownStateCode (code : Z)
| NoBinding (device_id key : string)
| BadBinding (device_id key : string)
| NoRackCould (target : f64)
| Unsupported (protocol : string)
| UnknownVerb (verb : string)
| CapWritesFailed (failed : list (string * string))
| SouthError (reason : string)
| ChildWriteFailed (device_id : string) (cause : error).

(** ** [operating_state.rs] *)

Definition operating_state_from_f64 (raw : f64) : result error OperatingState :=
  let code := f64_as_i64 (f_round raw) in
  if code =? 0 then Ok Standby
  else if code =? 1 then Ok Charging
  else if code =? 2 then Ok Discharging
  else if code =? 3 then Ok Fault
  else if code =? 4 then Ok Offline
  else Err (UnknownStateCode code).

Definition parse_operating_state (v : Value) : result error OperatingState :=
  match as_str v with
  | Some label =>
      if bool_decide (label = "STANDBY"%string) then Ok Standby
      else if bool_decide (label = "CHARGING"%string) then Ok Charging
      else if bool_decide (label = "DISCHARGING"%string) then Ok Discharging
      else if bool_decide (label = "FAULT"%string) then Ok Fault
      else if bool_decide (label = "OFFLINE"%string) then Ok Offline
      else Err (UnknownStateLabel label)
  | None => x <-? ok_or (as_number v) (BadOperatingState v); operating_state_from_f64 x
  end.

(** ** [reserve.rs] *)

Definition operator_reserve_percent (binding : DistributeBinding) (site_id : string)
    (cache : InputCache) : option f64 :=
  capacity_wh ← db_site_capacity_wh binding;
  if f_ltb (of_Z 0) capacity_wh then
    topic ← db_operator_reserve_topic binding;
    reserve_wh ← reading cache (substitute_site_id topic site_id);
    f_clamp (f_mul (f_div reserve_wh capacity_wh) (of_Z 100)) (of_Z 0) (of_Z 100)
  else None.

Definition effective_floor_percent (binding : DistributeBinding) (site_id : string)
    (cache : InputCache) : option f64 :=
  let operator := operator_reserve_percent binding site_id cache in
  match db_state_of_charge_floor_percent binding, operator with
  | Some supplier, Some operator => Some (f_max supplier operator)
  | Some supplier, None => Some supplier
  | None, operator => operator
  end.

(** ** [rack_limits.rs] *)

Definition STALE_AFTER : Z := seconds 5.

Definition limit_topic (site_id device_id : string) (charging : bool) : string :=
  measurement_topic site_id device_id
    (if charging then "max_charge_power" else "max_discharge_power") "watts".

Definition live_limit (topic : string) (cache : InputCache) (now : Z) : option f64 :=
  e ← cache !! topic;
  if elapsed_since now e.2 <=? STALE_AFTER then as_number e.1 else None.

Definition rack_headroom (c : ChildAllocation) (target : f64) (site_id : string)
    (cache : InputCache) (now : Z) : f64 :=
  let charging := f_ltb target (of_Z 0) in
  let static_w := if charging then f_abs (ca_power_min c) else ca_power_max c in
  match live_limit (limit_topic site_id (ca_device_id c) charging) cache now with
  | None => static_w
  | Some limit => f_min static_w (f_max limit (of_Z 0))
  end.

(** [FALLING_BACK] is of no consequence but to the log: the topics that fall
    back, and the line a note writes. *)
Inductive SwitchLog := FallsBack (topic : string) | LiveAgain (topic : string).

Definition note_fallback (falling_back : gset string) (topic : string) (missing : bool)
    : gset string * option SwitchLog :=
  if missing then
    if bool_decide (topic ∈ falling_back) then (falling_back, None)
    else ({[topic]} ∪ falling_back, Some (FallsBack topic))
  else
    if bool_decide (topic ∈ falling_back) then (falling_back ∖ {[topic]}, Some (LiveAgain topic))
    else (falling_back, None).

(** The log of the headrooms computed in turn, each of a rack in a direction. *)
Fixpoint fallback_log (falling_back : gset string) (notes : list (string * option f64)) : list SwitchLog :=
  match notes with
  | [] => []
  | (topic, live) :: notes =>
      let '(falling_back, line) := note_fallback falling_back topic (bool_decide (live = None)) in
      option_list line ++ fallback_log falling_back notes
  end.

(** A topic's lines, which begin with the one that is due, and alternate. *)
Definition line_of (topic : string) (line : SwitchLog) : option bool :=
  match line with
  | FallsBack t => if bool_decide (t = topic) then Some true else None
  | LiveAgain t => if bool_decide (t = topic) then Some false else None
  end.

Fixpoint alternate (next : bool) (lines : list bool) : bool :=
  match lines with [] => true | l :: lines => eqb l next && alternate (negb next) lines end.

(** ** [distribute.rs] *)

Definition resolve_child (c : ChildAllocation) (target : f64) (site_id : string)
    (cache : InputCache) (now : Z) : result error (ChildCapacity f64) :=
  let operating_state_topic := substitute_site_id (ca_operating_state_topic c) site_id in
  let state_of_charge_topic := substitute_site_id (ca_state_of_charge_topic c) site_id in
  state_entry <-? ok_or (cache !! operating_state_topic) (NoOperatingState (ca_device_id c));
  soc_entry <-? ok_or (cache !! state_of_charge_topic) (NoStateOfCharge (ca_device_id c));
  state_of_charge <-? ok_or (as_number soc_entry.1) (BadStateOfCharge (ca_device_id c));
  let quiet := (STALE_AFTER <? elapsed_since now state_entry.2)
               || (STALE_AFTER <? elapsed_since now soc_entry.2) in
  operating_state <-? (if quiet then Ok Offline else parse_operating_state state_entry.1);
  Ok (mkChild (ca_device_id c) operating_state (rack_headroom c target site_id cache now)
        state_of_charge).

Definition apply_reserve_floor (floor : option f64) (child : ChildCapacity f64) (target : f64)
    : ChildCapacity f64 :=
  match floor with
  | Some floor =>
      if f_ltb (of_Z 0) target && f_leb (state_of_charge child) floor
      then mkChild (device_id child) (operating_state child) (of_Z 0) (state_of_charge child)
      else child
  | None => child
  end.

(** The 0 W pushed for every child the split left out. *)
Definition add_missing (shares : list (string * f64)) (children : list (ChildCapacity f64))
    : list (string * f64) :=
  foldl (λ shares c,
    if forallb (λ s, negb (bool_decide (s.1 = device_id c))) shares
    then shares ++ [(device_id c, of_Z 0)] else shares) shares children.

Definition child_capacities (binding : DistributeBinding) (target : f64) (site_id : string)
    (cache : InputCache) (locked : gset string) (now : Z)
    : result error (list (ChildCapacity f64)) :=
  let floor := effective_floor_percent binding site_id cache in
  collect_results (λ c,
      result_map (λ c, apply_reserve_floor floor c target)
        (resolve_child c target site_id cache now))
    (List.filter (λ c, negb (bool_decide (ca_device_id c ∈ locked))) (db_children binding)).

Definition parse_policy (name : string) : result error AllocationPolicy :=
  match policy_parse name with Ok p => Ok p | Err _ => Err (UnknownPolicy name) end.

Definition compute_shares (binding : DistributeBinding) (target : f64) (site_id : string)
    (cache : InputCache) (locked : gset string) (now : Z)
    : result error (list (string * f64)) :=
  policy <-? parse_policy (db_allocation_policy binding);
  children <-? child_capacities binding target site_id cache locked now;
  Ok (add_missing (allocate target children policy) children).

(** ** The log of the racks' live limits *)

Lemma note_fallback_set falling_back topic missing t :
  t ∈ (note_fallback falling_back topic missing).1 ↔ if decide (t = topic) then missing = true else t ∈ falling_back.
Proof. unfold note_fallback. destruct missing; case_bool_decide; destruct (decide (t = topic)); simpl; set_solver. Qed.

(** Only the switches are logged, a topic's in turn: however often its limit is
    read, a line that it falls back is followed by one that it is live again. *)
Lemma fallback_log_alternates topic notes : ∀ falling_back,
  alternate (negb (bool_decide (topic ∈ falling_back)))
    (omap (line_of topic) (fallback_log falling_back notes)) = true.
Proof.
  induction notes as [|[t live] notes IH]; intros falling_back; [done|]. cbn [fallback_log].
  pose proof (note_fallback_set falling_back t (bool_decide (live = None)) topic) as Hset.
  destruct (note_fallback _ _ _) as [set' line] eqn:Hn. cbn [fst] in Hset. rewrite omap_app.
  specialize (IH set'). unfold note_fallback in Hn.
  destruct (decide (topic = t)) as [<-|Hne].
  - assert (bool_decide (topic ∈ set') = bool_decide (live = None)) as Hs.
    { apply eq_iff_eq_true. by rewrite bool_decide_eq_true. }
    rewrite Hs in IH. destruct (bool_decide (live = None)), (bool_decide (topic ∈ falling_back));
      injection Hn as <- <-; cbn; rewrite ?bool_decide_eq_true_2 by done; exact IH.
  - assert (omap (line_of topic) (option_list line) = []) as ->.
    { destruct (bool_decide (live = None)); case_bool_decide; injection Hn as <- <-; cbn; try done;
        by rewrite bool_decide_eq_false_2 by congruence. }
    by rewrite <- (bool_decide_ext _ _ Hset).
Qed.

(** ** What the shares contain *)

Section Shares.
Implicit Types (shares : list (string * f64)) (children : list (ChildCapacity f64)).

Lemma add_missing_spec children : ∀ shares,
  ∃ extra, add_missing shares children = shares ++ extra ∧
    (∀ s, s ∈ extra → s.2 = of_Z 0 ∧ (s.1 ∉ shares.*1) ∧ s.1 ∈ device_id <$> children) ∧
    NoDup extra.*1 ∧
    (∀ c, c ∈ children → device_id c ∈ (shares ++ extra).*1).
Proof.
  induction children as [|c children IH]; intros shares.
  { exists []. rewrite app_nil_r. split_and!; [done| |constructor|];
      intros ? H; by apply not_elem_of_nil in H. }
  unfold add_missing. cbn [foldl].
  destruct (forallb _ shares) eqn:Hin.
  - destruct (IH (shares ++ [(device_id c, of_Z 0)])) as (extra & Heq & Hex & Hnd & Hall).
    assert (device_id c ∉ shares.*1) as Hc.
    { intros (s & Hs & Hs')%list_elem_of_fmap. rewrite forallb_forall in Hin.
      apply list_elem_of_In, Hin in Hs'. rewrite <- Hs in Hs'. by rewrite bool_decide_true in Hs'. }
    exists ((device_id c, of_Z 0) :: extra). rewrite <- app_assoc in Heq, Hall. split_and!.
    + exact Heq.
    + intros s [->|Hs]%elem_of_cons; [split_and!; [done|done|by left]|].
      destruct (Hex s Hs) as (? & Hn & Hd). split_and!; [done| |by right].
      intros Hs'. apply Hn. rewrite fmap_app. apply elem_of_app. by left.
    + rewrite fmap_cons. apply NoDup_cons. split; [|done].
      intros (s & Hs & Hs')%list_elem_of_fmap. destruct (Hex s Hs') as (_ & Hn & _).
      apply Hn. rewrite <- Hs, fmap_app. apply elem_of_app. right. by left.
    + intros d [->|Hd]%elem_of_cons; [|by apply Hall].
      rewrite fmap_app. apply elem_of_app. right. by left.
  - destruct (IH shares) as (extra & Heq & Hex & Hnd & Hall). exists extra. split_and!.
    + exact Heq.
    + intros s Hs. destruct (Hex s Hs) as (? & ? & ?). split_and!; [done|done|by right].
    + done.
    + intros d [->|Hd]%elem_of_cons; [|by apply Hall].
      assert (∃ s, s ∈ shares ∧ s.1 = device_id c) as (s & Hs & Hsc).
      { destruct (list_find (λ s : string * f64, s.1 = device_id c) shares) as [[i s]|] eqn:Hf.
        - apply list_find_Some in Hf as (Hl & Hp & _). exists s. split; [|done].
          by eapply list_elem_of_lookup_2.
        - apply list_find_None in Hf. exfalso. apply not_true_iff_false in Hin. apply Hin.
          apply forallb_forall. intros s Hs%list_elem_of_In. apply negb_true_iff.
          rewrite Forall_forall in Hf. by apply bool_decide_eq_false, Hf. }
      rewrite fmap_app. apply elem_of_app. left. rewrite <- Hsc. by apply list_elem_of_fmap_2.
Qed.

(** One entry per child when the children are distinct. *)
Lemma add_missing_perm shares children :
  NoDup (device_id <$> children) → NoDup shares.*1 →
  (∀ id, id ∈ shares.*1 → id ∈ device_id <$> children) →
  (add_missing shares children).*1 ≡ₚ device_id <$> children.
Proof.
  intros Hnd Hns Hsub. destruct (add_missing_spec children shares) as (extra & -> & Hex & Hne & Hall).
  apply NoDup_Permutation; [|done|].
  - rewrite fmap_app. apply NoDup_app. split_and!; [done| |done].
    intros id Hid (s & -> & Hs)%list_elem_of_fmap. by destruct (Hex s Hs) as (_ & ? & _).
  - intros id. rewrite fmap_app, elem_of_app. split.
    + intros [?|(s & -> & Hs)%list_elem_of_fmap]; [by apply Hsub|]. by destruct (Hex s Hs) as (_ & _ & ?).
    + intros (c & -> & Hc)%list_elem_of_fmap. specialize (Hall c Hc).
      rewrite fmap_app, elem_of_app in Hall. done.
Qed.
End Shares.

Section Resolved.
Context (binding : DistributeBinding) (target : f64) (site_id : string)
  (cache : InputCache) (locked : gset string) (now : Z).

Definition unlocked_children : list ChildAllocation :=
  List.filter (λ c, negb (bool_decide (ca_device_id c ∈ locked))) (db_children binding).

Lemma resolve_child_id c cap :
  resolve_child c target site_id cache now = Ok cap →
  device_id cap = ca_device_id c ∧ headroom cap = rack_headroom c target site_id cache now.
Proof.
  unfold resolve_child. rewrite !result_bind_Ok. intros (se & _ & H).
  rewrite !result_bind_Ok in H. destruct H as (so & _ & H).
  rewrite !result_bind_Ok in H. destruct H as (soc & _ & H).
  rewrite !result_bind_Ok in H. destruct H as (st & _ & [= <-]). done.
Qed.

Lemma apply_reserve_floor_id floor (cap : ChildCapacity f64) :
  device_id (apply_reserve_floor floor cap target) = device_id cap ∧
  operating_state (apply_reserve_floor floor cap target) = operating_state cap ∧
  state_of_charge (apply_reserve_floor floor cap target) = state_of_charge cap ∧
  (headroom (apply_reserve_floor floor cap target) = of_Z 0 ∨
   headroom (apply_reserve_floor floor cap target) = headroom cap).
Proof.
  unfold apply_reserve_floor. destruct floor as [f|]; [|by auto].
  destruct (_ && _); simpl; auto.
Qed.

(** The capacities are those of the unlocked children, in order. *)
Lemma child_capacities_Forall2 caps :
  child_capacities binding target site_id cache locked now = Ok caps →
  Forall2 (λ c cap, ∃ cap0, resolve_child c target site_id cache now = Ok cap0 ∧
      cap = apply_reserve_floor (effective_floor_percent binding site_id cache) cap0 target)
    unlocked_children caps.
Proof.
  unfold child_capacities. intros H%collect_results_Forall2.
  eapply Forall2_impl; [exact H|]. intros c cap. unfold result_map.
  destruct (resolve_child _ _ _ _ _) as [cap0|]; [|done]. intros [= <-]. by exists cap0.
Qed.

Lemma child_capacities_ids caps :
  child_capacities binding target site_id cache locked now = Ok caps →
  device_id <$> caps = ca_device_id <$> unlocked_children.
Proof.
  intros H%child_capacities_Forall2. induction H as [|c cap cs caps (cap0 & Hr & ->) _ IH]; [done|].
  rewrite !fmap_cons, IH. f_equal. destruct (apply_reserve_floor_id
    (effective_floor_percent binding site_id cache) cap0) as [-> _].
  by destruct (resolve_child_id _ _ Hr) as [-> _].
Qed.

Lemma compute_shares_Ok shares :
  compute_shares binding target site_id cache locked now = Ok shares →
  ∃ policy caps, parse_policy (db_allocation_policy binding) = Ok policy ∧
    child_capacities binding target site_id cache locked now = Ok caps ∧
    shares = add_missing (allocate target caps policy) caps.
Proof.
  unfold compute_shares. rewrite result_bind_Ok. intros (policy & Hp & H).
  rewrite result_bind_Ok in H. destruct H as (caps & Hc & [= <-]). by exists policy, caps.
Qed.

(** The capacity behind a child of a computed split. *)
Lemma child_capacity_of caps c :
  child_capacities binding target site_id cache locked now = Ok caps → c ∈ unlocked_children →
  ∃ cap0, resolve_child c target site_id cache now = Ok cap0 ∧
    apply_reserve_floor (effective_floor_percent binding site_id cache) cap0 target ∈ caps.
Proof.
  intros H%child_capacities_Forall2 Hc. apply list_elem_of_lookup in Hc as [i Hi].
  destruct (Forall2_lookup_l _ _ _ _ _ H Hi) as (cap & Hcap & cap0 & Hr & ->).
  exists cap0. split; [done|]. by eapply list_elem_of_lookup_2.
Qed.

(** A share in a computed split is an allocated one or the 0 W of a child the
    split left out. *)
Lemma shares_origin policy caps id share :
  NoDup (device_id <$> caps) →
  (id, share) ∈ add_missing (allocate target caps policy) caps →
  (id, share) ∈ allocate target caps policy ∨
  share = of_Z 0 ∧ id ∉ (allocate target caps policy).*1.
Proof.
  intros Hnd. destruct (add_missing_spec caps (allocate target caps policy))
    as (extra & -> & Hex & _ & _). intros [Hin|Hin]%elem_of_app; [by left|right].
  by destruct (Hex _ Hin) as (Hz & Hn & _).
Qed.
End Resolved.

Lemma compute_shares_perm binding target site_id cache locked now shares :
  NoDup (ca_device_id <$> db_children binding) →
  compute_shares binding target site_id cache locked now = Ok shares →
  shares.*1 ≡ₚ ca_device_id <$> List.filter (λ c, negb (bool_decide (ca_device_id c ∈ locked)))
                 (db_children binding) ∧
  ∀ id, id ∈ shares.*1 → id ∉ locked.
Proof.
  intros Hnd (policy & caps & _ & Hcaps & ->)%compute_shares_Ok.
  pose proof (child_capacities_ids _ _ _ _ _ _ _ Hcaps) as Hids.
  assert (NoDup (device_id <$> caps)) as Hndc by (rewrite Hids; by apply NoDup_fmap_filterb).
  assert ((add_missing (allocate target caps policy) caps).*1 ≡ₚ
    ca_device_id <$> unlocked_children binding locked) as Hperm.
  { rewrite <- Hids. apply add_missing_perm; [done| |].
    - rewrite (allocate_ids_gen f64_eps_neg). by apply NoDup_fmap_filterb.
    - intros id. rewrite (allocate_ids_gen f64_eps_neg).
      intros (c & -> & [Hc _]%elem_of_filterb)%list_elem_of_fmap. by apply list_elem_of_fmap_2. }
  split; [done|]. intros id. rewrite Hperm.
  intros (c & -> & [_ Hc]%elem_of_filterb)%list_elem_of_fmap.
  by apply negb_true_iff, bool_decide_eq_false in Hc.
Qed.

(** No locked child is in a split, even when two children share an id. *)
Lemma compute_shares_unlocked binding target site_id cache locked now shares id :
  compute_shares binding target site_id cache locked now = Ok shares →
  id ∈ shares.*1 → id ∉ locked.
Proof.
  intros (policy & caps & _ & Hcaps & ->)%compute_shares_Ok Hid.
  pose proof (child_capacities_ids _ _ _ _ _ _ _ Hcaps) as Hids.
  assert (id ∈ device_id <$> caps) as Hin.
  { destruct (add_missing_spec caps (allocate target caps policy)) as (extra & Heq & Hex & _ & _).
    rewrite Heq, fmap_app, elem_of_app in Hid. destruct Hid as [Hid|Hid].
    - rewrite (allocate_ids_gen f64_eps_neg) in Hid.
      apply list_elem_of_fmap in Hid as (c & -> & [Hc _]%elem_of_filterb).
      by apply list_elem_of_fmap_2.
    - apply list_elem_of_fmap in Hid as (s & -> & Hs). by destruct (Hex s Hs) as (_ & _ & ?). }
  rewrite Hids in Hin. apply list_elem_of_fmap in Hin as (c & -> & [_ Hc]%elem_of_filterb).
  by apply negb_true_iff, bool_decide_eq_false in Hc.
Qed.

(** It is never longer than the binding's list of children. *)
Lemma compute_shares_length binding target site_id cache locked now shares :
  compute_shares binding target site_id cache locked now = Ok shares →
  (length shares <= length (db_children binding))%nat.
Proof.
  intros (policy & caps & _ & Hcaps & ->)%compute_shares_Ok.
  pose proof (f_equal length (child_capacities_ids _ _ _ _ _ _ _ Hcaps)) as Hlen. rewrite !length_fmap in Hlen.
  pose proof (List.filter_length_le (λ c, negb (bool_decide (ca_device_id c ∈ locked))) (db_children binding)) as Hle.
  destruct (add_missing_spec caps (allocate target caps policy)) as (extra & -> & Hex & Hnd & _).
  pose proof (allocate_ids_gen f64_eps_neg target caps policy) as Hids.
  set (left_out := List.filter (λ c : ChildCapacity f64, negb (is_eligible (operating_state c))) caps).
  assert (extra.*1 ⊆+ device_id <$> left_out) as Hsub%submseteq_length.
  { apply NoDup_submseteq; [exact Hnd|]. intros id (s & -> & Hs)%list_elem_of_fmap.
    destruct (Hex s Hs) as (_ & Hn & (c & Hsc & Hc)%list_elem_of_fmap). rewrite Hsc in *.
    apply list_elem_of_fmap_2, elem_of_filterb.
    split; [done|]. apply negb_true_iff, not_true_iff_false. intros He. apply Hn. rewrite Hids.
    apply list_elem_of_fmap_2, elem_of_filterb. done. }
  pose proof (f_equal length Hids) as Hl0. rewrite !length_fmap in *. rewrite length_app.
  pose proof (List.filter_length (λ c : ChildCapacity f64, is_eligible (operating_state c)) caps) as Hsplit.
  unfold eligible_children, left_out, unlocked_children in *. lia.
Qed.

(** A computed split names every child that is
    not locked out exactly once, and no locked-out child at all. *)
Theorem compute_shares_one_per_child binding target site_id cache locked now shares :
  NoDup (ca_device_id <$> db_children binding) →
  compute_shares binding target site_id cache locked now = Ok shares →
  shares.*1 ≡ₚ ca_device_id <$> List.filter (λ c, negb (bool_decide (ca_device_id c ∈ locked)))
                 (db_children binding) ∧
  ∀ id, id ∈ shares.*1 → id ∉ locked.
Proof. apply compute_shares_perm. Qed.

(** ** Which children get nothing *)

(** A child whose state or state of charge is older than [STALE_AFTER], or
    that reports a fault or itself offline. *)
Definition unusable (c : ChildAllocation) (site_id : string) (cache : InputCache) (now : Z) : bool :=
  match cache !! substitute_site_id (ca_operating_state_topic c) site_id,
        cache !! substitute_site_id (ca_state_of_charge_topic c) site_id with
  | Some st, Some soc =>
      (STALE_AFTER <? elapsed_since now st.2) || (STALE_AFTER <? elapsed_since now soc.2)
      || match parse_operating_state st.1 with Ok s => negb (is_eligible s) | Err _ => false end
  | _, _ => false
  end.

Lemma resolve_child_unusable c target site_id cache now cap :
  resolve_child c target site_id cache now = Ok cap → unusable c site_id cache now = true →
  is_eligible (operating_state cap) = false.
Proof.
  unfold resolve_child, unusable. rewrite result_bind_Ok. intros (st & Hst%ok_or_Ok & H).
  rewrite result_bind_Ok in H. destruct H as (so & Hso%ok_or_Ok & H).
  rewrite result_bind_Ok in H. destruct H as (soc & _ & H).
  rewrite result_bind_Ok in H. destruct H as (os & Hos & [= <-]). rewrite Hst, Hso. simpl.
  destruct (_ || (STALE_AFTER <? elapsed_since now so.2)) eqn:Hq; [by injection Hos as <-|].
  rewrite Hos. simpl. by intros ->%negb_true_iff.
Qed.

Lemma rack_share_zero target (caps : list (ChildCapacity f64)) policy cap share :
  NoDup (device_id <$> caps) → cap ∈ caps → is_eligible (operating_state cap) = false →
  (device_id cap, share) ∈ add_missing (allocate target caps policy) caps →
  share = of_Z 0.
Proof.
  intros Hnd Hcap Hel [Hin|[? _]]%shares_origin; [|done|done]. exfalso.
  assert (device_id cap ∈ (allocate target caps policy).*1) as Hid
    by (by apply (list_elem_of_fmap_2 fst _ _ Hin)).
  rewrite (allocate_ids_gen f64_eps_neg) in Hid.
  apply list_elem_of_fmap in Hid as (d & Hd & [Hin' Hd']%elem_of_filterb).
  assert (d = cap) as ->; [|congruence].
  apply list_elem_of_lookup in Hin' as [i Hi], Hcap as [j Hj].
  assert (i = j) as ->; [|congruence].
  eapply NoDup_lookup; [exact Hnd|by rewrite list_lookup_fmap, Hi|].
  by rewrite list_lookup_fmap, Hj, <- Hd.
Qed.

(** A rack that has gone quiet for more than 5 s, or
    reports a fault or itself offline, is told exactly 0 W whatever the target
    is; it is not left at its last setpoint. *)
Theorem unusable_rack_gets_zero binding target site_id cache locked now shares c share :
  NoDup (ca_device_id <$> db_children binding) →
  compute_shares binding target site_id cache locked now = Ok shares →
  c ∈ db_children binding → unusable c site_id cache now = true →
  (ca_device_id c, share) ∈ shares → share = of_Z 0.
Proof.
  intros Hnd Hs Hc Hu Hin.
  pose proof (compute_shares_Ok _ _ _ _ _ _ _ Hs) as (policy & caps & _ & Hcaps & ->).
  pose proof (child_capacities_ids _ _ _ _ _ _ _ Hcaps) as Hids.
  assert (NoDup (device_id <$> caps)) as Hndc by (rewrite Hids; by apply NoDup_fmap_filterb).
  assert (ca_device_id c ∉ locked) as Hl.
  { apply (compute_shares_perm _ _ _ _ _ _ _ Hnd Hs).
    by apply (list_elem_of_fmap_2 fst _ _ Hin). }
  assert (c ∈ unlocked_children binding locked) as Hcu
    by (apply elem_of_filterb; split; [done|by rewrite bool_decide_false]).
  destruct (child_capacity_of _ _ _ _ _ _ _ _ Hcaps Hcu) as (cap0 & Hr & Hcap).
  pose proof (resolve_child_unusable _ _ _ _ _ _ Hr Hu) as Hel.
  destruct (resolve_child_id _ _ _ _ _ _ Hr) as [Hid _].
  destruct (apply_reserve_floor_id target (effective_floor_percent binding site_id cache) cap0)
    as (Hid' & Hst & _).
  eapply (rack_share_zero target caps policy); [done|exact Hcap|by rewrite Hst|by rewrite Hid', Hid].
Qed.

(** ** Bounds of a share *)

Lemma unsigned_share_lookup total (caps : list (ChildCapacity f64)) policy cap share :
  NoDup (device_id <$> caps) → cap ∈ caps →
  (device_id cap, share) ∈ allocate total caps policy →
  ∃ i, eligible_children caps !! i = Some cap ∧
    allocate total caps policy !! i = Some (device_id cap, share).
Proof.
  intros Hnd Hcap [i Hi]%list_elem_of_lookup. exists i. split; [|done].
  destruct (allocate_lookup f64_eps_neg _ _ _ _ _ _ Hi) as (d & sh & u & Hd & Hid & _).
  assert (d = cap) as ->; [|done].
  pose proof (list_elem_of_lookup_2 _ _ _ Hd) as [Hin _]%elem_of_filterb.
  apply list_elem_of_lookup in Hin as [a Ha], Hcap as [b Hb].
  assert (a = b) as ->; [|congruence].
  eapply NoDup_lookup; [exact Hnd|by rewrite list_lookup_fmap, Ha|].
  by rewrite list_lookup_fmap, Hb, Hid.
Qed.

(** No positive share of a discharge exceeds its child's headroom, whatever the
    states of charge are. *)
Lemma discharge_share_capped total (caps : list (ChildCapacity f64)) policy cap share :
  NoDup (device_id <$> caps) → cap ∈ caps → f_ltb total (of_Z 0) = false →
  (device_id cap, share) ∈ add_missing (allocate total caps policy) caps →
  f_ltb (f_max (headroom cap) (of_Z 0)) share = false.
Proof.
  intros Hnd Hcap Ht [Hin|[-> _]]%shares_origin; [| |done].
  - destruct (unsigned_share_lookup _ _ _ _ _ Hnd Hcap Hin) as (i & Hi & Hl).
    destruct (allocate_lookup f64_eps_neg _ _ _ _ _ _ Hl) as (d & sh & u & Hd & _ & Hsh & Hu & ->).
    assert (d = cap) as -> by congruence.
    unfold total_sign. rewrite Ht, fs_mul_1.
    pose proof (unsigned_shares_capped _ _ _ _ _ _ Hsh Hu) as Hc.
    unfold cap_of in Hc. change (List.map headroom ?l) with (headroom <$> l) in Hc.
    by erewrite nth_lookup_Some in Hc by (by rewrite list_lookup_fmap, Hi).
  - apply leb_not_ltb, max_ge_r. by vm_compute.
Qed.

(** While discharging, a rack whose state of charge
    is at or below the effective reserve floor (the higher of the supplier's
    and the operator's) gets no discharge share. *)
Theorem reserve_floor_respected binding target site_id cache locked now shares c cap floor share :
  NoDup (ca_device_id <$> db_children binding) →
  compute_shares binding target site_id cache locked now = Ok shares →
  c ∈ db_children binding → resolve_child c target site_id cache now = Ok cap →
  f_ltb (of_Z 0) target = true →
  effective_floor_percent binding site_id cache = Some floor →
  f_leb (state_of_charge cap) floor = true →
  (ca_device_id c, share) ∈ shares → f_ltb (of_Z 0) share = false.
Proof.
  intros Hnd Hs Hc Hr Ht Hfl Hsoc Hin.
  pose proof (compute_shares_Ok _ _ _ _ _ _ _ Hs) as (policy & caps & _ & Hcaps & ->).
  pose proof (child_capacities_ids _ _ _ _ _ _ _ Hcaps) as Hids.
  assert (NoDup (device_id <$> caps)) as Hndc by (rewrite Hids; by apply NoDup_fmap_filterb).
  assert (ca_device_id c ∉ locked) as Hl
    by (apply (compute_shares_perm _ _ _ _ _ _ _ Hnd Hs); by apply (list_elem_of_fmap_2 fst _ _ Hin)).
  assert (c ∈ unlocked_children binding locked) as Hcu
    by (apply elem_of_filterb; split; [done|by rewrite bool_decide_false]).
  destruct (child_capacity_of _ _ _ _ _ _ _ _ Hcaps Hcu) as (cap0 & Hr0 & Hcap).
  assert (cap0 = cap) as -> by congruence.
  destruct (resolve_child_id _ _ _ _ _ _ Hr) as [Hid _].
  rewrite Hfl in Hcap. unfold apply_reserve_floor in Hcap. rewrite Ht, Hsoc in Hcap. simpl in Hcap.
  rewrite <- Hid in Hin.
  pose proof (discharge_share_capped target caps policy _ share Hndc Hcap) as Hd.
  simpl in Hd. specialize (Hd (leb_not_ltb _ _ (ltb_leb _ _ Ht)) Hin).
  exact Hd.
Qed.

(** ** A site of two racks *)

Definition demo_rack (id : string) : ChildAllocation :=
  mkChildAllocation id
    ("sites/{site_id}/devices/" ++ id ++ "/measurements/operating_state/none")
    ("sites/{site_id}/devices/" ++ id ++ "/measurements/state_of_charge/percent")
    (of_Z (-4000)) (of_Z 4000).

Definition demo_module (policy : string) (floor : option f64) : DistributeBinding :=
  mkDistribute policy [demo_rack "rack_1"; demo_rack "rack_2"; demo_rack "rack_3"] floor
    None None None None None None None None None None None None None.

(** At 10 s: rack_1 fresh at 80%, rack_2 fresh at 15%, rack_3 silent for 6 s. *)
Definition demo_cache : InputCache :=
  map_extend ∅
    [(measurement_topic "s1" "rack_1" "operating_state" "none", (VString "DISCHARGING", seconds 10));
     (measurement_topic "s1" "rack_1" "state_of_charge" "percent", (VInt 80, seconds 10));
     (measurement_topic "s1" "rack_1" "max_discharge_power" "watts", (VInt 900, seconds 9));
     (measurement_topic "s1" "rack_2" "operating_state" "none", (VInt 0, seconds 9));
     (measurement_topic "s1" "rack_2" "state_of_charge" "percent", (VFloat (lit 155 10), seconds 9));
     (measurement_topic "s1" "rack_3" "operating_state" "none", (VString "STANDBY", seconds 4));
     (measurement_topic "s1" "rack_3" "state_of_charge" "percent", (VInt 60, seconds 10))].

Definition demo_shares (floor : option f64) : list (string * f64) :=
  match compute_shares (demo_module "equal_split" floor) (of_Z 1200) "s1" demo_cache ∅ (seconds 10) with
  | Ok shares => shares
  | Err _ => []
  end.

(** 1200 W with no floor, then with a 20% reserve floor: rack_1 is held to its
    live limit, and rack_2 to 0 W by the floor. *)
Example demo_distribution :
  demo_shares None =
    [("rack_1"%string, of_Z 600); ("rack_2"%string, of_Z 600); ("rack_3"%string, of_Z 0)] ∧
  demo_shares (Some (of_Z 20)) =
    [("rack_1"%string, of_Z 900); ("rack_2"%string, of_Z 0); ("rack_3"%string, of_Z 0)].
Proof. split; by vm_compute. Qed.

Lemma demo_module_NoDup policy floor : NoDup (ca_device_id <$> db_children (demo_module policy floor)).
Proof. by apply (bool_decide_unpack _). Qed.

Lemma demo_shares_Ok floor :
  match compute_shares (demo_module "equal_split" floor) (of_Z 1200) "s1" demo_cache ∅ (seconds 10)
  with Ok _ => true | Err _ => false end = true →
  compute_shares (demo_module "equal_split" floor) (of_Z 1200) "s1" demo_cache ∅ (seconds 10) =
  Ok (demo_shares floor).
Proof. unfold demo_shares. by destruct (compute_shares _ _ _ _ _ _). Qed.

Lemma compute_shares_one_per_child_witness :
  (demo_shares None).*1 ≡ₚ ["rack_1"; "rack_2"; "rack_3"]%string.
Proof.
  refine (proj1 (compute_shares_one_per_child (demo_module "equal_split" None) (of_Z 1200) "s1"
    demo_cache ∅ (seconds 10) (demo_shares None) (demo_module_NoDup _ _) (demo_shares_Ok _ _))).
  by vm_compute.
Defined.

Lemma unusable_rack_gets_zero_witness :
  unusable (demo_rack "rack_3") "s1" demo_cache (seconds 10) = true ∧
  ∃ share, ("rack_3"%string, share) ∈ demo_shares None ∧ share = of_Z 0.
Proof.
  split; [by vm_compute|]. exists (of_Z 0).
  assert (("rack_3"%string, of_Z 0) ∈ demo_shares None) as Hin
    by (rewrite (proj1 demo_distribution); do 2 right; by left).
  split; [done|].
  refine (unusable_rack_gets_zero (demo_module "equal_split" None) (of_Z 1200) "s1"
    demo_cache ∅ (seconds 10) (demo_shares None) (demo_rack "rack_3") (of_Z 0)
    (demo_module_NoDup _ _) (demo_shares_Ok _ _) _ _ Hin); [by vm_compute| |by vm_compute].
  simpl. do 2 right. by left.
Defined.

Lemma reserve_floor_respected_witness :
  ∃ share, ("rack_2"%string, share) ∈ demo_shares (Some (of_Z 20)) ∧ f_ltb (of_Z 0) share = false.
Proof.
  exists (of_Z 0).
  assert (("rack_2"%string, of_Z 0) ∈ demo_shares (Some (of_Z 20))) as Hin
    by (rewrite (proj2 demo_distribution); right; by left).
  split; [done|].
  refine (reserve_floor_respected (demo_module "equal_split" (Some (of_Z 20))) (of_Z 1200) "s1"
    demo_cache ∅ (seconds 10) (demo_shares (Some (of_Z 20))) (demo_rack "rack_2")
    (mkChild "rack_2" Standby (of_Z 4000) (lit 155 10)) (of_Z 20) (of_Z 0)
    (demo_module_NoDup _ _) (demo_shares_Ok _ _) _ _ _ _ _ Hin); try by vm_compute.
  simpl. right. by left.
Defined.
