(* ===== verification/Transport.v ===== *)
(** * Modbus transport and client: [src/modbus/transport.rs],
    [src/modbus/client.rs]

    The Modbus library ([rodbus]) is the class [Rodbus] over an abstract world
    [W]: opening a session, one request, and its request validation.  The code
    around it (retries, decoding, scaling) is translated.  Time spent in
    backoff is not modelled. *)

From Stdlib Require Import ZArith Lia Floats Ascii.
From S2P Require Import Prelude F64 Binary64 Text Codec Bindings.
Local Open Scope Z_scope.
Local Open Scope gateway_scope.

(** A session: who it dials, and the TLS subject when it is Modbus Security. *)
Record Session := mkSession {
  ses_host : string;
  ses_port : Z;
  ses_tls : option (string * GatewayCredentials);
}.

Inductive request_error :=
| Exception (code : Z)               (* the device's definite answer *)
| OtherError (what : string).        (* timeouts, lost connections, ... *)

Inductive modbus_error :=
| TlsConfig (what : string)
| EnableFailed
| BadRange
| Refused (e : request_error)
| Exhausted (e : option request_error)
| BadUnitId
| CodecError (e : codec_error)
| FunctionError (e : function_error)
| ScaleError (e : string)
| ShortRead.                         (* the code would panic *)

Class Rodbus (W : Type) := {
  (* [TlsClientConfig::full_pki] with a TLS 1.3 floor: the subject name, the
     paths of the CA bundle, the certificate and the key *)
  full_pki : string → string → string → string → W → result string unit * W;
  enable : Session → W → bool * W;
  (* [AddressRange::try_from], [WriteMultiple::from] *)
  address_range_ok : Z → Z → bool;
  write_multiple_ok : Z → list Z → bool;
  read_once : Session → ReadFunction → Z → Z → Z → W → result request_error (list Z) * W;
  write_once : Session → WriteFunction → Z → Z → list Z → W → result request_error unit * W;
}.

(** The [SESSIONS] static: one open write session per host, port and whether it
    is secure. *)
Class SessionCache (W : Type) := {
  sessions : W → gmap (string * Z * bool) Session;
  set_sessions : gmap (string * Z * bool) Session → W → W;
}.

Definition MAX_ATTEMPTS : nat := 5.

Section Transport.
Context {W : Type} `{Rodbus W} `{SessionCache W}.

Definition is_exception (e : request_error) : bool :=
  match e with Exception _ => true | OtherError _ => false end.

(** The attempt loop both requests share. *)
Fixpoint attempts {A} (n : nat) (last_err : option request_error)
    (once : W → result request_error A * W) (w : W) : result modbus_error A * W :=
  match n with
  | O => (Err (Exhausted last_err), w)
  | S n =>
      match once w with
      | (Ok a, w') => (Ok a, w')
      | (Err e, w') =>
          if is_exception e then (Err (Refused e), w')
          else attempts n (Some e) once w'
      end
  end.

Definition read_registers (s : Session) (unit_id addr count : Z) (function : ReadFunction)
    (w : W) : result modbus_error (list Z) * W :=
  let '(up, w) := enable s w in
  if negb up then (Err EnableFailed, w)
  else if negb (address_range_ok addr count) then (Err BadRange, w)
  else attempts MAX_ATTEMPTS None (read_once s function unit_id addr count) w.

(** FC6 sends the first word. *)
Definition write_registers (s : Session) (unit_id addr : Z) (words : list Z)
    (function : WriteFunction) (w : W) : result modbus_error unit * W :=
  let '(up, w) := enable s w in
  if negb up then (Err EnableFailed, w)
  else if negb (write_multiple_ok addr words) then (Err BadRange, w)
  else
    let sent := match function with Single => firstn 1 words | Multiple => words end in
    attempts MAX_ATTEMPTS None (write_once s function unit_id addr sent) w.

(** [tls::build_tls_config]. *)
Definition build_tls_config (server_subject_name ca_bundle_path gateway_cert_path gateway_key_path : string)
    (w : W) : result string unit * W :=
  full_pki server_subject_name ca_bundle_path gateway_cert_path gateway_key_path w.

(** [tls_channel]. *)
Definition tls_channel (host : string) (port : Z) (subject_name : string) (creds : GatewayCredentials)
    (w : W) : result modbus_error Session * W :=
  match build_tls_config subject_name (ca_bundle_path creds) (cert_path creds) (key_path creds) w with
  | (Ok _, w) => (Ok (mkSession host port (Some (subject_name, creds))), w)
  | (Err e, w) => (Err (TlsConfig e), w)
  end.

(** [tcp_channel]. *)
Definition tcp_channel (host : string) (port : Z) : Session := mkSession host port None.

(** [client::channel]. *)
Definition channel (host : string) (port : Z) (trust : option DeviceTrust)
    (creds : option GatewayCredentials) (w : W) : result modbus_error Session * W :=
  match trust, creds with
  | Some (TlsMutual subject_name), Some creds =>
      tls_channel host port subject_name creds w
  | _, _ => (Ok (tcp_channel host port), w)
  end.

(** [client::write_channel]: the session kept for this device, or a new one. *)
Definition write_channel (host : string) (port : Z) (trust : option DeviceTrust)
    (creds : option GatewayCredentials) (w : W) : result modbus_error Session * W :=
  let secure := match trust, creds with Some (TlsMutual _), Some _ => true | _, _ => false end in
  let key := (host, port, secure) in
  match sessions w !! key with
  | Some s => (Ok s, w)
  | None =>
      match channel host port trust creds w with
      | (Err e, w) => (Err e, w)
      | (Ok s, w) => (Ok s, set_sessions (<[key := s]> (sessions w)) w)
      end
  end.

(** [unit_id.parse::<u8>()]. *)
Definition parse_u8 (s : string) : option Z := parse_uint 255 s.

(** A read on an open session. *)
Definition read_on (s : Session) (b : ModbusTcpBinding) (w : W) : result modbus_error f64 * W :=
  match read_function (mb_function_code b), parse_u8 (mb_unit_id b) with
  | Err e, _ => (Err (FunctionError e), w)
  | Ok _, None => (Err BadUnitId, w)
  | Ok function, Some unit_id =>
      match read_registers s unit_id (mb_address b) (register_count (mb_data_type b)) function w with
      | (Err e, w) => (Err e, w)
      | (Ok words, w) =>
          match decode_raw words (mb_data_type b) (mb_word_order b) with
          | None => (Err ShortRead, w)
          | Some raw =>
              match mb_scale_factor_address b with
              | None => (Ok (apply_scale_offset raw (mb_scale b) (mb_offset b)), w)
              | Some sf_address =>
                  match read_registers s unit_id sf_address 1 function w with
                  | (Err e, w) => (Err e, w)
                  | (Ok [], w) => (Err ShortRead, w)
                  | (Ok (sf :: _), w) =>
                      match apply_sunssf raw sf with
                      | Err e => (Err (ScaleError e), w)
                      | Ok raw => (Ok (apply_scale_offset raw (mb_scale b) (mb_offset b)), w)
                      end
                  end
              end
          end
      end
  end.

Definition read_measurement (b : ModbusTcpBinding) (trust : option DeviceTrust)
    (creds : option GatewayCredentials) (w : W) : result modbus_error f64 * W :=
  match channel (mb_host b) (mb_port b) trust creds w with
  | (Err e, w) => (Err e, w)
  | (Ok s, w) => read_on s b w
  end.

(** [client::write_setpoint]. *)
Definition write_setpoint (b : ModbusTcpBinding) (value : f64) (trust : option DeviceTrust)
    (creds : option GatewayCredentials) (w : W) : result modbus_error unit * W :=
  match write_function (mb_function_code b) (mb_data_type b) with
  | Err e => (Err (FunctionError e), w)
  | Ok function =>
      match encode_raw (to_raw value (mb_scale b) (mb_offset b)) (mb_data_type b) (mb_word_order b) with
      | Err e => (Err (CodecError e), w)
      | Ok words =>
          match write_channel (mb_host b) (mb_port b) trust creds w with
          | (Err e, w) => (Err e, w)
          | (Ok s, w) =>
              match parse_u8 (mb_unit_id b) with
              | None => (Err BadUnitId, w)
              | Some unit_id => write_registers s unit_id (mb_address b) words function w
              end
          end
      end
  end.

Definition read_holding (host : string) (port unit_id addr count : Z) (w : W)
    : result modbus_error (list Z) * W :=
  read_registers (tcp_channel host port) unit_id addr count Holding w.

Definition write_holding (host : string) (port unit_id addr : Z) (words : list Z) (w : W)
    : result modbus_error unit * W :=
  write_registers (tcp_channel host port) unit_id addr words Multiple w.
End Transport.

(** ** Retries *)

(** The answer a list of outcomes gives: the first success or exception among
    the first [n], the last error if there is neither. *)
Fixpoint answer {A} (n : nat) (last_err : option request_error)
    (outcomes : list (result request_error A)) : result modbus_error A :=
  match n, outcomes with
  | S n, Ok a :: _ => Ok a
  | S n, Err (Exception c) :: _ => Err (Refused (Exception c))
  | S n, Err (OtherError e) :: l => answer n (Some (OtherError e)) l
  | _, _ => Err (Exhausted last_err)
  end.

(** How many of the outcomes are asked for. *)
Fixpoint asked {A} (n : nat) (outcomes : list (result request_error A)) : nat :=
  match n, outcomes with
  | S n, Err (OtherError _) :: l => S (asked n l)
  | S n, _ :: _ => 1
  | _, _ => 0
  end.

(** A request is attempted at most [MAX_ATTEMPTS]
    times and no more once the device has answered: over any sequence of
    outcomes at least that long, the result is the first success or Modbus
    exception among them (an exception is never retried), and exactly the
    outcomes up to it are consumed. *)
Theorem retries_stop_at_answer {A} (outcomes : list (result request_error A)) :
  (MAX_ATTEMPTS ≤ length outcomes)%nat →
  attempts MAX_ATTEMPTS None
    (λ script, match script with o :: l => (o, l) | [] => (Err (OtherError ""), []) end) outcomes
  = (answer MAX_ATTEMPTS None outcomes, drop (asked MAX_ATTEMPTS outcomes) outcomes) ∧
  (asked MAX_ATTEMPTS outcomes ≤ MAX_ATTEMPTS)%nat.
Proof.
  intros Hlen. split.
  - generalize (None : option request_error) as last. revert Hlen. generalize MAX_ATTEMPTS as n.
    intros n. revert outcomes. induction n as [|n IH]; intros [|o l] Hlen last; simpl in *;
      try done; try lia.
    destruct o as [a|[c|e]]; simpl; [done|done|]. rewrite IH by lia. done.
  - clear Hlen. generalize MAX_ATTEMPTS as n. intros n. revert outcomes.
    induction n as [|n IH]; intros [|[a|[c|e]] l]; simpl; try lia. specialize (IH l). lia.
Qed.

Lemma retries_stop_at_answer_witness :
  attempts MAX_ATTEMPTS None
    (λ script, match script with o :: l => (o, l) | [] => (Err (OtherError ""), []) end)
    [Err (OtherError "timeout"); Ok [7]; Ok [8]; Ok [9]; Ok [10]]
  = (Ok [7], [Ok [8]; Ok [9]; Ok [10]]).
Proof.
  refine (proj1 (retries_stop_at_answer [Err (OtherError "timeout"); Ok [7]; Ok [8]; Ok [9]; Ok [10]] _)).
  unfold MAX_ATTEMPTS. simpl. lia.
Defined.
