(* ===== verification/Clients.v ===== *)
(** * Measurement clients: [src/snmp/client.rs], [src/bacnet/client.rs],
    [src/bacnet_sc/client.rs], [src/dnp3/client.rs] and [master.rs]

    One read of one point per protocol.  The protocol libraries ([snmp2],
    [bacnet_rs], [dnp3]) are classes over an abstract world; the code around
    them (parsing of identifiers, retries, framing, value conversion) is
    translated.  A time-out is an error of the call it bounds. *)

From Stdlib Require Import ZArith Lia Floats Ascii.
From stdpp Require Import pretty.
From S2P Require Import Prelude F64 Binary64 Text Integers Bindings.
Local Open Scope Z_scope.
Local Open Scope gateway_scope.

Inductive read_failure :=
| LibraryError (what : string)
| OidSyntax (s : string)
| InvalidOid (s : string)
| MissingEnv (name : string)
| NoVarbinds
| NotAnInteger
| UnsupportedObject (object_type : string)
| UnsupportedProperty (property_id : string)
| NotBvlc
| NpduTooLong                       (* the code would panic *)
| BacnetRefused (class code : Z)
| UnexpectedApdu
| NoNumericValue
| NoCredentials
| VmacLength (digits : nat)
| VmacByte (i : nat)
| UnreadPointType (point_type : string)
| PointIndexTooBig (index : Z)
| NoPointAt (index : Z)
| RetriesExhausted (last_err : option read_failure).

(** [?] on a call that also moves the world. *)
Definition and_then {W E A B} (r : result E A * W) (k : A → W → result E B * W) : result E B * W :=
  match r with (Ok a, w) => k a w | (Err e, w) => (Err e, w) end.

Definition library {W A} (r : result string A * W) : result read_failure A * W :=
  match r with (Ok a, w) => (Ok a, w) | (Err e, w) => (Err (LibraryError e), w) end.

(** ** Retries *)

Class Sleep (W : Type) := { sleep_ms : Z → W → W }.

Definition MAX_READ_ATTEMPTS : nat := 5.

(** [500 * (1 << attempt)]. *)
Definition backoff_ms (attempt : nat) : Z := 500 * Z.shiftl 1 (Z.of_nat attempt).

(** The loop every client has: [tries] attempts from number [attempt] on. *)
Fixpoint retry {W E A} `{Sleep W} (tries attempt : nat) (last_err : option E)
    (try_once : W → result E A * W) (w : W) : result (option E) A * W :=
  match tries with
  | O => (Err last_err, w)
  | S tries =>
      match try_once w with
      | (Ok a, w) => (Ok a, w)
      | (Err e, w) => retry tries (S attempt) (Some e) try_once (sleep_ms (backoff_ms attempt) w)
      end
  end.

Definition with_retries {W A} `{Sleep W} (try_once : W → result read_failure A * W) (w : W)
    : result read_failure A * W :=
  match retry MAX_READ_ATTEMPTS 0 None try_once w with
  | (Ok a, w) => (Ok a, w)
  | (Err e, w) => (Err (RetriesExhausted e), w)
  end.

(** ** SNMP *)

Inductive SnmpValue :=
| SnmpInteger (i : Z)                (* i64 *)
| SnmpCounter32 (c : Z)
| SnmpUnsigned32 (u : Z)
| SnmpCounter64 (c : Z)
| SnmpOther.

(** [snmp2]'s own names of the protocols. *)
Inductive AuthProtocol := AuthSha256 | AuthSha384 | AuthSha512.
Inductive Cipher := CipherAes128 | CipherAes192 | CipherAes256.

Definition map_auth_protocol (a : Snmpv3AuthProtocol) : AuthProtocol :=
  match a with Sha256 => AuthSha256 | Sha384 => AuthSha384 | Sha512 => AuthSha512 end.

Definition map_priv_protocol (p : Snmpv3PrivProtocol) : Cipher :=
  match p with Aes128 => CipherAes128 | Aes192 => CipherAes192 | Aes256 => CipherAes256 end.

(** [Security::new(..).with_auth_protocol(..).with_auth(AuthPriv ..)]. *)
Record Security := mkSecurity {
  sec_name : string;
  sec_auth_password : string;
  sec_auth_protocol : AuthProtocol;
  sec_cipher : Cipher;
  sec_priv_password : string;
}.

Class SnmpLib (W session : Type) := {
  oid_valid : list Z → bool;                       (* [Oid::from] *)
  new_v2c : string → string → W → result string session * W;
  new_v3 : string → Security → W → result string session * W;
  snmp_init : session → W → result string unit * W;
  (* the varbinds of the response *)
  snmp_get : session → list Z → W → result string (list (list Z * SnmpValue)) * W;
}.

Definition COMMUNITY : string := "public".

(** [to_uppercase] of the ASCII letters. *)
Definition ascii_upper (a : ascii) : ascii :=
  let n := Ascii.nat_of_ascii a in
  if bool_decide (97 ≤ n ≤ 122)%nat then Ascii.ascii_of_nat (n - 32) else a.

Fixpoint to_uppercase (s : string) : string :=
  match s with EmptyString => "" | String a s => String (ascii_upper a) (to_uppercase s) end.

Definition usm_env_key (security_name : string) : string :=
  str_replace "-" "_" (to_uppercase security_name).

(** [env]: the process environment, [std::env::var]. *)
Definition load_usm_passphrases (env : string → option string) (security_name : string)
    : result read_failure (string * string) :=
  let key := usm_env_key security_name in
  let auth_var := ("SNMP_USM_" ++ key ++ "_AUTH_PASSPHRASE")%string in
  let priv_var := ("SNMP_USM_" ++ key ++ "_PRIV_PASSPHRASE")%string in
  auth_pass <-? ok_or (env auth_var) (MissingEnv auth_var);
  priv_pass <-? ok_or (env priv_var) (MissingEnv priv_var);
  Ok (auth_pass, priv_pass).

(** The first varbind's value, if it is integer-shaped. *)
Definition extract_integer (varbinds : list (list Z * SnmpValue)) : result read_failure f64 :=
  match varbinds with
  | [] => Err NoVarbinds
  | (_, SnmpInteger i) :: _ => Ok (of_Z i)
  | (_, SnmpCounter32 c) :: _ => Ok (of_Z c)
  | (_, SnmpUnsigned32 u) :: _ => Ok (of_Z u)
  | (_, SnmpCounter64 c) :: _ => Ok (of_Z c)
  | (_, SnmpOther) :: _ => Err NotAnInteger
  end.

Definition parse_dotted_oid (valid : list Z → bool) (s : string) : result read_failure (list Z) :=
  parts <-? collect_results (λ segment, ok_or (parse_uint (2 ^ 64 - 1) segment) (OidSyntax s))
              (str_split "." s);
  if valid parts then Ok parts else Err (InvalidOid s).

Section Snmp.
Context {W session : Type} `{SnmpLib W session} `{Sleep W}.
Context (env : string → option string).

Definition try_get_v2c (endpoint : string) (oid : list Z) (w : W) : result read_failure f64 * W :=
  and_then (library (new_v2c endpoint COMMUNITY w)) (λ sess w,
  and_then (library (snmp_get sess oid w)) (λ pdu w, (extract_integer pdu, w))).

Definition try_get_v3 (endpoint : string) (oid : list Z) (security_name : string)
    (auth : Snmpv3AuthProtocol) (priv : Snmpv3PrivProtocol) (w : W) : result read_failure f64 * W :=
  and_then (load_usm_passphrases env security_name, w) (λ pass w,
  let security := mkSecurity security_name pass.1 (map_auth_protocol auth)
                    (map_priv_protocol priv) pass.2 in
  and_then (library (new_v3 endpoint security w)) (λ sess w,
  and_then (library (snmp_init sess w)) (λ _ w,
  and_then (library (snmp_get sess oid w)) (λ pdu w, (extract_integer pdu, w))))).

Definition snmp_scaled (raw : f64) (b : SnmpBinding) : f64 := f_mul raw (snmp_scale b).

Definition snmp_read_measurement (b : SnmpBinding) (trust : option DeviceTrust) (w : W)
    : result read_failure f64 * W :=
  and_then (parse_dotted_oid oid_valid (snmp_oid b), w) (λ oid w,
  let endpoint := (snmp_host b ++ ":" ++ pretty (snmp_port b))%string in
  let try_once :=
    match trust with
    | Some (Snmpv3Usm name auth priv) => try_get_v3 endpoint oid name auth priv
    | _ => try_get_v2c endpoint oid
    end in
  and_then (with_retries try_once w) (λ v w, (Ok (snmp_scaled v b), w))).
End Snmp.

(** ** BACnet *)

Inductive PropertyValue :=
| Real (x : f32)
| Double (x : f64)
| Unsigned (u : Z)
| Signed (i : Z)
| OtherProperty.

(** The four numeric properties as a number. *)
Definition numeric (v : PropertyValue) : option f64 :=
  match v with
  | Real x => Some (f32_as_f64 x)
  | Double x => Some x
  | Unsigned u => Some (of_Z u)
  | Signed i => Some (of_Z i)
  | OtherProperty => None
  end.

(** The checks both BACnet clients make. *)
Definition analog_present_value (object_type property_id : string) : result read_failure unit :=
  if negb (bool_decide (object_type = "analog_input"%string)) then Err (UnsupportedObject object_type)
  else if negb (bool_decide (property_id = "present_value"%string))
  then Err (UnsupportedProperty property_id)
  else Ok ().

Inductive Apdu :=
| ConfirmedReadProperty (invoke_id : Z) (service_data : list Z)
| ComplexAck (read_property : bool) (service_data : list Z)
| ApduError (error_class error_code : Z)
| OtherApdu.

(** [bacnet_rs]'s encoders and decoders; a failure is [None].  [npdu_decode]
    answers how many bytes the header takes. *)
Class BacnetCodec := {
  npdu_request : list Z;                            (* expecting a reply *)
  npdu_decode : list Z → option nat;
  apdu_encode : Apdu → list Z;
  apdu_decode : list Z → option Apdu;
  rp_request : Z → option (list Z);
  rp_response : list Z → option (list PropertyValue);
}.

Class Udp (W addr socket : Type) := {
  lookup_host : string → Z → W → result string (list addr) * W;
  is_ipv4 : addr → bool;
  bind : string → W → result string socket * W;
  send_to : socket → list Z → addr → W → result string unit * W;
  recv : socket → W → result string (list Z) * W;
}.

Section Bacnet.
Context `{BacnetCodec}.

Definition INVOKE_ID : Z := 1.

Definition wrap_bvlc (apdu : list Z) : list Z :=
  let out := [0x81; 0x0A; 0x00; 0x00] ++ npdu_request ++ apdu in
  let total := as_unsigned 16 (Z.of_nat (length out)) in
  <[3%nat := Z.land total 0xFF]> (<[2%nat := as_unsigned 8 (Z.shiftr total 8)]> out).

Fixpoint first_numeric (vs : list PropertyValue) : option f64 :=
  match vs with
  | [] => None
  | v :: vs => match numeric v with Some x => Some x | None => first_numeric vs end
  end.

Definition parse_response (frame : list Z) : result read_failure f64 :=
  if bool_decide (length frame < 4)%nat || negb (bool_decide (frame !! 0%nat = Some 0x81))
  then Err NotBvlc
  else
    n <-? ok_or (npdu_decode (drop 4 frame)) (LibraryError "npdu decode");
    if bool_decide (length frame < 4 + n)%nat then Err NpduTooLong
    else
      apdu <-? ok_or (apdu_decode (drop (4 + n) frame)) (LibraryError "apdu decode");
      service_data <-? match apdu with
                       | ComplexAck true service_data => Ok service_data
                       | ApduError class code => Err (BacnetRefused class code)
                       | _ => Err UnexpectedApdu
                       end;
      vs <-? ok_or (rp_response service_data) (LibraryError "rp resp decode");
      ok_or (first_numeric vs) NoNumericValue.

Context {W addr socket : Type} `{Udp W addr socket} `{Sleep W}.

Definition try_read (b : BacnetIpBinding) (w : W) : result read_failure f64 * W :=
  and_then (library (lookup_host (bip_host b) (bip_port b) w)) (λ addrs w,
  and_then (ok_or (head addrs) (LibraryError "no addrs"), w) (λ target w,
  let bind_addr := if is_ipv4 target then "0.0.0.0:0"%string else "[::]:0"%string in
  and_then (library (bind bind_addr w)) (λ sock w,
  and_then (ok_or (rp_request (bip_object_instance b)) (LibraryError "rp encode"), w) (λ svc w,
  let frame := wrap_bvlc (apdu_encode (ConfirmedReadProperty INVOKE_ID svc)) in
  and_then (library (send_to sock frame target w)) (λ _ w,
  and_then (library (recv sock w)) (λ buf w, (parse_response (take 1500 buf), w))))))).

Definition bacnet_read_measurement (b : BacnetIpBinding) (w : W) : result read_failure f64 * W :=
  and_then (analog_present_value (bip_object_type b) (bip_property_id b), w) (λ _ w,
  with_retries (try_read b) w).
End Bacnet.

(** ** BACnet/SC *)

Definition hex_value (a : ascii) : option Z :=
  let n := Z.of_nat (Ascii.nat_of_ascii a) in
  if (48 <=? n) && (n <=? 57) then Some (n - 48)
  else if (65 <=? n) && (n <=? 70) then Some (n - 55)
  else if (97 <=? n) && (n <=? 102) then Some (n - 87)
  else None.

Definition is_ascii_hexdigit (a : ascii) : bool := bool_decide (is_Some (hex_value a)).

Fixpoint hex_only (s : string) : string :=
  match s with
  | EmptyString => ""
  | String a s => if is_ascii_hexdigit a then String a (hex_only s) else hex_only s
  end.

(** [u8::from_str_radix(s, 16)] of two characters. *)
Definition hex_byte (s : string) : option Z :=
  match s with
  | String a (String b EmptyString) => x ← hex_value a; y ← hex_value b; Some (16 * x + y)
  | _ => None
  end.

Definition parse_vmac (s : string) : result read_failure (list Z) :=
  let cleaned := hex_only s in
  if negb (bool_decide (String.length cleaned = 12%nat)) then Err (VmacLength (String.length cleaned))
  else collect_results (λ i, ok_or (hex_byte (String.substring (i * 2) 2 cleaned)) (VmacByte i))
         (seq 0 6).

(** [getrandom_fill] of [n] bytes, at [seed] nanoseconds past the second. *)
Definition getrandom_fill (seed : Z) (n : nat) : list Z :=
  (λ i, as_unsigned 8 (Z.lxor (Z.shiftr seed (Z.of_nat (i mod 4 * 8))) (Z.of_nat i * 31))) <$> seq 0 n.

Definition random_vmac (seed : Z) : list Z := getrandom_fill seed 6.
Definition random_uuid (seed : Z) : list Z := getrandom_fill seed 16.

Record NodeIdentity := mkIdentity {
  ni_vmac : list Z;
  ni_device_uuid : list Z;
  ni_max_bvlc_length : Z;
  ni_max_npdu_length : Z;
}.

Record BacnetScConfig := mkScConfig {
  sc_hub_url : string;
  sc_creds : GatewayCredentials;
  sc_identity : NodeIdentity;
}.

Class ScLib (W link : Type) := {
  subsec_nanos : W → Z * W;
  sc_connect : BacnetScConfig → W → result string link * W;
  sc_read_property : link → list Z → Z → W → result string PropertyValue * W;
}.

Definition coerce_to_f64 (v : PropertyValue) : result read_failure f64 :=
  ok_or (numeric v) NoNumericValue.

Definition sc_read_measurement {W link} `{ScLib W link} (b : BacnetScBinding)
    (creds : option GatewayCredentials) (w : W) : result read_failure f64 * W :=
  and_then (ok_or creds NoCredentials, w) (λ creds w,
  and_then (analog_present_value (bsc_object_type b) (bsc_property_id b), w) (λ _ w,
  and_then (parse_vmac (bsc_device_vmac b), w) (λ dest w,
  let '(vmac_seed, w) := subsec_nanos w in
  let '(uuid_seed, w) := subsec_nanos w in
  let identity := mkIdentity (random_vmac vmac_seed) (random_uuid uuid_seed) 1497 1476 in
  and_then (library (sc_connect (mkScConfig (bsc_hub_url b) creds identity) w)) (λ link w,
  and_then (library (sc_read_property link dest (bsc_object_instance b) w)) (λ v w,
    (coerce_to_f64 v, w)))))).

(** ** DNP3 *)

Inductive PointKind := AnalogInput | BinaryInput.

Definition point_kind (point_type : string) : result read_failure PointKind :=
  if bool_decide (point_type = "analog_input"%string) then Ok AnalogInput
  else if bool_decide (point_type = "binary_input"%string) then Ok BinaryInput
  else Err (UnreadPointType point_type).

Inductive Variation := Group30Var0 | Group1Var0.

(** What the outstation's fragments hand to a [ReadHandler]. *)
Inductive Batch :=
| Analogs (l : list (Z * f64))
| Binaries (l : list (Z * bool)).

(** [Capturing::handle_analog_input] and [handle_binary_input]. *)
Definition capture (k : PointKind) (out : gmap Z f64) (batch : Batch) : gmap Z f64 :=
  match k, batch with
  | AnalogInput, Analogs l => foldl (λ m '(i, x), <[i := x]> m) out l
  | BinaryInput, Binaries l => foldl (λ m '(i, x), <[i := if x : bool then of_Z 1 else of_Z 0]> m) out l
  | _, _ => out
  end.

Class Dnp3Lib (W config assoc : Type) := {
  (* [TlsClientConfig::full_pki], as for Modbus *)
  dnp3_full_pki : string → string → string → string → W → result string config * W;
  (* spawn the client, add the association, enable *)
  dnp3_connect : string → option config → Z → W → result string assoc * W;
  (* the read of one static point; all batches since the association was added *)
  dnp3_read : assoc → Variation → Z → W → result string (list Batch) * W;
}.

Section Dnp3.
Context {W config assoc : Type} `{Dnp3Lib W config assoc} `{Sleep W}.

(** [dnp3/tls.rs]. *)
Definition dnp3_build_tls_config (subject_name : string) (creds : GatewayCredentials) (w : W)
    : result string config * W :=
  dnp3_full_pki subject_name (ca_bundle_path creds) (cert_path creds) (key_path creds) w.

Definition read_with_channel (endpoint : string) (tls : option config) (b : Dnp3TcpBinding)
    (k : PointKind) (w : W) : result read_failure f64 * W :=
  and_then (library (dnp3_connect endpoint tls (dnp3_outstation_address b) w)) (λ association w,
  let index := dnp3_point_index b in
  and_then (if index <=? 255 then Ok index else Err (PointIndexTooBig index), w) (λ stop w,
  let variation := match k with AnalogInput => Group30Var0 | BinaryInput => Group1Var0 end in
  and_then (library (dnp3_read association variation stop w)) (λ batches w,
    (ok_or (foldl (capture k) ∅ batches !! index) (NoPointAt index), w)))).

Definition dnp3_scaled (raw : f64) (b : Dnp3TcpBinding) : f64 := f_mul raw (dnp3_scale b).

Definition dnp3_read_measurement (b : Dnp3TcpBinding) (trust : option DeviceTrust)
    (creds : option GatewayCredentials) (w : W) : result read_failure f64 * W :=
  and_then (point_kind (dnp3_point_type b), w) (λ k w,
  let endpoint := (dnp3_host b ++ ":" ++ pretty (dnp3_port b))%string in
  let try_once w :=
    match trust, creds with
    | Some (TlsMutual subject_name), Some creds =>
        and_then (library (dnp3_build_tls_config subject_name creds w)) (λ tls w,
        read_with_channel endpoint (Some tls) b k w)
    | _, _ => read_with_channel endpoint None b k w
    end in
  and_then (with_retries try_once w) (λ v w, (Ok (dnp3_scaled v b), w))).
End Dnp3.

(** ** Retries give up in time *)

Section Retries.
Context {W A : Type} `{Sleep W} (try_once : W → result read_failure A * W).

(** The world [k] attempts after number [attempt], all of them failed. *)
Fixpoint world_at (k attempt : nat) (w : W) : W :=
  match k with
  | O => w
  | S k => world_at k (S attempt) (sleep_ms (backoff_ms attempt) (try_once w).2)
  end.

Lemma retry_answer tries attempt last_err w :
  match retry tries attempt last_err try_once w with
  | (Ok a, w') => ∃ k, (k < tries)%nat ∧
      (∀ j, (j < k)%nat → is_ok (try_once (world_at j attempt w)).1 = false) ∧
      try_once (world_at k attempt w) = (Ok a, w')
  | (Err e, w') => w' = world_at tries attempt w ∧
      (∀ j, (j < tries)%nat → is_ok (try_once (world_at j attempt w)).1 = false) ∧
      (e = match tries with
           | O => last_err
           | S t => match (try_once (world_at t attempt w)).1 with Ok _ => None | Err e => Some e end
           end)
  end.
Proof.
  revert attempt last_err w. induction tries as [|tries IH]; intros attempt last_err w; cbn [retry].
  { split_and!; [done|lia|done]. }
  destruct (try_once w) as [[a|e] w1] eqn:Ht.
  { exists 0%nat. split; [lia|]. split; [lia|done]. }
  specialize (IH (S attempt) (Some e) (sleep_ms (backoff_ms attempt) w1)).
  assert (∀ j, world_at (S j) attempt w = world_at j (S attempt) (sleep_ms (backoff_ms attempt) w1)) as Hw
    by (intros j; cbn [world_at]; by rewrite Ht).
  assert (is_ok (try_once (world_at 0 attempt w)).1 = false) as H0 by (cbn [world_at]; by rewrite Ht).
  destruct (retry _ _ _ _ _) as [[a|e'] w'].
  - destruct IH as (k & Hk & Hf & Ho). exists (S k). split; [lia|]. split; [|by rewrite Hw].
    intros [|j] Hj; [done|]. rewrite Hw. apply Hf. lia.
  - destruct IH as (-> & Hf & ->). split; [done|]. split.
    + intros [|j] Hj; [done|]. rewrite Hw. apply Hf. lia.
    + destruct tries as [|t]; [cbn [world_at]; by rewrite Ht|by rewrite Hw].
Qed.

(** Time: an attempt takes at most [T], a sleep overruns by at most [slack]. *)
Context (clock : W → Z) (T slack : Z).
Hypothesis try_ends : ∀ w, clock (try_once w).2 <= clock w + T.
Hypothesis sleep_ends : ∀ ms w, clock (sleep_ms ms w) <= clock w + ms + slack.

Fixpoint backoffs (k attempt : nat) : Z :=
  match k with O => 0 | S k => backoff_ms attempt + backoffs k (S attempt) end.

Lemma world_at_clock k attempt w :
  clock (world_at k attempt w) <= clock w + backoffs k attempt + Z.of_nat k * (T + slack).
Proof.
  revert attempt w. induction k as [|k IH]; intros attempt w; cbn [world_at backoffs]; [lia|].
  specialize (IH (S attempt) (sleep_ms (backoff_ms attempt) (try_once w).2)).
  pose proof (sleep_ends (backoff_ms attempt) (try_once w).2). pose proof (try_ends w). lia.
Qed.

(** Every client's retry loop answers: with the first of its
    five attempts that succeeds, or, all five having failed, with the fifth's
    error; and it takes at most five attempts and 15.5 s of backoff, so an
    unreachable device cannot hold its poller for good. *)
Theorem retries_answer_in_time w :
  0 <= T → 0 <= slack →
  match with_retries try_once w with
  | (Ok a, w') =>
      (∃ k, (k < 5)%nat ∧ (∀ j, (j < k)%nat → is_ok (try_once (world_at j 0 w)).1 = false) ∧
        try_once (world_at k 0 w) = (Ok a, w')) ∧
      clock w' <= clock w + 7500 + 5 * T + 4 * slack
  | (Err f, w') =>
      (∃ e, f = RetriesExhausted (Some e) ∧ (try_once (world_at 4 0 w)).1 = Err e) ∧
      (∀ j, (j < 5)%nat → is_ok (try_once (world_at j 0 w)).1 = false) ∧
      clock w' <= clock w + 15500 + 5 * T + 5 * slack
  end.
Proof.
  intros HT Hs. unfold with_retries.
  pose proof (retry_answer MAX_READ_ATTEMPTS 0 None w) as Hr. unfold MAX_READ_ATTEMPTS in *.
  destruct (retry _ _ _ _ _) as [[a|e] w'].
  - destruct Hr as (k & Hk & Hf & Ho). split; [by exists k|].
    pose proof (world_at_clock k 0 w) as Hc. pose proof (try_ends (world_at k 0 w)) as Ht.
    rewrite Ho in Ht. cbn [snd] in Ht.
    assert (backoffs k 0 <= 7500) by (do 5 (destruct k as [|k]; [by vm_compute|]); lia).
    assert (0 <= Z.of_nat k <= 4) by lia. nia.
  - destruct Hr as (-> & Hf & ->). split; [|split; [done|]].
    + specialize (Hf 4%nat ltac:(lia)). destruct (try_once _) as [[a|e] w1]; [done|]. by exists e.
    + pose proof (world_at_clock 5 0 w) as Hc. change (backoffs 5 0) with 15500 in Hc. lia.
Qed.
End Retries.

(** An agent that answers the third request, a clock in milliseconds. *)
#[export] Instance demo_sleep : Sleep (Z * nat) := { sleep_ms ms w := (w.1 + ms, w.2) }.

Definition demo_try (w : Z * nat) : result read_failure Z * (Z * nat) :=
  (match w.2 with O => Ok 42 | S n => Err NoVarbinds end, (w.1 + 2000, Nat.pred w.2)).

Lemma retries_answer_in_time_witness :
  with_retries demo_try (0, 2%nat) = (Ok 42, (7500, 0%nat)) ∧
  with_retries demo_try (0, 9%nat) = (Err (RetriesExhausted (Some NoVarbinds)), (25500, 4%nat)) ∧
  (∃ k, (k < 5)%nat ∧ (∀ j, (j < k)%nat → is_ok (demo_try (world_at demo_try j 0 (0, 2%nat))).1 = false) ∧
    demo_try (world_at demo_try k 0 (0, 2%nat)) = (Ok 42, (7500, 0%nat))).
Proof.
  split; [by vm_compute|]. split; [by vm_compute|].
  refine (proj1 (retries_answer_in_time demo_try fst 2000 0 _ _ (0, 2%nat) _ _)); try done.
  intros ms w. change (w.1 + ms <= w.1 + ms + 0). lia.
Defined.

(** ** Identifiers *)

(** A dotted OID names exactly the components it is written
    with: printing any list of 64-bit components and parsing it gives the list
    back. *)
Theorem oid_round_trip valid parts :
  parts ≠ [] → Forall (λ p, 0 <= p < 2 ^ 64) parts → valid parts = true →
  parse_dotted_oid valid (str_join "." (pretty <$> parts)) = Ok parts.
Proof.
  intros Hne Hall Hv. unfold parse_dotted_oid. rewrite str_split_join.
  - rewrite (proj2 (collect_results_Forall2 _ _ parts)); [simpl; by rewrite Hv|].
    clear Hne Hv. generalize (str_join "." (pretty <$> parts)) as s. intros s.
    induction Hall as [|p parts Hp _ IH]; [constructor|]. rewrite fmap_cons. constructor; [|done].
    cbn beta in *. by rewrite parse_uint_pretty by lia.
  - by destruct parts.
  - apply Forall_fmap. eapply Forall_impl; [exact Hall|]. intros p Hp.
    apply pretty_no_char; [cbn beta in *; lia|apply pretty_char_not_dot].
Qed.

Lemma oid_round_trip_witness :
  str_join "." (pretty <$> [1; 3; 6; 1; 4; 1; 41999; 0]) = "1.3.6.1.4.1.41999.0"%string ∧
  parse_dotted_oid (λ _, true) "1.3.6.1.4.1.41999.0" = Ok [1; 3; 6; 1; 4; 1; 41999; 0] ∧
  parse_dotted_oid (λ _, true) "1..3" = Err (OidSyntax "1..3").
Proof.
  split; [by vm_compute|]. split; [|by vm_compute].
  apply (oid_round_trip (λ _, true) [1; 3; 6; 1; 4; 1; 41999; 0]); [done| |done].
  repeat constructor; lia.
Defined.

(** Two security names can share their passphrases. *)
Example usm_env_key_collides :
  usm_env_key "rack-a" = usm_env_key "rack_A" ∧ usm_env_key "rack-a" = "RACK_A"%string.
Proof. split; by vm_compute. Qed.

(** A hex digit as it is printed in capitals. *)
Definition hex_char (d : Z) : ascii :=
  Ascii.ascii_of_nat (Z.to_nat (if d <? 10 then d + 48 else d + 55)).

Definition hex_pair (b : Z) : string := String (hex_char (b / 16)) (String (hex_char (b mod 16)) "").

Lemma hex_value_char d : 0 <= d < 16 → hex_value (hex_char d) = Some d.
Proof.
  intros Hd. assert (d ∈ seqZ 0 16) as Hin by (apply elem_of_seqZ; lia).
  assert (Forall (λ d, hex_value (hex_char d) = Some d) (seqZ 0 16)) as Hall
    by (vm_compute; by repeat constructor).
  exact (proj1 (Forall_forall _ _) Hall d Hin).
Qed.

Lemma nibbles b : 0 <= b < 256 → 0 <= b / 16 < 16 ∧ 0 <= b mod 16 < 16.
Proof.
  intros Hb. split; [|by apply Z.mod_pos_bound].
  split; [apply Z.div_pos|apply Z.div_lt_upper_bound]; lia.
Qed.

Lemma hex_only_app s t : hex_only (s ++ t) = (hex_only s ++ hex_only t)%string.
Proof.
  induction s as [|a s IH]; [done|]. change ((String a s ++ t)%string) with (String a (s ++ t)).
  cbn [hex_only]. rewrite IH. by destruct (is_ascii_hexdigit a).
Qed.

Lemma hex_only_pair b : 0 <= b < 256 → hex_only (hex_pair b) = hex_pair b.
Proof.
  intros [Hh Hl]%nibbles. unfold hex_pair. cbn [hex_only]. unfold is_ascii_hexdigit.
  rewrite !hex_value_char by done.
  by rewrite bool_decide_true by by eexists.
Qed.

Lemma hex_byte_pair b : 0 <= b < 256 → hex_byte (hex_pair b) = Some b.
Proof.
  intros Hb. destruct (nibbles b Hb) as [Hh Hl]. unfold hex_byte, hex_pair.
  rewrite !hex_value_char by done.
  simpl. f_equal. pose proof (Z.div_mod b 16). lia.
Qed.

Fixpoint concat_pairs (v : list Z) : string :=
  match v with [] => "" | b :: v => (hex_pair b ++ concat_pairs v)%string end.

Lemma hex_only_join sep v :
  is_ascii_hexdigit sep = false → Forall (λ b, 0 <= b < 256) v →
  hex_only (str_join sep (hex_pair <$> v)) = concat_pairs v.
Proof.
  intros Hsep. induction 1 as [|b v Hb Hv IH]; [done|]. cbn [concat_pairs]. destruct v as [|b' v].
  - change (str_join sep (hex_pair <$> [b])) with (hex_pair b). by rewrite hex_only_pair.
  - change (str_join sep (hex_pair <$> b :: b' :: v))
      with (hex_pair b ++ String sep (str_join sep (hex_pair <$> b' :: v)))%string.
    rewrite hex_only_app, hex_only_pair by done. cbn [hex_only]. by rewrite Hsep, IH.
Qed.

(** A VMAC written as six hex bytes with any separator
    that is no hex digit parses to those bytes. *)
Theorem vmac_round_trip sep v :
  is_ascii_hexdigit sep = false → length v = 6%nat → Forall (λ b, 0 <= b < 256) v →
  parse_vmac (str_join sep (hex_pair <$> v)) = Ok v.
Proof.
  intros Hsep Hl Hv. unfold parse_vmac. rewrite hex_only_join by done.
  do 6 (destruct v as [|? v]; [done|]). destruct v; [|done].
  repeat (apply Forall_cons in Hv as [? Hv]).
  unfold hex_pair. cbn [concat_pairs hex_pair].
  rewrite bool_decide_true by done. cbn [negb seq collect_results]. simpl String.substring.
  repeat match goal with |- context [hex_byte (String (hex_char (?b / 16)) (String _ ""))] =>
    change (hex_byte _) with (hex_byte (hex_pair b)) at 1; rewrite (hex_byte_pair b) by done end.
  done.
Qed.

Lemma vmac_round_trip_witness :
  str_join ":" (hex_pair <$> [170; 187; 204; 221; 238; 15]) = "AA:BB:CC:DD:EE:0F"%string ∧
  parse_vmac "AA:BB:CC:DD:EE:0F" = Ok [170; 187; 204; 221; 238; 15].
Proof.
  split; [by vm_compute|].
  apply (vmac_round_trip ":"%char [170; 187; 204; 221; 238; 15]); [by vm_compute|done|].
  repeat constructor; lia.
Defined.

Lemma hex_only_digits s i a : String.get i (hex_only s) = Some a → is_Some (hex_value a).
Proof.
  revert i. induction s as [|b s IH]; intros i; [by destruct i|]. cbn [hex_only].
  unfold is_ascii_hexdigit. case_bool_decide as Hb; [|apply IH].
  destruct i as [|i]; cbn [String.get]; [by intros [= <-]|apply IH].
Qed.

Lemma substring_two s i a b :
  String.get i s = Some a → String.get (S i) s = Some b →
  String.substring i 2 s = String a (String b "").
Proof.
  revert i. induction s as [|c s IH]; intros i; [by destruct i|]. destruct i as [|i].
  - cbn [String.get]. intros [= ->]. destruct s as [|d s]; [done|]. cbn [String.get].
    intros [= ->]. by destruct s.
  - cbn [String.get String.substring]. apply IH.
Qed.

Lemma get_in_range s i : (i < String.length s)%nat → is_Some (String.get i s).
Proof.
  revert i. induction s as [|a s IH]; intros i; cbn [String.length]; [lia|].
  destruct i as [|i]; [by eexists|]. intros Hi. apply IH. lia.
Qed.

(** A VMAC is refused exactly when it does not hold twelve hex digits. *)
Theorem vmac_accepts_iff s :
  is_ok (parse_vmac s) = true ↔ String.length (hex_only s) = 12%nat.
Proof.
  unfold parse_vmac. case_bool_decide as Hl; cbn [negb]; [|by split].
  split; [done|]. intros _. destruct (collect_results _ _) as [v|e] eqn:Hc; [done|].
  enough (∃ v, collect_results (λ i, ok_or (hex_byte (String.substring (i * 2) 2 (hex_only s)))
    (VmacByte i)) (seq 0 6) = Ok v) as [v Hv] by congruence.
  assert (∀ i, i ∈ seq 0 6 → ∃ b, hex_byte (String.substring (i * 2) 2 (hex_only s)) = Some b) as Hb.
  { intros i [_ Hi]%elem_of_seq.
    destruct (get_in_range (hex_only s) (i * 2)) as [a Ha]; [lia|].
    destruct (get_in_range (hex_only s) (S (i * 2))) as [b Hb]; [lia|].
    rewrite (substring_two _ _ _ _ Ha Hb). cbn [hex_byte].
    destruct (hex_only_digits _ _ _ Ha) as [x ->], (hex_only_digits _ _ _ Hb) as [y ->].
    by eexists. }
  revert Hb. clear. generalize (seq 0 6) as l. induction l as [|i l IH]; intros Hb; [by exists []|].
  destruct (Hb i) as [b Hi]; [by left|]. destruct IH as [v Hv]; [intros j Hj; apply Hb; by right|].
  exists (b :: v). cbn [collect_results]. by rewrite Hi, Hv.
Qed.

(** The identity is the clock's nanoseconds, not 48 random bits: two of a
    VMAC's bytes repeat two others, and the device UUID begins with the VMAC of
    the same instant. *)
Theorem vmac_repeats seed :
  ∃ a b c d, random_vmac seed = [a; b; c; d; Z.lxor a 124; Z.lxor b 132] ∧
    take 6 (random_uuid seed) = random_vmac seed.
Proof.
  unfold random_vmac, random_uuid, getrandom_fill. cbn [seq fmap list_fmap take].
  assert (∀ k m n, as_unsigned 8 (Z.lxor k m) = Z.lxor (as_unsigned 8 (Z.lxor k n))
                     (as_unsigned 8 (Z.lxor m n))) as Hx.
  { intros k m n. unfold as_unsigned. rewrite <- !Z.land_ones by lia.
    apply Z.bits_inj'. intros i Hi. rewrite !Z.lxor_spec, !Z.land_spec, !Z.lxor_spec.
    by destruct (Z.testbit k i), (Z.testbit m i), (Z.testbit n i), (Z.testbit (Z.ones 8) i). }
  do 4 eexists. split; [|done]. do 4 f_equal. f_equal.
  - rewrite (Hx _ (Z.of_nat 4 * 31) (Z.of_nat 0 * 31)). f_equal.
  - f_equal. rewrite (Hx _ (Z.of_nat 5 * 31) (Z.of_nat 1 * 31)). f_equal.
Qed.

(** ** Frames *)

Lemma wrap_bvlc_shape `{BacnetCodec} apdu :
  wrap_bvlc apdu = [0x81; 0x0A; as_unsigned 8 (Z.shiftr (as_unsigned 16
    (Z.of_nat (4 + length (npdu_request ++ apdu)))) 8);
    Z.land (as_unsigned 16 (Z.of_nat (4 + length (npdu_request ++ apdu)))) 0xFF]
    ++ npdu_request ++ apdu.
Proof. done. Qed.

Section Frames.
Context `{BacnetCodec}.
(** The decoders read what the encoders write. *)
Hypothesis npdu_law : ∀ rest, npdu_decode (npdu_request ++ rest) = Some (length npdu_request).
Hypothesis apdu_law : ∀ a, apdu_decode (apdu_encode a) = Some a.

(** A frame of fewer than 65536 bytes carries its own length,
    big-endian, in its header, and unwrapping the frame gives its APDU back: an
    acknowledged read is its first numeric value, a device's error is that
    error. *)
Theorem bvlc_round_trip apdu :
  let frame := wrap_bvlc (apdu_encode apdu) in
  let payload := npdu_request ++ apdu_encode apdu in
  (Z.of_nat (4 + length payload) < 2 ^ 16 →
    ∃ hi lo, frame = [0x81; 0x0A; hi; lo] ++ payload ∧ 0 <= hi < 256 ∧ 0 <= lo < 256 ∧
      hi * 256 + lo = Z.of_nat (length frame)) ∧
  parse_response frame =
    match apdu with
    | ComplexAck true data =>
        match rp_response data with
        | Some vs => ok_or (first_numeric vs) NoNumericValue
        | None => Err (LibraryError "rp resp decode")
        end
    | ApduError class code => Err (BacnetRefused class code)
    | _ => Err UnexpectedApdu
    end.
Proof.
  intros frame payload. subst frame. rewrite wrap_bvlc_shape. fold payload. split.
  - intros Hlen. do 2 eexists. split; [done|].
    rewrite (as_unsigned_id 16) by lia. rewrite Z.shiftr_div_pow2 by lia.
    change 255 with (Z.ones 8). rewrite Z.land_ones by lia.
    set (n := Z.of_nat _) in *. assert (0 <= n) by lia.
    rewrite as_unsigned_id by (split; [apply Z.div_pos|apply Z.div_lt_upper_bound]; lia).
    split; [split; [apply Z.div_pos|apply Z.div_lt_upper_bound]; lia|].
    split; [by apply Z.mod_pos_bound|].
    pose proof (Z.div_mod n (2 ^ 8)). lia.
  - unfold parse_response. set (header := [_; _; _; _]).
    rewrite length_app. change (length header) with 4%nat.
    rewrite (bool_decide_false (4 + _ < 4)%nat) by lia. cbn [orb].
    rewrite bool_decide_true by done. cbn [negb].
    change (drop 4 (header ++ payload)) with payload. unfold payload at 1. rewrite npdu_law.
    cbn [ok_or result_bind].
    rewrite bool_decide_false by (unfold payload; rewrite length_app; lia).
    change (drop (4 + length npdu_request) (header ++ payload)) with (drop (length npdu_request) payload).
    unfold payload. rewrite drop_app_length, apdu_law. cbn [ok_or result_bind].
    destruct apdu as [i data|[] data|class code|]; try done. cbn [result_bind].
    by destruct (rp_response data).
Qed.
End Frames.

(** A codec with one-byte tags. *)
#[export] Instance demo_codec : BacnetCodec := {
  npdu_request := [1; 4];
  npdu_decode l := match l with 1 :: 4 :: _ => Some 2%nat | _ => None end;
  apdu_encode a :=
    match a with
    | ConfirmedReadProperty i l => 0 :: i :: l
    | ComplexAck b l => 48 :: (if b then 12 else 0) :: l
    | ApduError c e => [80; c; e]
    | OtherApdu => []
    end;
  apdu_decode l :=
    match l with
    | 0 :: i :: l => Some (ConfirmedReadProperty i l)
    | 48 :: 12 :: l => Some (ComplexAck true l)
    | 48 :: 0 :: l => Some (ComplexAck false l)
    | [80; c; e] => Some (ApduError c e)
    | [] => Some OtherApdu
    | _ => None
    end;
  rp_request n := Some [n];
  rp_response l := Some (OtherProperty :: (Unsigned <$> l));
}.

Lemma bvlc_round_trip_witness :
  wrap_bvlc (apdu_encode (ComplexAck true [21])) = [129; 10; 0; 9; 1; 4; 48; 12; 21] ∧
  parse_response [129; 10; 0; 9; 1; 4; 48; 12; 21] = Ok (of_Z 21).
Proof.
  split; [by vm_compute|].
  refine (proj2 (bvlc_round_trip _ _ (ComplexAck true [21]))); [done|].
  by intros [i l|[] l|c e|].
Defined.

(** ** DNP3 *)

Definition readings (k : PointKind) (batch : Batch) : list (Z * f64) :=
  match k, batch with
  | AnalogInput, Analogs l => l
  | BinaryInput, Binaries l => (λ p : Z * bool, (p.1, if p.2 then of_Z 1 else of_Z 0)) <$> l
  | _, _ => []
  end.

Lemma capture_readings k out batch :
  capture k out batch = foldl (λ m '(i, x), <[i := x]> m) out (readings k batch).
Proof.
  destruct k, batch as [l|l]; try done. cbn [capture readings].
  revert out. induction l as [|[i x] l IH]; intros out; [done|]. rewrite fmap_cons. apply IH.
Qed.

(** What a DNP3 read answers is the last value of the
    binding's own kind that the outstation sent for that index, in the startup
    integrity poll or in the read; a value of the other kind at the same index
    is never taken for it. *)
Theorem dnp3_reads_the_last k batches index :
  foldl (capture k) ∅ batches !! index =
    last (snd <$> List.filter (λ p, p.1 =? index) (batches ≫= readings k)).
Proof.
  rewrite <- (reverse_involutive batches). induction (reverse batches) as [|batch bs IH]; [done|].
  rewrite reverse_cons, foldl_snoc, bind_app, bind_singleton, capture_readings.
  rewrite List.filter_app, fmap_app. rewrite last_app.
  rewrite <- (reverse_involutive (readings k batch)).
  induction (reverse (readings k batch)) as [|[i x] l IHl]; [exact IH|].
  rewrite reverse_cons, foldl_snoc, List.filter_app, fmap_app, last_app. cbn [List.filter fst].
  destruct (Z.eqb_spec i index) as [->|Hne]; [by rewrite lookup_insert_eq|].
  rewrite lookup_insert_ne by done. exact IHl.
Qed.
