(* ===== verification/Sunspec.v ===== *)
(** * SunSpec: [src/sunspec/models.rs], [resolve.rs], [discover.rs],
    [client.rs], [write.rs], [bits.rs] and [heartbeat.rs]

    Points named by model and id, resolved against the shipped model tables and
    the device's discovered map, then read and written over [Transport].
    Register addresses are 16-bit: release arithmetic wraps ([add16]). *)

From Stdlib Require Import ZArith Lia Floats.
From S2P Require Import Prelude F64 Binary64 Integers Codec Bindings Transport.
Local Open Scope Z_scope.
Local Open Scope gateway_scope.

(** ** Models *)

Module Models.
Inductive PointType := PInt16 | PUint16 | PInt32 | PAcc32 | PEnum16 | PBitfield32 | PSunssf.

#[export] Instance PointType_eq_dec : EqDecision PointType.
Proof. solve_decision. Defined.

Definition point_register_count (k : PointType) : Z :=
  match k with
  | PInt16 | PUint16 | PEnum16 | PSunssf => 1
  | PInt32 | PAcc32 | PBitfield32 => 2
  end.

Record PointDef := mkPoint {
  pd_id : string;
  pd_offset : Z;
  pd_kind : PointType;
  pd_sf : option string;
  pd_writable : bool;
}.

Definition r id offset kind sf : PointDef := mkPoint id offset kind sf false.
Definition w id offset kind sf : PointDef := mkPoint id offset kind sf true.

Definition COMMON : list PointDef := [w "DA" 64 PUint16 None].

Definition INVERTER_THREE_PHASE : list PointDef :=
  [r "A" 0 PUint16 (Some "A_SF"%string); r "AphA" 1 PUint16 (Some "A_SF"%string);
   r "AphB" 2 PUint16 (Some "A_SF"%string); r "AphC" 3 PUint16 (Some "A_SF"%string);
   r "A_SF" 4 PSunssf None;
   r "PPVphAB" 5 PUint16 (Some "V_SF"%string); r "PPVphBC" 6 PUint16 (Some "V_SF"%string);
   r "PPVphCA" 7 PUint16 (Some "V_SF"%string); r "PhVphA" 8 PUint16 (Some "V_SF"%string);
   r "PhVphB" 9 PUint16 (Some "V_SF"%string); r "PhVphC" 10 PUint16 (Some "V_SF"%string);
   r "V_SF" 11 PSunssf None;
   r "W" 12 PInt16 (Some "W_SF"%string); r "W_SF" 13 PSunssf None;
   r "Hz" 14 PUint16 (Some "Hz_SF"%string); r "Hz_SF" 15 PSunssf None;
   r "VA" 16 PInt16 (Some "VA_SF"%string); r "VA_SF" 17 PSunssf None;
   r "VAr" 18 PInt16 (Some "VAr_SF"%string); r "VAr_SF" 19 PSunssf None;
   r "PF" 20 PInt16 (Some "PF_SF"%string); r "PF_SF" 21 PSunssf None;
   r "WH" 22 PAcc32 (Some "WH_SF"%string); r "WH_SF" 24 PSunssf None;
   r "DCA" 25 PUint16 (Some "DCA_SF"%string); r "DCA_SF" 26 PSunssf None;
   r "DCV" 27 PUint16 (Some "DCV_SF"%string); r "DCV_SF" 28 PSunssf None;
   r "DCW" 29 PInt16 (Some "DCW_SF"%string); r "DCW_SF" 30 PSunssf None;
   r "TmpCab" 31 PInt16 (Some "Tmp_SF"%string); r "TmpSnk" 32 PInt16 (Some "Tmp_SF"%string);
   r "TmpTrns" 33 PInt16 (Some "Tmp_SF"%string); r "TmpOt" 34 PInt16 (Some "Tmp_SF"%string);
   r "Tmp_SF" 35 PSunssf None;
   r "St" 36 PEnum16 None; r "StVnd" 37 PEnum16 None;
   r "Evt1" 38 PBitfield32 None; r "Evt2" 40 PBitfield32 None;
   r "EvtVnd1" 42 PBitfield32 None; r "EvtVnd2" 44 PBitfield32 None;
   r "EvtVnd3" 46 PBitfield32 None; r "EvtVnd4" 48 PBitfield32 None].

Definition EPC_CONTROL : list PointDef :=
  [w "CmdBits" 0 PBitfield32 None;
   w "CmdRealPwr" 2 PInt32 (Some "PWR_SF"%string);
   w "CmdReactivePwr" 4 PInt32 (Some "PWR_SF"%string);
   r "PWR_SF" 6 PSunssf None;
   w "CmdV" 7 PUint16 (Some "V_SF"%string); r "V_SF" 8 PSunssf None;
   w "CmdHz" 9 PUint16 (Some "HZ_SF"%string); r "HZ_SF" 10 PSunssf None;
   w "CtlSrc" 11 PEnum16 None;
   r "IMPPT" 12 PInt16 (Some "A_SF"%string); r "Ivctl" 13 PInt16 (Some "A_SF"%string);
   r "Vsol" 14 PInt16 (Some "V_SF"%string); r "Vbat" 15 PInt16 (Some "V_SF"%string);
   r "A_SF" 16 PSunssf None;
   w "Spcl" 17 PBitfield32 None;
   r "SysFlt" 19 PUint16 None; r "FltFlgs" 20 PBitfield32 None; r "WrnFlgs" 22 PBitfield32 None;
   w "CmdRealCurrent" 24 PInt16 (Some "A_SF"%string);
   w "CmdReactiveCurrent" 25 PInt16 (Some "A_SF"%string);
   r "RealCurrent" 26 PInt16 (Some "A_SF"%string); r "ReactiveCurrent" 27 PInt16 (Some "A_SF"%string);
   r "LocVAC" 28 PUint16 (Some "V_SF"%string);
   r "RemPhVphA" 29 PUint16 (Some "V_SF"%string); r "RemPhVphB" 30 PUint16 (Some "V_SF"%string);
   r "RemPhVphC" 31 PUint16 (Some "V_SF"%string); r "RemVAC" 32 PUint16 (Some "V_SF"%string);
   r "RemHz" 33 PUint16 (Some "HZ_SF"%string); r "TMP_SF" 34 PSunssf None;
   r "TmpInt" 35 PInt16 (Some "TMP_SF"%string); r "TmpInlet" 36 PInt16 (Some "TMP_SF"%string);
   r "RemPPVphCA" 37 PUint16 (Some "V_SF"%string); r "RemPPVphAB" 38 PUint16 (Some "V_SF"%string);
   r "RemPPVphBC" 39 PUint16 (Some "V_SF"%string);
   w "DcILim" 40 PUint16 (Some "A_SF"%string); w "DcVLim" 41 PUint16 (Some "V_SF"%string);
   w "LineILim" 42 PUint16 (Some "A_SF"%string); w "InputCurrent" 43 PInt16 (Some "A_SF"%string)].

Definition model_points (model_id : Z) : option (list PointDef) :=
  if model_id =? 1 then Some COMMON
  else if model_id =? 103 then Some INVERTER_THREE_PHASE
  else if model_id =? 65534 then Some EPC_CONTROL
  else None.

Definition point (model_id : Z) (id : string) : option PointDef :=
  points ← model_points model_id; find_first (λ p, bool_decide (pd_id p = id)) points.

(** The tables fit together: ids are unique, points do not overlap, every
    scale factor named is a [sunssf] point of the same model. *)
Definition table_ok (points : list PointDef) : bool :=
  bool_decide (NoDup (pd_id <$> points)) &&
  forallb (λ p, forallb (λ q,
    bool_decide (pd_id p = pd_id q)
    || (pd_offset p + point_register_count (pd_kind p) <=? pd_offset q)
    || (pd_offset q + point_register_count (pd_kind q) <=? pd_offset p)) points) points &&
  forallb (λ p, match pd_sf p with
    | None => true
    | Some sf => match find_first (λ q, bool_decide (pd_id q = sf)) points with
                 | Some q => bool_decide (pd_kind q = PSunssf)
                 | None => false
                 end
    end) points.
End Models.
Import Models.

Lemma model_tables_ok model_id points : model_points model_id = Some points → table_ok points = true.
Proof.
  unfold model_points. destruct (model_id =? 1); [intros [= <-]; by vm_compute|].
  destruct (model_id =? 103); [intros [= <-]; by vm_compute|].
  destruct (model_id =? 65534); [intros [= <-]; by vm_compute|done].
Qed.

(** ** Resolving a binding *)

Definition BITFIELD_BITS : Z := 32.

Inductive resolve_error :=
| NoPoint | BitPast (bit : Z) | NotABitfield | ReadOnly | WholeBitfield | NoModel (model_id : Z).

Definition readable (b : SunspecBinding) : result resolve_error PointDef :=
  def <-? ok_or (point (ss_model_id b) (ss_point b)) NoPoint;
  match ss_bit b, pd_kind def with
  | Some bit, PBitfield32 => if bit <? BITFIELD_BITS then Ok def else Err (BitPast bit)
  | Some _, _ => Err NotABitfield
  | None, _ => Ok def
  end.

Definition writable (b : SunspecBinding) : result resolve_error PointDef :=
  def <-? readable b;
  if negb (pd_writable def) then Err ReadOnly
  else if bool_decide (pd_kind def = PBitfield32) && bool_decide (ss_bit b = None)
  then Err WholeBitfield
  else Ok def.

Definition ModelMap : Type := gmap Z Z.

(** [u16 + u16], wrapping. *)
Definition add16 (a b : Z) : Z := as_unsigned 16 (a + b).

(** [address]: the [expect] on the scale factor never fires ([address_sf]). *)
Definition address (models : ModelMap) (b : SunspecBinding) (def : PointDef)
    : result resolve_error (Z * option Z) :=
  start <-? ok_or (models !! ss_model_id b) (NoModel (ss_model_id b));
  let sf := pd_sf def ≫= point (ss_model_id b) in
  Ok (add16 start (pd_offset def), (λ sf, add16 start (pd_offset sf)) <$> sf).

(** ** The bits a command drives *)

Inductive BitAction := Set_ | Clear | Pulse.

#[export] Instance BitAction_eq_dec : EqDecision BitAction.
Proof. solve_decision. Defined.

(** [action]: [None] is "verb doesn't drive a bit". *)
Definition action (verb : string) (value : f64) : option BitAction :=
  if bool_decide (verb = "enable"%string) || bool_decide (verb = "start"%string) then Some Set_
  else if bool_decide (verb = "disable"%string) || bool_decide (verb = "stop"%string) then Some Clear
  else if bool_decide (verb = "clear"%string) || bool_decide (verb = "reset"%string) then Some Pulse
  else if bool_decide (verb = "set"%string) then
    Some (if negb (f_eqb value (of_Z 0)) then Set_ else Clear)
  else None.

Definition WordKey : Type := string * Z * string * Z * string.

Definition word_key (b : SunspecBinding) : WordKey :=
  (ss_host b, ss_port b, ss_unit_id b, ss_model_id b, ss_point b).

(** [apply]: the word to write and the word to keep; [None] with no heartbeat.
    [1u32 << bit] shifts by [bit] modulo 32. *)
Definition bit_mask (bit : Z) : Z := Z.shiftl 1 (bit mod 32).
Definition and_not (a b : Z) : Z := Z.land a (as_unsigned 32 (Z.lnot b)).

Definition apply (word : option Z) (bit : Z) (a : BitAction) : option (Z * Z) :=
  word ← word;
  let mask := bit_mask bit in
  Some match a with
  | Set_ => (Z.lor word mask, Z.lor word mask)
  | Clear => (and_not word mask, and_not word mask)
  | Pulse => (Z.lor word mask, and_not word mask)
  end.

(** [heartbeat::beats]: the bits some command owns, per word.  [commands] lists
    the devices' sunspec commands in the order the maps are walked. *)
Record Beat := mkBeat {
  beat_device_id : string;
  beat_point : SunspecBinding;
  beat_owned : Z;
}.

Definition whole_word (b : SunspecBinding) : SunspecBinding :=
  mkSunspec (ss_host b) (ss_port b) (ss_unit_id b) (ss_model_id b) (ss_point b) None.

Definition beats (commands : list (string * ProtocolBinding)) : gmap WordKey Beat :=
  foldl (λ found '(device_id, binding),
    match binding with
    | Sunspec b =>
        match ss_bit b with
        | None => found
        | Some bit =>
            let beat := default (mkBeat device_id (whole_word b) 0) (found !! word_key b) in
            <[word_key b := mkBeat (beat_device_id beat) (beat_point beat)
                              (Z.lor (beat_owned beat) (bit_mask bit))]> found
        end
    | _ => found
    end) ∅ commands.

(** ** Discovery, reads and writes *)

Inductive sunspec_error :=
| ModbusError (e : modbus_error)
| ResolveError (e : resolve_error)
| NoMarker
| RunsPast (model_id addr : Z)
| RegisterNotImplemented (addr : Z)
| NotASetpoint
| NamesNoBit
| NoHeartbeat
| ScaleFactor (e : string).

(** The statics: discovered model maps per device, asserted words per point. *)
Class SunspecState (W : Type) := {
  models_cache : W → gmap (string * Z * Z) ModelMap;
  set_models_cache : gmap (string * Z * Z) ModelMap → W → W;
  words : W → gmap WordKey Z;
  set_words : gmap WordKey Z → W → W;
}.

Section Client.
Context {W : Type} `{Rodbus W} `{SessionCache W} `{SunspecState W}.

Definition lift {A} (r : result modbus_error A * W) : result sunspec_error A * W :=
  match r with (Ok a, w) => (Ok a, w) | (Err e, w) => (Err (ModbusError e), w) end.

Definition END : Z := 0xFFFF.
Definition MARKER : list Z := [0x5375; 0x6e53].
Definition BASES : list Z := [40000; 0; 50000].

(** The chain walk.  [None] is out of fuel. *)
Fixpoint walk (fuel : nat) (s : Session) (unit_id addr : Z) (models : ModelMap) (w : W)
    : option (result sunspec_error ModelMap * W) :=
  match fuel with
  | O => None
  | S fuel =>
      match read_registers s unit_id addr 2 Holding w with
      | (Err e, w) => Some (Err (ModbusError e), w)
      | (Ok [id; len], w) =>
          if id =? END then Some (Ok models, w)
          else
            let start := add16 addr 2 in
            if 65536 <=? start + len then Some (Err (RunsPast id addr), w)
            else walk fuel s unit_id (start + len) (<[id := start]> models) w
      | (Ok _, w) => Some (Err (ModbusError ShortRead), w)
      end
  end.

(** [discover]: the first base whose two registers are the marker. *)
Fixpoint discover_at (fuel : nat) (bases : list Z) (s : Session) (unit_id : Z) (w : W)
    : option (result sunspec_error ModelMap * W) :=
  match bases with
  | [] => Some (Err NoMarker, w)
  | base :: bases =>
      match read_registers s unit_id base 2 Holding w with
      | (Ok ws, w) =>
          if bool_decide (ws = MARKER) then walk fuel s unit_id (add16 base 2) ∅ w
          else discover_at fuel bases s unit_id w
      | (Err (Refused (Exception _)), w) => discover_at fuel bases s unit_id w
      | (Err e, w) => Some (Err (ModbusError e), w)
      end
  end.
Definition discover (fuel : nat) := discover_at fuel BASES.

Definition device_key (b : SunspecBinding) : option (string * Z * Z) :=
  u ← parse_u8 (ss_unit_id b); Some (ss_host b, ss_port b, u).

Definition forget (k : string * Z * Z) (w : W) : W :=
  set_models_cache (delete k (models_cache w)) w.

(** [client::models]. *)
Definition get_models (fuel : nat) (s : Session) (k : string * Z * Z) (w : W)
    : option (result sunspec_error ModelMap * W) :=
  match models_cache w !! k with
  | Some m => Some (Ok m, w)
  | None =>
      '(r, w) ← discover fuel s k.2 w;
      Some match r with
      | Ok m => (Ok m, set_models_cache (<[k := m]> (models_cache w)) w)
      | Err e => (Err e, w)
      end
  end.

Definition not_implemented (k : PointType) : list Z :=
  match k with
  | PInt16 | PSunssf => [0x8000]
  | PUint16 | PEnum16 => [0xFFFF]
  | PInt32 => [0x8000; 0x0000]
  | PAcc32 => [0x0000; 0x0000]
  | PBitfield32 => [0xFFFF; 0xFFFF]
  end.

Definition data_type (k : PointType) : ModbusDataType :=
  match k with
  | PInt16 | PSunssf => Int16
  | PUint16 | PEnum16 => Uint16
  | PInt32 => Int32
  | PAcc32 | PBitfield32 => Uint32
  end.

(** [client::read]. *)
Definition read_point_registers (s : Session) (unit_id addr : Z) (k : PointType) (w : W)
    : result sunspec_error (list Z) * W :=
  match lift (read_registers s unit_id addr (point_register_count k) Holding w) with
  | (Ok ws, w) =>
      if bool_decide (ws = not_implemented k) then (Err (RegisterNotImplemented addr), w)
      else (Ok ws, w)
  | r => r
  end.

(** [apply_sunssf(raw, sf[0])] on a scale factor register just read. *)
Definition scale_by (raw : f64) (ws : list Z) : result sunspec_error f64 :=
  match ws with
  | [] => Err (ModbusError ShortRead)
  | sf :: _ => match apply_sunssf raw sf with Ok x => Ok x | Err e => Err (ScaleFactor e) end
  end.

(** [client::read_point]. *)
Definition read_point (fuel : nat) (s : Session) (k : string * Z * Z) (b : SunspecBinding)
    (def : PointDef) (w : W) : option (result sunspec_error f64 * W) :=
  '(m, w) ← get_models fuel s k w;
  Some match (m <-? m; match address m b def with
                       | Ok a => Ok a | Err e => Err (ResolveError e) end) with
  | Err e => (Err e, w)
  | Ok (addr, sf_addr) =>
      match read_point_registers s k.2 addr (pd_kind def) w with
      | (Err e, w) => (Err e, w)
      | (Ok ws, w) =>
          match decode_raw ws (data_type (pd_kind def)) HighLow with
          | None => (Err (ModbusError ShortRead), w)
          | Some raw =>
              match ss_bit b with
              | Some bit => (Ok (of_Z (Z.land (Z.shiftr (f64_as_u32 raw) bit) 1)), w)
              | None =>
                  match sf_addr with
                  | None => (Ok raw, w)
                  | Some sf_addr =>
                      match read_point_registers s k.2 sf_addr PSunssf w with
                      | (Err e, w) => (Err e, w)
                      | (Ok sf, w) => (scale_by raw sf, w)
                      end
                  end
              end
          end
      end
  end.

(** [client::read_on]: a failed read forgets the device's map. *)
Definition sunspec_read_on (fuel : nat) (s : Session) (b : SunspecBinding) (w : W)
    : option (result sunspec_error f64 * W) :=
  match readable b, device_key b with
  | Err e, _ => Some (Err (ResolveError e), w)
  | Ok _, None => Some (Err (ModbusError BadUnitId), w)
  | Ok def, Some k =>
      '(r, w) ← read_point fuel s k b def w;
      Some (r, if is_ok r then w else forget k w)
  end.

(** [write::write]. *)
Definition write_scaled (fuel : nat) (b : SunspecBinding) (value : f64) (k : string * Z * Z)
    (trust : option DeviceTrust) (creds : option GatewayCredentials) (w : W)
    : option (result sunspec_error unit * W) :=
  match writable b with
  | Err e => Some (Err (ResolveError e), w)
  | Ok def =>
      if negb (bool_decide (ss_bit b = None)) then Some (Err NotASetpoint, w)
      else
        match lift (write_channel (ss_host b) (ss_port b) trust creds w) with
        | (Err e, w) => Some (Err e, w)
        | (Ok s, w) =>
            '(m, w) ← get_models fuel s k w;
            Some match (m <-? m; match address m b def with
                                 | Ok a => Ok a | Err e => Err (ResolveError e) end) with
            | Err e => (Err e, w)
            | Ok (addr, sf_addr) =>
                let '(scale, w) :=
                  match sf_addr with
                  | None => (Ok (of_Z 1), w)
                  | Some sf_addr =>
                      match read_point_registers s k.2 sf_addr PSunssf w with
                      | (Err e, w) => (Err e, w)
                      | (Ok sf, w) => (scale_by (of_Z 1) sf, w)
                      end
                  end in
                match scale with
                | Err e => (Err e, w)
                | Ok scale =>
                    match encode_raw (f_div value scale) (data_type (pd_kind def)) HighLow with
                    | Err e => (Err (ModbusError (CodecError e)), w)
                    | Ok ws => lift (write_registers s k.2 addr ws Multiple w)
                    end
                end
            end
        end
  end.

(** [write::write_setpoint]. *)
Definition sunspec_write_setpoint (fuel : nat) (b : SunspecBinding) (value : f64)
    (trust : option DeviceTrust) (creds : option GatewayCredentials) (w : W)
    : option (result sunspec_error unit * W) :=
  match device_key b with
  | None => Some (Err (ModbusError BadUnitId), w)
  | Some k =>
      '(r, w) ← write_scaled fuel b value k trust creds w;
      Some (r, if is_ok r then w else forget k w)
  end.

(** [write::word_address]. *)
Definition word_address (fuel : nat) (s : Session) (k : string * Z * Z) (b : SunspecBinding)
    (w : W) : option (result sunspec_error (Z * PointDef) * W) :=
  match readable b with
  | Err e => Some (Err (ResolveError e), w)
  | Ok def =>
      if negb (bool_decide (pd_kind def = PBitfield32))
      then Some (Err (ResolveError NotABitfield), w)
      else
        '(m, w) ← get_models fuel s k w;
        Some (m <-? m; match address m b def with
                       | Ok (addr, _) => Ok (addr, def)
                       | Err e => Err (ResolveError e)
                       end, w)
  end.

(** [write::write_word]. *)
Definition write_word (fuel : nat) (b : SunspecBinding) (word : Z) (trust : option DeviceTrust)
    (creds : option GatewayCredentials) (w : W) : option (result sunspec_error unit * W) :=
  match device_key b with
  | None => Some (Err (ModbusError BadUnitId), w)
  | Some k =>
      match lift (write_channel (ss_host b) (ss_port b) trust creds w) with
      | (Err e, w) => Some (Err e, w)
      | (Ok s, w) =>
          '(a, w) ← word_address fuel s k b w;
          match a with
          | Err e => Some (Err e, w)
          | Ok (addr, _) =>
              let '(r, w) := lift (write_registers s k.2 addr (encode_uint32 word HighLow) Multiple w) in
              Some (r, if is_ok r then w else forget k w)
          end
      end
  end.

(** [write::read_word]. *)
Definition read_word (fuel : nat) (b : SunspecBinding) (trust : option DeviceTrust)
    (creds : option GatewayCredentials) (w : W) : option (result sunspec_error Z * W) :=
  match device_key b with
  | None => Some (Err (ModbusError BadUnitId), w)
  | Some k =>
      match lift (write_channel (ss_host b) (ss_port b) trust creds w) with
      | (Err e, w) => Some (Err e, w)
      | (Ok s, w) =>
          '(a, w) ← word_address fuel s k b w;
          match a with
          | Err e => Some (Err e, w)
          | Ok (addr, def) =>
              match read_point_registers s k.2 addr (pd_kind def) w with
              | (Err e, w) => Some (Err e, w)
              | (Ok ws, w) => Some (ok_or (decode_uint32 ws HighLow) (ModbusError ShortRead), w)
              end
          end
      end
  end.

(** [write::write_bit]: under the word's lock, write, then keep asserting. *)
Definition write_bit (fuel : nat) (b : SunspecBinding) (a : BitAction) (trust : option DeviceTrust)
    (creds : option GatewayCredentials) (w : W) : option (result sunspec_error unit * W) :=
  match ss_bit b with
  | None => Some (Err NamesNoBit, w)
  | Some bit =>
      match apply (words w !! word_key b) bit a with
      | None => Some (Err NoHeartbeat, w)
      | Some (now, keep) =>
          '(r, w) ← write_word fuel b now trust creds w;
          Some (r, if is_ok r then set_words (<[word_key b := keep]> (words w)) w else w)
      end
  end.

(** One beat of [heartbeat::spawn], under the word's lock: forget the word
    while the EMS cannot steer, seed it on the first beat, write it. *)
Definition beat_once (fuel : nat) (beat : Beat) (steerable : bool) (trust : option DeviceTrust)
    (creds : option GatewayCredentials) (w : W) : option W :=
  let k := word_key (beat_point beat) in
  if negb steerable then Some (set_words (delete k (words w)) w)
  else
    '(asserted, w) ← match words w !! k with
      | Some word => Some (Some word, w)
      | None =>
          '(r, w) ← read_word fuel (beat_point beat) trust creds w;
          Some match r with
          | Ok read => let word := and_not read (beat_owned beat) in
                       (Some word, set_words (<[k := word]> (words w)) w)
          | Err _ => (None, w)
          end
      end;
    match asserted with
    | None => Some w
    | Some word => '(_, w) ← write_word fuel (beat_point beat) word trust creds w; Some w
    end.
End Client.

(** ** A device in memory

    A concrete world: a register map that answers every request in range, with
    the gateway's own statics.  The theorems about the client are stated for
    every world; examples and counterexamples run on this one. *)

Record MemWorld := mkMem {
  mem_regs : gmap Z Z;
  mem_sessions : gmap (string * Z * bool) Session;
  mem_models : gmap (string * Z * Z) ModelMap;
  mem_words : gmap WordKey Z;
}.

Definition mem_reg (w : MemWorld) (a : Z) : Z := default 0 (mem_regs w !! a).

Fixpoint mem_read (w : MemWorld) (addr : Z) (n : nat) : list Z :=
  match n with O => [] | S n => mem_reg w addr :: mem_read w (addr + 1) n end.

Fixpoint mem_write (regs : gmap Z Z) (addr : Z) (ws : list Z) : gmap Z Z :=
  match ws with [] => regs | x :: ws => mem_write (<[addr := x]> regs) (addr + 1) ws end.

#[export] Instance mem_rodbus : Rodbus MemWorld := {
  full_pki _ _ _ _ w := (Ok (), w);
  enable _ w := (true, w);
  address_range_ok addr count := (0 <? count) && (addr + count <=? 65536);
  write_multiple_ok addr ws := (0 <? Z.of_nat (length ws)) && (addr + Z.of_nat (length ws) <=? 65536);
  read_once _ _ _ addr count w := (Ok (mem_read w addr (Z.to_nat count)), w);
  write_once _ _ _ addr ws w :=
    (Ok (), mkMem (mem_write (mem_regs w) addr ws) (mem_sessions w) (mem_models w) (mem_words w));
}.

#[export] Instance mem_session_cache : SessionCache MemWorld := {
  sessions := mem_sessions;
  set_sessions m w := mkMem (mem_regs w) m (mem_models w) (mem_words w);
}.

#[export] Instance mem_sunspec_state : SunspecState MemWorld := {
  models_cache := mem_models;
  set_models_cache m w := mkMem (mem_regs w) (mem_sessions w) m (mem_words w);
  words := mem_words;
  set_words m w := mkMem (mem_regs w) (mem_sessions w) (mem_models w) m;
}.

(** A PCS at the usual base: models 1 (66 registers), 65534 (44), end. *)
Definition pcs : MemWorld :=
  mkMem (mem_write ∅ 40000
    ([0x5375; 0x6e53; 1; 66] ++ replicate 66 0 ++ [65534; 44] ++ [0; 0x00F6] ++ replicate 4 0 ++ [1]
      ++ replicate 37 0 ++ [0xFFFF; 0])) ∅ ∅ ∅.

Definition pcs_point (point : string) (bit : option Z) : SunspecBinding :=
  mkSunspec "pcs" 502 "1" 65534 point bit.

(** 250 kW with PWR_SF = 1 goes out as 25000 in registers 40074 and 40075. *)
Example pcs_write :
  match sunspec_write_setpoint 10 (pcs_point "CmdRealPwr" None) (of_Z 250000) None None pcs with
  | Some (Ok _, w) => (mem_reg w 40074, mem_reg w 40075)
  | _ => (0, 0)
  end = (0, 25000).
Proof. by vm_compute. Qed.

(** The heartbeat seeds with its own bits at 0; enabling bit 0 then keeps it. *)
Example pcs_enable :
  let beat := mkBeat "pcs_1" (pcs_point "CmdBits" None) 0x3 in
  match beat_once 10 beat true None None pcs with
  | Some w =>
      match write_bit 10 (pcs_point "CmdBits" (Some 0)) Set_ None None w with
      | Some (Ok _, w) => (mem_reg w 40072, mem_reg w 40073)
      | _ => (0, 0)
      end
  | None => (0, 0)
  end = (0, 0x00F5).
Proof. by vm_compute. Qed.

(** ** Bits *)

Lemma bit_mask_testbit bit i :
  0 <= bit < 32 → 0 <= i → Z.testbit (bit_mask bit) i = bool_decide (i = bit).
Proof.
  intros Hb Hi. unfold bit_mask. rewrite Z.mod_small, Z.shiftl_1_l by done.
  rewrite Z.pow2_bits_eqb by lia. case_bool_decide; [subst; apply Z.eqb_refl|].
  apply Z.eqb_neq. congruence.
Qed.

Lemma and_not_testbit a b i :
  0 <= i < 32 → Z.testbit (and_not a b) i = Z.testbit a i && negb (Z.testbit b i).
Proof.
  intros Hi. unfold and_not, as_unsigned. rewrite Z.land_spec, Z.mod_pow2_bits_low by lia.
  by rewrite Z.lnot_spec by lia.
Qed.

(** A bit command writes its bit on for [Set] and
    [Pulse], off for [Clear]; keeps asserting it only for [Set]; and leaves
    every other bit of the word as the heartbeat asserted it.  Without a
    heartbeat it is refused. *)
Theorem bit_command_one_bit (word : option Z) (bit : Z) (a : BitAction) :
  0 <= bit < 32 →
  match word, apply word bit a with
  | None, r => r = None
  | Some _, None => False
  | Some old, Some (now, keep) =>
      ∀ i, 0 <= i < 32 →
        Z.testbit now i = (if bool_decide (i = bit) then negb (bool_decide (a = Clear)) else Z.testbit old i) ∧
        Z.testbit keep i = (if bool_decide (i = bit) then bool_decide (a = Set_) else Z.testbit old i)
  end.
Proof.
  intros Hb. destruct word as [old|]; [|done]. simpl.
  destruct a; intros i Hi;
    rewrite ?Z.lor_spec, ?and_not_testbit, bit_mask_testbit by lia;
    case_bool_decide as Hib; simpl; rewrite ?orb_true_r, ?orb_false_r, ?andb_false_r, ?andb_true_r;
    done.
Qed.

Lemma bit_command_one_bit_witness :
  apply (Some 5) 1 Pulse = Some (7, 5) ∧ Z.testbit 7 1 = true ∧ Z.testbit 5 1 = false.
Proof.
  split; [by vm_compute|].
  exact (bit_command_one_bit (Some 5) 1 Pulse ltac:(lia) 1 ltac:(lia)).
Defined.

(** ** Termination of the walk *)

Section Walk.
Context {W : Type} `{Rodbus W}.

Lemma walk_terminates_gen (s : Session) unit_id :
  (∀ a w, 65534 <= a → match read_registers s unit_id a 2 Holding w with
                       | (Ok [id; _], _) => id = END | _ => True end) →
  ∀ fuel addr models (w : W), 0 <= addr < 65536 → 65536 - addr < 2 * Z.of_nat fuel →
    (∀ a w, match read_registers s unit_id a 2 Holding w with
            | (Ok l, _) => Forall word l | _ => True end) →
    is_Some (walk fuel s unit_id addr models w).
Proof.
  intros Htop fuel. induction fuel as [|fuel IH]; intros addr models w Ha Hf Hwords; [lia|].
  cbn [walk]. specialize (Htop addr w) as Ht. specialize (Hwords addr w) as Hw.
  destruct (read_registers s unit_id addr 2 Holding w) as [[[|id [|len [|? ?]]]|e] w'];
    try by eexists.
  destruct (Z.eqb_spec id END) as [|Hid]; [by eexists|].
  assert (addr < 65534) as Hlt by (destruct (Z.lt_ge_cases addr 65534); [done|by destruct Hid; apply Ht]).
  inversion Hw as [|?? _ Hw2]; subst. inversion Hw2 as [|?? Hlen _]; subst. unfold word in Hlen.
  unfold add16. rewrite as_unsigned_id by lia.
  destruct (Z.leb_spec 65536 (addr + 2 + len)); [by eexists|]. apply IH; [lia|lia|done].
Qed.
End Walk.

(** C40: on a device that serves 16-bit registers and has no model
    header in the last two of them, the model walk ends: at most 32768 headers
    are read from any starting address. *)
Theorem discovery_ends {W} {HW : Rodbus W} (s : Session) unit_id addr models (w : W) :
  (∀ a w, 65534 <= a → match read_registers s unit_id a 2 Holding w with
                       | (Ok [id; _], _) => id = END | _ => True end) →
  (∀ a w, match read_registers s unit_id a 2 Holding w with
          | (Ok l, _) => Forall word l | _ => True end) →
  0 <= addr < 65536 →
  is_Some (walk (Z.to_nat 32769) s unit_id addr models w).
Proof.
  intros Htop Hwords Ha. apply walk_terminates_gen; [done|done| |done].
  rewrite Z2Nat.id by done. lia.
Qed.

(** A device whose chain reaches a header at 65534: the next address wraps to
    the start of the chain. *)
Definition looping_device : MemWorld :=
  mkMem (<[2 := 103]> (<[3 := 65530]> (<[65534 := 103]> (<[65535 := 2]> ∅)))) ∅ ∅ ∅.

(** The walk checks that a model's length stays inside
    the address space but not that its header does: on a device with a header
    in the last two registers the address after it wraps to 0, and the walk
    never ends. *)
Theorem discovery_can_loop (s : Session) unit_id models (fuel : nat) :
  walk fuel s unit_id 2 models looping_device = None.
Proof.
  assert (read_registers s unit_id 2 2 Holding looping_device = (Ok [103; 65530], looping_device)) as H1
    by (by vm_compute).
  assert (read_registers s unit_id 65534 2 Holding looping_device = (Ok [103; 2], looping_device)) as H2
    by (by vm_compute).
  assert (∀ fuel models, walk fuel s unit_id 2 models looping_device = None ∧
                         walk fuel s unit_id 65534 models looping_device = None) as Hloop.
  { clear fuel models. induction fuel as [|fuel IH]; intros models; [done|].
    cbn [walk]. rewrite H1, H2. split; [apply (IH (<[103:=4]> models))|apply (IH (<[103:=0]> models))]. }
  apply Hloop.
Qed.

(** A device with one model at 2 and the end marker everywhere else. *)
Definition one_model : Rodbus () := {|
  full_pki _ _ _ _ w := (Ok (), w);
  enable _ w := (true, w);
  address_range_ok _ _ := true;
  write_multiple_ok _ _ := true;
  read_once _ _ _ addr _ w := (Ok (if addr =? 2 then [103; 50] else [0xFFFF; 0]), w);
  write_once _ _ _ _ _ w := (Ok (), w);
|}.

Lemma one_model_read s unit_id a w :
  @read_registers () one_model s unit_id a 2 Holding w =
  (Ok (if a =? 2 then [103; 50] else [0xFFFF; 0]), w).
Proof. done. Qed.

Lemma discovery_ends_witness :
  is_Some (@walk () one_model (Z.to_nat 32769) (mkSession "d" 502 None) 1 2 ∅ ()).
Proof.
  apply (@discovery_ends () one_model); [| |done].
  - intros a w Ha. rewrite one_model_read. destruct (Z.eqb_spec a 2); [lia|done].
  - intros a w. rewrite one_model_read. unfold word.
    destruct (a =? 2); repeat constructor; done.
Defined.
