(* ===== verification/Dispatch.v ===== *)
(** * Dispatch: [src/dispatch/mod.rs], [topic.rs], [requested.rs],
    [power_cap.rs], the write half of [distribute.rs] and
    [src/envelope/config.rs]

    The command consumer.  What it calls is an interface: [South] is the
    south-side write of each protocol (the writes are modelled in [Transport]
    and [Sunspec]), [Broker] the publish of one lifecycle event.  Both act on
    an abstract world [W].  [None] is a panic.  An error's text is the error
    value itself; [ts] of an event and the frame's JSON parse are left to the
    broker and to [parse_frame]. *)

From Stdlib Require Import ZArith Lia Floats Ascii.
From S2P Require Import Prelude F64 Binary64 Text Allocation Cache Payload Bindings PoiServo Sunspec Distribute.
Local Open Scope Z_scope.
Local Open Scope gateway_scope.

(** ** [topic.rs] *)

Record CommandTopic := mkCommandTopic {
  ct_device_id : string;
  ct_verb : string;
  ct_target : string;
}.

Definition parse_command_topic (topic site_id : string) : option CommandTopic :=
  match str_split "/" topic with
  | "sites"%string :: site :: "devices"%string :: device_id :: "commands"%string :: verb :: target :: _ =>
      if bool_decide (site = site_id) && negb (str_is_empty device_id)
         && negb (str_is_empty verb) && negb (str_is_empty target)
      then Some (mkCommandTopic device_id verb target) else None
  | _ => None
  end.

Definition command_topic (site_id device_id verb target unit : string) : string :=
  str_join "/" ["sites"%string; site_id; "devices"%string; device_id; "commands"%string; verb; target; unit].

Definition event_topic (site_id device_id : string) : string :=
  "sites/" ++ site_id ++ "/devices/" ++ device_id ++ "/events/dispatch_state".

(** ** [requested.rs] *)

(** Device to [{verb}_{target}] to requested value. *)
Abbreviation Requested := (gmap string (gmap string f64)).

Definition requested_of (r : Requested) (device_id key : string) : option f64 :=
  m ← r !! device_id; m !! key.

Definition record_request (r : Requested) (device_id key : string) (value : f64)
    : Requested * option f64 :=
  let device := default ∅ (r !! device_id) in
  (<[device_id := <[key := value]> device]> r, device !! key).

(** [device.get(key) != Some(&value)] compares floats. *)
Definition restore_request (r : Requested) (device_id key : string) (value : f64)
    (previous : option f64) : Requested :=
  match r !! device_id with
  | None => r
  | Some device =>
      match device !! key with
      | Some v =>
          if f_eqb v value then
            <[device_id := match previous with
                           | Some p => <[key := p]> device
                           | None => delete key device
                           end]> r
          else r
      | None => r
      end
  end.

(** ** [envelope/config.rs] *)

Record EnvelopeGuardConfig := mkGuard {
  control : EnvelopeConfig f64;
  guard_power_min : f64;
  guard_power_max : f64;
  guard_import_limit_topic : string;
  guard_export_limit_topic : string;
  guard_active_power_topic : string;
  guard_poi_active_power_topic : option string;
}.

(** The outer [None] is [Duration::from_secs_f64]'s panic, the inner one a
    binding that is not guarded.  Fields are read in the source's order. *)
Definition envelope_guard_config (d : DistributeBinding) : option (option EnvelopeGuardConfig) :=
  match db_ramp_rate_per_sec d, db_hysteresis_margin d, db_hysteresis_dwell_secs d with
  | Some ramp, Some margin, Some secs =>
      dwell ← duration_from_secs_f64 secs;
      Some (pmin ← db_power_min d; pmax ← db_power_max d;
            import ← db_import_limit_topic d; export ← db_export_limit_topic d;
            active ← db_active_power_topic d;
            Some (mkGuard (mkConfig ramp margin dwell) pmin pmax import export active
                    (db_poi_active_power_topic d)))
  | _, _, _ => Some None
  end.

(** ** Interfaces *)

Class South (W : Type) := {
  modbus_write : ModbusTcpBinding → f64 → option DeviceTrust → option GatewayCredentials →
    W → result error unit * W;
  sunspec_write : SunspecBinding → f64 → option DeviceTrust → option GatewayCredentials →
    W → result error unit * W;
  sunspec_write_bit : SunspecBinding → BitAction → option DeviceTrust → option GatewayCredentials →
    W → result error unit * W;
  redfish_write : RedfishBinding → f64 → option DeviceTrust → option GatewayCredentials →
    W → result error unit * W;
}.

Inductive Phase := Received | Done | Failed.

Inductive reason :=
| LockedOut (device_id : string)
| UnknownCommand (channel_key device_id : string)
| WriteFailed (e : error).

Record LifecycleEvent := mkEvent {
  ev_topic : string;
  ev_command_id : string;
  ev_phase : Phase;
  ev_reason : option reason;
}.

(** [Phase]'s name on the wire, and the document of an event. *)
Definition phase_name (phase : Phase) : string :=
  match phase with Received => "received" | Done => "done" | Failed => "failed" end.

Definition event_payload (ts command_id : string) (phase : Phase) (reason : option string) : Value :=
  VObject (app [("ts", VString ts); ("command_id", VString command_id); ("phase", VString (phase_name phase))]
             (match reason with Some r => [("reason", VString r)] | None => [] end))%string.

Class Broker (W : Type) := {
  (* retained, QoS 1 *)
  publish : LifecycleEvent → W → result string unit * W;
}.

Definition EVENT_QOS : Z := 1.

(** [publish_event] over the MQTT client: what it says of a reason is the error
    type's text. *)
Definition publish_event {W} `{Publisher W} (now_rfc3339 : W → string) (said : reason → string)
    (e : LifecycleEvent) (w : W) : result string unit * W :=
  let payload := event_payload (now_rfc3339 w) (ev_command_id e) (ev_phase e) (said <$> ev_reason e) in
  let '(refused, w) := mqtt_publish (mkMessage (ev_topic e) (Some payload) EVENT_QOS true) w in
  (match refused with
   | None => Ok ()
   | Some err => Err ("publish dispatch event to " ++ ev_topic e ++ ": " ++ err)%string
   end, w).

Definition event_broker {W} `{Publisher W} (now_rfc3339 : W → string) (said : reason → string) : Broker W :=
  {| publish := publish_event now_rfc3339 said |}.

Record CommandFrame := mkFrame {
  frame_ts : string;
  frame_value : f64;
  frame_command_id : string;
}.

Abbreviation Channels := (gmap string (gmap string ProtocolBinding)).

Definition channel_of (channels : Channels) (device_id key : string) : option ProtocolBinding :=
  m ← channels !! device_id; m !! key.

Section Dispatch.
Context {W : Type} `{South W} `{Broker W}.
Context (channels : Channels) (trust : gmap string DeviceTrust) (locked : gset string)
  (creds : option GatewayCredentials) (site_id : string) (cache : InputCache) (now : Z).

(** ** [distribute.rs], writing *)

Definition write_share (channel_key : string) (s : string * f64) (w : W) : result error unit * W :=
  match channel_of channels s.1 channel_key with
  | None => (Err (NoBinding s.1 channel_key), w)
  | Some b =>
      let '(r, w) :=
        match b with
        | ModbusTcp b => modbus_write b s.2 (trust !! s.1) creds w
        | Sunspec b => sunspec_write b s.2 (trust !! s.1) creds w
        | _ => (Err (BadBinding s.1 channel_key), w)
        end in
      (match r with Ok u => Ok u | Err e => Err (ChildWriteFailed s.1 e) end, w)
  end.

Fixpoint write_shares (shares : list (string * f64)) (channel_key : string) (w : W)
    : result error unit * W :=
  match shares with
  | [] => (Ok (), w)
  | s :: shares =>
      match write_share channel_key s w with
      | (Ok _, w) => write_shares shares channel_key w
      | (Err e, w) => (Err e, w)
      end
  end.

(** [target != 0.0 && shares.iter().all(|(_, w)| *w == 0.0)]. *)
Definition all_held (target : f64) (shares : list (string * f64)) : bool :=
  negb (f_eqb target (of_Z 0)) && forallb (λ s, f_eqb s.2 (of_Z 0)) shares.

Definition dispatch_distribute (binding : DistributeBinding) (target : f64) (channel_key : string)
    (w : W) : option (result error unit * W) :=
  guard ← envelope_guard_config binding;
  match guard with
  | Some _ => Some (Ok (), w)
  | None =>
      Some match compute_shares binding target site_id cache locked now with
      | Err e => (Err e, w)
      | Ok shares =>
          match write_shares shares channel_key w with
          | (Err e, w) => (Err e, w)
          | (Ok _, w) => (if all_held target shares then Err (NoRackCould target) else Ok (), w)
          end
      end
  end.

(** ** [power_cap.rs] *)

Definition cap_watts (c : CapChild) (percent : f64) : option f64 :=
  exact ← f_clamp (f_div (f_mul (cc_max_w c) percent) (of_Z 100)) (cc_min_w c) (cc_max_w c);
  Some (f_ceil (f_div (f_round (f_mul exact (of_Z 1000000))) (of_Z 1000000))).

Definition child_caps (binding : PowerCapBinding) (percent : f64)
    : option (list (string * string * f64)) :=
  mapM (λ c, cap ← cap_watts c percent;
             Some (cc_device_id c, ("set_" ++ cc_target c)%string, cap)) (pc_children binding).

Definition write_one (cap : string * string * f64) (w : W) : result error unit * W :=
  let '(device_id, key, watts) := cap in
  match channel_of channels device_id key with
  | Some (Redfish b) => redfish_write b watts (trust !! device_id) creds w
  | Some _ => (Err (BadBinding device_id key), w)
  | None => (Err (NoBinding device_id key), w)
  end.

(** The writes in the order they complete ([buffer_unordered]); every one is
    attempted, and the ones that failed are named. *)
Fixpoint run_caps (caps : list (string * string * f64)) (w : W)
    : list (string * string) * W :=
  match caps with
  | [] => ([], w)
  | cap :: caps =>
      let '(r, w) := write_one cap w in
      let '(failed, w) := run_caps caps w in
      (if is_ok r then failed else cap.1 :: failed, w)
  end.

Definition unlocked_caps (caps : list (string * string * f64)) : list (string * string * f64) :=
  List.filter (λ c, negb (bool_decide (c.1.1 ∈ locked))) caps.

(** [order] arranges the unlocked caps in completion order. *)
Definition write_caps (order : list (string * string * f64) → list (string * string * f64))
    (caps : list (string * string * f64)) (w : W) : result error unit * W :=
  let '(failed, w) := run_caps (order (unlocked_caps caps)) w in
  (match failed with [] => Ok () | _ => Err (CapWritesFailed failed) end, w).

Definition dispatch_power_cap (order : list (string * string * f64) → list (string * string * f64))
    (binding : PowerCapBinding) (percent : f64) (w : W) : option (result error unit * W) :=
  caps ← child_caps binding percent; Some (write_caps order caps w).

(** ** [execute_setpoint] *)

Definition bit_verb (channel_key : string) : string :=
  match split_once "_" channel_key with Some (v, _) => v | None => channel_key end.

Definition execute_setpoint (order : list (string * string * f64) → list (string * string * f64))
    (binding : ProtocolBinding) (value : f64) (device_id channel_key : string) (w : W)
    : option (result error unit * W) :=
  match binding with
  | ModbusTcp b => Some (modbus_write b value (trust !! device_id) creds w)
  | Redfish b => Some (redfish_write b value (trust !! device_id) creds w)
  | Sunspec b =>
      match ss_bit b with
      | Some _ =>
          let verb := bit_verb channel_key in
          match action verb value with
          | None => Some (Err (UnknownVerb verb), w)
          | Some a => Some (sunspec_write_bit b a (trust !! device_id) creds w)
          end
      | None => Some (sunspec_write b value (trust !! device_id) creds w)
      end
  | PowerCap p => dispatch_power_cap order p value w
  | Distribute d => dispatch_distribute d value channel_key w
  | other => Some (Err (Unsupported (protocol_name other)), w)
  end.

(** ** [handle_command] *)

Definition handle_command (order : list (string * string * f64) → list (string * string * f64))
    (requested : Requested) (topic : string) (frame : option CommandFrame) (w : W)
    : option (result string unit * Requested * W) :=
  match parse_command_topic topic site_id with
  | None => Some (Ok (), requested, w)
  | Some ct =>
      let device_id := ct_device_id ct in
      match channels !! device_id, frame with
      | None, _ => Some (Ok (), requested, w)
      | Some _, None => Some (Ok (), requested, w)
      | Some device, Some f =>
          let event phase reason :=
            mkEvent (event_topic site_id device_id) (frame_command_id f) phase reason in
          match publish (event Received None) w with
          | (Err e, w) => Some (Err e, requested, w)
          | (Ok _, w) =>
              if bool_decide (device_id ∈ locked) then
                let '(r, w) := publish (event Failed (Some (LockedOut device_id))) w in
                Some (r, requested, w)
              else
                let key := (ct_verb ct ++ "_" ++ ct_target ct)%string in
                match device !! key with
                | None =>
                    let '(r, w) := publish (event Failed (Some (UnknownCommand key device_id))) w in
                    Some (r, requested, w)
                | Some binding =>
                    let '(requested, previous) :=
                      record_request requested device_id key (frame_value f) in
                    '(r, w) ← execute_setpoint order binding (frame_value f) device_id key w;
                    match r with
                    | Ok _ =>
                        let '(r, w) := publish (event Done None) w in Some (r, requested, w)
                    | Err e =>
                        let requested :=
                          restore_request requested device_id key (frame_value f) previous in
                        let '(r, w) := publish (event Failed (Some (WriteFailed e))) w in
                        Some (r, requested, w)
                    end
                end
          end
      end
  end.
End Dispatch.

(** ** The topic of a command *)

(** A topic built the way the HMI builds a command
    topic parses, on that site, to its device, verb and target. *)
Theorem command_topic_round_trip site_id device_id verb target unit :
  Forall (λ p, str_mem "/" p = false) [site_id; device_id; verb; target; unit] →
  Forall (λ p, p ≠ ""%string) [device_id; verb; target] →
  parse_command_topic (command_topic site_id device_id verb target unit) site_id =
    Some (mkCommandTopic device_id verb target).
Proof.
  intros Hs Hne. unfold parse_command_topic, command_topic.
  rewrite str_split_join; [|done|].
  - rewrite !Forall_cons in Hne. destruct Hne as (Hd & Hv & Ht & _).
    unfold str_is_empty. by rewrite bool_decide_true, !bool_decide_false by done.
  - rewrite !Forall_cons in Hs. destruct Hs as (? & ? & ? & ? & ? & _).
    repeat (constructor; [first [assumption|reflexivity]|]). constructor.
Qed.

(** ** Requests *)

(** The operator's screen reads back which command, how it went, and why. *)
Lemma event_payload_fields ts command_id phase reason :
  let doc := event_payload ts command_id phase reason in
  (v ← field doc "command_id"; as_str v) = Some command_id ∧
  (v ← field doc "phase"; as_str v) = Some (phase_name phase) ∧
  (v ← field doc "reason"; as_str v) = reason.
Proof. by destruct reason. Qed.

Lemma requested_of_insert r d m d' k' :
  requested_of (<[d := m]> r) d' k' = if bool_decide (d = d') then m !! k' else requested_of r d' k'.
Proof.
  unfold requested_of. case_bool_decide as Hd.
  - subst d'. by rewrite lookup_insert_eq.
  - by rewrite lookup_insert_ne.
Qed.

Lemma requested_of_device r d k : requested_of r d k = default ∅ (r !! d) !! k.
Proof. unfold requested_of. destruct (r !! d); simpl; [done|by rewrite lookup_empty]. Qed.

Lemma record_request_lookup r d k v d' k' :
  requested_of (record_request r d k v).1 d' k' =
    if bool_decide (d = d' ∧ k = k') then Some v else requested_of r d' k'.
Proof.
  unfold record_request. cbn [fst]. rewrite requested_of_insert.
  destruct (decide (d = d')) as [<-|Hd].
  - rewrite bool_decide_true by done. destruct (decide (k = k')) as [<-|Hk].
    + by rewrite bool_decide_true, lookup_insert_eq.
    + rewrite lookup_insert_ne by done. rewrite bool_decide_false by naive_solver.
      by rewrite requested_of_device.
  - rewrite !bool_decide_false by naive_solver. done.
Qed.

(** A restore straight after its record puts every request back. *)
Lemma restore_record r d k v d' k' :
  f_eqb v v = true →
  requested_of (restore_request (record_request r d k v).1 d k v (record_request r d k v).2) d' k' =
    requested_of r d' k'.
Proof.
  intros Hv. unfold record_request, restore_request. cbn [fst snd].
  rewrite lookup_insert_eq, lookup_insert_eq, Hv, !requested_of_insert. destruct (decide (d = d')) as [<-|Hd];
    [rewrite !(bool_decide_true (d = d)) by done|by rewrite !bool_decide_false].
  rewrite requested_of_device. destruct (default ∅ (r !! d) !! k) as [p|] eqn:Hp;
    destruct (decide (k = k')) as [<-|Hk].
  - by rewrite lookup_insert_eq, Hp.
  - by rewrite !lookup_insert_ne.
  - by rewrite lookup_delete_eq, Hp.
  - by rewrite lookup_delete_ne, lookup_insert_ne.
Qed.

(** Undoing a failed command leaves a newer command for
    the same setpoint alone when the newer one asks for a different value, and
    never touches another setpoint. *)
Theorem restore_spares_newer r d k v newer previous d' k' :
  f_eqb newer v = false ∨ (d', k') ≠ (d, k) →
  requested_of (restore_request (record_request r d k newer).1 d k v previous) d' k' =
    requested_of (record_request r d k newer).1 d' k'.
Proof.
  intros Hor. unfold record_request, restore_request. cbn [fst].
  rewrite lookup_insert_eq, lookup_insert_eq. destruct (f_eqb newer v); [|done].
  destruct Hor as [|Hne]; [done|]. rewrite !requested_of_insert.
  destruct (decide (d = d')) as [<-|Hd]; [|by rewrite !bool_decide_false].
  assert (k ≠ k') as Hk by congruence. rewrite !bool_decide_true by done.
  destruct previous; [by rewrite !lookup_insert_ne|by rewrite lookup_delete_ne, lookup_insert_ne].
Qed.

(** A newer command that asks for the same value is undone with the failed
    one: the second command's 50 is lost. *)
Example restore_undoes_equal_newer :
  let r0 := fst (record_request ∅ "m" "k" (of_Z 10)) in
  let '(r1, previous) := record_request r0 "m" "k" (of_Z 50) in
  let r2 := fst (record_request r1 "m" "k" (of_Z 50)) in
  requested_of r2 "m" "k" = Some (of_Z 50) ∧
  requested_of (restore_request r2 "m" "k" (of_Z 50) previous) "m" "k" = Some (of_Z 10).
Proof. split; by vm_compute. Qed.

Lemma restore_spares_newer_witness :
  requested_of (restore_request (record_request ∅ "m" "k" (of_Z 30)).1 "m" "k" (of_Z 20) None) "m" "k" =
    requested_of (record_request ∅ "m" "k" (of_Z 30)).1 "m" "k".
Proof.
  refine (restore_spares_newer ∅ "m" "k" (of_Z 20) (of_Z 30) None "m" "k" _). left. by vm_compute.
Defined.

(** ** Acknowledgements *)

Section Commands.
Context {W : Type} `{South W} `{Broker W}.
Context (channels : Channels) (trust : gmap string DeviceTrust) (locked : gset string)
  (creds : option GatewayCredentials) (site_id : string) (cache : InputCache) (now : Z)
  (order : list (string * string * f64) → list (string * string * f64)).

Local Abbreviation handle := (handle_command channels trust locked creds site_id cache now order).
Local Abbreviation execute := (execute_setpoint channels trust locked creds site_id cache now order).

Definition ack (device_id command_id : string) (phase : Phase) (reason : option reason)
    : LifecycleEvent := mkEvent (event_topic site_id device_id) command_id phase reason.

(** How a command for a configured, unlocked setpoint runs. *)
Lemma handle_runs requested topic f w ct device b w1 :
  parse_command_topic topic site_id = Some ct → channels !! ct_device_id ct = Some device →
  device !! (ct_verb ct ++ "_" ++ ct_target ct)%string = Some b → ct_device_id ct ∉ locked →
  publish (ack (ct_device_id ct) (frame_command_id f) Received None) w = (Ok (), w1) →
  let key := (ct_verb ct ++ "_" ++ ct_target ct)%string in
  let rp := record_request requested (ct_device_id ct) key (frame_value f) in
  handle requested topic (Some f) w =
    '(r, w2) ← execute b (frame_value f) (ct_device_id ct) key w1;
    Some match r with
         | Ok _ =>
             let '(r, w3) := publish (ack (ct_device_id ct) (frame_command_id f) Done None) w2 in
             (r, rp.1, w3)
         | Err e =>
             let '(r, w3) := publish (ack (ct_device_id ct) (frame_command_id f) Failed
                                        (Some (WriteFailed e))) w2 in
             (r, restore_request rp.1 (ct_device_id ct) key (frame_value f) rp.2, w3)
         end.
Proof.
  intros Ht Hd Hb Hl Hp. cbv zeta. unfold handle_command. rewrite Ht, Hd. cbv zeta.
  unfold ack in Hp. rewrite Hp, bool_decide_false, Hb by done.
  destruct (record_request _ _ _ _) as [req prev] eqn:Hr. cbn [fst snd].
  destruct (execute b _ _ _ _) as [[[u|e] w2]|]; cbn; unfold ack; [| |done];
    by destruct (publish _ w2).
Qed.

Lemma handle_locked requested topic f w ct w1 :
  parse_command_topic topic site_id = Some ct → ct_device_id ct ∈ locked →
  is_Some (channels !! ct_device_id ct) →
  publish (ack (ct_device_id ct) (frame_command_id f) Received None) w = (Ok (), w1) →
  let '(r, w2) := publish (ack (ct_device_id ct) (frame_command_id f) Failed
                             (Some (LockedOut (ct_device_id ct)))) w1 in
  handle requested topic (Some f) w = Some (r, requested, w2).
Proof.
  intros Ht Hl [device Hd] Hp. unfold handle_command. rewrite Ht, Hd. cbv zeta.
  unfold ack in *. rewrite Hp, bool_decide_true by done. by destruct (publish _ w1).
Qed.

(** A command for a locked-out device is acked
    [Received] then [Failed], and nothing else happens: no south-side write is
    made and the device's requested setpoint stays what it was. *)
Theorem locked_out_command_refused requested topic f w ct w1 :
  parse_command_topic topic site_id = Some ct → ct_device_id ct ∈ locked →
  is_Some (channels !! ct_device_id ct) →
  publish (ack (ct_device_id ct) (frame_command_id f) Received None) w = (Ok (), w1) →
  let '(r, w2) := publish (ack (ct_device_id ct) (frame_command_id f) Failed
                             (Some (LockedOut (ct_device_id ct)))) w1 in
  handle requested topic (Some f) w = Some (r, requested, w2).
Proof. apply handle_locked. Qed.

Section Log.
(** [event_log w] is the events published so far; a south-side write
    publishes nothing. *)
Context (event_log : W → list LifecycleEvent).
Hypothesis publish_logs : ∀ e w, event_log (publish e w).2 = event_log w ++ [e].
Hypothesis modbus_quiet : ∀ b v t c w, event_log (modbus_write b v t c w).2 = event_log w.
Hypothesis sunspec_quiet : ∀ b v t c w, event_log (sunspec_write b v t c w).2 = event_log w.
Hypothesis bit_quiet : ∀ b a t c w, event_log (sunspec_write_bit b a t c w).2 = event_log w.
Hypothesis redfish_quiet : ∀ b v t c w, event_log (redfish_write b v t c w).2 = event_log w.

Lemma write_share_quiet key s w :
  event_log (write_share channels trust creds key s w).2 = event_log w.
Proof.
  unfold write_share. destruct (channel_of _ _ _) as [b|]; [|done].
  destruct b as [b| | | | | |b| | |]; try done.
  - specialize (modbus_quiet b s.2 (trust !! s.1) creds w). by destruct (modbus_write _ _ _ _ _).
  - specialize (sunspec_quiet b s.2 (trust !! s.1) creds w). by destruct (sunspec_write _ _ _ _ _).
Qed.

Lemma write_shares_quiet key shares w :
  event_log (write_shares channels trust creds shares key w).2 = event_log w.
Proof.
  revert w; induction shares as [|s shares IH]; intros w; cbn [write_shares]; [done|].
  pose proof (write_share_quiet key s w) as Hs.
  destruct (write_share _ _ _ _ _ _) as [[u|e] w']; [by rewrite IH|done].
Qed.

Lemma run_caps_quiet caps w :
  event_log (run_caps channels trust creds caps w).2 = event_log w.
Proof.
  revert w; induction caps as [|[[d k] c] caps IH]; intros w; cbn [run_caps]; [done|].
  assert (event_log (write_one channels trust creds (d, k, c) w).2 = event_log w) as Hw.
  { unfold write_one. destruct (channel_of _ _ _) as [[]|]; by try apply redfish_quiet. }
  destruct (write_one _ _ _ _ _) as [r w']. specialize (IH w').
  destruct (run_caps _ _ _ _ _) as [fl w'']. cbn in *. congruence.
Qed.

Lemma execute_quiet b v d key w r w' :
  execute b v d key w = Some (r, w') → event_log w' = event_log w.
Proof.
  unfold execute_setpoint. intros He. destruct b as [b| |b| | | |b| |db|p]; try congruence.
  - injection He as He. by rewrite <- (modbus_quiet b v (trust !! d) creds w), He.
  - injection He as He. by rewrite <- (redfish_quiet b v (trust !! d) creds w), He.
  - destruct (ss_bit b) as [nm|].
    + destruct (action _ _) as [a|]; [|congruence]. injection He as He.
      by rewrite <- (bit_quiet b a (trust !! d) creds w), He.
    + injection He as He. by rewrite <- (sunspec_quiet b v (trust !! d) creds w), He.
  - unfold dispatch_distribute in He. destruct (envelope_guard_config db) as [[g|]|]; simpl in He;
      [congruence| |done]. destruct (compute_shares _ _ _ _ _ _) as [sh|e]; [|congruence].
    pose proof (write_shares_quiet key sh w) as Hw.
    destruct (write_shares _ _ _ _ _ _) as [[u|e] w2]; cbn in Hw; congruence.
  - unfold dispatch_power_cap in He. destruct (child_caps p v) as [caps|]; simpl in He; [|done].
    unfold write_caps in He. pose proof (run_caps_quiet (order (unlocked_caps locked caps)) w) as Hw.
    destruct (run_caps _ _ _ _ _) as [fl w2]. cbn in Hw. congruence.
Qed.

(** A message that is no command of this gateway: not a command topic of this
    site, not a device it has bindings for, or no frame that parses. *)
Definition not_addressed (topic : string) (frame : option CommandFrame) : Prop :=
  parse_command_topic topic site_id = None ∨
  (∃ ct, parse_command_topic topic site_id = Some ct ∧ channels !! ct_device_id ct = None) ∨ frame = None.

(** C17: what handling one command frame publishes, writes and
    records. A message that is no command of this gateway (not on a command topic of
    this site, for a device without command bindings, or unparsable) leaves the
    world and the requests as they were. Any other is first answered Received on its
    device's topic under its own id; if the broker refuses that, handling ends there
    with an error. Then exactly one more event follows under the same id: Failed
    naming the lockout if the device is locked, Failed naming the key if the device
    has no such command (nothing is written in either case), and otherwise the
    binding's write is carried out and the event is Done if it succeeded and Failed
    with its error if it did not. After Done the request recorded is the one asked
    for; in every other case all requests are as they were. The value is a number
    (not NaN); that no event is published by the south-side writes themselves is
    assumed of the world. *)
Theorem one_ack_per_command requested topic frame w r requested' w' :
  handle requested topic frame w = Some (r, requested', w') →
  (∀ f, frame = Some f → f_eqb (frame_value f) (frame_value f) = true) →
  let same := ∀ d k, requested_of requested' d k = requested_of requested d k in
  (not_addressed topic frame → r = Ok () ∧ w' = w ∧ same) ∧
  ∀ ct f device, parse_command_topic topic site_id = Some ct → frame = Some f →
    channels !! ct_device_id ct = Some device →
    let acked phase why := ack (ct_device_id ct) (frame_command_id f) phase why in
    let key := (ct_verb ct ++ "_" ++ ct_target ct)%string in
    let '(heard, w1) := publish (acked Received None) w in
    let ends w2 phase why := w' = (publish (acked phase why) w2).2 ∧ r = (publish (acked phase why) w2).1 ∧
      event_log w' = event_log w ++ [acked Received None; acked phase why] in
    match heard with
    | Err _ => is_ok r = false ∧ w' = w1 ∧ event_log w' = event_log w ++ [acked Received None] ∧ same
    | Ok _ =>
        if decide (ct_device_id ct ∈ locked) then ends w1 Failed (Some (LockedOut (ct_device_id ct))) ∧ same
        else
          match device !! key with
          | None => ends w1 Failed (Some (UnknownCommand key (ct_device_id ct))) ∧ same
          | Some b => ∃ answer w2, execute b (frame_value f) (ct_device_id ct) key w1 = Some (answer, w2) ∧
              match answer with
              | Ok _ => ends w2 Done None ∧
                  requested' = (record_request requested (ct_device_id ct) key (frame_value f)).1
              | Err e => ends w2 Failed (Some (WriteFailed e)) ∧ same
              end
          end
    end.
Proof.
  intros Hh Hnan. cbv zeta. pose proof Hh as Hh0. unfold handle_command in Hh. split.
  { intros [Ht|[(ct & Ht & Hd)|Hf]]; rewrite ?Ht, ?Hf in Hh; cbv zeta in Hh.
    - by simplify_eq.
    - rewrite Hd in Hh. by simplify_eq.
    - destruct (parse_command_topic _ _) as [ct|]; [|by simplify_eq]. cbv zeta in Hh.
      destruct (channels !! _); by simplify_eq. }
  intros ct f device Ht -> Hd. rewrite Ht in Hh. cbv zeta in Hh. rewrite Hd in Hh. specialize (Hnan f eq_refl).
  pose proof (publish_logs (ack (ct_device_id ct) (frame_command_id f) Received None) w) as Hp.
  unfold ack in *. destruct (publish _ w) as [[[]|e] w1] eqn:Hpub; cbn in Hp; [|by simplify_eq].
  assert (∀ w2 phase why, event_log w2 = event_log w1 →
    event_log (publish (mkEvent (event_topic site_id (ct_device_id ct)) (frame_command_id f) phase why) w2).2 =
    event_log w ++ [mkEvent (event_topic site_id (ct_device_id ct)) (frame_command_id f) Received None;
                    mkEvent (event_topic site_id (ct_device_id ct)) (frame_command_id f) phase why]) as Hends
    by (intros w2 phase why Hw2; by rewrite publish_logs, Hw2, Hp, <- app_assoc).
  case_bool_decide as Hl; [rewrite decide_True by done|rewrite decide_False by done].
  - rewrite <- (Hends w1) by done. destruct (publish _ w1) as [r2 w2]. by simplify_eq/=.
  - destruct (device !! _) as [b|] eqn:Hb; [clear Hh|].
    2: { rewrite <- (Hends w1) by done. destruct (publish _ w1) as [r2 w2]. by simplify_eq/=. }
    rewrite (handle_runs _ _ _ _ _ _ _ _ Ht Hd Hb Hl Hpub) in Hh0.
    destruct (execute b _ _ _ _) as [[[u|e] w2]|] eqn:He; simpl in Hh0; [| |done];
      pose proof (execute_quiet _ _ _ _ _ _ _ He) as Hq; eexists _, w2; (split; [done|]); cbn beta iota;
      rewrite <- (Hends w2) by done; unfold ack in Hh0; destruct (publish _ w2) as [r3 w3]; simplify_eq/=;
      split_and!; try done. intros d k. by apply restore_record.
Qed.
End Log.

Section Reach.
(** [P] survives a publish, and a write through a binding of a device that is
    not locked out. *)
Context (P : W → Prop).
Definition unlocked_binding (device_id : string) (b : ProtocolBinding) : Prop :=
  device_id ∉ locked ∧ ∃ key, channel_of channels device_id key = Some b.
Hypothesis publish_keeps : ∀ e w, P w → P (publish e w).2.
Hypothesis modbus_keeps : ∀ d b v w, unlocked_binding d (ModbusTcp b) →
  P w → P (modbus_write b v (trust !! d) creds w).2.
Hypothesis sunspec_keeps : ∀ d b v w, unlocked_binding d (Sunspec b) →
  P w → P (sunspec_write b v (trust !! d) creds w).2.
Hypothesis bit_keeps : ∀ d b a w, unlocked_binding d (Sunspec b) →
  P w → P (sunspec_write_bit b a (trust !! d) creds w).2.
Hypothesis redfish_keeps : ∀ d b v w, unlocked_binding d (Redfish b) →
  P w → P (redfish_write b v (trust !! d) creds w).2.

Lemma write_share_reach key s w : s.1 ∉ locked → P w → P (write_share channels trust creds key s w).2.
Proof.
  intros Hl Hw. unfold write_share. destruct (channel_of channels s.1 key) as [b|] eqn:Hb; [|done].
  assert (unlocked_binding s.1 b) as Hu by (split; [done|by exists key]).
  destruct b as [b| | | | | |b| | |]; try done.
  - pose proof (modbus_keeps s.1 b s.2 w Hu Hw). by destruct (modbus_write _ _ _ _ _).
  - pose proof (sunspec_keeps s.1 b s.2 w Hu Hw). by destruct (sunspec_write _ _ _ _ _).
Qed.

Lemma write_one_reach cap w : cap.1.1 ∉ locked → P w → P (write_one channels trust creds cap w).2.
Proof.
  destruct cap as [[d k] v]. intros Hl Hw. unfold write_one.
  destruct (channel_of channels d k) as [b|] eqn:Hb; [|done].
  assert (unlocked_binding d b) as Hu by (split; [done|by exists k]).
  destruct b; try done. by apply redfish_keeps.
Qed.

Lemma write_shares_keeps key shares w :
  (∀ id, id ∈ shares.*1 → id ∉ locked) → P w →
  P (write_shares channels trust creds shares key w).2.
Proof.
  revert w; induction shares as [|s shares IH]; intros w Hl Hw; cbn [write_shares]; [done|].
  assert (P (write_share channels trust creds key s w).2) as Hs
    by (apply write_share_reach; [apply Hl; by left|done]).
  destruct (write_share _ _ _ _ _ _) as [[u|e] w2]; [|done].
  apply IH; [|done]. intros id Hid. apply Hl. by right.
Qed.

Lemma run_caps_keeps caps w :
  (∀ c, c ∈ caps → c.1.1 ∉ locked) → P w → P (run_caps channels trust creds caps w).2.
Proof.
  revert w; induction caps as [|c caps IH]; intros w Hl Hw; cbn [run_caps]; [done|].
  assert (P (write_one channels trust creds c w).2) as Hs
    by (apply write_one_reach; [apply Hl; by left|done]).
  destruct (write_one _ _ _ _ _) as [r w2].
  assert (P (run_caps channels trust creds caps w2).2) as Hr
    by (apply IH; [intros c' Hc; apply Hl; by right|done]).
  by destruct (run_caps _ _ _ _ _).
Qed.

Lemma unlocked_caps_unlocked caps c : c ∈ unlocked_caps locked caps → c.1.1 ∉ locked.
Proof. intros [_ Hc]%elem_of_filterb. by apply negb_true_iff, bool_decide_eq_false in Hc. Qed.

Lemma execute_keeps b v d key w r w' :
  (∀ l, order l ≡ₚ l) → unlocked_binding d b → P w →
  execute b v d key w = Some (r, w') → P w'.
Proof.
  intros Hord Hu Hw. unfold execute_setpoint.
  destruct b as [b| |b| | | |b| |db|p]; try (by intros [= <- <-]).
  - intros [= He]. pose proof (modbus_keeps d b v w Hu Hw) as Hk. by rewrite He in Hk.
  - intros [= He]. pose proof (redfish_keeps d b v w Hu Hw) as Hk. by rewrite He in Hk.
  - destruct (ss_bit b) as [nm|].
    + destruct (action _ _) as [a|]; [|by intros [= <- <-]]. intros [= He].
      pose proof (bit_keeps d b a w Hu Hw) as Hk. by rewrite He in Hk.
    + intros [= He]. pose proof (sunspec_keeps d b v w Hu Hw) as Hk. by rewrite He in Hk.
  - unfold dispatch_distribute. destruct (envelope_guard_config db) as [[g|]|]; simpl; [|  |done].
    { by intros [= <- <-]. }
    destruct (compute_shares _ _ _ _ _ _) as [sh|e] eqn:Hsh; [|by intros [= <- <-]].
    pose proof (write_shares_keeps key sh w (λ id, compute_shares_unlocked _ _ _ _ _ _ _ id Hsh) Hw) as Hk.
    by destruct (write_shares _ _ _ _ _ _) as [[u|e] w2]; intros [= <- <-].
  - unfold dispatch_power_cap. destruct (child_caps p v) as [caps|]; simpl; [|done].
    unfold write_caps.
    assert (P (run_caps channels trust creds (order (unlocked_caps locked caps)) w).2) as Hk
      by (apply run_caps_keeps; [intros c; rewrite Hord; apply unlocked_caps_unlocked|done]).
    destruct (run_caps _ _ _ _ _) as [fl w2]. by intros [= <- <-].
Qed.

(** What a command's writes and publishes preserve. *)
Lemma handle_command_keeps requested topic frame w r requested' w' :
  (∀ l, order l ≡ₚ l) → P w →
  handle_command channels trust locked creds site_id cache now order requested topic frame w
    = Some (r, requested', w') → P w'.
Proof.
  intros Hord Hw Hh. pose proof Hh as Hh0. unfold handle_command in Hh.
  destruct (parse_command_topic topic site_id) as [ct|] eqn:Ht; [|by simplify_eq].
  cbv zeta in Hh. destruct (channels !! ct_device_id ct) as [device|] eqn:Hd; [|by simplify_eq].
  destruct frame as [f|]; [|by simplify_eq].
  pose proof (publish_keeps (ack (ct_device_id ct) (frame_command_id f) Received None) w Hw) as Hp.
  unfold ack in *. destruct (publish _ w) as [[[]|e] w1] eqn:Hpub; cbn in Hp; [|by simplify_eq].
  case_bool_decide as Hl.
  { match goal with H : (let '(r, w) := publish ?e w1 in _) = _ |- _ =>
      pose proof (publish_keeps e w1 Hp) as Hq; by destruct (publish e w1); simplify_eq end. }
  destruct (device !! _) as [b|] eqn:Hb; [clear Hh|].
  2: { match goal with H : (let '(r, w) := publish ?e w1 in _) = _ |- _ =>
      pose proof (publish_keeps e w1 Hp) as Hq; by destruct (publish e w1); simplify_eq end. }
  rewrite (handle_runs _ _ _ _ _ _ _ _ Ht Hd Hb Hl Hpub) in Hh0.
  assert (unlocked_binding (ct_device_id ct) b) as Hu
    by (split; [done|]; eexists; unfold channel_of; by rewrite Hd).
  destruct (execute b _ _ _ _) as [[res w2]|] eqn:He; simpl in Hh0; [|done].
  pose proof (execute_keeps _ _ _ _ _ _ _ Hord Hu Hp He) as H2.
  destruct res; match goal with H : context [publish ?e w2] |- _ =>
      pose proof (publish_keeps e w2 H2) as Hq; by destruct (publish e w2); simplify_eq end.
Qed.

(** Whatever a command is (a single setpoint, a bit,
    a module split over its racks or a fleet power cap), every south-side
    write it leads to goes through a configured binding of a device that is
    not locked out: anything those writes and the publishes preserve still
    holds after the command. *)
Theorem lockout_isolates_device requested topic frame w r requested' w' :
  (∀ l, order l ≡ₚ l) → P w →
  handle_command channels trust locked creds site_id cache now order requested topic frame w
    = Some (r, requested', w') → P w'.
Proof. apply handle_command_keeps. Qed.
End Reach.

(** The world after attempting [caps] in turn, whatever each one answers. *)
Definition attempt_caps (caps : list (string * string * f64)) (w : W) : W :=
  foldl (λ w c, (write_one channels trust creds c w).2) w caps.

Lemma run_caps_world caps w : (run_caps channels trust creds caps w).2 = attempt_caps caps w.
Proof.
  unfold attempt_caps. revert w; induction caps as [|c caps IH]; intros w; cbn [run_caps foldl]; [done|].
  rewrite <- IH. destruct (write_one _ _ _ _ _) as [r w']. cbn [snd]. by destruct (run_caps _ _ _ _ _).
Qed.

Lemma run_caps_failed caps w dk :
  dk ∈ (run_caps channels trust creds caps w).1 ↔
  ∃ n c, caps !! n = Some c ∧ c.1 = dk ∧
    is_ok (write_one channels trust creds c (attempt_caps (take n caps) w)).1 = false.
Proof.
  revert w; induction caps as [|c caps IH]; intros w; cbn [run_caps].
  - split; [by intros ?%not_elem_of_nil|by intros (n & c & Hn & _)].
  - destruct (write_one channels trust creds c w) as [r w'] eqn:Hw. specialize (IH w').
    destruct (run_caps channels trust creds caps w') as [fl w''] eqn:Hr. cbn [fst] in IH |- *.
    assert (∀ n, attempt_caps (take (S n) (c :: caps)) w = attempt_caps (take n caps) w') as Hat
      by (intros n; unfold attempt_caps; cbn [take foldl]; by rewrite Hw).
    assert (dk ∈ (if is_ok r then fl else c.1 :: fl) ↔ (is_ok r = false ∧ c.1 = dk) ∨ dk ∈ fl) as ->
      by (destruct (is_ok r); rewrite ?elem_of_cons; naive_solver).
    rewrite IH. split.
    + intros [[Hok Hc]|(n & d & Hn & Hd & Hf)]; [exists 0%nat, c|exists (S n), d]; split_and!; try done.
      * cbn. by rewrite Hw.
      * by rewrite Hat.
    + intros ([|n] & d & Hn & Hd & Hf).
      * left. simplify_eq/=. rewrite Hw in Hf. done.
      * right. exists n, d. rewrite Hat in Hf. done.
Qed.

(** A fleet cap is attempted on every child
    that is not locked out, one after another whatever failed before it; the
    result is [Ok] when none failed and otherwise names exactly the ones that
    did. *)
Theorem power_cap_attempts_every_child p percent w r w' :
  (∀ l, order l ≡ₚ l) →
  dispatch_power_cap channels trust locked creds order p percent w = Some (r, w') →
  ∃ all caps failed,
    child_caps p percent = Some all ∧ caps ≡ₚ unlocked_caps locked all ∧
    w' = attempt_caps caps w ∧
    r = match failed with [] => Ok () | _ => Err (CapWritesFailed failed) end ∧
    ∀ dk, dk ∈ failed ↔ ∃ n c, caps !! n = Some c ∧ c.1 = dk ∧
      is_ok (write_one channels trust creds c (attempt_caps (take n caps) w)).1 = false.
Proof.
  intros Hord. unfold dispatch_power_cap. destruct (child_caps p percent) as [all|] eqn:Hc; simpl; [|done].
  unfold write_caps. pose proof (run_caps_world (order (unlocked_caps locked all)) w) as Hw.
  pose proof (run_caps_failed (order (unlocked_caps locked all)) w) as Hf.
  destruct (run_caps _ _ _ _ _) as [failed w2]. cbn [fst snd] in Hw, Hf. intros [= <- <-].
  exists all, (order (unlocked_caps locked all)), failed. split_and!; [done|apply Hord|done|done|exact Hf].
Qed.
End Commands.

(** ** A site of one capped fleet and one locked-out rack *)

(** What a demonstration site saw: the published events and the south-side
    writes as (host, value); a host named ["dead"] refuses. *)
Record DemoSite := mkDemoSite {
  site_events : list LifecycleEvent;
  site_writes : list (string * f64);
}.

Definition demo_write (host : string) (v : f64) (w : DemoSite) : result error unit * DemoSite :=
  if bool_decide (host = "dead"%string) then (Err (SouthError "refused"), w)
  else (Ok (), mkDemoSite (site_events w) (site_writes w ++ [(host, v)])).

#[export] Instance demo_south : South DemoSite := {
  modbus_write b v _ _ w := demo_write (mb_host b) v w;
  sunspec_write b v _ _ w := demo_write (ss_host b) v w;
  sunspec_write_bit b a _ _ w := demo_write (ss_host b) (of_Z 1) w;
  redfish_write b v _ _ w := demo_write (rf_host b) v w;
}.

#[export] Instance demo_broker : Broker DemoSite := {
  publish e w := (Ok (), mkDemoSite (site_events w ++ [e]) (site_writes w));
}.

Definition demo_gpu (host : string) : gmap string ProtocolBinding :=
  {["set_power_limit"%string := Redfish (mkRedfish host 443 "/redfish/v1/gpu" None (of_Z 1))]}.

Definition demo_fleet : PowerCapBinding :=
  mkPowerCap (List.map (λ id, mkCapChild id "power_limit" (of_Z 100) (of_Z 700))
                ["gpu_1"; "gpu_2"; "gpu_3"]%string)
    None None None None None None.

Definition demo_channels : Channels :=
  list_to_map
    [("fleet"%string, {["set_power"%string := PowerCap demo_fleet]});
     ("gpu_1"%string, demo_gpu "dead"); ("gpu_2"%string, demo_gpu "bmc_2");
     ("gpu_3"%string, demo_gpu "bmc_3");
     ("fc"%string, {["set_power"%string := Redfish (mkRedfish "bmc_4" 443 "/fc" None (of_Z 1))]})].

Definition demo_locked : gset string := {["gpu_2"%string; "fc"%string]}.

Definition demo_topic (device : string) : string := command_topic "s1" device "set" "power" "percent".
Definition demo_frame (v : f64) : CommandFrame := mkFrame "t" v "cmd-1".
Definition demo_w0 : DemoSite := mkDemoSite [] [].
Definition demo_order : list (string * string * f64) → list (string * string * f64) := reverse.

Lemma demo_order_perm l : demo_order l ≡ₚ l.
Proof. apply reverse_Permutation. Qed.

Definition demo_handle (requested : Requested) (topic : string) (v : f64) :=
  handle_command demo_channels ∅ demo_locked None "s1" ∅ 0 demo_order requested topic
    (Some (demo_frame v)) demo_w0.

(** 50% over the fleet: gpu_1 refuses, gpu_2 is locked out, gpu_3 is capped;
    the command is acked [Failed] and nothing is recorded. *)
Example demo_fleet_cap :
  option_map (λ o, (site_writes o.2, List.map ev_phase (site_events o.2),
                    requested_of o.1.2 "fleet" "set_power"))
    (demo_handle ∅ (demo_topic "fleet") (of_Z 50)) =
  Some ([("bmc_3"%string, of_Z 350)], [Received; Failed], None).
Proof. by vm_compute. Qed.

Definition demo_run (requested : Requested) (device : string) (v : f64)
    : result string unit * Requested * DemoSite :=
  default (Ok (), requested, demo_w0) (demo_handle requested (demo_topic device) v).

Lemma demo_run_Some device v :
  bool_decide (is_Some (demo_handle ∅ (demo_topic device) v)) = true →
  demo_handle ∅ (demo_topic device) v = Some (demo_run ∅ device v).
Proof. intros [o Ho]%bool_decide_eq_true. unfold demo_run. by rewrite Ho. Qed.

Lemma command_topic_round_trip_witness :
  parse_command_topic "sites/s1/devices/fc/commands/set/power/watts" "s1" =
    Some (mkCommandTopic "fc" "set" "power").
Proof.
  refine (command_topic_round_trip "s1" "fc" "set" "power" "watts" _ _);
    rewrite !Forall_cons; by repeat split.
Defined.

Lemma locked_out_command_refused_witness :
  handle_command demo_channels ∅ demo_locked None "s1" ∅ 0 demo_order ∅ (demo_topic "fc")
    (Some (demo_frame (of_Z 50))) demo_w0 =
  Some (Ok (), ∅, mkDemoSite [ack "s1" "fc" "cmd-1" Received None;
                              ack "s1" "fc" "cmd-1" Failed (Some (LockedOut "fc"))] []).
Proof.
  refine (locked_out_command_refused demo_channels ∅ demo_locked None "s1" ∅ 0 demo_order ∅
    (demo_topic "fc") (demo_frame (of_Z 50)) demo_w0 (mkCommandTopic "fc" "set" "power")
    (mkDemoSite [ack "s1" "fc" "cmd-1" Received None] []) _ _ _ _); [by vm_compute| | |done].
  - by apply (bool_decide_unpack _).
  - eexists. by vm_compute.
Defined.

Lemma demo_write_events host v w : site_events (demo_write host v w).2 = site_events w.
Proof. unfold demo_write. by case_bool_decide. Qed.

(** The fleet's cap of 50 %, one of whose children refuses its write. *)
Lemma one_ack_per_command_witness :
  let '(r, requested', w') := demo_run ∅ "fleet" (of_Z 50) in
  ∃ e, site_events w' = [ack "s1" "fleet" "cmd-1" Received None;
                         ack "s1" "fleet" "cmd-1" Failed (Some (WriteFailed e))] ∧
    ∀ d k, requested_of requested' d k = requested_of ∅ d k.
Proof.
  assert (List.map ev_phase (site_events (demo_run ∅ "fleet" (of_Z 50)).2) = [Received; Failed]) as Hlog
    by (by vm_compute).
  destruct (demo_run ∅ "fleet" (of_Z 50)) as [[r requested'] w'] eqn:Hr. cbn [snd] in Hlog.
  destruct (one_ack_per_command demo_channels ∅ demo_locked None "s1" ∅ 0 demo_order site_events
    ltac:(done) ltac:(intros; apply demo_write_events) ltac:(intros; apply demo_write_events)
    ltac:(intros; apply demo_write_events) ltac:(intros; apply demo_write_events)
    ∅ (demo_topic "fleet") (Some (demo_frame (of_Z 50))) demo_w0 r requested' w') as [_ Hall].
  - rewrite <- Hr. apply demo_run_Some. by vm_compute.
  - intros f [= <-]. by vm_compute.
  - specialize (Hall (mkCommandTopic "fleet" "set" "power") (demo_frame (of_Z 50))
      {["set_power"%string := PowerCap demo_fleet]} ltac:(by vm_compute) eq_refl ltac:(reflexivity)).
    cbv zeta in Hall. change (publish _ demo_w0) with
      (Ok () : result string unit, mkDemoSite [ack "s1" "fleet" "cmd-1" Received None] []) in Hall.
    cbn beta iota in Hall. rewrite decide_False in Hall by (by apply (bool_decide_unpack _)).
    change ({["set_power"%string := PowerCap demo_fleet]} !! _) with (Some (PowerCap demo_fleet)) in Hall.
    cbn beta iota in Hall. destruct Hall as ([[]|e] & w2 & _ & (_ & _ & Hw) & Hs); [by rewrite Hw in Hlog|].
    exists e. split; [exact Hw|exact Hs].
Defined.

Lemma demo_bindings d b :
  unlocked_binding demo_channels demo_locked d b →
  match b with PowerCap _ => True | Redfish b => rf_host b ≠ "bmc_2"%string | _ => False end.
Proof.
  intros (Hl & key & Hb). unfold channel_of in Hb.
  destruct (demo_channels !! d) as [m|] eqn:Hm; simpl in Hb; [|done].
  apply elem_of_list_to_map_2 in Hm. rewrite !elem_of_cons in Hm. unfold demo_gpu in Hm.
  assert (d ≠ "gpu_2"%string) as Hd by (intros ->; apply Hl; by apply (bool_decide_unpack _)).
  repeat (destruct Hm as [Hm|Hm]; [injection Hm as ? ?; subst m; by apply lookup_singleton_Some in Hb as [_ <-]|]).
  by apply not_elem_of_nil in Hm.
Qed.

(** No write of the fleet command reaches gpu_2. *)
Lemma lockout_isolates_device_witness :
  "bmc_2"%string ∉ (site_writes (demo_run ∅ "fleet" (of_Z 50)).2).*1.
Proof.
  destruct (demo_run ∅ "fleet" (of_Z 50)) as [[r requested'] w'] eqn:Hr.
  refine (lockout_isolates_device demo_channels ∅ demo_locked None "s1" ∅ 0 demo_order
    (λ w, "bmc_2"%string ∉ (site_writes w).*1) _ _ _ _ _
    ∅ (demo_topic "fleet") (Some (demo_frame (of_Z 50))) demo_w0 r requested' w' _ _ _).
  - by intros e w Hw.
  - by intros d b v w Hu%demo_bindings.
  - by intros d b v w Hu%demo_bindings.
  - by intros d b v w Hu%demo_bindings.
  - intros d b v w Hu%demo_bindings Hw. simpl. unfold demo_write. case_bool_decide; [done|]. simpl.
    rewrite fmap_app, not_elem_of_app. split; [done|].
    intros Heq%list_elem_of_singleton. by simpl in Heq.
  - apply demo_order_perm.
  - apply not_elem_of_nil.
  - rewrite <- Hr. apply demo_run_Some. by vm_compute.
Defined.

Lemma power_cap_attempts_every_child_witness :
  ∃ all caps failed,
    child_caps demo_fleet (of_Z 50) = Some all ∧ caps ≡ₚ unlocked_caps demo_locked all ∧
    mkDemoSite [] [("bmc_3"%string, of_Z 350)] = attempt_caps demo_channels ∅ None caps demo_w0 ∧
    Err (CapWritesFailed [("gpu_1", "set_power_limit")])%string =
      match failed with [] => Ok () | _ => Err (CapWritesFailed failed) end ∧
    ∀ dk, dk ∈ failed ↔ ∃ n c, caps !! n = Some c ∧ c.1 = dk ∧
      is_ok (write_one demo_channels ∅ None c
        (attempt_caps demo_channels ∅ None (take n caps) demo_w0)).1 = false.
Proof.
  refine (power_cap_attempts_every_child demo_channels ∅ demo_locked None demo_order
    demo_fleet (of_Z 50) demo_w0 _ _ demo_order_perm _). by vm_compute.
Defined.
