(* ===== verification/Commands.v ===== *)
(** * Commands: [handle_command] of [src/dispatch/mod.rs], taken apart

    A command is a future of the subscriber's task or of the site task.  Where
    it awaits, another task can run: after its [Received] event, after it has
    recorded the request, between two children's writes, and after the devices
    answered.  [command_begin] and
    [command_next] are the code between two of these points; run without
    interruption they are [Dispatch.handle_command]. *)

From Stdlib Require Import ZArith Lia Floats.
From S2P Require Import Prelude F64 Binary64 Text Allocation Cache Bindings Distribute Dispatch.
Local Open Scope Z_scope.
Local Open Scope gateway_scope.

(** The writes of a command that fans out, still to make: a module's shares,
    with what is answered if none is refused; or a fleet's caps in the order
    they complete, with those refused so far. *)
Inductive Fanout :=
| Shares (answer : result error unit) (todo : list (string * f64))
| Caps (refused : list (string * string)) (todo : list (string * string * f64)).

(** What a command under way has done: published [Received]; recorded its
    request, having found its binding; begun to write its children; got the
    devices' answer. *)
Inductive CommandStage :=
| Acked
| Recorded (binding : ProtocolBinding) (previous : option f64)
| Writing (previous : option f64) (f : Fanout)
| Written (previous : option f64) (answer : result error unit).

Record CommandFlight := mkFlight {
  cf_device : string;
  cf_key : string;
  cf_frame : CommandFrame;
  cf_stage : CommandStage;
}.

Inductive Progress :=
| Waits (c : CommandFlight)
| Answers (r : result string unit).

Definition at_stage (c : CommandFlight) (s : CommandStage) : CommandFlight :=
  mkFlight (cf_device c) (cf_key c) (cf_frame c) s.

Section Commands.
Context {W : Type} `{South W} `{Broker W}.
Context (channels : Channels) (trust : gmap string DeviceTrust) (locked : gset string)
  (creds : option GatewayCredentials) (site_id : string) (cache : InputCache) (now : Z)
  (order : list (string * string * f64) → list (string * string * f64)).

(** Up to the [Received] event: [Ok None] is a message that is dropped, [Err]
    an event the broker did not take. *)
Definition command_begin (topic : string) (frame : option CommandFrame) (w : W)
    : result string (option CommandFlight) * W :=
  match parse_command_topic topic site_id with
  | None => (Ok None, w)
  | Some ct =>
      match channels !! ct_device_id ct, frame with
      | Some _, Some f =>
          match publish (ack site_id (ct_device_id ct) (frame_command_id f) Received None) w with
          | (Err e, w) => (Err e, w)
          | (Ok _, w) =>
              (Ok (Some (mkFlight (ct_device_id ct) (ct_verb ct ++ "_" ++ ct_target ct) f Acked)), w)
          end
      | _, _ => (Ok None, w)
      end
  end.

(** The command's last event, and its answer. *)
Definition answer_event (c : CommandFlight) (phase : Phase) (why : option reason)
    (requested : Requested) (w : W) : Progress * Requested * W :=
  let '(r, w) := publish (ack site_id (cf_device c) (frame_command_id (cf_frame c)) phase why) w in
  (Answers r, requested, w).

Definition caps_answer (refused : list (string * string)) : result error unit :=
  match refused with [] => Ok () | _ => Err (CapWritesFailed refused) end.

(** A fan-out with nothing left to write is answered. *)
Definition fanned (previous : option f64) (f : Fanout) : CommandStage :=
  match f with
  | Shares answer [] => Written previous answer
  | Caps refused [] => Written previous (caps_answer refused)
  | _ => Writing previous f
  end.

(** [execute_setpoint] as far as its only write, or its first child's.  [None]
    is a panic. *)
Definition begin_writes (previous : option f64) (binding : ProtocolBinding) (value : f64)
    (device_id channel_key : string) (w : W) : option (CommandStage * W) :=
  match binding with
  | Distribute d =>
      guard ← envelope_guard_config d;
      Some match guard with
           | Some _ => (Written previous (Ok ()), w)
           | None =>
               match compute_shares d value site_id cache locked now with
               | Err e => (Written previous (Err e), w)
               | Ok shares =>
                   (fanned previous (Shares (if all_held value shares then Err (NoRackCould value) else Ok ())
                                       shares), w)
               end
           end
  | PowerCap p =>
      caps ← child_caps p value;
      Some (fanned previous (Caps [] (order (unlocked_caps locked caps))), w)
  | b =>
      '(r, w) ← execute_setpoint channels trust locked creds site_id cache now order b value device_id channel_key w;
      Some (Written previous r, w)
  end.

(** The next child's write; a refused share ends the fan-out. *)
Definition write_next (previous : option f64) (channel_key : string) (f : Fanout) (w : W) : CommandStage * W :=
  match f with
  | Shares answer (s :: todo) =>
      let '(r, w) := write_share channels trust creds channel_key s w in
      (match r with Ok _ => fanned previous (Shares answer todo) | Err e => Written previous (Err e) end, w)
  | Caps refused (c :: todo) =>
      let '(r, w) := write_one channels trust creds c w in
      (fanned previous (Caps (if is_ok r then refused else refused ++ [c.1]) todo), w)
  | f => (fanned previous f, w)
  end.

Definition command_next (c : CommandFlight) (requested : Requested) (w : W)
    : option (Progress * Requested * W) :=
  let value := frame_value (cf_frame c) in
  match cf_stage c with
  | Acked =>
      if bool_decide (cf_device c ∈ locked) then
        Some (answer_event c Failed (Some (LockedOut (cf_device c))) requested w)
      else
        match channel_of channels (cf_device c) (cf_key c) with
        | None => Some (answer_event c Failed (Some (UnknownCommand (cf_key c) (cf_device c))) requested w)
        | Some binding =>
            let '(requested, previous) := record_request requested (cf_device c) (cf_key c) value in
            Some (Waits (at_stage c (Recorded binding previous)), requested, w)
        end
  | Recorded binding previous =>
      '(s, w) ← begin_writes previous binding value (cf_device c) (cf_key c) w;
      Some (Waits (at_stage c s), requested, w)
  | Writing previous f =>
      let '(s, w) := write_next previous (cf_key c) f w in
      Some (Waits (at_stage c s), requested, w)
  | Written previous (Ok _) => Some (answer_event c Done None requested w)
  | Written previous (Err e) =>
      Some (answer_event c Failed (Some (WriteFailed e))
              (restore_request requested (cf_device c) (cf_key c) value previous) w)
  end.

(** ** A command no other task runs in *)

(** The writes left, in one go. *)
Definition finish_writes (channel_key : string) (f : Fanout) (w : W) : result error unit * W :=
  match f with
  | Shares answer todo =>
      let '(r, w) := write_shares channels trust creds todo channel_key w in
      (match r with Ok _ => answer | Err e => Err e end, w)
  | Caps refused todo =>
      let '(failed, w) := run_caps channels trust creds todo w in (caps_answer (refused ++ failed), w)
  end.

Definition finish_stage (channel_key : string) (s : CommandStage) (w : W) : option (result error unit * W) :=
  match s with
  | Writing _ f => Some (finish_writes channel_key f w)
  | Written _ r => Some (r, w)
  | _ => None
  end.

(** The last event, once the writes are answered. *)
Definition close (c : CommandFlight) (previous : option f64) (requested : Requested) (r : result error unit) (w : W)
    : result string unit * Requested * W :=
  let acked phase why := publish (ack site_id (cf_device c) (frame_command_id (cf_frame c)) phase why) w in
  match r with
  | Ok _ => let '(a, w) := acked Done None in (a, requested, w)
  | Err e =>
      let '(a, w) := acked Failed (Some (WriteFailed e)) in
      (a, restore_request requested (cf_device c) (cf_key c) (frame_value (cf_frame c)) previous, w)
  end.

(** The rest of a command, from one of its stages. *)
Definition command_finish (c : CommandFlight) (requested : Requested) (w : W)
    : option (result string unit * Requested * W) :=
  let value := frame_value (cf_frame c) in
  let execute binding previous requested :=
    '(r, w) ← execute_setpoint channels trust locked creds site_id cache now order binding value
                (cf_device c) (cf_key c) w;
    Some (close c previous requested r w) in
  let refuse why :=
    let '(a, w) := publish (ack site_id (cf_device c) (frame_command_id (cf_frame c)) Failed (Some why)) w in
    Some (a, requested, w) in
  match cf_stage c with
  | Acked =>
      if bool_decide (cf_device c ∈ locked) then refuse (LockedOut (cf_device c))
      else
        match channel_of channels (cf_device c) (cf_key c) with
        | None => refuse (UnknownCommand (cf_key c) (cf_device c))
        | Some binding =>
            let '(requested, previous) := record_request requested (cf_device c) (cf_key c) value in
            execute binding previous requested
        end
  | Recorded binding previous => execute binding previous requested
  | Writing previous f => let '(r, w) := finish_writes (cf_key c) f w in Some (close c previous requested r w)
  | Written previous r => Some (close c previous requested r w)
  end.

Lemma fanned_finishes previous key f w :
  finish_stage key (fanned previous f) w = Some (finish_writes key f w).
Proof. destruct f as [a [|s todo]|l [|c todo]]; cbn; [done..| |done]. by rewrite app_nil_r. Qed.

Lemma begin_writes_finish previous b value d key w :
  ('(s, w) ← begin_writes previous b value d key w; finish_stage key s w) =
  execute_setpoint channels trust locked creds site_id cache now order b value d key w.
Proof.
  unfold begin_writes. destruct b as [| | | | | |b| |db|p];
    try (destruct (execute_setpoint _ _ _ _ _ _ _ _ _ _ _ _ _) as [[r w1]|]; done).
  - unfold execute_setpoint, dispatch_distribute.
    destruct (envelope_guard_config db) as [[g|]|]; cbn [mbind option_bind]; [done| |done].
    destruct (compute_shares _ _ _ _ _ _) as [shares|e]; [|done].
    rewrite fanned_finishes. cbn [finish_writes]. by destruct (write_shares _ _ _ _ _ _) as [[u|e] w1].
  - unfold execute_setpoint, dispatch_power_cap. destruct (child_caps p value) as [caps|]; cbn [mbind option_bind]; [|done].
    rewrite fanned_finishes. unfold write_caps. cbn [finish_writes].
    by destruct (run_caps _ _ _ _ _) as [failed w1].
Qed.

Lemma write_next_finish previous key f w :
  let '(s, w') := write_next previous key f w in finish_stage key s w' = Some (finish_writes key f w).
Proof.
  destruct f as [a [|s todo]|l [|c todo]]; unfold write_next.
  - apply fanned_finishes.
  - cbn [finish_writes write_shares]. destruct (write_share _ _ _ _ _ _) as [[u|e] w1]; [apply fanned_finishes|done].
  - apply fanned_finishes.
  - cbn [finish_writes run_caps]. destruct (write_one _ _ _ _ _) as [r w1]. rewrite fanned_finishes. cbn [finish_writes].
    destruct (run_caps _ _ _ _ _) as [failed w2]. f_equal. f_equal. f_equal.
    destruct (is_ok r); [done|]. by rewrite <- app_assoc.
Qed.

(** A stage of the writes, which are to restore [previous]. *)
Definition restores (previous : option f64) (s : CommandStage) : Prop :=
  match s with Writing p _ | Written p _ => p = previous | _ => False end.

Lemma fanned_restores previous f : restores previous (fanned previous f).
Proof. by destruct f as [a [|]|l [|]]. Qed.

Lemma begin_writes_restores previous b value d key w s w' :
  begin_writes previous b value d key w = Some (s, w') → restores previous s.
Proof.
  unfold begin_writes. destruct b as [| | | | | |b| |db|p];
    try (destruct (execute_setpoint _ _ _ _ _ _ _ _ _ _ _ _ _) as [[r w1]|]; simpl; [|done]; by intros [= <- <-]).
  - destruct (envelope_guard_config db) as [[g|]|]; cbn [mbind option_bind]; [by intros [= <- <-]| |done].
    destruct (compute_shares _ _ _ _ _ _); intros Hb; [|by injection Hb as <- <-].
    apply (inj Some), (f_equal fst) in Hb. cbn [fst] in Hb. rewrite <- Hb. apply fanned_restores.
  - destruct (child_caps p value); cbn [mbind option_bind]; [|done]. intros Hb.
    apply (inj Some), (f_equal fst) in Hb. cbn [fst] in Hb. rewrite <- Hb. apply fanned_restores.
Qed.

Lemma write_next_restores previous key f w : restores previous (write_next previous key f w).1.
Proof.
  destruct f as [a [|s todo]|l [|c todo]]; unfold write_next; try apply fanned_restores.
  - destruct (write_share _ _ _ _ _ _) as [[u|e] w1]; [apply fanned_restores|done].
  - destruct (write_one _ _ _ _ _). apply fanned_restores.
Qed.

Lemma finish_from c previous s requested w :
  restores previous s →
  command_finish (at_stage c s) requested w =
    '(r, w) ← finish_stage (cf_key c) s w; Some (close c previous requested r w).
Proof.
  destruct s as [| |p f|p r]; simpl; try done; intros ->; [|done].
  unfold command_finish. cbn [at_stage cf_stage cf_key]. by destruct (finish_writes _ _ _).
Qed.

(** A stage and the rest after it are the rest from it. *)
Lemma command_next_finish c requested w :
  command_finish c requested w =
    '(p, requested, w) ← command_next c requested w;
    match p with
    | Answers r => Some (r, requested, w)
    | Waits c => command_finish c requested w
    end.
Proof.
  unfold command_next, answer_event, command_finish at 1. destruct (cf_stage c) as [|b previous|previous f|previous r].
  - case_bool_decide; [by destruct (publish _ w)|].
    destruct (channel_of _ _ _) as [b|]; [|by destruct (publish _ w)]. by destruct (record_request _ _ _ _).
  - rewrite <- (begin_writes_finish previous).
    destruct (begin_writes _ _ _ _ _ _) as [[s w1]|] eqn:Hb; cbn [mbind option_bind]; [|done].
    rewrite (finish_from c previous); [done|]. by eapply begin_writes_restores.
  - pose proof (write_next_finish previous (cf_key c) f w) as Hw.
    pose proof (write_next_restores previous (cf_key c) f w) as Hr.
    destruct (write_next _ _ _ _) as [s w1]. cbn [mbind option_bind].
    rewrite (finish_from c previous), Hw by done. by destruct (finish_writes _ _ _).
  - destruct r as [u|e]; simpl; by destruct (publish _ w).
Qed.

(** The stages come to an end: one that is not the last goes on to a later
    stage, or to one with fewer writes left. *)
Definition fan_left (f : Fanout) : nat :=
  match f with Shares _ todo => length todo | Caps _ todo => length todo end.

Definition stage_rank (s : CommandStage) : nat :=
  match s with Acked => 3 | Recorded _ _ => 2 | Writing _ _ => 1 | Written _ _ => 0 end.

Definition stage_left (s : CommandStage) : nat := match s with Writing _ f => fan_left f | _ => 0 end.

Definition nearer (s s' : CommandStage) : Prop :=
  (stage_rank s < stage_rank s' ∨ stage_rank s = stage_rank s' ∧ stage_left s < stage_left s')%nat.

Lemma stage_ind (P : CommandFlight → Prop) :
  (∀ c, (∀ c', nearer (cf_stage c') (cf_stage c) → P c') → P c) → ∀ c, P c.
Proof.
  intros Hstep c. remember (stage_rank (cf_stage c)) as n eqn:Hn. revert c Hn.
  induction (lt_wf n) as [n _ IHn]. intros c. remember (stage_left (cf_stage c)) as m eqn:Hm. revert c Hm.
  induction (lt_wf m) as [m _ IHm]. intros c -> ->. apply Hstep. intros c' [Hlt|[Heq Hlt]].
  - by eapply IHn.
  - by eapply IHm.
Qed.

Lemma fanned_nearer previous f s :
  (1 < stage_rank s ∨ stage_rank s = 1 ∧ fan_left f < stage_left s)%nat → nearer (fanned previous f) s.
Proof.
  intros Hs. unfold nearer. destruct f as [a [|x todo]|l [|x todo]]; cbn in *; lia.
Qed.

Lemma write_next_nearer previous key f w : nearer (write_next previous key f w).1 (Writing previous f).
Proof.
  destruct f as [a [|s todo]|l [|s todo]]; unfold write_next; [left; cbn; lia| |left; cbn; lia|].
  - destruct (write_share _ _ _ _ _ _) as [[u|e] w1]; [|left; cbn; lia]. apply fanned_nearer. right. cbn. lia.
  - destruct (write_one _ _ _ _ _). apply fanned_nearer. right. cbn. lia.
Qed.

Lemma begin_writes_rank previous b value d key w s w' :
  begin_writes previous b value d key w = Some (s, w') → (stage_rank s < 2)%nat.
Proof. intros Hb%begin_writes_restores. destruct s; cbn in *; try done; lia. Qed.

Lemma command_next_nearer c requested w c' requested' w' :
  command_next c requested w = Some (Waits c', requested', w') → nearer (cf_stage c') (cf_stage c).
Proof.
  unfold command_next, answer_event. intros Hn. destruct (cf_stage c) as [|b previous|previous f|previous [u|e]].
  - case_bool_decide; [by destruct (publish _ w)|]. destruct (channel_of _ _ _); [|by destruct (publish _ w)].
    destruct (record_request _ _ _ _). injection Hn as <- <- <-. left. cbn. lia.
  - destruct (begin_writes _ _ _ _ _ _) as [[s w1]|] eqn:Hb; simpl in Hn; [|done]. injection Hn as <- <- <-.
    apply begin_writes_rank in Hb. by left.
  - pose proof (write_next_nearer previous (cf_key c) f w) as Hw.
    destruct (write_next _ _ _ _) as [s w1]. by injection Hn as <- <- <-.
  - by destruct (publish _ w).
  - by destruct (publish _ w).
Qed.

Definition command_run (topic : string) (frame : option CommandFrame) (requested : Requested) (w : W)
    : option (result string unit * Requested * W) :=
  match command_begin topic frame w with
  | (Err e, w) => Some (Err e, requested, w)
  | (Ok None, w) => Some (Ok (), requested, w)
  | (Ok (Some c), w) => command_finish c requested w
  end.

(** Its stages in turn are the command as one operation. *)
Lemma command_run_eq topic frame requested w :
  command_run topic frame requested w =
    handle_command channels trust locked creds site_id cache now order requested topic frame w.
Proof.
  unfold command_run, command_begin, handle_command.
  destruct (parse_command_topic topic site_id) as [ct|]; [|done]. cbv zeta.
  destruct (channels !! ct_device_id ct) as [device|] eqn:Hd; [|done].
  destruct frame as [f|]; [|done]. unfold ack.
  destruct (publish _ w) as [[u|e] w1]; [|done].
  unfold command_finish, close, ack, channel_of. cbn [cf_stage cf_device cf_frame cf_key].
  rewrite Hd. cbn [mbind option_bind].
  case_bool_decide; [done|]. destruct (device !! _) as [b|]; [|done].
  destruct (record_request _ _ _ _) as [r1 previous].
  destruct (execute_setpoint _ _ _ _ _ _ _ _ _ _ _ _ _) as [[[u'|e] w2]|]; [..|done];
    cbn [mbind option_bind]; by destruct (publish _ w2).
Qed.

(** How many children a command can write, and any command at all. *)
Definition fan_width (b : ProtocolBinding) : nat :=
  match b with Distribute d => length (db_children d) | PowerCap p => length (pc_children p) | _ => 0 end.

Definition all_width : nat :=
  sum_list_with (λ d : string * gmap string ProtocolBinding, sum_list_with (λ c, fan_width c.2) (map_to_list d.2))
    (map_to_list channels).

Lemma channel_width d key b : channel_of channels d key = Some b → (fan_width b <= all_width)%nat.
Proof.
  unfold channel_of. intros Hc. destruct (channels !! d) as [m|] eqn:Hd; simpl in Hc; [|done].
  apply elem_of_map_to_list in Hc, Hd.
  transitivity (sum_list_with (λ c : string * ProtocolBinding, fan_width c.2) (map_to_list m)).
  - exact (sum_list_with_in (key, b) (λ c, fan_width c.2) _ Hc).
  - exact (sum_list_with_in (d, m) (λ d, sum_list_with (λ c : string * ProtocolBinding, fan_width c.2)
      (map_to_list d.2)) _ Hd).
Qed.

(** The steps a command still takes, at most. *)
Definition stage_work (c : CommandFlight) : nat :=
  match cf_stage c with
  | Acked => 3 + all_width
  | Recorded b _ => 2 + fan_width b
  | Writing _ f => 1 + fan_left f
  | Written _ _ => 1
  end.

Lemma stage_work_pos c : (1 <= stage_work c)%nat.
Proof. unfold stage_work. destruct (cf_stage c); lia. Qed.

Lemma fanned_work c previous f : stage_work (at_stage c (fanned previous f)) = (1 + fan_left f)%nat.
Proof. by destruct f as [a [|]|l [|]]. Qed.

Lemma child_caps_length p percent caps : child_caps p percent = Some caps → length caps = length (pc_children p).
Proof. intros Hc. symmetry. by eapply length_mapM. Qed.

Section Completes.
(** The caps complete in some order. *)
Hypothesis order_perm : ∀ l, order l ≡ₚ l.

Lemma begin_writes_work c previous b value d key w s w' :
  begin_writes previous b value d key w = Some (s, w') → (stage_work (at_stage c s) <= 1 + fan_width b)%nat.
Proof.
  unfold begin_writes. destruct b as [| | | | | |b| |db|p];
    try (destruct (execute_setpoint _ _ _ _ _ _ _ _ _ _ _ _ _) as [[r w1]|]; simpl; [|done];
         intros [= <- <-]; cbn; lia).
  - destruct (envelope_guard_config db) as [[g|]|]; cbn [mbind option_bind]; [intros [= <- <-]; cbn; lia| |done].
    destruct (compute_shares _ _ _ _ _ _) as [shares|e] eqn:Hs; intros Hb; [|injection Hb as <- <-; cbn; lia].
    apply (inj Some), (f_equal fst) in Hb. cbn [fst] in Hb. rewrite <- Hb, fanned_work.
    apply compute_shares_length in Hs. cbn. lia.
  - destruct (child_caps p value) as [caps|] eqn:Hc; cbn [mbind option_bind]; [|done]. intros Hb.
    apply (inj Some), (f_equal fst) in Hb. cbn [fst] in Hb. rewrite <- Hb, fanned_work.
    apply child_caps_length in Hc. cbn [fan_left fan_width].
    rewrite (Permutation_length (order_perm _)). unfold unlocked_caps.
    pose proof (List.filter_length_le (λ c, negb (bool_decide (c.1.1 ∈ locked))) caps). lia.
Qed.

Lemma write_next_work c previous key f w :
  (stage_work (at_stage c (write_next previous key f w).1) <= fan_left f ∨ fan_left f = 0)%nat.
Proof.
  destruct f as [a [|s todo]|l [|s todo]]; unfold write_next; [by right| |by right|]; left.
  - destruct (write_share _ _ _ _ _ _) as [[u|e] w1]; cbn [fst]; [by rewrite fanned_work|cbn; lia].
  - destruct (write_one _ _ _ _ _). cbn [fst]. by rewrite fanned_work.
Qed.

(** ** What the stages of a command preserve *)

Definition fan_ids (f : Fanout) : list string :=
  match f with Shares _ todo => todo.*1 | Caps _ todo => todo.*1.*1 end.

(** The lockouts and the channels it began with are still in force: the command
    holds their locks.  What it has left to write is not locked out. *)
Definition flight_ok (c : CommandFlight) : Prop :=
  match cf_stage c with
  | Recorded b _ => cf_device c ∉ locked ∧ channel_of channels (cf_device c) (cf_key c) = Some b
  | Writing _ f => (0 < fan_left f)%nat ∧ ∀ id, id ∈ fan_ids f → id ∉ locked
  | _ => True
  end.

Lemma command_begin_ok topic frame w c w' :
  command_begin topic frame w = (Ok (Some c), w') → cf_stage c = Acked.
Proof.
  unfold command_begin. destruct (parse_command_topic _ _); [|done].
  destruct (channels !! _), frame; try done. destruct (publish _ w) as [[u|e] w1]; [|done].
  by intros [= <- <-].
Qed.

Lemma fanned_ok c previous f : (∀ id, id ∈ fan_ids f → id ∉ locked) → flight_ok (at_stage c (fanned previous f)).
Proof. intros Hf. destruct f as [a [|]|l [|]]; unfold flight_ok; cbn; try done; (split; [lia|done]). Qed.

Lemma begin_writes_ok c previous b value d key w s w' :
  begin_writes previous b value d key w = Some (s, w') → flight_ok (at_stage c s).
Proof.
  unfold begin_writes. destruct b as [| | | | | |b| |db|p];
    try (destruct (execute_setpoint _ _ _ _ _ _ _ _ _ _ _ _ _) as [[r w1]|]; simpl; [|done]; by intros [= <- <-]).
  - destruct (envelope_guard_config db) as [[g|]|]; cbn [mbind option_bind]; [by intros [= <- <-]| |done].
    destruct (compute_shares _ _ _ _ _ _) as [shares|e] eqn:Hs; intros Hb; [|by injection Hb as <- <-].
    apply (inj Some), (f_equal fst) in Hb. cbn [fst] in Hb. rewrite <- Hb. apply fanned_ok.
    intros id. by eapply compute_shares_unlocked.
  - destruct (child_caps p value) as [caps|]; cbn [mbind option_bind]; [|done]. intros Hb.
    apply (inj Some), (f_equal fst) in Hb. cbn [fst] in Hb. rewrite <- Hb. apply fanned_ok.
    intros id (k & -> & (cap & -> & Hc)%list_elem_of_fmap)%list_elem_of_fmap.
    rewrite order_perm in Hc. by eapply unlocked_caps_unlocked.
Qed.

Lemma write_next_ok c previous key f w :
  (∀ id, id ∈ fan_ids f → id ∉ locked) → flight_ok (at_stage c (write_next previous key f w).1).
Proof.
  intros Hf. destruct f as [a [|s todo]|l [|s todo]]; unfold write_next; [by apply fanned_ok| |by apply fanned_ok|].
  - destruct (write_share _ _ _ _ _ _) as [[u|e] w1]; [|done]. apply fanned_ok. intros id Hid. apply Hf. by right.
  - destruct (write_one _ _ _ _ _). apply fanned_ok. intros id Hid. apply Hf. by right.
Qed.

Lemma command_next_ok c requested w c' requested' w' :
  command_next c requested w = Some (Waits c', requested', w') → flight_ok c →
  flight_ok c' ∧ (stage_work c' < stage_work c)%nat.
Proof.
  unfold command_next, answer_event. intros Hn Hok. unfold flight_ok in Hok. unfold stage_work at 2.
  destruct (cf_stage c) as [|b p|p f|p [u|e]]; cbn beta iota in Hn.
  - case_bool_decide as Hl; [by destruct (publish _ w)|].
    destruct (channel_of _ _ _) as [b|] eqn:Hb; [|by destruct (publish _ w)].
    destruct (record_request _ _ _ _). injection Hn as <- <- <-. split; [done|].
    apply channel_width in Hb. cbn. lia.
  - destruct (begin_writes _ _ _ _ _ _) as [[s w1]|] eqn:Hb; simpl in Hn; [|done]. injection Hn as <- <- <-.
    split; [by eapply begin_writes_ok|]. apply (begin_writes_work c) in Hb. lia.
  - pose proof (write_next_ok c p (cf_key c) f w (proj2 Hok)) as Hw.
    pose proof (write_next_work c p (cf_key c) f w) as Hk.
    destruct (write_next _ _ _ _) as [s w1]. injection Hn as <- <- <-. split; [done|]. cbn [fst] in Hk. lia.
  - by destruct (publish _ w).
  - by destruct (publish _ w).
Qed.
End Completes.

Section Reach.
Context (P : W → Prop).
Hypothesis publish_keeps : ∀ e w, P w → P (publish e w).2.
Hypothesis modbus_keeps : ∀ d b v w, unlocked_binding channels locked d (ModbusTcp b) →
  P w → P (modbus_write b v (trust !! d) creds w).2.
Hypothesis sunspec_keeps : ∀ d b v w, unlocked_binding channels locked d (Sunspec b) →
  P w → P (sunspec_write b v (trust !! d) creds w).2.
Hypothesis bit_keeps : ∀ d b a w, unlocked_binding channels locked d (Sunspec b) →
  P w → P (sunspec_write_bit b a (trust !! d) creds w).2.
Hypothesis redfish_keeps : ∀ d b v w, unlocked_binding channels locked d (Redfish b) →
  P w → P (redfish_write b v (trust !! d) creds w).2.

Lemma command_begin_keeps topic frame w : P w → P (command_begin topic frame w).2.
Proof.
  intros Hw. unfold command_begin. destruct (parse_command_topic _ _) as [ct|]; [|done].
  destruct (channels !! _), frame as [f|]; try done.
  pose proof (publish_keeps (ack site_id (ct_device_id ct) (frame_command_id f) Received None) w Hw) as Hp.
  by destruct (publish _ w) as [[u|e] w1].
Qed.

Lemma answer_event_keeps c phase why requested w :
  P w → P (answer_event c phase why requested w).2.
Proof.
  intros Hw. unfold answer_event.
  pose proof (publish_keeps (ack site_id (cf_device c) (frame_command_id (cf_frame c)) phase why) w Hw) as Hp.
  by destruct (publish _ w).
Qed.

Lemma begin_writes_keeps previous b value d key w s w' :
  (∀ l, order l ≡ₚ l) → unlocked_binding channels locked d b → P w →
  begin_writes previous b value d key w = Some (s, w') → P w'.
Proof.
  intros Hord Hu Hw. unfold begin_writes.
  assert (∀ r w1, execute_setpoint channels trust locked creds site_id cache now order b value d key w = Some (r, w1) →
    P w1) as He.
  { intros r w1 He. eapply (execute_keeps channels trust locked creds site_id cache now order P);
      [exact modbus_keeps|exact sunspec_keeps|exact bit_keeps|exact redfish_keeps|exact Hord|exact Hu|exact Hw|exact He]. }
  destruct b as [| | | | | |b| |db|p];
    try (destruct (execute_setpoint _ _ _ _ _ _ _ _ _ _ _ _ _) as [[r w1]|]; simpl; [|done];
         intros [= <- <-]; by eapply He).
  - destruct (envelope_guard_config db) as [[g|]|]; cbn [mbind option_bind]; [by intros [= <- <-]| |done].
    by destruct (compute_shares _ _ _ _ _ _); intros [= <- <-].
  - destruct (child_caps p value); cbn [mbind option_bind]; [|done]. by intros [= <- <-].
Qed.

Lemma write_next_keeps previous key f w :
  (∀ id, id ∈ fan_ids f → id ∉ locked) → P w → P (write_next previous key f w).2.
Proof.
  intros Hf Hw. destruct f as [a [|s todo]|l [|s todo]]; unfold write_next; [done| |done|].
  - pose proof (write_share_reach channels trust locked creds P modbus_keeps sunspec_keeps key s w
      (Hf _ (list_elem_of_here _ _)) Hw) as Hk. by destruct (write_share _ _ _ _ _ _) as [[u|e] w1].
  - pose proof (write_one_reach channels trust locked creds P redfish_keeps s w
      (Hf _ (list_elem_of_here _ _)) Hw) as Hk. by destruct (write_one _ _ _ _ _).
Qed.

Lemma command_next_keeps c requested w p requested' w' :
  (∀ l, order l ≡ₚ l) → flight_ok c → P w →
  command_next c requested w = Some (p, requested', w') → P w'.
Proof.
  intros Hord Hok Hw Hn. unfold command_next in Hn. unfold flight_ok in Hok.
  assert (∀ ph why r, Some (answer_event c ph why r w) = Some (p, requested', w') → P w') as Ha.
  { intros ph why r Ha. pose proof (answer_event_keeps c ph why r w Hw) as Hk.
    injection Ha as Ha. by rewrite Ha in Hk. }
  destruct (cf_stage c) as [|b prev|prev f|prev [u|e]]; cbn beta iota in Hn; [| | |by eapply Ha|by eapply Ha].
  - case_bool_decide; [by eapply Ha|]. destruct (channel_of _ _ _); [|by eapply Ha].
    destruct (record_request _ _ _ _). by injection Hn as <- <- <-.
  - destruct (begin_writes _ _ _ _ _ _) as [[s w1]|] eqn:Hb; simpl in Hn; [|done].
    injection Hn as <- <- <-. eapply begin_writes_keeps; [exact Hord| |exact Hw|exact Hb].
    split; [apply Hok|]. exists (cf_key c). apply Hok.
  - pose proof (write_next_keeps prev (cf_key c) f w (proj2 Hok) Hw) as Hk.
    destruct (write_next _ _ _ _) as [s w1]. by injection Hn as <- <- <-.
Qed.
End Reach.
End Commands.
