(* ===== verification/EnvelopeTask.v ===== *)
(** * The envelope and shed tasks: [src/envelope/task.rs], [recharge.rs],
    [energize.rs], [storage_spare.rs] and [shed_task.rs]

    One tick of each task, on the state the task keeps between ticks.  [now] is
    the instant of the tick and [landed_at] the one [landed] reads after the
    writes.  [None] is a panic. *)

From Stdlib Require Import ZArith Lia Floats.
From S2P Require Import Prelude F64 Binary64 Rounding Allocation Cache Bindings WriteOrder.
From S2P Require Import Writes PoiServo ControlLaw Shed Distribute Dispatch.
Local Open Scope Z_scope.

(** ** [recharge.rs] *)

Definition requested_w (binding : ProtocolBinding) (device_id : string) (requested : f64)
    (site_id : string) (cache : InputCache) : f64 :=
  match binding with
  | Distribute d =>
      match db_readiness_soc_percent d, db_recharge_power_w d with
      | Some readiness, Some recharge_w =>
          let event := reading cache (measurement_topic site_id "der_dispatch" "event_active" "none") in
          let soc := reading cache (measurement_topic site_id device_id "state_of_charge" "percent") in
          match event, soc with
          | Some event, Some soc =>
              if f_eqb requested (of_Z 0) && f_ltb event (lit 5 10) && f_ltb soc readiness
              then f_opp recharge_w else requested
          | _, _ => requested
          end
      | _, _ => requested
      end
  | _ => requested
  end.

(** ** [energize.rs] *)

Definition energize_topic (site_id : string) : string :=
  measurement_topic site_id "der_dispatch" "energize_enabled" "none".

Definition target_w (target : f64) (site_id : string) (cache : InputCache) : f64 :=
  match reading cache (energize_topic site_id) with
  | Some energize => if f_ltb energize (lit 5 10) then of_Z 0 else target
  | None => target
  end.

(** ** [storage_spare.rs] *)

Definition module_spare_w (m : DistributeBinding) (site_id : string) (cache : InputCache)
    (locked : gset string) (now : Z) : f64 :=
  match db_active_power_topic m with
  | None => of_Z 0
  | Some topic =>
      match reading cache (substitute_site_id topic site_id) with
      | None => of_Z 0
      | Some active_w =>
          let rated := match db_power_max m with
                       | Some p => p
                       | None => f_sum (ca_power_max <$> db_children m)
                       end in
          let deliverable := match compute_shares m rated site_id cache locked now with
                             | Ok shares => f_sum shares.*2
                             | Err _ => of_Z 0
                             end in
          f_max (f_sub deliverable active_w) (of_Z 0)
      end
  end.

Definition spare_w (modules : list DistributeBinding) (poi_topic site_id : string)
    (cache : InputCache) (locked : gset string) (now : Z) : f64 :=
  f_sum ((λ m, module_spare_w m site_id cache locked now) <$>
    List.filter (λ m, match db_poi_active_power_topic m with
                      | Some t => bool_decide (substitute_site_id t site_id = poi_topic)
                      | None => false
                      end) modules).

(** ** [task.rs] *)

Record EnvelopeTaskConfig := mkTaskConfig {
  etc_device_id : string;
  etc_channel_key : string;
  etc_guard : option EnvelopeGuardConfig;
  etc_binding : ProtocolBinding;
  etc_tick_hz : f64;
}.

(** What the task keeps between ticks. *)
Record TaskState := mkTask {
  controller : option (EnvelopeController f64);
  task_writes : WriteState f64;
}.

Section Tick.
Context (cfg : EnvelopeTaskConfig) (site_id : string) (cache : InputCache)
  (last_requested : Requested) (locked : gset string) (now : Z).

Definition task_requested : f64 :=
  default (of_Z 0) (requested_of last_requested (etc_device_id cfg) (etc_channel_key cfg)).

(** The POI reading a guard needs: the outer [None] is "hold". *)
Definition poi_reading (guard : EnvelopeGuardConfig) : option (option (f64 * Z)) :=
  match guard_poi_active_power_topic guard with
  | Some topic =>
      match reading_at cache (substitute_site_id topic site_id) with
      | Some r => Some (Some r)
      | None => None
      end
  | None => Some None
  end.

(** The guarded arm of [let target = match &cfg.guard { .. }], on inputs that
    have landed: the new state and the target. *)
Definition guarded_target (guard : EnvelopeGuardConfig) (s : TaskState) (dt : Z)
    (active_power : f64) (poi : option (f64 * Z)) : option (TaskState * f64) :=
  let requested := requested_w (etc_binding cfg) (etc_device_id cfg) task_requested site_id cache in
  let limit topic := reading cache (substitute_site_id topic site_id) in
  let '(gate, (fresh, hold)) :=
    match poi with
    | Some (_, at_) => take (gate (task_writes s)) at_
    | None => (gate (task_writes s), (true, false))
    end in
  let ws := mkWrites (last_written (task_writes s)) (deferred_growth (task_writes s)) gate in
  let ctrl := match controller s with
              | Some c => c
              | None => new_controller (control guard) active_power
              end in
  let silent := match poi with
                | Some (_, at_) => STALE_AFTER <? elapsed_since now at_
                | None => false
                end in
  if silent then
    let c := ramp_to_zero ctrl (guard_power_min guard) (guard_power_max guard) dt in
    Some (mkTask (Some c) ws, current_output c)
  else
    '(c, _) ← ControlLaw.tick ctrl
      (mkTick (limit (guard_import_limit_topic guard)) (limit (guard_export_limit_topic guard))
         active_power requested (fst <$> poi) fresh hold
         (guard_power_min guard) (guard_power_max guard) dt);
    Some (mkTask (Some c) ws, current_output c).

(** Everything [tick_once] does before it writes: the new state and what to
    write, if anything. *)
Definition tick_plan (s : TaskState) (dt : Z) : option (TaskState * option (Plan f64)) :=
  let resolved :=
    match etc_guard cfg with
    | Some guard =>
        match reading cache (substitute_site_id (guard_active_power_topic guard) site_id),
              poi_reading guard with
        | Some active_power, Some poi =>
            r ← guarded_target guard s dt active_power poi; Some (Some r)
        | _, _ => Some None
        end
    | None => Some (Some (s, task_requested))
    end in
  resolved ← resolved;
  match resolved with
  | None => Some (s, None)
  | Some (s, target) =>
      let target := target_w target site_id cache in
      match etc_binding cfg with
      | Distribute d =>
          match compute_shares d target site_id cache locked now with
          | Err _ => Some (s, None)
          | Ok shares =>
              let delivered := f_sum shares.*2 in
              let ctrl :=
                if f_ltb (of_Z 1) (f_abs (f_sub delivered target))
                then (λ c, sync_to_delivered c delivered) <$> controller s
                else controller s in
              let '(ws, p) := plan (task_writes s) shares in
              Some (mkTask ctrl ws, p)
          end
      | _ => Some (s, None)
      end
  end.
End Tick.

Section Task.
Context {W : Type} `{South W}.
Context (cfg : EnvelopeTaskConfig) (site_id : string) (cache : InputCache)
  (last_requested : Requested) (channels : Channels) (trust : gmap string DeviceTrust)
  (locked : gset string) (creds : option GatewayCredentials).

(** [tick_once]. *)
Definition tick_once (s : TaskState) (dt now landed_at : Z) (w : W) : option (TaskState * W) :=
  '(s, p) ← tick_plan cfg site_id cache last_requested locked now s dt;
  match p with
  | None => Some (s, w)
  | Some p =>
      let '(r, w) := write_shares channels trust creds (writes p) (etc_channel_key cfg) w in
      Some (match r with
            | Ok _ => mkTask (controller s) (landed (task_writes s) p landed_at)
            | Err _ => s
            end, w)
  end.
End Task.

(** ** [shed_task.rs] *)

Record CapModule := mkCapModule {
  cm_device_id : string;
  cm_channel_key : string;
  cm_binding : PowerCapBinding;
}.

Record ShedTaskConfig := mkShedTask {
  st_modules : list CapModule;
  st_control : EnvelopeConfig f64;
  st_poi_topic : string;
  st_import_limit_topic : string;
  st_export_limit_topic : string;
  st_creds : option GatewayCredentials;
  st_storage : list DistributeBinding;
  st_site_id : string;
}.

(** The outer [None] is [from_secs_f64]'s panic, the inner one an unguarded
    power cap. *)
Definition from_binding (device_id channel_key : string) (b : PowerCapBinding) (site_id : string)
    (creds : option GatewayCredentials) : option (option ShedTaskConfig) :=
  match pc_ramp_rate_per_sec b, pc_hysteresis_margin b, pc_hysteresis_dwell_secs b with
  | Some ramp, Some margin, Some secs =>
      dwell ← duration_from_secs_f64 secs;
      Some (poi ← pc_poi_active_power_topic b;
            import ← pc_import_limit_topic b;
            export ← pc_export_limit_topic b;
            Some (mkShedTask [mkCapModule device_id channel_key b] (mkConfig ramp margin dwell)
                    (substitute_site_id poi site_id) (substitute_site_id import site_id)
                    (substitute_site_id export site_id) creds [] site_id))
  | _, _, _ => Some None
  end.

Definition same_poi (g c : ShedTaskConfig) : bool :=
  bool_decide (st_poi_topic g = st_poi_topic c ∧ st_import_limit_topic g = st_import_limit_topic c ∧
               st_export_limit_topic g = st_export_limit_topic c).

Definition extend_modules (g : ShedTaskConfig) (ms : list CapModule) : ShedTaskConfig :=
  mkShedTask (st_modules g ++ ms) (st_control g) (st_poi_topic g) (st_import_limit_topic g)
    (st_export_limit_topic g) (st_creds g) (st_storage g) (st_site_id g).

(** The loop body of [per_poi]: into the first group of the same POI, or a new
    one at the end. *)
Fixpoint add_to_groups (groups : list ShedTaskConfig) (c : ShedTaskConfig) : list ShedTaskConfig :=
  match groups with
  | [] => [c]
  | g :: groups =>
      if same_poi g c then extend_modules g (st_modules c) :: groups
      else g :: add_to_groups groups c
  end.

Definition per_poi (configs : list ShedTaskConfig) : list ShedTaskConfig :=
  foldl add_to_groups [] configs.

Definition shed_children (cfg : ShedTaskConfig) : list CapChild :=
  m ← st_modules cfg; pc_children (cm_binding m).

(** [inputs]: the new [last_poi], and this tick's inputs unless it holds. *)
Definition inputs (cfg : ShedTaskConfig) (cache : InputCache) (storage_spare : f64)
    (last_poi : option Z) : option Z * option (ShedTick f64) :=
  match reading_at cache (st_poi_topic cfg), reading_at cache (st_import_limit_topic cfg),
        reading_at cache (st_export_limit_topic cfg) with
  | Some (poi, received_at), Some (import, _), Some (export, _) =>
      let use dt :=
        (Some received_at,
         Some (mkShedTick poi import export (of_Z 100)
                 (f_sum (cc_max_w <$> shed_children cfg)) (f_sum (cc_min_w <$> shed_children cfg))
                 storage_spare dt)) in
      match last_poi with
      | Some prev => if received_at <=? prev then (last_poi, None) else use (received_at - prev)
      | None => use (seconds 1)
      end
  | _, _, _ => (last_poi, None)
  end.

(** [None] is a panic in [child_caps]. *)
Definition module_caps (cfg : ShedTaskConfig) (percent : f64) (last_requested : Requested)
    : option (list (string * string * f64)) :=
  mjoin <$> mapM (λ m,
    let operator := default (of_Z 100) (requested_of last_requested (cm_device_id m) (cm_channel_key m)) in
    child_caps (cm_binding m) (f_min percent operator)) (st_modules cfg).

Section ShedTask.
Context {W : Type} `{South W}.
Context (cfg : ShedTaskConfig) (cache : InputCache) (last_requested : Requested)
  (channels : Channels) (trust : gmap string DeviceTrust) (locked : gset string)
  (order : list (string * string * f64) → list (string * string * f64)).

(** The body of the shed loop, on its controller and last used POI reading. *)
Definition shed_once (controller : ShedController f64) (last_poi : option Z) (now : Z) (w : W)
    : option (ShedController f64 * option Z * W) :=
  let spare := spare_w (st_storage cfg) (st_poi_topic cfg) (st_site_id cfg) cache locked now in
  let '(last_poi, t) := inputs cfg cache spare last_poi in
  match t with
  | None => Some (controller, last_poi, w)
  | Some t =>
      '(controller, percent) ← shed_tick controller t;
      match percent with
      | None => Some (controller, last_poi, w)
      | Some percent =>
          caps ← module_caps cfg percent last_requested;
          let '(r, w) := write_caps channels trust locked (st_creds cfg) order caps w in
          Some (match r with Ok _ => confirm controller percent | Err _ => controller end, last_poi, w)
      end
  end.
End ShedTask.

(** ** Ceasing to energize *)

Lemma allocate_zero (children : list (ChildCapacity f64)) policy id share :
  (id, share) ∈ allocate (of_Z 0) children policy → share = of_Z 0.
Proof.
  unfold allocate. intros Hin. destruct (eligible_children children) as [|c l] eqn:Hel;
    [by apply not_elem_of_nil in Hin|].
  assert (unsigned_shares (of_Z 0) (c :: l) policy = Some (List.map (λ _, of_Z 0) (c :: l))) as Hu.
  { unfold unsigned_shares. cbn [Nat.add fill].
    replace (f_ltb f_epsilon (f_abs (of_Z 0))) with false by (by vm_compute). done. }
  rewrite Hu in Hin. apply list_elem_of_lookup in Hin as [i Hi].
  apply lookup_zip_with_Some in Hi as (d & s & [= -> ->] & _ & Hs).
  change (List.map (λ _, of_Z 0) (c :: l)) with ((λ _, of_Z 0 : f64) <$> (c :: l)) in Hs.
  apply list_lookup_fmap_Some in Hs as (? & -> & _). by vm_compute.
Qed.

Lemma compute_shares_zero d site_id cache locked now shares s :
  compute_shares d (of_Z 0) site_id cache locked now = Ok shares → s ∈ shares → s.2 = of_Z 0.
Proof.
  intros (policy & caps & _ & _ & ->)%compute_shares_Ok Hs.
  destruct (add_missing_spec caps (allocate (of_Z 0) caps policy)) as (extra & Heq & Hex & _).
  rewrite Heq in Hs. apply elem_of_app in Hs as [Hs|Hs]; [|by destruct (Hex s Hs)].
  destruct s as [id v]. by eapply allocate_zero.
Qed.

Lemma f64_sub_nan_r (x y : f64) : f_nan y = true → f_nan (f_sub x y) = true.
Proof.
  rewrite !f64_nan_SF. cbn. rewrite sub_spec. destruct (Prim2SF y); try done.
  intros _. by destruct (Prim2SF x).
Qed.

(** A share of 0 W never grows. *)
Lemma growth_of_zero id (last : gmap string f64) :
  f_ltb (of_Z 0) (growth (id, of_Z 0) last) = false.
Proof.
  unfold growth. cbn [fst snd]. replace (f_abs (of_Z 0 : f64)) with (of_Z 0 : f64) by (by vm_compute).
  assert (∀ x : f64, f_ltb (of_Z 0) (f_sub (of_Z 0) (f_abs x)) = false) as Hsub.
  { intros x. destruct (f_nan x) eqn:Hx.
    - rewrite ford_lt, nan_leb_r; [done|]. apply f64_sub_nan_r. by rewrite ford_abs_nan.
    - by apply fs_sub_nonpos, ford_abs_nonneg. }
  unfold last_abs. cbn. destruct (last !! id) as [p|]; [apply Hsub|by vm_compute].
Qed.

(** What a plan of all-zero shares writes. *)
Lemma plan_zero (ws : WriteState f64) shares ws' o id v :
  (∀ s, s ∈ shares → s.2 = of_Z 0) → plan ws shares = (ws', o) → (id, v) ∈ plan_writes o →
  v = of_Z 0 ∨
  last_written ws !! id = Some v ∧ f_leb f_epsilon (f_abs (f_sub (of_Z 0) v)) = false.
Proof.
  intros Hz Hp Hin. pose proof (plan_shape ws shares) as Hs. rewrite Hp in Hs.
  pose proof (plan_batch_sub ws shares) as Hsub. pose proof (elem_of_plan_batch ws shares) as Hel.
  destruct (plan_batch ws shares) as [batch d] eqn:Hb. cbn [fst snd] in *.
  destruct Hs as (_ & _ & _ & Hw & _). rewrite Hw in Hin.
  apply elem_of_app in Hin as [Hin|Hin]; [left; by apply (Hz (id, v)), Hsub|right].
  apply elem_of_reasserts in Hin as ([[j z] [Hj Hin]]%list_elem_of_fmap & Hnb & Hl).
  simpl in Hj; subst j. split; [done|]. pose proof (Hz _ Hin) as Hz0. simpl in Hz0. subst z.
  destruct (share_changed (last_written ws) (id, of_Z 0)) eqn:Hch;
    [|unfold share_changed in Hch; cbn [fst snd] in Hch; by rewrite Hl in Hch].
  destruct Hnb. apply (list_elem_of_fmap_2 fst batch (id, of_Z 0)). apply Hel; [done|done|left].
  unfold plan_batch in Hb. destruct (plan_changed ws shares) as [|x l] eqn:Hc.
  { assert ((id, of_Z 0) ∈ plan_changed ws shares) as Hx by (by apply elem_of_filterb).
    rewrite Hc in Hx. by apply not_elem_of_nil in Hx. }
  unfold handoff_batch in Hb.
  assert (existsb (λ c, f_ltb (of_Z 0) (growth c (last_written ws)))
            (reductions_first (x :: l) (last_written ws)) = false) as Hno.
  { apply not_true_iff_false. intros (c & Hin'%list_elem_of_In & Hg)%existsb_exists.
    rewrite reductions_first_perm, <- Hc in Hin'. apply elem_of_filterb in Hin' as [Hin' _].
    destruct c as [i z]. pose proof (Hz _ Hin') as Hz1. simpl in Hz1. subst z.
    by rewrite growth_of_zero in Hg. }
  rewrite Hno, andb_false_r in Hb. cbn [andb] in Hb. by simplify_eq.
Qed.

Lemma guarded_target_writes cfg site_id cache req now guard s dt ap poi s' target :
  guarded_target cfg site_id cache req now guard s dt ap poi = Some (s', target) →
  last_written (task_writes s') = last_written (task_writes s).
Proof.
  unfold guarded_target. destruct poi as [[p at_]|]; cbn zeta.
  - destruct (take _ at_) as [g [fr h]]. destruct (_ <? _); [by intros [= <- _]|].
    destruct (ControlLaw.tick _ _) as [[c o]|]; simpl; [by intros [= <- _]|done].
  - destruct (ControlLaw.tick _ _) as [[c o]|]; simpl; [by intros [= <- _]|done].
Qed.

(** C16: while the utility's [energize_enabled] is false,
    whatever the operator, the recharge rule or the envelope ask for, every
    value a tick writes to a child is 0 W, or a re-assertion of a landed share
    that is not [EPSILON] or more away from 0. *)
Theorem cease_to_energize_zero cfg site_id cache req locked now s dt s' p energize id v :
  reading cache (energize_topic site_id) = Some energize → f_ltb energize (lit 5 10) = true →
  tick_plan cfg site_id cache req locked now s dt = Some (s', Some p) → (id, v) ∈ writes p →
  v = of_Z 0 ∨
  last_written (task_writes s) !! id = Some v ∧ f_leb f_epsilon (f_abs (f_sub (of_Z 0) v)) = false.
Proof.
  intros Hen Hlt. unfold tick_plan, target_w. rewrite Hen, Hlt.
  match goal with |- context [mbind _ ?r] => destruct r as [[[s1 target]|]|] eqn:Hr end;
    simpl; [|done|done].
  assert (last_written (task_writes s1) = last_written (task_writes s)) as <-.
  { destruct (etc_guard cfg) as [g|]; [|by simplify_eq].
    clear Hen. destruct (reading _ _) as [ap|]; [|done]. destruct (poi_reading _ _ _) as [poi|]; [|done].
    destruct (guarded_target _ _ _ _ _ _ _ _ _ _) as [[s2 t]|] eqn:Hg; simpl in Hr; [|done].
    simplify_eq. by eapply guarded_target_writes. }
  destruct (etc_binding cfg) as [| | | | | | | |d|]; try done.
  destruct (compute_shares d _ _ _ _ _) as [shares|] eqn:Hsh; [|done].
  destruct (plan (task_writes s1) shares) as [ws o] eqn:Hp. intros [= _ ->] Hin.
  eapply (plan_zero (task_writes s1) shares ws (Some p)); [|exact Hp|exact Hin].
  intros sh Hin'. by eapply compute_shares_zero.
Qed.

(** A battery module of two racks behind the POI meter, importing 900 W. *)
Definition demo_guarded : DistributeBinding :=
  mkDistribute "equal_split" [demo_rack "rack_1"; demo_rack "rack_2"] None
    (Some (lit 1 10)) (Some (lit 5 100)) (Some (of_Z 5)) (Some (of_Z (-8000))) (Some (of_Z 8000))
    (Some "sites/{site_id}/import"%string) (Some "sites/{site_id}/export"%string)
    (Some "sites/{site_id}/ess/active_power"%string) (Some "sites/{site_id}/poi"%string)
    None None None None.

Definition demo_task : EnvelopeTaskConfig :=
  mkTaskConfig "module_1" "set_active_power" (default None (envelope_guard_config demo_guarded))
    (Distribute demo_guarded) (of_Z 1).

Definition demo_task_cache (energize : bool) : InputCache :=
  map_extend demo_cache
    [("sites/s1/import"%string, (VInt 5000, seconds 9)); ("sites/s1/export"%string, (VInt 5000, seconds 9));
     ("sites/s1/ess/active_power"%string, (VInt 1000, seconds 10));
     ("sites/s1/poi"%string, (VInt 900, seconds 10));
     (energize_topic "s1", (VBool energize, seconds 1))].

Definition demo_requested : Requested := (record_request ∅ "module_1" "set_active_power" (of_Z 1200)).1.

Definition demo_state : TaskState :=
  mkTask None (mkWrites {["rack_1"%string := of_Z 500; "rack_2"%string := of_Z 500]} false new_gate).

Definition demo_tick (energize : bool) (now : Z) : TaskState * option (Plan f64) :=
  default (demo_state, None)
    (tick_plan demo_task "s1" (demo_task_cache energize) demo_requested ∅ now demo_state (seconds 1)).

(** The operator's 1200 W goes out when the utility allows it, 0 W when it
    says cease, and a silent meter ramps the module down by a tenth of its
    rating. *)
Example demo_ticks :
  plan_writes (demo_tick true (seconds 10)).2 =
    [("rack_1"%string, of_Z 600); ("rack_2"%string, of_Z 600)] ∧
  plan_writes (demo_tick false (seconds 10)).2 =
    [("rack_1"%string, of_Z 0); ("rack_2"%string, of_Z 0)] ∧
  (current_output <$> controller (demo_tick true (seconds 16)).1) = Some (of_Z 0).
Proof. split_and!; by vm_compute. Qed.

Lemma cease_to_energize_zero_witness :
  reading (demo_task_cache false) (energize_topic "s1") = Some (of_Z 0) ∧
  ∃ s' p v,
    tick_plan demo_task "s1" (demo_task_cache false) demo_requested ∅ (seconds 10) demo_state
      (seconds 1) = Some (s', Some p) ∧ ("rack_1"%string, v) ∈ writes p ∧
    (v = of_Z 0 ∨ last_written (task_writes demo_state) !! "rack_1"%string = Some v ∧
       f_leb f_epsilon (f_abs (f_sub (of_Z 0) v)) = false).
Proof.
  split; [by vm_compute|].
  destruct (tick_plan demo_task "s1" (demo_task_cache false) demo_requested ∅ (seconds 10)
    demo_state (seconds 1)) as [[s' [p|]]|] eqn:Ht; [|by vm_compute in Ht..].
  assert (("rack_1"%string, of_Z 0) ∈ writes p) as Hin.
  { vm_compute in Ht. injection Ht as _ <-. by left. }
  exists s', p, (of_Z 0). split_and!; [done|done|].
  refine (cease_to_energize_zero demo_task "s1" (demo_task_cache false) demo_requested ∅ (seconds 10)
    demo_state (seconds 1) s' p (of_Z 0) "rack_1" (of_Z 0) _ _ Ht Hin); by vm_compute.
Defined.

(** ** One controller per POI *)

Definition poi_key (c : ShedTaskConfig) : string * string * string :=
  (st_poi_topic c, st_import_limit_topic c, st_export_limit_topic c).

Definition all_modules (cs : list ShedTaskConfig) : list CapModule := mjoin (st_modules <$> cs).

Lemma same_poi_key g c : same_poi g c = bool_decide (poi_key g = poi_key c).
Proof.
  unfold same_poi, poi_key. apply bool_decide_ext. split; [intros (? & ? & ?); congruence|].
  by intros [= -> -> ->].
Qed.

Lemma add_to_groups_keys gs c :
  poi_key <$> add_to_groups gs c =
  (poi_key <$> gs) ++ (if bool_decide (poi_key c ∈ poi_key <$> gs) then [] else [poi_key c]).
Proof.
  induction gs as [|g gs IH]; cbn [add_to_groups]; [done|]. rewrite same_poi_key.
  destruct (decide (poi_key g = poi_key c)) as [Hg|Hg].
  - rewrite !bool_decide_true; [symmetry; apply app_nil_r| |done].
    rewrite fmap_cons, <- Hg. by left.
  - rewrite (bool_decide_false (poi_key g = _)) by done. rewrite !fmap_cons, IH. cbn [app].
    do 2 f_equal. erewrite bool_decide_ext; [reflexivity|]. rewrite elem_of_cons. naive_solver.
Qed.

Lemma add_to_groups_modules gs c :
  all_modules (add_to_groups gs c) ≡ₚ all_modules gs ++ st_modules c.
Proof.
  unfold all_modules. induction gs as [|g gs IH]; cbn [add_to_groups]; [simpl; by rewrite app_nil_r|].
  destruct (same_poi g c); rewrite !fmap_cons; cbn [mjoin list_join].
  - unfold extend_modules at 1. cbn [st_modules]. rewrite <- !app_assoc. apply Permutation_app_head.
    by rewrite Permutation_app_comm.
  - by rewrite IH, app_assoc.
Qed.

Lemma add_to_groups_member gs c k m :
  (∃ g, g ∈ gs ∧ poi_key g = k ∧ m ∈ st_modules g) ∨ poi_key c = k ∧ m ∈ st_modules c →
  ∃ g, g ∈ add_to_groups gs c ∧ poi_key g = k ∧ m ∈ st_modules g.
Proof.
  induction gs as [|g gs IH]; cbn [add_to_groups].
  - intros [(g & Hg & _)|[Hk Hm]]; [by apply not_elem_of_nil in Hg|]. exists c. split; [by left|done].
  - rewrite same_poi_key. destruct (bool_decide _) eqn:Hgc; intros [(g' & [->|Hg']%elem_of_cons & Hk & Hm)|[Hk Hm]].
    + exists (extend_modules g (st_modules c)). split_and!; [by left|done|].
      apply elem_of_app. by left.
    + exists g'. split_and!; [by right|done|done].
    + exists (extend_modules g (st_modules c)). split_and!;
        [by left|change (poi_key g = k); apply bool_decide_eq_true in Hgc; congruence|].
      apply elem_of_app. by right.
    + exists g. split_and!; [by left|done|done].
    + destruct IH as (g1 & ? & ? & ?); [left; by exists g'|]. exists g1. split_and!; [by right|done|done].
    + destruct IH as (g1 & ? & ? & ?); [by right|]. exists g1. split_and!; [by right|done|done].
Qed.

(** The shed tasks partition the guarded compute
    modules: no two tasks act on the same POI and limits, every module is in a
    task exactly as often as it was configured, and in one of its own POI. *)
Theorem shed_one_controller_per_poi configs :
  NoDup (poi_key <$> per_poi configs) ∧
  all_modules (per_poi configs) ≡ₚ all_modules configs ∧
  ∀ c m, c ∈ configs → m ∈ st_modules c →
    ∃ g, g ∈ per_poi configs ∧ poi_key g = poi_key c ∧ m ∈ st_modules g.
Proof.
  unfold per_poi. induction configs as [|c cs IH] using rev_ind.
  { split_and!; [constructor|done|]. by intros ?? ?%not_elem_of_nil. }
  destruct IH as (Hnd & Hperm & Hmem). rewrite foldl_snoc. split_and!.
  - rewrite add_to_groups_keys. case_bool_decide as Hin; [by rewrite app_nil_r|].
    apply NoDup_app. split_and!; [done| |apply NoDup_singleton].
    by intros k Hk ->%list_elem_of_singleton.
  - rewrite add_to_groups_modules, Hperm. unfold all_modules. rewrite fmap_app, join_app.
    cbn. by rewrite app_nil_r.
  - intros c' m [Hc'|Hc']%elem_of_app Hm; apply add_to_groups_member.
    + left. by apply Hmem.
    + right. apply list_elem_of_singleton in Hc' as ->. done.
Qed.
