(* ===== verification/DerDispatch.v ===== *)
(** * Site distribution: [src/der_dispatch/]

    One tick of the site-to-module split: [posture.rs], [event_memory.rs],
    [module_bounds.rs], [module_command.rs], [site_distribution.rs] and the sum
    of [actual_power.rs].  A command for a module goes through
    [Dispatch.handle_command] as an operator's does.

    [hash_order] is the order a [HashMap] is iterated in, and [frame_of] the
    frame [dispatch_one]'s JSON text for a share parses to (its command id and
    timestamp come from the clock; [None]: the text does not parse).  [None] of
    a tick is a panic. *)

From Stdlib Require Import ZArith Lia Floats Ascii.
From S2P Require Import Prelude F64 Binary64 Rounding Text Allocation Cache Bindings.
From S2P Require Import Distribute PoiServo Dispatch EnvelopeTask.
Local Open Scope Z_scope.

(** ** [posture.rs] *)

Inductive Posture := Hold | Release | DispatchTarget (target : f64).

Record PostureTopics := mkPostureTopics {
  pt_event_active : string;
  pt_target_present : string;
  pt_target : string;
}.

Definition posture (topics : PostureTopics) (cache : InputCache) : Posture :=
  match reading cache (pt_event_active topics) with
  | None => Hold
  | Some active =>
      if f_ltb active (lit 5 10) then Release
      else
        match reading cache (pt_target_present topics), reading cache (pt_target topics) with
        | Some present, target =>
            if f_ltb present (lit 5 10) then Release
            else match target with Some t => DispatchTarget t | None => Hold end
        | None, _ => Hold
        end
  end.

(** ** [event_memory.rs] *)

Record EventMemory := mkMemory {
  snapshot : option (gmap string f64);
  dispatched : gmap string f64;
}.

Definition new_event_memory : EventMemory := mkMemory None ∅.

(** 1e-6. *)
Definition SAME_SETPOINT_W : f64 := lit 1 1000000.

Definition begin (m : EventMemory) (operator : gmap string f64) : EventMemory :=
  match snapshot m with
  | None => mkMemory (Some operator) (dispatched m)
  | Some _ => m
  end.

Definition changed (m : EventMemory) (shares : list (string * f64)) : list (string * f64) :=
  List.filter (λ s, match dispatched m !! s.1 with
                    | None => true
                    | Some prev => f_leb SAME_SETPOINT_W (f_abs (f_sub s.2 prev))
                    end) shares.

Definition record (m : EventMemory) (module_id : string) (share : f64) : EventMemory :=
  mkMemory (snapshot m) (<[module_id := share]> (dispatched m)).

(** The module still holds what the event sent. *)
Definition still_events (current : gmap string f64) (e : string * f64) : bool :=
  match current !! e.1 with
  | Some now => f_ltb (f_abs (f_sub now e.2)) SAME_SETPOINT_W
  | None => false
  end.

Definition clear (_ : EventMemory) : EventMemory := new_event_memory.

(** ** [actual_power.rs] *)

Fixpoint sum_from_cache (total : f64) (topics : list string) (cache : InputCache) : option f64 :=
  match topics with
  | [] => Some total
  | t :: topics => x ← reading cache t; sum_from_cache (f_add total x) topics cache
  end.

Definition sum_cached (topics : list string) (cache : InputCache) : option f64 :=
  match topics with [] => None | _ => sum_from_cache (of_Z 0) topics cache end.

Section SiteDistribution.
Context {W : Type} `{South W} `{Broker W}.
Context (hash_order : ∀ A : Type, list (string * A) → list (string * A)).
Context (frame_of : f64 → option CommandFrame).
Context (order : list (string * string * f64) → list (string * string * f64)).
Context (site_id : string) (topics : PostureTopics) (creds : option GatewayCredentials)
  (channels : Channels) (trust : gmap string DeviceTrust) (locked : gset string)
  (cache : InputCache) (now : Z).

Definition CHANNEL_KEY : string := "set_active_power".

(** [EventMemory::end]. *)
Definition end_ (m : EventMemory) (current : gmap string f64) : list (string * f64) :=
  match snapshot m with
  | None => []
  | Some snap =>
      (λ e : string * f64, (e.1, default (of_Z 0) (snap !! e.1))) <$>
        List.filter (still_events current) (hash_order f64 (map_to_list (dispatched m)))
  end.

(** ** [module_bounds.rs] *)

Definition module_headroom (d : DistributeBinding) (power_min power_max target : f64) : f64 :=
  let static_w := if f_ltb target (of_Z 0) then f_abs power_min else power_max in
  let racks_w := f_sum ((λ c, rack_headroom c target site_id cache now) <$>
    List.filter (λ c, negb (bool_decide (ca_device_id c ∈ locked))) (db_children d)) in
  match db_children d with [] => static_w | _ => f_min static_w racks_w end.

Fixpoint modules_of (entries : list (string * gmap string ProtocolBinding)) (target : f64)
    : option (list (ChildCapacity f64)) :=
  match entries with
  | [] => Some []
  | (device_id, commands) :: entries =>
      match commands !! CHANNEL_KEY with
      | Some (Distribute d) =>
          if bool_decide (device_id ∈ locked) then modules_of entries target
          else
            match db_power_min d, db_power_max d with
            | Some power_min, Some power_max =>
                soc ← reading cache (measurement_topic site_id device_id "state_of_charge" "percent");
                rest ← modules_of entries target;
                Some (mkChild device_id Standby (module_headroom d power_min power_max target) soc :: rest)
            | _, _ => modules_of entries target
            end
      | _ => modules_of entries target
      end
  end.

Definition modules_with_bounds (target : f64) : option (list (ChildCapacity f64)) :=
  modules_of (hash_order _ (map_to_list channels)) target.

(** ** [module_command.rs] *)

Definition module_topic (module_id : string) : string :=
  "sites/" ++ site_id ++ "/devices/" ++ module_id ++ "/commands/set/active_power/watts".

Definition dispatch_one (module_id : string) (share : f64) (requested : Requested) (w : W)
    : option (bool * Requested * W) :=
  '(r, requested, w) ← handle_command channels trust locked creds site_id cache now order requested
    (module_topic module_id) (frame_of share) w;
  Some (is_ok r, requested, w).

(** ** [site_distribution.rs] *)

Definition operator_setpoints (requested : Requested) : gmap string f64 :=
  omap (λ m : gmap string f64, m !! CHANNEL_KEY) requested.

(** The [for] loop of [release]: whether every command was handled. *)
Fixpoint restore_all (restore : list (string * f64)) (requested : Requested) (w : W)
    : option (bool * Requested * W) :=
  match restore with
  | [] => Some (true, requested, w)
  | (module_id, setpoint) :: restore =>
      '(ok, requested, w) ← dispatch_one module_id setpoint requested w;
      '(all, requested, w) ← restore_all restore requested w;
      Some (ok && all, requested, w)
  end.

Definition release (m : EventMemory) (requested : Requested) (w : W)
    : option (EventMemory * Requested * W) :=
  r ← restore_all (end_ m (operator_setpoints requested)) requested w;
  let '(all_published, requested', w) := r in
  Some (if (all_published : bool) then clear m else m, requested', w).

(** The [for] loop of [tick_once]. *)
Fixpoint dispatch_all (shares : list (string * f64)) (m : EventMemory) (requested : Requested) (w : W)
    : option (EventMemory * Requested * W) :=
  match shares with
  | [] => Some (m, requested, w)
  | (module_id, share) :: shares =>
      r ← dispatch_one module_id share requested w;
      let '(ok, requested, w) := r in
      dispatch_all shares (if (ok : bool) then record m module_id share else m) requested w
  end.

Definition site_tick (m : EventMemory) (requested : Requested) (w : W)
    : option (EventMemory * Requested * W) :=
  match posture topics cache with
  | Hold => Some (m, requested, w)
  | Release => release m requested w
  | DispatchTarget target =>
      let m := begin m (operator_setpoints requested) in
      match modules_with_bounds target with
      | None | Some [] => Some (m, requested, w)
      | Some modules =>
          dispatch_all (changed m (allocate target modules SocWeighted)) m requested w
      end
  end.
End SiteDistribution.

(** ** The event's memory *)

(** The commands that were handled without an error. *)
Fixpoint handled (l : list (string * f64)) (answers : list bool) : list (string * f64) :=
  match l, answers with
  | c :: l, ok :: answers => if (ok : bool) then c :: handled l answers else handled l answers
  | _, _ => []
  end.

Section Memory.
Context {W : Type} `{South W} `{Broker W}.
Context (hash_order : ∀ A : Type, list (string * A) → list (string * A)).
Context (frame_of : f64 → option CommandFrame).
Context (order : list (string * string * f64) → list (string * string * f64)).
Context (site_id : string) (topics : PostureTopics) (creds : option GatewayCredentials)
  (channels : Channels) (trust : gmap string DeviceTrust) (locked : gset string)
  (cache : InputCache) (now : Z).

Local Abbreviation one := (dispatch_one frame_of order site_id creds channels trust locked cache now).
Local Abbreviation restore := (restore_all frame_of order site_id creds channels trust locked cache now).
Local Abbreviation site := (site_tick hash_order frame_of order site_id topics creds channels trust
  locked cache now).

(** Commands handled one after another, and which of them were handled without
    an error. *)
Fixpoint commands (l : list (string * f64)) (requested : Requested) (w : W)
    : option (list bool * Requested * W) :=
  match l with
  | [] => Some ([], requested, w)
  | (id, v) :: l =>
      '(r, requested, w) ← handle_command channels trust locked creds site_id cache now order requested
        ("sites/" ++ site_id ++ "/devices/" ++ id ++ "/commands/set/active_power/watts") (frame_of v) w;
      '(answers, requested, w) ← commands l requested w;
      Some (is_ok r :: answers, requested, w)
  end.

Lemma dispatch_all_commands shares m requested w m' requested' w' :
  dispatch_all frame_of order site_id creds channels trust locked cache now shares m requested w =
    Some (m', requested', w') →
  ∃ answers, commands shares requested w = Some (answers, requested', w') ∧
    snapshot m' = snapshot m ∧ dispatched m' = map_extend (dispatched m) (handled shares answers).
Proof.
  revert m requested w; induction shares as [|[id share] shares IH]; intros m requested w; cbn [dispatch_all].
  { intros [= <- <- <-]. by exists []. }
  unfold dispatch_one. cbn [commands]. change (module_topic site_id id) with
    ("sites/" ++ site_id ++ "/devices/" ++ id ++ "/commands/set/active_power/watts")%string.
  destruct (handle_command _ _ _ _ _ _ _ _ _ _ _ _) as [[[r r1] w1]|]; simpl; [|done]. intros Hd.
  destruct (IH _ _ _ Hd) as (answers & -> & Hs & Hm). exists (is_ok r :: answers). split; [done|].
  rewrite Hs, Hm. by destruct (is_ok r).
Qed.

Lemma restore_all_commands l requested w all requested' w' :
  restore l requested w = Some (all, requested', w') →
  ∃ answers, commands l requested w = Some (answers, requested', w') ∧ all = forallb id answers.
Proof.
  revert requested w all; induction l as [|[i v] l IH]; intros requested w all; cbn [restore_all commands].
  { intros [= <- <- <-]. by exists []. }
  unfold dispatch_one. change (module_topic site_id i) with
    ("sites/" ++ site_id ++ "/devices/" ++ i ++ "/commands/set/active_power/watts")%string.
  destruct (handle_command _ _ _ _ _ _ _ _ _ _ _ _) as [[[r r1] w1]|]; simpl; [|done].
  destruct (restore l r1 w1) as [[[all1 r2] w2]|] eqn:Hl; simpl; [|done]. intros [= <- <- <-].
  destruct (IH _ _ _ Hl) as (answers & -> & ->). by exists (is_ok r :: answers).
Qed.

Lemma elem_of_end m current id v :
  (∀ A l, hash_order A l ≡ₚ l) →
  (id, v) ∈ end_ hash_order m current ↔
  ∃ snap sent now, snapshot m = Some snap ∧ dispatched m !! id = Some sent ∧
    current !! id = Some now ∧ f_ltb (f_abs (f_sub now sent)) SAME_SETPOINT_W = true ∧
    v = default (of_Z 0) (snap !! id).
Proof.
  intros Hord. unfold end_. destruct (snapshot m) as [snap|].
  2: { split; [by intros ?%not_elem_of_nil|naive_solver]. }
  rewrite list_elem_of_fmap. setoid_rewrite elem_of_filterb. setoid_rewrite Hord.
  unfold still_events. split.
  - intros ([i sent] & [= -> ->] & Hin%elem_of_map_to_list & Hc). cbn [fst snd] in *.
    destruct (current !! i) as [now'|] eqn:Hn; [|done]. by exists snap, sent, now'.
  - intros (snap' & sent & now' & [= <-] & Hd & Hn & Hlt & ->). exists (id, sent). split; [done|].
    split; [by apply elem_of_map_to_list|]. cbn [fst snd]. by rewrite Hn.
Qed.

Lemma end_once m current : (∀ A l, hash_order A l ≡ₚ l) → NoDup (end_ hash_order m current).*1.
Proof.
  intros Hord. unfold end_. destruct (snapshot m) as [snap|]; [|constructor].
  rewrite <- list_fmap_compose.
  change (fst ∘ (λ e : string * f64, (e.1, default (of_Z 0) (snap !! e.1)))) with (@fst string f64).
  apply NoDup_fmap_filterb. rewrite Hord. apply NoDup_fst_map_to_list.
Qed.

(** What a dispatching tick sends. *)
Definition tick_shares (m : EventMemory) (target : f64) : list (string * f64) :=
  match modules_with_bounds hash_order site_id channels locked cache now target with
  | None | Some [] => []
  | Some modules => changed m (allocate target modules SocWeighted)
  end.

Lemma dispatch_tick m requested w m' requested' w' target :
  posture topics cache = DispatchTarget target →
  site m requested w = Some (m', requested', w') →
  ∃ answers, commands (tick_shares m target) requested w = Some (answers, requested', w') ∧
    snapshot m' = Some (default (operator_setpoints requested) (snapshot m)) ∧
    dispatched m' = map_extend (dispatched m) (handled (tick_shares m target) answers).
Proof.
  intros Hp Ht. unfold site_tick in Ht. rewrite Hp in Ht. cbv zeta in Ht.
  assert (snapshot (begin m (operator_setpoints requested)) = Some (default (operator_setpoints requested) (snapshot m)) ∧
    dispatched (begin m (operator_setpoints requested)) = dispatched m ∧
    ∀ l, changed (begin m (operator_setpoints requested)) l = changed m l) as (Hs & Hm & Hc)
    by (unfold begin, changed; destruct (snapshot m) as [s|] eqn:Hsn; by rewrite ?Hsn).
  unfold tick_shares. destruct (modules_with_bounds _ _ _ _ _ _ _) as [[|c l]|].
  2: { rewrite <- Hm, <- Hs, <- Hc. by apply dispatch_all_commands. }
  all: injection Ht as <- <- <-; exists []; by rewrite Hs, Hm.
Qed.

Lemma release_tick m requested w m' requested' w' :
  posture topics cache = Release →
  site m requested w = Some (m', requested', w') →
  ∃ answers, commands (end_ hash_order m (operator_setpoints requested)) requested w = Some (answers, requested', w') ∧
    m' = if forallb id answers then new_event_memory else m.
Proof.
  intros Hp Ht. unfold site_tick, release in Ht. rewrite Hp in Ht.
  destruct (restore _ requested w) as [[[all r1] w1]|] eqn:Hr; simpl in Ht; [|done].
  destruct (restore_all_commands _ _ _ _ _ _ Hr) as (answers & Hc & ->). injection Ht as <- <- <-. by exists answers.
Qed.
(** A broker that takes every publish and a share that parses. *)
Hypothesis publish_ok : ∀ e w, ∃ w', publish e w = (Ok (), w').
Hypothesis frame_ok : ∀ v, is_Some (frame_of v).
Hypothesis site_ok : str_mem "/" site_id = false.

Lemma module_topic_parses id :
  str_mem "/" id = false → id ≠ ""%string →
  parse_command_topic (module_topic site_id id) site_id = Some (mkCommandTopic id "set" "active_power").
Proof.
  intros Hid Hne. unfold parse_command_topic.
  replace (module_topic site_id id) with (command_topic site_id id "set" "active_power" "watts")
    by reflexivity.
  unfold command_topic. rewrite str_split_join; [|done|].
  - unfold str_is_empty. by rewrite bool_decide_true, bool_decide_false by done.
  - repeat (constructor; [first [assumption|reflexivity]|]). constructor.
Qed.

Lemma dispatch_one_locked id v requested w :
  id ∈ locked → is_Some (channels !! id) → str_mem "/" id = false → id ≠ ""%string →
  ∃ w', one id v requested w = Some (true, requested, w').
Proof.
  intros Hl Hc Hid Hne. unfold dispatch_one. destruct (frame_ok v) as [f ->].
  destruct (publish_ok (ack site_id id (frame_command_id f) Received None) w) as [w1 Hw1].
  destruct (publish_ok (ack site_id id (frame_command_id f) Failed (Some (LockedOut id))) w1) as [w2 Hw2].
  pose proof (handle_locked channels trust locked creds site_id cache now order requested
    (module_topic site_id id) f w (mkCommandTopic id "set" "active_power") w1
    (module_topic_parses id Hid Hne) Hl Hc Hw1) as Hh. cbn [ct_device_id] in Hh.
  rewrite Hw2 in Hh. rewrite Hh. simpl. by exists w2.
Qed.

Lemma restore_all_locked l requested w :
  (∀ id, id ∈ l.*1 → id ∈ locked ∧ is_Some (channels !! id) ∧ str_mem "/" id = false ∧ id ≠ ""%string) →
  ∃ w', restore l requested w = Some (true, requested, w').
Proof.
  revert w; induction l as [|[id v] l IH]; intros w Hall; cbn [restore_all]; [by exists w|].
  destruct (Hall id) as (Hl & Hc & Hid & Hne); [by left|].
  destruct (dispatch_one_locked id v requested w Hl Hc Hid Hne) as [w1 ->]. simpl.
  destruct (IH w1) as [w2 ->]; [intros i Hi; apply Hall; by right|]. simpl. by exists w2.
Qed.

(** When an event ends while the modules it
    dispatched are locked out, their restore commands are refused, yet the
    memory is cleared because the refusals were published: the modules' requested
    setpoints stay the event's, and no later tick puts them back. *)
Theorem refused_restore_is_forgotten m requested w :
  posture topics cache = Release →
  (∀ id, id ∈ (end_ hash_order m (operator_setpoints requested)).*1 →
     id ∈ locked ∧ is_Some (channels !! id) ∧ str_mem "/" id = false ∧ id ≠ ""%string) →
  ∃ w', site m requested w = Some (new_event_memory, requested, w') ∧
    ∀ current, end_ hash_order new_event_memory current = [].
Proof.
  intros Hp Hall. unfold site_tick. rewrite Hp. unfold release.
  destruct (restore_all_locked _ requested w Hall) as [w' ->]. simpl. by exists w'.
Qed.
End Memory.

(** C24: a dispatching tick of the site task sends each
    module the tick changes one set_active_power command through command dispatch,
    in the order of the allocation, and nothing else; it remembers as dispatched
    exactly the shares whose commands were handled without an error, and keeps the
    operator's setpoints from before the event's first dispatching tick. The tick
    that ends the event, whatever lockouts, readings and topology hold by then,
    sends one command each to exactly the modules the event dispatched whose
    requested setpoint is still the event's (within 1e-6 W): the setpoint from
    before the event, or 0 W if there was none. It forgets the event if all of them
    were handled without an error and otherwise keeps its memory for the next tick.
    A command that is refused for a lockout, or fails, and is acked as such counts
    as handled. *)
Theorem event_end_restores_operator {W} `{South W} `{Broker W} hash_order frame_of order site_id topics creds
    channels trust locked cache now channels2 trust2 locked2 cache2 now2
    m requested (w : W) m1 requested1 w1 target requested2 w2 m3 requested3 w3 :
  let site channels trust locked cache now :=
    site_tick hash_order frame_of order site_id topics creds channels trust locked cache now in
  let sent channels trust locked cache now :=
    commands frame_of order site_id creds channels trust locked cache now in
  (∀ A l, hash_order A l ≡ₚ l) →
  posture topics cache = DispatchTarget target →
  site channels trust locked cache now m requested w = Some (m1, requested1, w1) →
  posture topics cache2 = Release →
  site channels2 trust2 locked2 cache2 now2 m1 requested2 w2 = Some (m3, requested3, w3) →
  let before := default (operator_setpoints requested) (snapshot m) in
  let shares := tick_shares hash_order site_id channels locked cache now m target in
  (∃ answers, sent channels trust locked cache now shares requested w = Some (answers, requested1, w1) ∧
     snapshot m1 = Some before ∧ dispatched m1 = map_extend (dispatched m) (handled shares answers)) ∧
  ∃ restores answers,
    sent channels2 trust2 locked2 cache2 now2 restores requested2 w2 = Some (answers, requested3, w3) ∧
    NoDup restores.*1 ∧
    (∀ id v, (id, v) ∈ restores ↔
       v = default (of_Z 0) (before !! id) ∧
       ∃ share held, dispatched m1 !! id = Some share ∧ operator_setpoints requested2 !! id = Some held ∧
         f_ltb (f_abs (f_sub held share)) SAME_SETPOINT_W = true) ∧
    m3 = if forallb id answers then new_event_memory else m1.
Proof.
  intros site sent Hord Hp Ht Hp2 Ht2 before shares.
  destruct (dispatch_tick _ _ _ _ _ _ _ _ _ _ _ _ _ _ _ _ _ _ Hp Ht) as (answers & Hc & Hs & Hm).
  destruct (release_tick _ _ _ _ _ _ _ _ _ _ _ _ _ _ _ _ _ Hp2 Ht2) as (answers2 & Hc2 & Hm3).
  split; [by exists answers|]. eexists _, answers2. split; [exact Hc2|]. split; [by apply end_once|]. split; [|done].
  intros id v. rewrite elem_of_end, Hs by done. split.
  - intros (snap & share & held & [= <-] & ? & ? & ? & ->). split; [done|]. by exists share, held.
  - intros (-> & share & held & ? & ? & ?). by exists before, share, held.
Qed.

(** ** One module, dispatched by an event, then locked out *)

Definition demo_topics : PostureTopics :=
  mkPostureTopics (measurement_topic "s1" "der_dispatch" "event_active" "none")
    (measurement_topic "s1" "der_dispatch" "target_setpoint_present" "none")
    (measurement_topic "s1" "der_dispatch" "target_active_power" "watts").

Definition demo_event (active : bool) : InputCache :=
  map_extend (demo_task_cache true)
    [(pt_event_active demo_topics, (VBool active, 0));
     (pt_target_present demo_topics, (VBool true, 0));
     (pt_target demo_topics, (VInt 3000, 0));
     (measurement_topic "s1" "module_1" "state_of_charge" "percent", (VInt 70, 0))].

Definition demo_site_channels : Channels :=
  {["module_1"%string := {["set_active_power"%string := Distribute demo_guarded]}]}.

Definition demo_frame_of (v : f64) : option CommandFrame := Some (mkFrame "t" v "site-dist-1").
Definition demo_hash (A : Type) (l : list (string * A)) : list (string * A) := l.

Definition demo_site_tick (active : bool) (locked : gset string) (m : EventMemory)
    (requested : Requested) : option (EventMemory * Requested * DemoSite) :=
  site_tick demo_hash demo_frame_of demo_order "s1" demo_topics None demo_site_channels ∅ locked
    (demo_event active) (seconds 10) m requested demo_w0.

Definition demo_event_memory : EventMemory :=
  mkMemory (Some {["module_1"%string := of_Z 1200]}) {["module_1"%string := of_Z 3000]}.

Definition demo_event_requested : Requested :=
  (record_request ∅ "module_1" "set_active_power" (of_Z 3000)).1.

(** The event dispatches 3000 W over the operator's 1200 W; when it ends the
    1200 W come back, unless the module is locked out. *)
Example demo_event_ticks :
  (λ o, o.1.1) <$> demo_site_tick true ∅ new_event_memory demo_requested = Some demo_event_memory ∧
  (λ o, requested_of o.1.2 "module_1" "set_active_power") <$>
    demo_site_tick false ∅ demo_event_memory demo_event_requested = Some (Some (of_Z 1200)) ∧
  (λ o, (o.1.1, requested_of o.1.2 "module_1" "set_active_power")) <$>
    demo_site_tick false {["module_1"%string]} demo_event_memory demo_event_requested =
    Some (new_event_memory, Some (of_Z 3000)).
Proof. split_and!; by vm_compute. Qed.

(** One tick of the event over the operator's 1200 W, then the tick that ends it. *)
Definition demo_event_then_end : option (EventMemory * Requested * DemoSite) :=
  '(m, requested, w) ← demo_site_tick true ∅ new_event_memory demo_requested;
  site_tick demo_hash demo_frame_of demo_order "s1" demo_topics None demo_site_channels ∅ ∅
    (demo_event false) (seconds 10) m requested w.

Lemma event_end_restores_operator_witness :
  match demo_site_tick true ∅ new_event_memory demo_requested with
  | Some (m1, requested1, w1) =>
      match site_tick demo_hash demo_frame_of demo_order "s1" demo_topics None demo_site_channels ∅ ∅
        (demo_event false) (seconds 10) m1 requested1 w1 with
      | Some (m3, requested3, w3) =>
          ∃ restores answers,
            commands demo_frame_of demo_order "s1" None demo_site_channels ∅ ∅ (demo_event false) (seconds 10)
              restores requested1 w1 = Some (answers, requested3, w3) ∧
            m3 = if forallb id answers then new_event_memory else m1
      | None => False
      end
  | None => False
  end.
Proof.
  assert ((if demo_event_then_end is Some _ then true else false) = true) as Hs by (by vm_compute).
  unfold demo_event_then_end in Hs.
  destruct (demo_site_tick true ∅ new_event_memory demo_requested) as [[[m1 requested1] w1]|] eqn:Ht; [|done].
  change ((if site_tick demo_hash demo_frame_of demo_order "s1" demo_topics None demo_site_channels ∅ ∅
    (demo_event false) (seconds 10) m1 requested1 w1 is Some _ then true else false) = true) in Hs.
  destruct (site_tick _ _ _ _ _ _ _ _ _ (demo_event false) _ m1 requested1 w1) as [[[m3 requested3] w3]|] eqn:Ht2; [|done].
  destruct (event_end_restores_operator demo_hash demo_frame_of demo_order "s1" demo_topics None
    demo_site_channels ∅ ∅ (demo_event true) (seconds 10) demo_site_channels ∅ ∅ (demo_event false) (seconds 10)
    new_event_memory demo_requested demo_w0 m1 requested1 w1 (of_Z 3000) requested1 w1 m3 requested3 w3
    ltac:(done) ltac:(by vm_compute) Ht ltac:(by vm_compute) Ht2) as (_ & restores & answers & Hc & _ & _ & Hm).
  exists restores, answers. exact (conj Hc Hm).
Defined.

Lemma refused_restore_is_forgotten_witness :
  ∃ w', demo_site_tick false {["module_1"%string]} demo_event_memory demo_event_requested =
      Some (new_event_memory, demo_event_requested, w') ∧
    ∀ current, end_ demo_hash new_event_memory current = [].
Proof.
  refine (refused_restore_is_forgotten demo_hash demo_frame_of demo_order "s1" demo_topics None
    demo_site_channels ∅ {["module_1"%string]} (demo_event false) (seconds 10) _ _ _
    demo_event_memory demo_event_requested demo_w0 _ _).
  - intros e w. by eexists.
  - intros v. by eexists.
  - by vm_compute.
  - by vm_compute.
  - intros id Hid. assert (id = "module_1"%string) as ->.
    { assert ((end_ demo_hash demo_event_memory (operator_setpoints demo_event_requested)).*1 =
        ["module_1"%string]) as He by (by vm_compute).
      rewrite He in Hid. by apply list_elem_of_singleton in Hid. }
    split_and!; [by apply (bool_decide_unpack _)|by eexists; vm_compute|by vm_compute|done].
Defined.
