(* ===== verification/Synthetic.v ===== *)
(** * Synthetic channels: [src/synthetic/operation.rs], [task.rs] and
    [stale.rs]

    Derived values: an operation on cached inputs, published each tick unless
    an input is missing or stale. *)

From Stdlib Require Import ZArith Lia Floats Ascii.
From S2P Require Import Prelude F64 Binary64 Text Cache Bindings Payload.
Local Open Scope Z_scope.
Local Open Scope gateway_scope.

(** ** [operation.rs] *)

Inductive Operation := Subtract | Sum | Mean | Max | Min | Unbalance.

Inductive operation_error :=
| UnknownOperation (name : string)
| NeedsTwoInputs (got : nat)
| NeedsInput (name : string)
| NeedsPositiveMean (mean : f64)
| NeedsPositiveWeight (total : f64)
| PublishFailed (reason : string).

Definition operation_parse (name : string) : result operation_error Operation :=
  if bool_decide (name = "subtract"%string) then Ok Subtract
  else if bool_decide (name = "sum"%string) then Ok Sum
  else if bool_decide (name = "mean"%string) then Ok Mean
  else if bool_decide (name = "max"%string) then Ok Max
  else if bool_decide (name = "min"%string) then Ok Min
  else if bool_decide (name = "unbalance"%string) then Ok Unbalance
  else Err (UnknownOperation name).

Definition require_nonempty (inputs : list f64) (name : string) : result operation_error unit :=
  match inputs with [] => Err (NeedsInput name) | _ => Ok () end.

Definition mean_of (inputs : list f64) : result operation_error f64 :=
  _ <-? require_nonempty inputs "mean";
  Ok (f_div (f_sum inputs) (of_Z (Z.of_nat (length inputs)))).

Definition operation_apply (op : Operation) (inputs : list f64) : result operation_error f64 :=
  match op with
  | Subtract =>
      match inputs with
      | [a; b] => Ok (f_sub a b)
      | _ => Err (NeedsTwoInputs (length inputs))
      end
  | Sum => _ <-? require_nonempty inputs "sum"; Ok (f_sum inputs)
  | Mean => mean_of inputs
  | Max => _ <-? require_nonempty inputs "max"; Ok (foldl f_max (f_opp f_infinity) inputs)
  | Min => _ <-? require_nonempty inputs "min"; Ok (foldl f_min f_infinity inputs)
  | Unbalance =>
      mean <-? mean_of inputs;
      if f_leb mean (of_Z 0) then Err (NeedsPositiveMean mean)
      else
        let deviation := foldl f_max (of_Z 0) ((λ x, f_abs (f_sub x mean)) <$> inputs) in
        Ok (f_div (f_mul (of_Z 100) deviation) mean)
  end.

Definition weighted_mean (pairs : list (f64 * f64)) : result operation_error f64 :=
  match pairs with
  | [] => Err (NeedsInput "weighted_mean")
  | _ =>
      let total_weight := f_sum pairs.*2 in
      if f_leb total_weight (of_Z 0) then Err (NeedsPositiveWeight total_weight)
      else Ok (f_div (f_sum ((λ p : f64 * f64, f_mul p.1 p.2) <$> pairs)) total_weight)
  end.

(** ** [stale.rs] *)

Definition MIN_POLL_HZ : f64 := lit 1 100.
Definition MAX_POLL_HZ : f64 := of_Z 10.
Definition DEFAULT_POLL_HZ : f64 := of_Z 1.

Definition STALE_FLOOR : Z := seconds 5.
Definition MISSED_POLLS : f64 := of_Z 3.

Definition poll_rate_hz (spec : AsyncApiSpec) (topic : string) : option f64 :=
  match str_split "/" topic with
  | [_; _; _; device; _; measurement; _] =>
      sources ← x_protocol_source spec !! device;
      source ← sources !! measurement;
      f_clamp (default DEFAULT_POLL_HZ (src_poll_rate_hz source)) MIN_POLL_HZ MAX_POLL_HZ
  | _ => None
  end.

(** [None]: [from_secs_f64] panics. *)
Fixpoint stale_entries (spec : AsyncApiSpec) (topics : list string) : option (list (string * Z)) :=
  match topics with
  | [] => Some []
  | t :: topics =>
      match poll_rate_hz spec t with
      | None => stale_entries spec topics
      | Some hz =>
          d ← duration_from_secs_f64 (f_div MISSED_POLLS hz);
          rest ← stale_entries spec topics;
          Some ((t, STALE_FLOOR `max` d) :: rest)
      end
  end.

Definition stale_limits (spec : AsyncApiSpec) (input_topics : list string) : option (gmap string Z) :=
  map_extend ∅ <$> stale_entries spec input_topics.

(** ** [task.rs] *)

Inductive Computation :=
| OperationOf (operation : Operation) (input_topics : list string)
| WeightedMeanOf (pairs : list (string * f64)).

Record SyntheticTaskConfig := mkSyntheticTask {
  output_topic : string;
  computation : Computation;
  tick_hz : f64;
  task_stale_limits : gmap string Z;
}.

Section Task.
Context (cache : InputCache) (limits : gmap string Z) (now : Z).

Definition fresh (topic : string) : option CacheEntry :=
  entry ← cache !! topic;
  let dead := match limits !! topic with
              | Some l => l <? elapsed_since now entry.2
              | None => false
              end in
  if dead then None else Some entry.

Definition fresh_number (topic : string) : option f64 := e ← fresh topic; as_number e.1.

Fixpoint gather_inputs (input_topics : list string) : option (list f64) :=
  match input_topics with
  | [] => Some []
  | t :: ts => v ← fresh_number t; vs ← gather_inputs ts; Some (v :: vs)
  end.

Fixpoint gather_pairs (pairs : list (string * f64)) : option (list (f64 * f64)) :=
  match pairs with
  | [] => Some []
  | (t, weight) :: ps => v ← fresh_number t; vs ← gather_pairs ps; Some ((v, weight) :: vs)
  end.
End Task.

(** [None]: hold, nothing is published. *)
Definition computed (cfg : SyntheticTaskConfig) (cache : InputCache) (now : Z)
    : option (result operation_error f64) :=
  match computation cfg with
  | OperationOf operation input_topics =>
      operation_apply operation <$> gather_inputs cache (task_stale_limits cfg) now input_topics
  | WeightedMeanOf pairs =>
      weighted_mean <$> gather_pairs cache (task_stale_limits cfg) now pairs
  end.

Section Publish.
Context {W : Type} `{Publisher W}.
(** The sample [format!] prints of a time and a value, read back as JSON: a NaN
    or an infinity prints as none. *)
Context (formatted : string → f64 → option Value).

Definition synthetic_tick (cfg : SyntheticTaskConfig) (cache : InputCache) (now : Z) (ts : string) (w : W)
    : result operation_error unit * W :=
  match computed cfg cache now with
  | None => (Ok (), w)
  | Some (Err e) => (Err e, w)
  | Some (Ok v) =>
      let '(refused, w) :=
        mqtt_publish (mkMessage (output_topic cfg) (formatted ts v) QOS_MEASUREMENT false) w in
      (match refused with None => Ok () | Some e => Err (PublishFailed e) end, w)
  end.
End Publish.

(** [(1000.0 / hz).max(1.0) as u64]. *)
Definition hz_to_period_ms (hz : f64) : Z :=
  f64_as_u64 (f_max (f_div (of_Z 1000) hz) (of_Z 1)).

(** [spawn_synthetic]'s configuration.  The outer [None] is a panic, the inner
    one a channel dropped for its unknown operation. *)
Definition synthetic_config (spec : AsyncApiSpec) (binding : SyntheticBinding)
    (out : string) (hz : f64) (site_id : string) : option (option SyntheticTaskConfig) :=
  let config computation inputs :=
    limits ← stale_limits spec inputs;
    Some (Some (mkSyntheticTask out computation hz limits)) in
  if bool_decide (syn_operation binding = "weighted_mean"%string) then
    let pairs := (λ p, (substitute_site_id (wp_topic p) site_id, wp_weight p)) <$> syn_pairs binding in
    config (WeightedMeanOf pairs) pairs.*1
  else
    match operation_parse (syn_operation binding) with
    | Err _ => Some None
    | Ok operation =>
        let topics := (λ t, substitute_site_id t site_id) <$> syn_inputs binding in
        config (OperationOf operation topics) topics
    end.

Definition input_topics_of (c : Computation) : list string :=
  match c with OperationOf _ topics => topics | WeightedMeanOf pairs => pairs.*1 end.

(** ** What a published value rests on *)

Lemma fresh_number_Some cache limits now t v :
  fresh_number cache limits now t = Some v →
  ∃ e, cache !! t = Some e ∧ as_number e.1 = Some v ∧
    ∀ l, limits !! t = Some l → elapsed_since now e.2 <= l.
Proof.
  unfold fresh_number, fresh. destruct (cache !! t) as [e|]; simpl; [|done].
  destruct (limits !! t) as [l|]; simpl.
  - destruct (Z.ltb_spec l (elapsed_since now e.2)); simpl; [done|]. intros Hv.
    exists e. split_and!; [done|done|]. intros ? [= <-]. lia.
  - intros Hv. exists e. by split_and!.
Qed.

Lemma gather_inputs_Some cache limits now ts vs :
  gather_inputs cache limits now ts = Some vs →
  Forall2 (λ t v, fresh_number cache limits now t = Some v) ts vs.
Proof.
  revert vs; induction ts as [|t ts IH]; intros vs; cbn [gather_inputs]; [intros [= <-]; constructor|].
  destruct (fresh_number _ _ _ t) as [v|] eqn:Hv; simpl; [|done].
  destruct (gather_inputs _ _ _ ts) as [vs'|]; simpl; [|done]. intros [= <-]. constructor; auto.
Qed.

Lemma gather_pairs_Some cache limits now ps vs :
  gather_pairs cache limits now ps = Some vs →
  Forall2 (λ p v, fresh_number cache limits now p.1 = Some v.1 ∧ v.2 = p.2) ps vs.
Proof.
  revert vs; induction ps as [|[t weight] ps IH]; intros vs; cbn [gather_pairs]; [intros [= <-]; constructor|].
  destruct (fresh_number _ _ _ t) as [v|] eqn:Hv; simpl; [|done].
  destruct (gather_pairs _ _ _ ps) as [vs'|]; simpl; [|done]. intros [= <-]. constructor; auto.
Qed.

(** A value is computed for publishing only
    when every one of its inputs has a cached number no older than its stale
    limit; a missing or dead input holds the channel. *)
Theorem synthetic_rests_on_fresh_inputs cfg cache now r t :
  computed cfg cache now = Some r → t ∈ input_topics_of (computation cfg) →
  ∃ e v, cache !! t = Some e ∧ as_number e.1 = Some v ∧
    ∀ l, task_stale_limits cfg !! t = Some l → elapsed_since now e.2 <= l.
Proof.
  unfold computed. intros Hr Ht. destruct (computation cfg) as [op topics|pairs]; simpl in Ht.
  - destruct (gather_inputs _ _ _ _) as [vs|] eqn:Hg; [|done]. apply gather_inputs_Some in Hg.
    apply list_elem_of_lookup in Ht as [i Hi].
    destruct (Forall2_lookup_l _ _ _ _ _ Hg Hi) as (v & _ & (e & ? & ? & ?)%fresh_number_Some).
    by exists e, v.
  - destruct (gather_pairs _ _ _ _) as [vs|] eqn:Hg; [|done]. apply gather_pairs_Some in Hg.
    apply list_elem_of_fmap in Ht as (p & -> & [i Hi]%list_elem_of_lookup).
    destruct (Forall2_lookup_l _ _ _ _ _ Hg Hi) as (v & _ & (e & ? & ? & ?)%fresh_number_Some & _).
    by exists e, v.1.
Qed.

Definition demo_sum : SyntheticTaskConfig :=
  mkSyntheticTask "out" (OperationOf Sum ["a"; "b"]%string) (of_Z 1)
    {["a"%string := STALE_FLOOR; "b"%string := STALE_FLOOR]}.

Definition demo_inputs (b_at : Z) : InputCache :=
  {["a"%string := (VInt 40, seconds 10); "b"%string := (VFloat (lit 5 2), b_at)]}.

(** 42.5 while both inputs are fresh; held once one is 6 s old. *)
Example demo_sum_ticks :
  computed demo_sum (demo_inputs (seconds 9)) (seconds 10) = Some (Ok (lit 425 10)) ∧
  computed demo_sum (demo_inputs (seconds 4)) (seconds 10) = None.
Proof. split; by vm_compute. Qed.

Lemma synthetic_rests_on_fresh_inputs_witness :
  ∃ e v, demo_inputs (seconds 9) !! "b"%string = Some e ∧ as_number e.1 = Some v ∧
    ∀ l, task_stale_limits demo_sum !! "b"%string = Some l → elapsed_since (seconds 10) e.2 <= l.
Proof.
  refine (synthetic_rests_on_fresh_inputs demo_sum (demo_inputs (seconds 9)) (seconds 10)
    (Ok (lit 425 10)) "b" _ _); [by vm_compute|]. right. by left.
Defined.
