(* ===== verification/Periods.v ===== *)
(** * Periods: a poll rate as a [Duration]

    [Duration::from_secs_f64(k / hz)] for a rate the gateway has clamped
    ([src/app.rs], [src/synthetic/stale.rs]): it never panics, and how long it
    can be. *)

From Stdlib Require Import ZArith Lia Floats.
From S2P Require Import Prelude F64 Binary64 Rounding Integers Cache Synthetic.
Local Open Scope Z_scope.

(** ** One rounding moves a result by less than one last place *)

(** Rounding [m * 2^e], located by [l], with [n] bits too many: the result is
    the truncated value or the next one. *)
Lemma binary_round_aux_near s m e l :
  let n := Zpos (digits2_pos m) - 53 in
  0 <= n -> -1074 <= e + n <= 900 ->
  ∃ m' e', binary_round_aux prec emax s (Zpos m) e l = S754_finite s m' e' ∧
    e + n <= e' <= e + n + 1 ∧
    Zpos m / 2 ^ n <= Zpos m' * 2 ^ (e' - (e + n)) <= Zpos m / 2 ^ n + 1.
Proof.
  cbv zeta. set (d := Zpos (digits2_pos m)). set (n := d - 53). intros Hn He.
  unfold binary_round_aux.
  replace (shr_fexp prec emax (Zpos m) e l) with (shr (shr_record_of_loc (Zpos m) l) e n)
    by (unfold shr_fexp; rewrite fexp_eq; simpl Zdigits2; fold d; f_equal; lia).
  destruct (shr_spec (shr_record_of_loc (Zpos m) l) e n) as (r' & -> & Hr'); [done|by destruct l as [|[]]|].
  replace (shr_m (shr_record_of_loc (Zpos m) l)) with (Zpos m) in Hr' by (by destruct l as [|[]]).
  destruct (digits2_pos_bounds m) as [Hml Hmh]. fold d in Hml, Hmh.
  set (M := round_nearest_even (shr_m r') (loc_of_shr_record r')). set (e1 := e + n) in *.
  assert (shr_m r' ≤ M ≤ shr_m r' + 1) as HM.
  { unfold M, round_nearest_even. destruct (loc_of_shr_record r') as [|[]]; try lia.
    destruct (Z.even _); lia. }
  assert (2 ^ 52 ≤ shr_m r' < 2 ^ 53) as Hs.
  { rewrite Hr'. split; [apply Z.div_le_lower_bound|apply Z.div_lt_upper_bound]; try lia.
    - rewrite <- Z.pow_add_r by lia. by replace (n + 52) with (d - 1) by lia.
    - rewrite <- Z.pow_add_r by lia. by replace (n + 53) with d by lia. }
  rewrite <- Hr'. clearbody M. unfold shr_fexp. rewrite fexp_eq. simpl shr_record_of_loc.
  destruct M as [|p|p]; [lia| |lia]. simpl Zdigits2.
  destruct (Z.eq_dec (Zpos p) (2 ^ 53)) as [Hp|Hp].
  - assert (Zpos (digits2_pos p) = 54) as -> by (apply digits2_pos_unique; lia).
    replace (Z.max (54 + e1 - 53) (-1074) - e1) with 1 by lia. simpl shr.
    destruct p as [p|p|]; [lia| |lia]. simpl shr_m.
    destruct (Z.leb_spec (e1 + 1) (emax - prec)) as [Hle|Hle]; [|unfold emax, prec in Hle; lia].
    exists p, (e1 + 1). split; [done|]. split; [lia|].
    replace (e1 + 1 - e1) with 1 by lia. lia.
  - assert (Zpos (digits2_pos p) = 53) as -> by (apply digits2_pos_unique; lia).
    replace (Z.max (53 + e1 - 53) (-1074) - e1) with 0 by lia.
    rewrite shr_nonpos by done. simpl shr_m.
    destruct (Z.leb_spec e1 (emax - prec)) as [Hle|Hle]; [|unfold emax, prec in Hle; lia].
    exists p, e1. split; [done|]. split; [lia|]. rewrite Z.sub_diag. lia.
Qed.

(** The quotient of two 53-bit significands, within two of its last places. *)
Lemma SFdiv_near m1 e1 m2 e2 :
  2 ^ 52 <= Zpos m1 < 2 ^ 53 -> 2 ^ 52 <= Zpos m2 < 2 ^ 53 -> -800 <= e1 - e2 <= 800 ->
  let q := Zpos m1 * 2 ^ 53 / Zpos m2 in
  ∃ m e, SFdiv prec emax (S754_finite false m1 e1) (S754_finite false m2 e2) = S754_finite false m e ∧
    e1 - e2 - 53 <= e <= e1 - e2 - 51 ∧
    q - 1 <= Zpos m * 2 ^ (e - (e1 - e2 - 53)) <= q + 2.
Proof.
  intros H1 H2 He q. unfold SFdiv, SFdiv_core_binary. simpl Zdigits2. rewrite fexp_eq.
  assert (Zpos (digits2_pos m1) = 53) as -> by (apply digits2_pos_unique; lia).
  assert (Zpos (digits2_pos m2) = 53) as -> by (apply digits2_pos_unique; lia).
  replace (Z.min (Z.max _ _) (e1 - e2)) with (e1 - e2 - 53) by lia.
  replace (e1 - e2 - (e1 - e2 - 53)) with 53 by lia. cbn match. rewrite Z.shiftl_mul_pow2 by lia.
  pose proof (Z.div_eucl_eq (Zpos m1 * 2 ^ 53) (Zpos m2)) as Hd.
  assert (q = (Z.div_eucl (Zpos m1 * 2 ^ 53) (Zpos m2)).1) as Hq by done.
  destruct (Z.div_eucl _ _) as [q' r]. cbn [fst] in Hq. subst q'. cbn [xorb].
  assert (2 ^ 52 <= q < 2 ^ 54) as Hqb.
  { unfold q. split; [apply Z.div_le_lower_bound|apply Z.div_lt_upper_bound]; lia. }
  destruct q as [|p|p] eqn:Hp; [lia| |lia].
  assert (∃ k, (k = 0 ∨ k = 1) ∧ Zpos (digits2_pos p) = 53 + k) as (k & Hk & Hdig).
  { destruct (Z.lt_ge_cases (Zpos p) (2 ^ 53)); [exists 0|exists 1]; (split; [lia|]);
      apply digits2_pos_unique; lia. }
  pose proof (binary_round_aux_near false p (e1 - e2 - 53) (new_location (Zpos m2) r)) as Hnear.
  cbv zeta in Hnear. rewrite Hdig in Hnear. replace (53 + k - 53) with k in Hnear by lia.
  destruct Hnear as (m & e & -> & Hee & Hm); [lia|lia|]. exists m, e. split; [done|]. split; [lia|].
  set (a := e1 - e2 - 53) in *. assert (Zpos p - 1 <= 2 ^ k * (Zpos p / 2 ^ k) <= Zpos p) as Hpk.
  { pose proof (Z.div_mod (Zpos p) (2 ^ k)). pose proof (Z.mod_pos_bound (Zpos p) (2 ^ k)).
    destruct Hk as [->| ->]; lia. }
  replace (e - a) with (e - (a + k) + k) by lia. rewrite Z.pow_add_r by lia.
  set (x := Zpos m * 2 ^ (e - (a + k))) in *. replace (Zpos m * _) with (2 ^ k * x) by lia.
  destruct Hk as [->| ->]; lia.
Qed.

(** ** Seconds to nanoseconds *)

Lemma round_half_even_bounds n d lo hi :
  0 < d -> (2 * lo - 1) * d < 2 * n < (2 * hi + 1) * d -> lo <= round_half_even n d <= hi.
Proof.
  intros Hd Hn. unfold round_half_even. pose proof (Z.div_mod n d) as He.
  pose proof (Z.mod_pos_bound n d Hd) as Hr. set (q := n / d) in *. set (r := n mod d) in *.
  destruct (Z.ltb_spec (2 * r) d); [nia|]. destruct (Z.ltb_spec d (2 * r)); [nia|].
  destruct (Z.even q); nia.
Qed.

Lemma duration_bounds (y : f64) m d lo hi :
  Prim2SF y = S754_finite false m (Zneg d) ->
  (2 * lo - 1) * 2 ^ Zpos d < 2 * (Zpos m * 1000000000) < (2 * hi + 1) * 2 ^ Zpos d ->
  hi <= max_duration -> ∃ ns, duration_from_secs_f64 y = Some ns ∧ lo <= ns <= hi.
Proof.
  intros Hy Hb Hhi. unfold duration_from_secs_f64. rewrite Hy.
  pose proof (round_half_even_bounds (Zpos m * 1000000000) (2 ^ Zpos d) lo hi) as Hr.
  eexists. rewrite (proj2 (Z.leb_le _ _)) by (destruct Hr; lia). split; [done|]. apply Hr; lia.
Qed.

(** ** Clamped rates *)

(** A rate within the gateway's limits, as its significand and exponent. *)
Lemma rate_shape (x : f64) :
  f_leb MIN_POLL_HZ x = true -> f_leb x MAX_POLL_HZ = true ->
  ∃ m e, Prim2SF x = S754_finite false m e ∧ 2 ^ 52 <= Zpos m < 2 ^ 53 ∧ -59 <= e <= -49 ∧
    (e = -59 -> 5764607523034235 <= Zpos m) ∧ (e = -49 -> Zpos m <= 5629499534213120).
Proof.
  intros Hlo Hhi. assert (f64_is_finite x = true) as Hf.
  { simpl in Hlo, Hhi. rewrite leb_spec in Hlo, Hhi. unfold f64_is_finite.
    replace (Prim2SF MIN_POLL_HZ) with (S754_finite false 5764607523034235 (-59)) in Hlo by (by vm_compute).
    replace (Prim2SF MAX_POLL_HZ) with (S754_finite false 5629499534213120 (-49)) in Hhi by (by vm_compute).
    destruct (Prim2SF x) as [s|[]| |s m e]; done. }
  rewrite f64_leb_units in Hlo, Hhi by (try done; by vm_compute).
  apply Z.leb_le in Hlo, Hhi. unfold units in *. pose proof (Prim2SF_valid x) as Hv.
  replace (Prim2SF MIN_POLL_HZ) with (S754_finite false 5764607523034235 (-59)) in Hlo by (by vm_compute).
  replace (Prim2SF MAX_POLL_HZ) with (S754_finite false 5629499534213120 (-49)) in Hhi by (by vm_compute).
  unfold f64_is_finite in Hf.
  destruct (Prim2SF x) as [s|s| |s m e]; try done; cbn [sf_units cond_Zopp] in *.
  simpl in Hv. pose proof (bounded_emin _ _ Hv) as Hemin. pose proof (bounded_canonical _ _ Hv) as Hc.
  destruct (digits2_pos_bounds m) as [Hml Hmh].
  destruct s; cbn [cond_Zopp] in *; [exfalso; assert (0 < 2 ^ (e + 1074)) by (apply Z.pow_pos_nonneg; lia); lia|].
  exists m, e. split; [done|].
  assert (-59 <= e) as He.
  { destruct (Z.le_gt_cases (-59) e); [done|exfalso].
    assert (Zpos m < 2 ^ 53) by (eapply Z.lt_le_trans; [exact Hmh|apply Z.pow_le_mono_r; lia]).
    assert (2 ^ (e + 1074) <= 2 ^ 1014) by (apply Z.pow_le_mono_r; lia). 
    assert (0 < 2 ^ (e + 1074)) by (apply Z.pow_pos_nonneg; lia).
    change (2 ^ (-59 + 1074)) with (2 ^ 1014 * 2) in Hlo. nia. }
  assert (2 ^ 52 <= Zpos m < 2 ^ 53) as Hm.
  { assert (Zpos (digits2_pos m) = 53) as Hd by lia. rewrite Hd in *. done. }
  assert (e <= -49) as He'.
  { destruct (Z.le_gt_cases e (-49)); [done|exfalso].
    assert (2 ^ 1026 <= 2 ^ (e + 1074)) by (apply Z.pow_le_mono_r; lia).
    change (2 ^ (-49 + 1074)) with (2 ^ 1025) in Hhi.
    change (2 ^ 1026) with (2 ^ 1025 * 2) in *. assert (0 < 2 ^ 1025) by (apply Z.pow_pos_nonneg; lia). nia. }
  split; [done|]. split; [done|]. split; intros ->.
  - apply Z.mul_le_mono_pos_r in Hlo; [done|by apply Z.pow_pos_nonneg].
  - apply Z.mul_le_mono_pos_r in Hhi; [done|by apply Z.pow_pos_nonneg].
Qed.

(** [k / hz], in nanoseconds, for the two numerators the code uses. *)
Lemma quotient_duration (k : f64) (x : f64) m1 e1 (K : Z) :
  Prim2SF k = S754_finite false m1 e1 -> (Zpos m1 = 2 ^ 52 ∧ e1 = -52 ∧ K = 1) ∨ (Zpos m1 = 3 * 2 ^ 51 ∧ e1 = -51 ∧ K = 3) ->
  f_leb MIN_POLL_HZ x = true -> f_leb x MAX_POLL_HZ = true ->
  ∃ ns, duration_from_secs_f64 (f_div k x) = Some ns ∧ K * 100000000 <= ns <= K * 100000000000.
Proof.
  intros Hk HK Hlo Hhi. destruct (rate_shape x Hlo Hhi) as (m2 & e2 & Hx & Hm2 & He2 & HL & HU).
  assert (2 ^ 52 <= Zpos m1 < 2 ^ 53 ∧ -52 <= e1 <= -51) as [Hm1 He1] by lia.
  destruct (SFdiv_near m1 e1 m2 e2 Hm1 Hm2) as (m & e & Hdiv & He & Hm); [lia|].
  assert (Prim2SF (f_div k x) = S754_finite false m e) as Hd by (simpl; by rewrite div_spec, Hk, Hx).
  set (q := Zpos m1 * 2 ^ 53 / Zpos m2) in *.
  assert (q * Zpos m2 <= Zpos m1 * 2 ^ 53 < (q + 1) * Zpos m2) as Hq.
  { pose proof (Z.div_mod (Zpos m1 * 2 ^ 53) (Zpos m2)). pose proof (Z.mod_pos_bound (Zpos m1 * 2 ^ 53) (Zpos m2)).
    unfold q. lia. }
  clearbody q. destruct e as [|e|d]; [lia|lia|].
  apply (duration_bounds _ m d _ _ Hd); [|unfold max_duration; lia].
  set (j := Zneg d - (e1 - e2 - 53)) in *.
  replace (Zpos d) with (e2 - e1 + 53 - j) by lia.
  assert (j = 0 ∨ j = 1 ∨ j = 2) as Hj by lia.
  assert (e2 = -59 ∨ e2 = -58 ∨ e2 = -57 ∨ e2 = -56 ∨ e2 = -55 ∨ e2 = -54 ∨ e2 = -53 ∨ e2 = -52 ∨
    e2 = -51 ∨ e2 = -50 ∨ e2 = -49) as Hcases by lia.
  clear Hd Hdiv Hx Hlo Hhi Hk He. clearbody j.
  destruct HK as [(Hm1' & -> & ->)|(Hm1' & -> & ->)]; rewrite Hm1' in Hq; clear Hm1 Hm1' He1;
  repeat (destruct Hcases as [->|Hcases]); try rewrite Hcases in *;
  (destruct Hj as [->|[->| ->]]);
  try specialize (HL eq_refl); try specialize (HU eq_refl);
  match goal with |- context [2 ^ ?t] => let v := eval vm_compute in (2 ^ t) in change (2 ^ t) with v end;
  cbn in Hq, Hm; nia.
Qed.

(** ** A tick rate as whole milliseconds *)

Lemma one_le_trunc (x : f64) :
  f_leb (of_Z 1) x = true → 1 <= f64_as_u64 x <= 2 ^ 64 - 1.
Proof.
  intros Hx. unfold f64_as_u64, f64_as_int. destruct (f64_is_finite x) eqn:Hf.
  - pose proof (f64_trunc_units x Hf) as Ht.
    rewrite f64_leb_units in Hx by (done || by vm_compute). apply Z.leb_le in Hx.
    replace (units (of_Z 1)) with (2 ^ 1074) in Hx by (by vm_compute).
    assert (1 <= Z.quot (units x) (2 ^ 1074)).
    { rewrite <- (Z.quot_same (2 ^ 1074)) at 1 by (by vm_compute). apply Z.quot_le_mono; [by vm_compute|exact Hx]. }
    rewrite Ht. unfold f64_is_finite in Hf. destruct (Prim2SF x); try done; lia.
  - simpl in Hx. rewrite leb_spec in Hx. unfold f64_is_finite in Hf.
    replace (Prim2SF (of_Z 1)) with (S754_finite false 4503599627370496 (-52)) in Hx by (by vm_compute).
    destruct (Prim2SF x) as [s|[]| |s m e]; try done; lia.
Qed.

(** The period of a task is never zero, on which [tokio::time::interval]
    panics, whatever the rate is: zero, negative, NaN and infinite rates
    included. *)
Lemma period_never_zero (hz : f64) : 1 <= hz_to_period_ms hz <= 2 ^ 64 - 1.
Proof. apply one_le_trunc. apply max_ge_r. by vm_compute. Qed.
