(* ===== verification/Topology.v ===== *)
(** * Topology: spec intake, projections and subscriptions

    [src/asyncapi/types/source_map.rs] and [heartbeat.rs] (which entries the
    gateway runs), [src/inputs.rs] (every topic it must hear), [src/app.rs]
    (the lookup maps and guards built from a spec) and
    [src/mqtt/subscriptions.rs].  A [HashMap] the code walks is read through
    [map_to_list]: nothing below depends on the order beyond it. *)

From Stdlib Require Import ZArith Lia Floats Ascii.
From S2P Require Import Prelude F64 Binary64 Text Codec Cache Bindings Distribute.
From S2P Require Import Clients Sunspec PoiServo Dispatch EnvelopeTask Synthetic.
Local Open Scope Z_scope.

(** ** [source_map.rs] and [asyncapi/types/heartbeat.rs] *)

Inductive unusable :=
| BadFunction (e : function_error)
| ScaleFactorOnWrite
| BadPointType (point_type : string)
| BadPoint (e : resolve_error)
| PartialGuard (fields : nat)
| StuckCounter
| BadPeriod
| NotModbus.

Definition SENTINEL : string := "PROVISIONED_AT_COMMISSIONING".

Definition check_of {A E} (wrap : E → unusable) (r : result E A) : result unusable unit :=
  match r with Ok _ => Ok () | Err e => Err (wrap e) end.

Definition whole_guard (p : PowerCapBinding) : result unusable unit :=
  let present := [bool_decide (is_Some (pc_import_limit_topic p));
                  bool_decide (is_Some (pc_export_limit_topic p));
                  bool_decide (is_Some (pc_poi_active_power_topic p));
                  bool_decide (is_Some (pc_hysteresis_margin p));
                  bool_decide (is_Some (pc_hysteresis_dwell_secs p));
                  bool_decide (is_Some (pc_ramp_rate_per_sec p))] in
  let n := length (List.filter (λ b, b) present) in
  if (n =? 0)%nat || (n =? 6)%nat then Ok () else Err (PartialGuard n).

(** The [check] of [measurements]. *)
Definition measurement_check (s : ProtocolSource) : result unusable unit :=
  match src_binding s with
  | ModbusTcp m => check_of BadFunction (read_function (mb_function_code m))
  | Dnp3Tcp d => check_of (λ _, BadPointType (dnp3_point_type d)) (point_kind (dnp3_point_type d))
  | Sunspec b => check_of BadPoint (readable b)
  | _ => Ok ()
  end.

(** The [check] of [commands]. *)
Definition command_check (s : CommandSource) : result unusable unit :=
  match cmd_binding s with
  | ModbusTcp m =>
      match mb_scale_factor_address m with
      | Some _ => Err ScaleFactorOnWrite
      | None => check_of BadFunction (write_function (mb_function_code m) (mb_data_type m))
      end
  | Sunspec b => check_of BadPoint (writable b)
  | PowerCap p => whole_guard p
  | _ => Ok ()
  end.

Definition is_unprovisioned (entry : Value) : bool :=
  existsb (λ name, bool_decide ((v ← field entry name; as_str v) = Some SENTINEL))
    ["host"; "port"; "unit_id"]%string.

Section Parse.
(** [serde_json::from_value] of one entry; [None] fails the whole spec. *)
Context {T : Type} (from_value : Value → option T) (check : T → result unusable unit).

Definition parse_device (channels : list (string * Value)) : option (option (gmap string T)) :=
  if existsb (λ e, is_unprovisioned e.2) channels then Some None
  else
    parsed ← mapM (λ e : string * Value, t ← from_value e.2; Some (e.1, t)) channels;
    if forallb (λ e : string * T, is_ok (check e.2)) parsed
    then Some (Some (list_to_map parsed)) else Some None.

(** Devices with their raw entries to the ones the gateway runs. *)
Fixpoint parse_sources (raw : list (string * list (string * Value)))
    : option (gmap string (gmap string T)) :=
  match raw with
  | [] => Some ∅
  | (device_id, channels) :: raw =>
      device ← parse_device channels;
      rest ← parse_sources raw;
      Some match device with Some d => <[device_id := d]> rest | None => rest end
  end.
End Parse.

Definition runnable (h : HeartbeatSource) : result unusable unit :=
  if hb_counter_modulo h <? 2 then Err StuckCounter
  else if negb (f_ltb (of_Z 0) (hb_period_s h) && f_finite (hb_period_s h)) then Err BadPeriod
  else
    match hb_binding h with
    | ModbusTcp m => check_of BadFunction (write_function (mb_function_code m) (mb_data_type m))
    | _ => Err NotModbus
    end.

Definition heartbeats (all : gmap string HeartbeatSource) : gmap string HeartbeatSource :=
  filter (λ e : string * HeartbeatSource, is_ok (runnable e.2) = true) all.

(** ** [app.rs] *)

Definition clone_binding (b : ProtocolBinding) : ProtocolBinding :=
  match b with
  | Sunspec s => Sunspec (mkSunspec (ss_host s) (ss_port s) (ss_unit_id s) (ss_model_id s)
      (ss_point s) (ss_bit s))
  | ModbusTcp m => ModbusTcp (mkModbus (mb_host m) (mb_port m) (mb_unit_id m) (mb_address m)
      (mb_scale m) (mb_offset m) (mb_data_type m) (mb_word_order m) (mb_function_code m)
      (mb_scale_factor_address m))
  | Snmp s => Snmp (mkSnmp (snmp_host s) (snmp_port s) (snmp_oid s) (snmp_scale s))
  | Redfish r => Redfish (mkRedfish (rf_host r) (rf_port r) (rf_uri r) (rf_json_pointer r) (rf_scale r))
  | Dnp3Tcp d => Dnp3Tcp (mkDnp3 (dnp3_host d) (dnp3_port d) (dnp3_point_index d)
      (dnp3_point_type d) (dnp3_variation d) (dnp3_scale d) (dnp3_outstation_address d))
  | Synthetic s => Synthetic (mkSynthetic (syn_operation s) (syn_inputs s) (syn_pairs s))
  | BacnetIp b => BacnetIp (mkBacnetIp (bip_host b) (bip_port b) (bip_device_instance b)
      (bip_object_type b) (bip_object_instance b) (bip_property_id b))
  | BacnetSc b => BacnetSc (mkBacnetSc (bsc_hub_url b) (bsc_device_vmac b) (bsc_object_type b)
      (bsc_object_instance b) (bsc_property_id b))
  | PowerCap p => PowerCap p
  | Distribute d => Distribute (mkDistribute (db_allocation_policy d) (db_children d)
      (db_state_of_charge_floor_percent d) (db_ramp_rate_per_sec d) (db_hysteresis_margin d)
      (db_hysteresis_dwell_secs d) (db_power_min d) (db_power_max d) (db_import_limit_topic d)
      (db_export_limit_topic d) (db_active_power_topic d) (db_poi_active_power_topic d)
      (db_operator_reserve_topic d) (db_site_capacity_wh d) (db_readiness_soc_percent d)
      (db_recharge_power_w d))
  end.

Definition command_key (cmd : CommandSource) : string := cmd_verb cmd ++ "_" ++ cmd_target cmd.

(** Two commands with one verb and target leave one binding: the later one. *)
Definition device_channels (spec : AsyncApiSpec) : Channels :=
  (λ commands : gmap string CommandSource,
     map_extend ∅ ((λ c : string * CommandSource, (command_key c.2, clone_binding (cmd_binding c.2)))
       <$> map_to_list commands)) <$> x_command_source spec.

Definition build_topic (site_id device_id measurement unit : string) : string :=
  "sites/" ++ site_id ++ "/devices/" ++ device_id ++ "/measurements/" ++ measurement ++ "/" ++ unit.

Definition clamp_poll_rate (value : option f64) : f64 :=
  let raw := default DEFAULT_POLL_HZ value in
  if f_ltb raw MIN_POLL_HZ then MIN_POLL_HZ
  else if f_ltb MAX_POLL_HZ raw then MAX_POLL_HZ
  else raw.

(** The device that needs credentials the gateway doesn't have. *)
Definition validate_trust_creds_alignment (spec : AsyncApiSpec) (creds : option GatewayCredentials)
    : result string unit :=
  match creds with
  | Some _ => Ok ()
  | None =>
      match find_first (λ t : string * DeviceTrust, match t.2 with TlsMutual _ => true | _ => false end)
              (map_to_list (x_device_trust spec)) with
      | Some (device_id, _) => Err device_id
      | None => Ok ()
      end
  end.

(** ** [inputs.rs] *)

Section Inputs.
Context (spec : AsyncApiSpec) (site_id : string).

Local Abbreviation subst t := (substitute_site_id t site_id).

Definition sources : list ProtocolSource :=
  d ← map_to_list (x_protocol_source spec); (map_to_list d.2).*2.

Definition command_sources : list CommandSource :=
  d ← map_to_list (x_command_source spec); (map_to_list d.2).*2.

(** A [BTreeSet] of topics, listed: a set, read back in some order. *)
Definition listed (topics : list string) : list string :=
  elements (list_to_set topics : gset string).

Definition collect_synthetic_input_topics : list string :=
  listed (s ← sources;
    match src_binding s with
    | Synthetic b => ((λ t, subst t) <$> syn_inputs b) ++ ((λ p, subst (wp_topic p)) <$> syn_pairs b)
    | _ => []
    end).

Definition child_topics (c : ChildAllocation) : list string :=
  [subst (ca_operating_state_topic c); subst (ca_state_of_charge_topic c);
   limit_topic site_id (ca_device_id c) true; limit_topic site_id (ca_device_id c) false].

Definition guard_topics (g : EnvelopeGuardConfig) : list string :=
  [subst (guard_import_limit_topic g); subst (guard_export_limit_topic g);
   subst (guard_active_power_topic g)] ++
  match guard_poi_active_power_topic g with Some t => [subst t] | None => [] end.

(** A guard whose dwell panics stops the walk; here it adds no topic. *)
Definition distribute_topics (d : DistributeBinding) : list string :=
  (c ← db_children d; child_topics c) ++
  match db_operator_reserve_topic d with Some t => [subst t] | None => [] end ++
  match envelope_guard_config d with Some (Some g) => guard_topics g | _ => [] end.

Definition power_cap_topics (p : PowerCapBinding) : list string :=
  (λ t, subst t) <$> omap id
    [pc_import_limit_topic p; pc_export_limit_topic p; pc_poi_active_power_topic p].

Definition collect_distribute_input_topics : list string :=
  listed (s ← command_sources;
    match cmd_binding s with
    | Distribute d => distribute_topics d
    | PowerCap p => power_cap_topics p
    | _ => []
    end).

Definition distribute_parent_device_ids : list string :=
  (List.filter (λ d : string * gmap string CommandSource,
     existsb (λ s, match cmd_binding s with Distribute _ => true | _ => false end) (map_to_list d.2).*2)
     (map_to_list (x_command_source spec))).*1.

Definition collect_der_dispatch_active_power_topics : list string :=
  (λ device_id, subst ("sites/{site_id}/devices/" ++ device_id ++ "/measurements/active_power/watts")%string)
    <$> distribute_parent_device_ids.

Definition collect_der_dispatch_state_of_charge_topics : list string :=
  (λ device_id, subst ("sites/{site_id}/devices/" ++ device_id ++ "/measurements/state_of_charge/percent")%string)
    <$> distribute_parent_device_ids.

Definition der_dispatch_topics : list string :=
  [measurement_topic site_id "der_dispatch" "target_active_power" "watts";
   measurement_topic site_id "der_dispatch" "event_active" "none";
   measurement_topic site_id "der_dispatch" "target_setpoint_present" "none";
   measurement_topic site_id "der_dispatch" "energize_enabled" "none"].

Definition input_topics : list string :=
  collect_synthetic_input_topics ++ collect_distribute_input_topics ++
  collect_der_dispatch_active_power_topics ++ collect_der_dispatch_state_of_charge_topics ++
  der_dispatch_topics.
End Inputs.

(** ** [mqtt/subscriptions.rs] *)

Definition subscription_list (site_id : string) (inputs : list string) : list string * list Z :=
  (["system/topology_changed"; "system/loto_changed";
    ("sites/" ++ site_id ++ "/devices/+/commands/#")]%string ++ inputs,
   [1; 1; 1] ++ ((λ _, 0) <$> inputs)).

Definition diff (old new : list string) : list string * list string :=
  (List.filter (λ t, negb (bool_decide (t ∈ old))) new,
   List.filter (λ t, negb (bool_decide (t ∈ new))) old).

(** The broker's side of [subscribe_many] and [unsubscribe_many]. *)
Class BrokerSession (W : Type) := {
  subscribe_many : list string → list Z → W → bool * W;
  unsubscribe_many : list string → W → bool * W;
}.

Section Update.
Context {W : Type} `{BrokerSession W}.

(** [update]: the list a reconnect re-issues, and whether it succeeded. *)
Definition update (site_id : string) (current : list string * list Z) (inputs : list string) (w : W)
    : bool * (list string * list Z) * W :=
  let new := subscription_list site_id inputs in
  let '(added, removed) := diff current.1 new.1 in
  let '(ok, w) := match removed with [] => (true, w) | _ => unsubscribe_many removed w end in
  if negb ok then (false, current, w)
  else
    let '(ok, w) := match added with
                    | [] => (true, w)
                    | _ => subscribe_many added ((λ _, 0) <$> added) w
                    end in
    if negb ok then (false, current, w) else (true, new, w).
End Update.

(** ** [app::spawn_task_set], envelope tasks *)

Definition task_guard (g : EnvelopeGuardConfig) (site_id : string) : EnvelopeGuardConfig :=
  mkGuard (control g) (guard_power_min g) (guard_power_max g)
    (substitute_site_id (guard_import_limit_topic g) site_id)
    (substitute_site_id (guard_export_limit_topic g) site_id)
    (substitute_site_id (guard_active_power_topic g) site_id)
    (guard_poi_active_power_topic g).

Definition envelope_task_config (device_id : string) (source : CommandSource) (d : DistributeBinding)
    (site_id : string) : option EnvelopeTaskConfig :=
  guard ← envelope_guard_config d;
  Some (mkTaskConfig device_id (command_key source) ((λ g, task_guard g site_id) <$> guard)
          (clone_binding (cmd_binding source)) DEFAULT_POLL_HZ).

(** ** The lookup maps *)

Lemma clone_binding_eq b : clone_binding b = b.
Proof. by destruct b as [[]|[]|[]|[]|[]|[]|[]|[]|[]|[]]. Qed.

(** A command the spec declares is reached by its
    topic's verb and target with its own binding, field for field, provided no
    other command of the device has that verb and target together. *)
Theorem every_command_reachable spec device_id commands name c :
  x_command_source spec !! device_id = Some commands → commands !! name = Some c →
  (∀ name' c', commands !! name' = Some c' → command_key c' = command_key c → name' = name) →
  channel_of (device_channels spec) device_id (command_key c) = Some (cmd_binding c).
Proof.
  intros Hd Hc Huniq. unfold channel_of, device_channels. rewrite lookup_fmap, Hd. simpl.
  assert ((name, c) ∈ map_to_list commands) as Hin by (by apply elem_of_map_to_list).
  apply list_elem_of_split in Hin as (l1 & l2 & Hl). rewrite Hl.
  rewrite fmap_app, map_extend_app, fmap_cons.
  change ((λ c : string * CommandSource, (command_key c.2, clone_binding (cmd_binding c.2))) (name, c))
    with (command_key c, clone_binding (cmd_binding c)).
  rewrite clone_binding_eq.
  change (map_extend ?m ((?k, ?v) :: ?l)) with (map_extend (<[k:=v]> m) l).
  rewrite map_extend_lookup_notin; [apply lookup_insert_eq|].
  intros (p & Hp & [[n' c'] [-> Hin']]%list_elem_of_fmap)%list_elem_of_fmap. simpl in Hp.
  assert ((n', c') ∈ map_to_list commands) as Hm
    by (rewrite Hl; apply elem_of_app; right; by right).
  apply elem_of_map_to_list in Hm. pose proof (Huniq _ _ Hm (eq_sym Hp)) as ->.
  pose proof (NoDup_fst_map_to_list commands) as Hnd. rewrite Hl, fmap_app in Hnd.
  apply NoDup_app in Hnd as (_ & _ & Hnd). apply NoDup_cons in Hnd as [Hnot _].
  apply Hnot. by apply (list_elem_of_fmap_2 fst _ _ Hin').
Qed.

(** ** Every topic a task reads is subscribed *)

Section Reads.
Context (cache cache' : InputCache) (site_id : string).

(** The two caches agree on [topics]. *)
Definition agree (topics : list string) : Prop := ∀ t, t ∈ topics →
  lookup (A := Value * Z) t cache = lookup (A := Value * Z) t cache'.

Lemma reading_agree topics t : agree topics → t ∈ topics → reading cache t = reading cache' t.
Proof. intros Ha Ht. unfold reading. by rewrite Ha. Qed.

Lemma reading_at_agree topics t : agree topics → t ∈ topics → reading_at cache t = reading_at cache' t.
Proof. intros Ha Ht. unfold reading_at. by rewrite Ha. Qed.

Lemma agree_sub l l' : agree l → (∀ t, t ∈ l' → t ∈ l) → agree l'.
Proof. intros Ha Hs t Ht. by apply Ha, Hs. Qed.

Lemma rack_headroom_agree c target now :
  agree (child_topics site_id c) →
  rack_headroom c target site_id cache now = rack_headroom c target site_id cache' now.
Proof.
  intros Ha. unfold rack_headroom, live_limit. rewrite (Ha (limit_topic _ _ _)); [done|].
  destruct (f_ltb target (of_Z 0)); unfold child_topics; rewrite !elem_of_cons; auto.
Qed.

Lemma resolve_child_agree c target now :
  agree (child_topics site_id c) →
  resolve_child c target site_id cache now = resolve_child c target site_id cache' now.
Proof.
  intros Ha. unfold resolve_child. rewrite (rack_headroom_agree c target now Ha). cbv zeta.
  rewrite (Ha (substitute_site_id (ca_operating_state_topic c) site_id)) by by left.
  by rewrite (Ha (substitute_site_id (ca_state_of_charge_topic c) site_id)) by (right; by left).
Qed.

Lemma effective_floor_agree d :
  agree (distribute_topics site_id d) →
  effective_floor_percent d site_id cache = effective_floor_percent d site_id cache'.
Proof.
  intros Ha. unfold effective_floor_percent, operator_reserve_percent.
  destruct (db_site_capacity_wh d) as [cap|]; cbn [mbind option_bind]; [|done].
  destruct (f_ltb (of_Z 0) cap); [|done].
  destruct (db_operator_reserve_topic d) as [t|] eqn:Ht; cbn [mbind option_bind]; [|done].
  rewrite (reading_agree (distribute_topics site_id d)); [done|done|].
  unfold distribute_topics. rewrite Ht. apply elem_of_app. right. by left.
Qed.

Lemma collect_results_ext {E A B} (f g : A → result E B) l :
  (∀ a, a ∈ l → f a = g a) → collect_results f l = collect_results g l.
Proof.
  induction l as [|a l IH]; simpl; intros Hfg; [done|].
  rewrite Hfg by by left. rewrite IH; [done|]. intros b Hb. apply Hfg. by right.
Qed.

Lemma child_topics_in d c t :
  c ∈ db_children d → t ∈ child_topics site_id c → t ∈ distribute_topics site_id d.
Proof.
  intros Hc Ht. unfold distribute_topics. apply elem_of_app. left.
  apply list_elem_of_bind. by exists c.
Qed.

Lemma compute_shares_agree d target locked now :
  agree (distribute_topics site_id d) →
  compute_shares d target site_id cache locked now = compute_shares d target site_id cache' locked now.
Proof.
  intros Ha. unfold compute_shares, child_capacities. rewrite effective_floor_agree by done.
  destruct (parse_policy _); simpl; [|done].
  erewrite collect_results_ext; [done|]. intros c [Hc _]%elem_of_filterb. cbv beta.
  rewrite resolve_child_agree; [done|]. eapply agree_sub; [exact Ha|].
  intros t Ht. by eapply child_topics_in.
Qed.
End Reads.

(** The template of a device's measurement is that measurement's topic. *)
Lemma substitute_device site_id device_id rest :
  str_mem "{" device_id = false → str_mem "{" rest = false →
  substitute_site_id ("sites/{site_id}/devices/" ++ device_id ++ rest)%string site_id =
    ("sites/" ++ site_id ++ "/devices/" ++ device_id ++ rest)%string.
Proof.
  intros Hd Hr. unfold substitute_site_id.
  change ("sites/{site_id}/devices/" ++ ?x)%string with ("sites/" ++ ("{site_id}/devices/" ++ x))%string.
  rewrite str_replace_app by done. f_equal.
  change ("{site_id}/devices/" ++ ?x)%string with ("{site_id}" ++ ("/devices/" ++ x))%string.
  transitivity (site_id ++ str_replace "{site_id}" site_id ("/devices/" ++ device_id ++ rest))%string;
    [reflexivity|]. f_equal. rewrite !str_replace_app by done. do 2 f_equal. by apply str_replace_none.
Qed.

Section Subscribed.
Context (spec : AsyncApiSpec) (site_id device_id name : string)
  (commands : gmap string CommandSource) (c : CommandSource) (d : DistributeBinding).
Hypothesis device_in : x_command_source spec !! device_id = Some commands.
Hypothesis command_in : commands !! name = Some c.
Hypothesis command_is : cmd_binding c = Distribute d.
Hypothesis device_plain : str_mem "{" device_id = false.

Lemma command_listed : (name, c) ∈ map_to_list commands ∧ (device_id, commands) ∈ map_to_list (x_command_source spec).
Proof. split; by apply elem_of_map_to_list. Qed.

Lemma command_in_sources : c ∈ command_sources spec.
Proof.
  destruct command_listed as [Hc Hd]. unfold command_sources. apply list_elem_of_bind.
  exists (device_id, commands). split; [|done]. by apply (list_elem_of_fmap_2 snd _ _ Hc).
Qed.

Lemma distribute_topics_subscribed t :
  t ∈ distribute_topics site_id d → t ∈ input_topics spec site_id.
Proof.
  intros Ht. unfold input_topics. rewrite !elem_of_app. right; left.
  unfold collect_distribute_input_topics, listed. apply elem_of_elements, elem_of_list_to_set.
  apply list_elem_of_bind. exists c. split; [by rewrite command_is|apply command_in_sources].
Qed.

Lemma soc_topic_subscribed :
  measurement_topic site_id device_id "state_of_charge" "percent" ∈ input_topics spec site_id.
Proof.
  unfold input_topics. rewrite !elem_of_app. do 3 right; left.
  unfold collect_der_dispatch_state_of_charge_topics. apply list_elem_of_fmap. exists device_id. split.
  - by rewrite substitute_device.
  - unfold distribute_parent_device_ids. destruct command_listed as [Hc Hd].
    apply (list_elem_of_fmap_2 fst _ (device_id, commands)). apply elem_of_filterb. split; [done|].
    apply existsb_exists. exists c. split; [|by rewrite command_is].
    apply list_elem_of_In. by apply (list_elem_of_fmap_2 snd _ _ Hc).
Qed.

Lemma der_topic_subscribed t : t ∈ der_dispatch_topics site_id → t ∈ input_topics spec site_id.
Proof. intros Ht. unfold input_topics. rewrite !elem_of_app. by do 4 right. Qed.

Lemma guard_topics_subscribed g t :
  envelope_guard_config d = Some (Some g) → t ∈ guard_topics site_id g → t ∈ input_topics spec site_id.
Proof.
  intros Hg Ht. apply distribute_topics_subscribed. unfold distribute_topics. rewrite Hg.
  rewrite !elem_of_app. by do 2 right.
Qed.

Section TwoCaches.
Context (cache cache' : InputCache) (cfg : EnvelopeTaskConfig) (req : Requested) (now : Z).
Hypothesis same : ∀ t, t ∈ input_topics spec site_id → reading cache t = reading cache' t.
Hypothesis same_at : ∀ t, t ∈ input_topics spec site_id → reading_at cache t = reading_at cache' t.
Hypothesis cfg_device : etc_device_id cfg = device_id.

Lemma requested_w_agree r :
  requested_w (etc_binding cfg) (etc_device_id cfg) r site_id cache =
  requested_w (etc_binding cfg) (etc_device_id cfg) r site_id cache'.
Proof.
  unfold requested_w. destruct (etc_binding cfg); try done.
  destruct (db_readiness_soc_percent b); [|done]. destruct (db_recharge_power_w b); [|done].
  rewrite cfg_device, !same; [done|apply soc_topic_subscribed|].
  apply der_topic_subscribed. right; by left.
Qed.

(** The topics of a guard whose site is already substituted. *)
Lemma guarded_agree g s dt :
  (∀ t, t ∈ guard_topics site_id g → t ∈ input_topics spec site_id) →
  reading cache (substitute_site_id (guard_active_power_topic g) site_id) =
    reading cache' (substitute_site_id (guard_active_power_topic g) site_id) ∧
  poi_reading site_id cache g = poi_reading site_id cache' g ∧
  ∀ ap poi, guarded_target cfg site_id cache req now g s dt ap poi =
    guarded_target cfg site_id cache' req now g s dt ap poi.
Proof.
  intros Hin. split_and!.
  - apply same, Hin. unfold guard_topics. do 2 right; by left.
  - unfold poi_reading. destruct (guard_poi_active_power_topic g) as [t|] eqn:Ht; [|done].
    rewrite same_at; [done|]. apply Hin. unfold guard_topics. rewrite Ht. apply elem_of_app.
    right; by left.
  - intros ap poi. unfold guarded_target. cbv zeta. rewrite requested_w_agree.
    rewrite (same (substitute_site_id (guard_import_limit_topic g) site_id))
      by (apply Hin; by left).
    by rewrite (same (substitute_site_id (guard_export_limit_topic g) site_id))
      by (apply Hin; right; by left).
Qed.
End TwoCaches.

(** C27: whatever an envelope task reads from the
    cache in a tick (the POI and module meters, the limits, the racks' states
    and live limits, the reserve, the event and energize channels) is a topic
    the gateway is subscribed to: two caches that agree on the subscribed input
    topics give the same tick. *)
Theorem envelope_reads_only_subscribed cfg cache cache' req locked now s dt :
  envelope_task_config device_id c d site_id = Some cfg →
  (∀ g t, envelope_guard_config d = Some (Some g) → t ∈ guard_topics site_id g → str_mem "{" t = false) →
  agree cache cache' (input_topics spec site_id) →
  tick_plan cfg site_id cache req locked now s dt = tick_plan cfg site_id cache' req locked now s dt.
Proof.
  intros Hcfg Hplain Ha. unfold envelope_task_config in Hcfg.
  destruct (envelope_guard_config d) as [og|] eqn:Hg; simpl in Hcfg; [|done].
  rewrite clone_binding_eq, command_is in Hcfg. injection Hcfg as <-.
  assert (∀ t, t ∈ input_topics spec site_id → reading cache t = reading cache' t) as Hr
    by (intros t; by apply reading_agree).
  assert (∀ t, t ∈ input_topics spec site_id → reading_at cache t = reading_at cache' t) as Hra
    by (intros t; by apply reading_at_agree).
  unfold tick_plan, target_w. cbn [etc_guard etc_binding].
  rewrite (Hr (energize_topic site_id)) by (apply der_topic_subscribed; do 3 right; by left).
  assert (∀ target, compute_shares d target site_id cache locked now =
    compute_shares d target site_id cache' locked now) as Hsh.
  { intros target. apply compute_shares_agree. eapply agree_sub; [exact Ha|].
    apply distribute_topics_subscribed. }
  apply option_bind_ext; [intros [[s0 target]|]; [by rewrite Hsh|done]|].
  destruct og as [g|]; [|done]. cbn [fmap option_fmap option_map].
  destruct (guarded_agree cache cache' (mkTaskConfig device_id (command_key c)
    (Some (task_guard g site_id)) (Distribute d) DEFAULT_POLL_HZ) req now Hr Hra eq_refl
    (task_guard g site_id) s dt) as (-> & -> & Hgt); [|].
  2: { destruct (reading cache' _) as [ap|]; [|done]. destruct (poi_reading _ _ _) as [poi|]; [|done].
    by rewrite Hgt. }
  intros t Ht. eapply guard_topics_subscribed; [done|].
  assert (∀ u, u ∈ guard_topics site_id g → substitute_site_id u site_id = u) as Hid
    by (intros u Hu; apply str_replace_none; by eapply Hplain).
  unfold guard_topics in *. cbn [task_guard guard_import_limit_topic guard_export_limit_topic
    guard_active_power_topic guard_poi_active_power_topic] in Ht.
  rewrite !(Hid (substitute_site_id _ _)) in Ht; [done|..];
    rewrite elem_of_app; left; rewrite !elem_of_cons; auto.
Qed.
End Subscribed.

(** ** A site of one guarded module *)

Definition demo_command : CommandSource :=
  mkCommandSource "set" "active_power" "watts" (Distribute demo_guarded).

Definition demo_spec : AsyncApiSpec :=
  mkSpec "v1" ∅ {["module_1"%string := {["set_power"%string := demo_command]}]} ∅ ∅ ∅.

Lemma every_command_reachable_witness :
  channel_of (device_channels demo_spec) "module_1" "set_active_power" =
    Some (Distribute demo_guarded).
Proof.
  refine (every_command_reachable demo_spec "module_1" {["set_power"%string := demo_command]}
    "set_power" demo_command _ _ _); [by vm_compute|by vm_compute|].
  by intros name' c' [<- _]%lookup_singleton_Some _.
Defined.

Definition demo_task_config : EnvelopeTaskConfig :=
  default demo_task (envelope_task_config "module_1" demo_command demo_guarded "s1").

Lemma envelope_reads_only_subscribed_witness :
  tick_plan demo_task_config "s1" (demo_task_cache true) demo_requested ∅ (seconds 10) demo_state (seconds 1) =
  tick_plan demo_task_config "s1" (<["unrelated"%string := (VInt 7, 0)]> (demo_task_cache true))
    demo_requested ∅ (seconds 10) demo_state (seconds 1).
Proof.
  refine (envelope_reads_only_subscribed demo_spec "s1" "module_1" "set_power"
    {["set_power"%string := demo_command]} demo_command demo_guarded _ _ _ _ demo_task_config
    (demo_task_cache true) (<["unrelated"%string := (VInt 7, 0)]> (demo_task_cache true))
    demo_requested ∅ (seconds 10) demo_state (seconds 1) _ _ _); try by vm_compute.
  - intros g t Hg Ht.
    assert (∀ o, envelope_guard_config demo_guarded = Some (Some o) →
      forallb (λ t, negb (str_mem "{" t)) (guard_topics "s1" o) = true) as Hall.
    { intros o Ho.
      assert ((match envelope_guard_config demo_guarded with
               | Some (Some o) => forallb (λ t, negb (str_mem "{" t)) (guard_topics "s1" o)
               | _ => true end) = true) as Hc by (by vm_compute).
      by rewrite Ho in Hc. }
    specialize (Hall g Hg). rewrite forallb_forall in Hall.
    by apply negb_true_iff, Hall, list_elem_of_In.
  - assert (bool_decide ("unrelated"%string ∈ input_topics demo_spec "s1") = false) as Hn by (by vm_compute).
    intros t Ht. symmetry. apply lookup_insert_ne. intros <-. apply bool_decide_eq_false in Hn. done.
Defined.

(** ** Following the topology *)

Section Follow.
Context {W : Type} `{BrokerSession W} (subscribed : W → gset string).
Hypothesis subscribe_adds : ∀ topics qos w w', subscribe_many topics qos w = (true, w') →
  subscribed w' = subscribed w ∪ list_to_set topics.
Hypothesis unsubscribe_drops : ∀ topics w w', unsubscribe_many topics w = (true, w') →
  subscribed w' = subscribed w ∖ list_to_set topics.

(** After a successful update the broker
    holds exactly the new spec's subscriptions, whatever was added, dropped or
    kept, and that list is what a reconnect re-issues; the beacons and the
    commands filter are always in it. *)
Theorem subscriptions_follow_topology site_id current inputs w current' w' :
  subscribed w = list_to_set current.1 →
  update site_id current inputs w = (true, current', w') →
  current' = subscription_list site_id inputs ∧
  subscribed w' = list_to_set current'.1 ∧
  ∀ t, t ∈ (subscription_list site_id []).1 ∨ t ∈ inputs → t ∈ current'.1.
Proof.
  intros Hsub. unfold update. remember (subscription_list site_id inputs) as new eqn:Hnew.
  destruct (diff current.1 new.1) as [added removed] eqn:Hdiff. unfold diff in Hdiff.
  injection Hdiff as Hadd Hrem.
  destruct (match removed with [] => (true, w) | _ => unsubscribe_many removed w end)
    as [ok w1] eqn:Hun. destruct ok; cbn [negb]; [|done].
  assert (subscribed w1 = subscribed w ∖ list_to_set removed) as H1.
  { destruct removed as [|r removed]; [injection Hun as <-; set_solver|by apply unsubscribe_drops]. }
  destruct (match added with [] => (true, w1) | _ => subscribe_many added ((λ _, 0) <$> added) w1 end)
    as [ok w2] eqn:Hsm. destruct ok; cbn [negb]; [|done]. intros [= <- <-].
  assert (subscribed w2 = subscribed w1 ∪ list_to_set added) as H2.
  { destruct added as [|a added]; [injection Hsm as <-; set_solver|by eapply subscribe_adds]. }
  split; [done|]. split.
  - rewrite H2, H1, Hsub. apply set_eq. intros t.
    rewrite elem_of_union, elem_of_difference, !elem_of_list_to_set, <- Hadd, <- Hrem, !elem_of_filterb.
    rewrite !negb_true_iff, !bool_decide_eq_false.
    destruct (decide (t ∈ current.1)), (decide (t ∈ new.1)); tauto.
  - intros t Ht. subst new. destruct Ht as [Ht|Ht]; unfold subscription_list in *; cbn [fst] in *;
      rewrite elem_of_app; [left|by right]. rewrite app_nil_r in Ht. exact Ht.
Qed.
End Follow.

(** A broker that keeps the subscribed set and refuses to subscribe ["bad"]. *)
#[export] Instance demo_session : BrokerSession (gset string) := {
  subscribe_many topics _ w :=
    if bool_decide ("bad"%string ∈ topics) then (false, w) else (true, w ∪ list_to_set topics);
  unsubscribe_many topics w := (true, w ∖ list_to_set topics);
}.

Definition demo_subscribed (inputs : list string) : gset string :=
  list_to_set (subscription_list "s1" inputs).1.

Lemma subscriptions_follow_topology_witness :
  let '(ok, current', w') := update "s1" (subscription_list "s1" ["a"; "b"]%string)
    ["b"; "c"]%string (demo_subscribed ["a"; "b"]%string) in
  ok = true ∧ current' = subscription_list "s1" ["b"; "c"]%string ∧ w' = list_to_set current'.1 ∧
  ∀ t, t ∈ (subscription_list "s1" []).1 ∨ t ∈ ["b"; "c"]%string → t ∈ current'.1.
Proof.
  destruct (update "s1" _ ["b"; "c"]%string _) as [[ok current'] w'] eqn:Hu.
  assert (ok = true) as -> by (transitivity ((update "s1" (subscription_list "s1" ["a"; "b"]%string)
    ["b"; "c"]%string (demo_subscribed ["a"; "b"]%string)).1.1); [by rewrite Hu|by vm_compute]).
  split; [done|].
  refine (subscriptions_follow_topology (λ w : gset string, w) _ _ "s1" (subscription_list "s1" ["a"; "b"]%string)
    ["b"; "c"]%string (demo_subscribed ["a"; "b"]%string) current' w' _ Hu); [| |done].
  - intros topics qos w w1. simpl. case_bool_decide; congruence.
  - intros topics w w1. simpl. congruence.
Defined.

(** An update that drops a topic and then fails to subscribe another leaves
    the dropped one in the list it diffs against: when the topic comes back, it
    is not subscribed again. *)
Example half_update_deafens :
  let '(ok1, current1, w1) := update "s1" (subscription_list "s1" ["a"%string]) ["bad"%string]
    (demo_subscribed ["a"%string]) in
  let '(ok2, current2, w2) := update "s1" current1 ["a"%string] w1 in
  ok1 = false ∧ ok2 = true ∧ bool_decide ("a"%string ∈ current2.1) = true ∧
  bool_decide ("a"%string ∈ w2) = false.
Proof. vm_compute. by split_and!. Qed.
