(* ===== verification/Decode.v ===== *)
(** * Decode: the spec's document into its types

    What serde's derives make of [src/asyncapi/types/mod.rs], [bindings.rs],
    [virtual_bindings.rs], [heartbeat.rs], [src/asyncapi/trust.rs] and the
    enums of [src/modbus/codec.rs]: which documents are a spec, and which spec.

    A document is a tree of [Value]s that keeps every entry of an object as it
    is written, a repeated key included.  A derived struct is read from an
    object by name, each of its fields at most once, or from an array by
    position; [deny_unknown_fields] refuses any other name; [#[serde(default)]]
    and [Option] say what an absent field is; [flatten] hands the entries a
    struct did not take to the tagged union.  [None] fails the whole spec. *)

From Stdlib Require Import ZArith Lia Floats.
From S2P Require Import Prelude F64 Binary64 Codec Cache Bindings Topology.
Local Open Scope Z_scope.

(** ** Objects *)

(** A map read from an object: the last of the entries of a key. *)
Fixpoint last_wins {A} (l : list (string * A)) : list (string * A) :=
  match l with
  | [] => []
  | (k, v) :: l => if bool_decide (k ∈ l.*1) then last_wins l else (k, v) :: last_wins l
  end.

(** [serde_json::Value]: the tree with the last entry of each key, all the way
    down. *)
Fixpoint to_value (v : Value) : Value :=
  match v with
  | VArray l => VArray (map to_value l)
  | VObject fs => VObject (last_wins (map (λ e, (e.1, to_value e.2)) fs))
  | _ => v
  end.

Definition values_of (name : string) (fs : list (string * Value)) : list (string * Value) :=
  List.filter (λ f, bool_decide (f.1 = name)) fs.

Definition others (names : list string) (fs : list (string * Value)) : list (string * Value) :=
  List.filter (λ f, negb (bool_decide (f.1 ∈ names))) fs.

(** The [match] of a name against the names of a list. *)
Definition named {A} (name : string) (l : list (string * A)) : option A :=
  snd <$> find_first (λ e, bool_decide (e.1 = name)) l.

Definition index_of (name : string) (names : list string) : option nat :=
  fst <$> list_find (eq name) names.

(** The fields of a struct with only the named form. *)
Definition named_fields (names : list string) (fs : list (string * Value)) : option (string → option Value) :=
  if forallb (λ n, bool_decide (length (values_of n fs) ≤ 1)%nat) names
  then Some (field (VObject fs)) else None.

(** The fields of a derived struct; [deny]: [deny_unknown_fields]. *)
Definition struct_fields (deny : bool) (names : list string) (v : Value) : option (string → option Value) :=
  match v with
  | VObject fs =>
      if deny && negb (bool_decide (others names fs = [])) then None else named_fields names fs
  | VArray l =>
      if bool_decide (length l ≤ length names)%nat then Some (λ name, i ← index_of name names; l !! i)
      else None
  | _ => None
  end.

(** ** Fields *)

Section Fields.
Context {T : Type} (d : Value → option T).

Definition required (o : option Value) : option T := v ← o; d v.

Definition or_default (x : T) (o : option Value) : option T :=
  match o with Some v => d v | None => Some x end.

(** [Option<T>]: null is [None]. *)
Definition nullable (v : Value) : option (option T) :=
  match v with VNull => Some None | _ => Some <$> d v end.

Definition vec (v : Value) : option (list T) :=
  match v with VArray l => mapM d l | _ => None end.

(** [HashMap<String, T>]: every entry is read, the last of a key is kept. *)
Definition map_of (v : Value) : option (list (string * T)) :=
  match v with
  | VObject fs => last_wins <$> mapM (λ e : string * Value, t ← d e.2; Some (e.1, t)) fs
  | _ => None
  end.
End Fields.

Definition optional {T} (d : Value → option T) : option Value → option (option T) :=
  or_default (nullable d) None.

Definition hash_map {T} (d : Value → option T) (v : Value) : option (gmap string T) :=
  list_to_map <$> map_of d v.

(** [u8], [u16], [u32]: an integer in range; a number with a point is none. *)
Definition unsigned (w : Z) (v : Value) : option Z :=
  match v with VInt z => if (0 <=? z) && (z <? 2 ^ w) then Some z else None | _ => None end.

(** An enum of units: a name, or a map of one name to a unit. *)
Definition variant_name (v : Value) : option string :=
  match v with
  | VString s | VObject [(s, VNull)] | VObject [(s, VObject [])] => Some s
  | _ => None
  end.

Definition unit_variant {T} (variants : list (string * T)) (v : Value) : option T :=
  s ← variant_name v; named s variants.

Definition ModbusDataType_decode : Value → option ModbusDataType :=
  unit_variant [("int16", Int16); ("uint16", Uint16); ("int32", Int32); ("uint32", Uint32);
                ("float32", Float32); ("int64", Int64)]%string.

Definition WordOrder_decode : Value → option WordOrder :=
  unit_variant [("high_low", HighLow); ("low_high", LowHigh)]%string.

(** ** Bindings *)

Section Bindings.
Local Open Scope string_scope.

(** The fields each binding declares, in order. *)
Definition fields_by_protocol : list (string * list string) :=
  [("modbus_tcp", ["host"; "port"; "unit_id"; "address"; "scale"; "offset"; "data_type"; "word_order";
                   "function_code"; "scale_factor_address"]);
   ("snmp", ["host"; "port"; "oid"; "scale"]);
   ("redfish", ["host"; "port"; "uri"; "json_pointer"; "scale"]);
   ("dnp3_tcp", ["host"; "port"; "point_index"; "point_type"; "variation"; "scale"; "outstation_address"]);
   ("bacnet_ip", ["host"; "port"; "device_instance"; "object_type"; "object_instance"; "property_id"]);
   ("bacnet_sc", ["hub_url"; "device_vmac"; "object_type"; "object_instance"; "property_id"]);
   ("sunspec", ["host"; "port"; "unit_id"; "model_id"; "point"; "bit"]);
   ("synthetic", ["operation"; "inputs"; "pairs"]);
   ("distribute", ["allocation_policy"; "children"; "state_of_charge_floor_percent"; "ramp_rate_per_sec";
                     "hysteresis_margin"; "hysteresis_dwell_secs"; "power_min"; "power_max";
                     "import_limit_topic"; "export_limit_topic"; "active_power_topic";
                     "poi_active_power_topic"; "operator_reserve_topic"; "site_capacity_wh";
                     "readiness_soc_percent"; "recharge_power_w"]);
   ("power_cap", ["children"; "import_limit_topic"; "export_limit_topic"; "poi_active_power_topic";
                    "hysteresis_margin"; "hysteresis_dwell_secs"; "ramp_rate_per_sec"])].

Definition binding_fields (protocol : string) : list string := default [] (named protocol fields_by_protocol).

Definition pair_fields : list string := ["topic"; "weight"].
Definition child_fields : list string :=
  ["device_id"; "operating_state_topic"; "state_of_charge_topic"; "power_min"; "power_max"].
Definition cap_child_fields : list string := ["device_id"; "target"; "min_w"; "max_w"].

Definition ModbusTcpBinding_decode (v : Value) : option ModbusTcpBinding :=
  get ← struct_fields true (binding_fields "modbus_tcp") v;
  host ← required as_str (get "host"); port ← required (unsigned 16) (get "port");
  unit_id ← required as_str (get "unit_id"); address ← required (unsigned 16) (get "address");
  scale ← required as_f64 (get "scale"); offset ← required as_f64 (get "offset");
  data_type ← or_default ModbusDataType_decode default_data_type (get "data_type");
  word_order ← or_default WordOrder_decode default_word_order (get "word_order");
  function_code ← optional (unsigned 8) (get "function_code");
  scale_factor_address ← optional (unsigned 16) (get "scale_factor_address");
  Some (mkModbus host port unit_id address scale offset data_type word_order function_code
          scale_factor_address).

Definition SnmpBinding_decode (v : Value) : option SnmpBinding :=
  get ← struct_fields true (binding_fields "snmp") v;
  host ← required as_str (get "host"); port ← required (unsigned 16) (get "port");
  oid ← required as_str (get "oid"); scale ← or_default as_f64 unit_scale (get "scale");
  Some (mkSnmp host port oid scale).

Definition RedfishBinding_decode (v : Value) : option RedfishBinding :=
  get ← struct_fields true (binding_fields "redfish") v;
  host ← required as_str (get "host"); port ← required (unsigned 16) (get "port");
  uri ← required as_str (get "uri"); json_pointer ← optional as_str (get "json_pointer");
  scale ← or_default as_f64 unit_scale (get "scale");
  Some (mkRedfish host port uri json_pointer scale).

Definition Dnp3TcpBinding_decode (v : Value) : option Dnp3TcpBinding :=
  get ← struct_fields true (binding_fields "dnp3_tcp") v;
  host ← required as_str (get "host"); port ← required (unsigned 16) (get "port");
  point_index ← required (unsigned 16) (get "point_index");
  point_type ← required as_str (get "point_type"); variation ← optional (unsigned 8) (get "variation");
  scale ← or_default as_f64 unit_scale (get "scale");
  outstation_address ← or_default (unsigned 16) default_outstation_address (get "outstation_address");
  Some (mkDnp3 host port point_index point_type variation scale outstation_address).

Definition BacnetIpBinding_decode (v : Value) : option BacnetIpBinding :=
  get ← struct_fields true (binding_fields "bacnet_ip") v;
  host ← required as_str (get "host"); port ← required (unsigned 16) (get "port");
  device_instance ← required (unsigned 32) (get "device_instance");
  object_type ← required as_str (get "object_type");
  object_instance ← required (unsigned 32) (get "object_instance");
  property_id ← required as_str (get "property_id");
  Some (mkBacnetIp host port device_instance object_type object_instance property_id).

Definition BacnetScBinding_decode (v : Value) : option BacnetScBinding :=
  get ← struct_fields true (binding_fields "bacnet_sc") v;
  hub_url ← required as_str (get "hub_url"); device_vmac ← required as_str (get "device_vmac");
  object_type ← required as_str (get "object_type");
  object_instance ← required (unsigned 32) (get "object_instance");
  property_id ← required as_str (get "property_id");
  Some (mkBacnetSc hub_url device_vmac object_type object_instance property_id).

Definition SunspecBinding_decode (v : Value) : option SunspecBinding :=
  get ← struct_fields true (binding_fields "sunspec") v;
  host ← required as_str (get "host"); port ← required (unsigned 16) (get "port");
  unit_id ← required as_str (get "unit_id"); model_id ← required (unsigned 16) (get "model_id");
  point ← required as_str (get "point"); bit ← optional (unsigned 8) (get "bit");
  Some (mkSunspec host port unit_id model_id point bit).

Definition WeightedPair_decode (v : Value) : option WeightedPair :=
  get ← struct_fields true pair_fields v;
  topic ← required as_str (get "topic"); weight ← required as_f64 (get "weight");
  Some (mkPair topic weight).

Definition SyntheticBinding_decode (v : Value) : option SyntheticBinding :=
  get ← struct_fields true (binding_fields "synthetic") v;
  operation ← required as_str (get "operation"); inputs ← or_default (vec as_str) [] (get "inputs");
  pairs ← or_default (vec WeightedPair_decode) [] (get "pairs");
  Some (mkSynthetic operation inputs pairs).

Definition ChildAllocation_decode (v : Value) : option ChildAllocation :=
  get ← struct_fields true child_fields v;
  device_id ← required as_str (get "device_id");
  operating_state_topic ← required as_str (get "operating_state_topic");
  state_of_charge_topic ← required as_str (get "state_of_charge_topic");
  power_min ← required as_f64 (get "power_min"); power_max ← required as_f64 (get "power_max");
  Some (mkChildAllocation device_id operating_state_topic state_of_charge_topic power_min power_max).

Definition DistributeBinding_decode (v : Value) : option DistributeBinding :=
  get ← struct_fields true (binding_fields "distribute") v;
  let number name := optional as_f64 (get name) in
  let text name := optional as_str (get name) in
  allocation_policy ← required as_str (get "allocation_policy");
  children ← required (vec ChildAllocation_decode) (get "children");
  state_of_charge_floor_percent ← number "state_of_charge_floor_percent";
  ramp_rate_per_sec ← number "ramp_rate_per_sec"; hysteresis_margin ← number "hysteresis_margin";
  hysteresis_dwell_secs ← number "hysteresis_dwell_secs";
  power_min ← number "power_min"; power_max ← number "power_max";
  import_limit_topic ← text "import_limit_topic"; export_limit_topic ← text "export_limit_topic";
  active_power_topic ← text "active_power_topic"; poi_active_power_topic ← text "poi_active_power_topic";
  operator_reserve_topic ← text "operator_reserve_topic"; site_capacity_wh ← number "site_capacity_wh";
  readiness_soc_percent ← number "readiness_soc_percent"; recharge_power_w ← number "recharge_power_w";
  Some (mkDistribute allocation_policy children state_of_charge_floor_percent ramp_rate_per_sec
          hysteresis_margin hysteresis_dwell_secs power_min power_max import_limit_topic
          export_limit_topic active_power_topic poi_active_power_topic operator_reserve_topic
          site_capacity_wh readiness_soc_percent recharge_power_w).

Definition CapChild_decode (v : Value) : option CapChild :=
  get ← struct_fields true cap_child_fields v;
  device_id ← required as_str (get "device_id"); target ← required as_str (get "target");
  min_w ← required as_f64 (get "min_w"); max_w ← required as_f64 (get "max_w");
  Some (mkCapChild device_id target min_w max_w).

Definition PowerCapBinding_decode (v : Value) : option PowerCapBinding :=
  get ← struct_fields true (binding_fields "power_cap") v;
  let number name := optional as_f64 (get name) in
  let text name := optional as_str (get name) in
  children ← required (vec CapChild_decode) (get "children");
  import_limit_topic ← text "import_limit_topic"; export_limit_topic ← text "export_limit_topic";
  poi_active_power_topic ← text "poi_active_power_topic"; hysteresis_margin ← number "hysteresis_margin";
  hysteresis_dwell_secs ← number "hysteresis_dwell_secs"; ramp_rate_per_sec ← number "ramp_rate_per_sec";
  Some (mkPowerCap children import_limit_topic export_limit_topic poi_active_power_topic
          hysteresis_margin hysteresis_dwell_secs ramp_rate_per_sec).

(** ** The tagged union *)

Definition protocols : list string :=
  ["modbus_tcp"; "snmp"; "redfish"; "dnp3_tcp"; "bacnet_ip"; "bacnet_sc"; "sunspec"; "synthetic";
   "distribute"; "power_cap"].

(** A variant by its name, or, its entries being buffered, by its number. *)
Definition buffered_tag (variants : list string) (v : Value) : option string :=
  match v with
  | VString s => Some s
  | VInt z => if (0 <=? z)%Z then variants !! Z.to_nat z else None
  | _ => None
  end.

(** The entries of an internally tagged enum: its tag, once, and the rest. *)
Definition tagged (tag : string) (fs : list (string * Value)) : option (Value * list (string * Value)) :=
  match values_of tag fs with
  | [(_, v)] => Some (v, others [tag] fs)
  | _ => None
  end.

Definition binding_of (protocol : string) (v : Value) : option ProtocolBinding :=
  decode ← named protocol
    [("modbus_tcp", λ v, ModbusTcp <$> ModbusTcpBinding_decode v);
     ("snmp", λ v, Snmp <$> SnmpBinding_decode v);
     ("redfish", λ v, Redfish <$> RedfishBinding_decode v);
     ("dnp3_tcp", λ v, Dnp3Tcp <$> Dnp3TcpBinding_decode v);
     ("bacnet_ip", λ v, BacnetIp <$> BacnetIpBinding_decode v);
     ("bacnet_sc", λ v, BacnetSc <$> BacnetScBinding_decode v);
     ("sunspec", λ v, Sunspec <$> SunspecBinding_decode v);
     ("synthetic", λ v, Synthetic <$> SyntheticBinding_decode v);
     ("distribute", λ v, Distribute <$> DistributeBinding_decode v);
     ("power_cap", λ v, PowerCap <$> PowerCapBinding_decode v)];
  decode v.

Definition ProtocolBinding_decode (fs : list (string * Value)) : option ProtocolBinding :=
  '(tag, rest) ← tagged "protocol" fs;
  protocol ← buffered_tag protocols tag;
  binding_of protocol (VObject rest).

(** ** Entries *)

(** A struct with a flattened field: its own fields, and what they leave. *)
Definition flattened (own : list string) (v : Value)
    : option ((string → option Value) * list (string * Value)) :=
  match v with
  | VObject fs => get ← named_fields own fs; Some (get, others own fs)
  | _ => None
  end.

Definition measurement_fields : list string := ["unit"; "poll_rate_hz"; "payload"; "value_map"].
Definition command_fields : list string := ["verb"; "target"; "unit"].
Definition heartbeat_fields : list string := ["counter_modulo"; "period_s"].

Definition ProtocolSource_decode (v : Value) : option ProtocolSource :=
  '(get, rest) ← flattened measurement_fields v;
  unit ← required as_str (get "unit"); poll_rate_hz ← optional as_f64 (get "poll_rate_hz");
  payload ← optional Some (get "payload"); value_map ← optional (hash_map as_str) (get "value_map");
  binding ← ProtocolBinding_decode rest;
  Some (mkProtocolSource unit poll_rate_hz payload value_map binding).

Definition CommandSource_decode (v : Value) : option CommandSource :=
  '(get, rest) ← flattened command_fields v;
  verb ← required as_str (get "verb"); target ← required as_str (get "target");
  unit ← required as_str (get "unit"); binding ← ProtocolBinding_decode rest;
  Some (mkCommandSource verb target unit binding).

Definition HeartbeatSource_decode (v : Value) : option HeartbeatSource :=
  '(get, rest) ← flattened heartbeat_fields v;
  counter_modulo ← required (unsigned 16) (get "counter_modulo");
  period_s ← required as_f64 (get "period_s"); binding ← ProtocolBinding_decode rest;
  Some (mkHeartbeatSource counter_modulo period_s binding).

(** ** Trust *)

Definition Snmpv3AuthProtocol_decode : Value → option Snmpv3AuthProtocol :=
  unit_variant [("sha256", Sha256); ("sha384", Sha384); ("sha512", Sha512)].

Definition Snmpv3PrivProtocol_decode : Value → option Snmpv3PrivProtocol :=
  unit_variant [("aes128", Aes128); ("aes192", Aes192); ("aes256", Aes256)].

Definition TlsMutual_decode (v : Value) : option DeviceTrust :=
  get ← struct_fields false ["subject_name"] v;
  subject_name ← required as_str (get "subject_name"); Some (TlsMutual subject_name).

Definition Snmpv3Usm_decode (v : Value) : option DeviceTrust :=
  get ← struct_fields false ["security_name"; "auth_protocol"; "priv_protocol"] v;
  security_name ← required as_str (get "security_name");
  auth_protocol ← required Snmpv3AuthProtocol_decode (get "auth_protocol");
  priv_protocol ← required Snmpv3PrivProtocol_decode (get "priv_protocol");
  Some (Snmpv3Usm security_name auth_protocol priv_protocol).

(** Read from the text itself: its tag is a name, first if it is an array. *)
Definition DeviceTrust_decode (v : Value) : option DeviceTrust :=
  '(tag, content) ← match v with
                    | VObject fs => '(tag, rest) ← tagged "trust_mode" fs; Some (tag, VObject rest)
                    | VArray (tag :: rest) => Some (tag, VArray rest)
                    | _ => None
                    end;
  trust_mode ← as_str tag;
  decode ← named trust_mode [("tls_mutual", TlsMutual_decode); ("snmpv3_usm", Snmpv3Usm_decode)];
  decode content.

(** ** The spec *)

Definition SpecInfo_decode (v : Value) : option string :=
  get ← struct_fields false ["version"] v; required as_str (get "version").

Definition Components_decode (v : Value) : option (gmap string Value) :=
  get ← struct_fields false ["schemas"] v;
  or_default (hash_map (λ v, Some (to_value v))) ∅ (get "schemas").

(** [SourceMap::<Value>::deserialize]: a device's entries are [Value]s. *)
Definition source_map : Value → option (list (string * list (string * Value))) :=
  map_of (map_of (λ v, Some (to_value v))).

Definition measurements (v : Value) : option (gmap string (gmap string ProtocolSource)) :=
  raw ← source_map v; parse_sources ProtocolSource_decode measurement_check raw.

Definition commands (v : Value) : option (gmap string (gmap string CommandSource)) :=
  raw ← source_map v; parse_sources CommandSource_decode command_check raw.

Definition heartbeats_decode (v : Value) : option (gmap string HeartbeatSource) :=
  heartbeats <$> hash_map HeartbeatSource_decode v.

Definition spec_fields : list string :=
  ["info"; "x-protocol-source"; "x-command-source"; "x-heartbeat-source"; "x-device-trust"; "components"].

Definition AsyncApiSpec_decode (doc : Value) : option AsyncApiSpec :=
  get ← struct_fields false spec_fields doc;
  info ← required SpecInfo_decode (get "info");
  x_protocol_source ← required measurements (get "x-protocol-source");
  x_command_source ← or_default commands ∅ (get "x-command-source");
  x_heartbeat_source ← or_default heartbeats_decode ∅ (get "x-heartbeat-source");
  x_device_trust ← or_default (hash_map DeviceTrust_decode) ∅ (get "x-device-trust");
  components ← or_default Components_decode ∅ (get "components");
  Some (mkSpec info x_protocol_source x_command_source x_heartbeat_source x_device_trust components).
End Bindings.

(** ** Reading fields *)

Lemma named_Some {A} name (l : list (string * A)) a : named name l = Some a → (name, a) ∈ l.
Proof.
  unfold named. intros ([n b] & [Hin Hn]%find_first_Some & ->)%fmap_Some. by apply bool_decide_eq_true in Hn as <-.
Qed.

(** A name found in a list is one of its names, in turn. *)
Ltac name_cases H :=
  apply named_Some in H;
  repeat (apply elem_of_cons in H as [[= -> ->]|H]); try (by apply not_elem_of_nil in H).

Lemma last_wins_keys {A} (l : list (string * A)) k : k ∈ (last_wins l).*1 ↔ k ∈ l.*1.
Proof.
  induction l as [|[k' v] l IH]; [done|]. cbn [last_wins fmap list_fmap fst].
  case_bool_decide as Hin; cbn [fmap list_fmap fst]; rewrite !elem_of_cons, IH; [|done].
  split; [by right|]. by intros [->|?].
Qed.

Lemma last_wins_sub {A} (l : list (string * A)) e : e ∈ last_wins l → e ∈ l.
Proof.
  induction l as [|[k' v] l IH]; [done|]. cbn [last_wins]. case_bool_decide.
  - intros He. right. by apply IH.
  - rewrite !elem_of_cons. intros [->|He]; [by left|right; by apply IH].
Qed.

Lemma last_wins_NoDup {A} (l : list (string * A)) : NoDup (last_wins l).*1.
Proof.
  induction l as [|[k' v] l IH]; [constructor|]. cbn [last_wins]. case_bool_decide as Hin; [done|].
  cbn [fmap list_fmap fst]. constructor; [|done]. by rewrite last_wins_keys.
Qed.

Lemma mapM_elem {A B} (f : A → option B) l k b :
  mapM f l = Some k → b ∈ k → ∃ a, a ∈ l ∧ f a = Some b.
Proof.
  intros H%mapM_Some. induction H as [|a b' l k Hab H IH]; [by intros ?%not_elem_of_nil|].
  intros [->|Hb]%elem_of_cons; [exists a; split; [by left|done]|].
  destruct (IH Hb) as (a' & Ha & Hf). exists a'. split; [by right|done].
Qed.

Lemma mapM_defined {A B} (f : A → option B) l k a :
  mapM f l = Some k → a ∈ l → ∃ b, b ∈ k ∧ f a = Some b.
Proof.
  intros H%mapM_Some. induction H as [|a' b l k Hab H IH]; [by intros ?%not_elem_of_nil|].
  intros [->|Ha]%elem_of_cons; [exists b; split; [by left|done]|].
  destruct (IH Ha) as (b' & Hb & Hf). exists b'. split; [by right|done].
Qed.

Lemma map_of_NoDup {T} (d : Value → option T) v l : map_of d v = Some l → NoDup l.*1.
Proof.
  destruct v; try done. cbn [map_of]. intros (r & _ & ->)%fmap_Some. apply last_wins_NoDup.
Qed.

Lemma map_of_elem {T} (d : Value → option T) v l k t :
  map_of d v = Some l → (k, t) ∈ l → ∃ fs x, v = VObject fs ∧ (k, x) ∈ fs ∧ d x = Some t.
Proof.
  destruct v as [| | | | | |fs]; try done. cbn [map_of]. intros (r & Hr & ->)%fmap_Some Hin%last_wins_sub.
  destruct (mapM_elem _ _ _ _ Hr Hin) as ([k' x] & Hx & Hd).
  simpl in Hd. apply bind_Some in Hd as (t' & Ht & [= -> ->]). by exists fs, x.
Qed.

Lemma hash_map_lookup {T} (d : Value → option T) v m k t :
  hash_map d v = Some m → m !! k = Some t → ∃ fs x, v = VObject fs ∧ (k, x) ∈ fs ∧ d x = Some t.
Proof.
  intros (l & Hl & ->)%fmap_Some Ht. apply elem_of_list_to_map in Ht; [by eapply map_of_elem|by eapply map_of_NoDup].
Qed.

Lemma others_nil names fs : others names fs = [] ↔ ∀ k, k ∈ fs.*1 → k ∈ names.
Proof.
  unfold others. induction fs as [|[k v] fs IH]; [split; [by intros _ k ?%not_elem_of_nil|done]|].
  cbn [List.filter fst fmap list_fmap]. case_bool_decide as Hk; cbn [negb].
  - rewrite IH. split; intros H k'; [rewrite elem_of_cons; intros [->|?]; auto|intros; apply H; by right].
  - split; [done|]. intros H. destruct Hk. apply H. by left.
Qed.

Lemma named_fields_get names fs get : named_fields names fs = Some get → get = field (VObject fs).
Proof. unfold named_fields. destruct (forallb _ _); [|done]. by intros [= <-]. Qed.

(** Under [deny_unknown_fields] an object has no other field. *)
Lemma struct_fields_known names fs get :
  struct_fields true names (VObject fs) = Some get → others names fs = [] ∧ get = field (VObject fs).
Proof.
  cbn [struct_fields andb]. case_bool_decide as Ho; [|done]. cbn [negb]. by intros ?%named_fields_get.
Qed.

(** ** Widths *)

Definition fits_width (w z : Z) : Prop := 0 <= z < 2 ^ w.

Lemma unsigned_fits w v z : unsigned w v = Some z → fits_width w z.
Proof.
  destruct v as [| |z'| | | |]; try done. cbn [unsigned]. destruct (_ && _) eqn:Hb; [|done].
  intros [= <-]. unfold fits_width. apply andb_true_iff in Hb as [?%Z.leb_le ?%Z.ltb_lt]. lia.
Qed.

Lemma required_fits w o z : required (unsigned w) o = Some z → fits_width w z.
Proof. intros (v & -> & Hz)%bind_Some. by eapply unsigned_fits. Qed.

Lemma default_fits w x o z : or_default (unsigned w) x o = Some z → fits_width w x → fits_width w z.
Proof. destruct o as [v|]; simpl; [intros ?%unsigned_fits; done|by intros [= <-]]. Qed.

Lemma optional_fits w o r : optional (unsigned w) o = Some r → from_option (fits_width w) True r.
Proof.
  unfold optional, or_default. destruct o as [v|]; [|by intros [= <-]].
  intros H. assert (r = None ∨ ∃ z, unsigned w v = Some z ∧ r = Some z) as [->|(z & Hz & ->)]; [|done|by eapply unsigned_fits].
  destruct v; cbn [nullable] in H; [left; by injection H|right; by apply fmap_Some in H..].
Qed.

#[local] Hint Resolve required_fits default_fits optional_fits : decode.
#[local] Hint Extern 1 (fits_width _ default_outstation_address) => vm_compute; intuition congruence : decode.

(** Every integer of a binding has the width its type declares. *)
Definition binding_typed (b : ProtocolBinding) : Prop :=
  match b with
  | ModbusTcp m => fits_width 16 (mb_port m) ∧ fits_width 16 (mb_address m) ∧
      from_option (fits_width 8) True (mb_function_code m) ∧
      from_option (fits_width 16) True (mb_scale_factor_address m)
  | Snmp s => fits_width 16 (snmp_port s)
  | Redfish r => fits_width 16 (rf_port r)
  | Dnp3Tcp d => fits_width 16 (dnp3_port d) ∧ fits_width 16 (dnp3_point_index d) ∧
      from_option (fits_width 8) True (dnp3_variation d) ∧ fits_width 16 (dnp3_outstation_address d)
  | BacnetIp b => fits_width 16 (bip_port b) ∧ fits_width 32 (bip_device_instance b) ∧
      fits_width 32 (bip_object_instance b)
  | BacnetSc b => fits_width 32 (bsc_object_instance b)
  | Sunspec s => fits_width 16 (ss_port s) ∧ fits_width 16 (ss_model_id s) ∧
      from_option (fits_width 8) True (ss_bit s)
  | Synthetic _ | Distribute _ | PowerCap _ => True
  end.

(** Take a decoder apart: every field it read, and the record it built. *)
Ltac invert_decode H :=
  repeat match type of H with
  | mbind _ _ = Some _ => apply bind_Some in H as (? & ? & H)
  | (let '(_, _) := ?x in _) = Some _ => destruct x
  end.

Lemma binding_of_typed p v b : binding_of p v = Some b → binding_typed b.
Proof.
  unfold binding_of. intros (decode & Hp & H)%bind_Some. name_cases Hp; apply fmap_Some in H as (r & H & ->);
    unfold ModbusTcpBinding_decode, SnmpBinding_decode, RedfishBinding_decode, Dnp3TcpBinding_decode,
      BacnetIpBinding_decode, BacnetScBinding_decode, SunspecBinding_decode in H;
    try done; cbv zeta in H; invert_decode H; injection H as <-; cbn; eauto 10 with decode.
Qed.

Lemma ProtocolBinding_decode_typed fs b : ProtocolBinding_decode fs = Some b → binding_typed b.
Proof.
  unfold ProtocolBinding_decode. intros ([tag rest] & _ & (p & _ & H)%bind_Some)%bind_Some.
  by eapply binding_of_typed.
Qed.

(** ** Known fields *)

(** The structs inside a binding's arrays, by the field that holds them. *)
Definition nested_fields (protocol name : string) : option (list string) :=
  fields ← named protocol [("synthetic", [("pairs", pair_fields)]);
                           ("distribute", [("children", child_fields)]);
                           ("power_cap", [("children", cap_child_fields)])]%string;
  named name fields.

(** An object with no field outside [names]. *)
Definition keys_in (names : list string) (v : Value) : Prop :=
  match v with VObject fs => ∀ k, k ∈ fs.*1 → k ∈ names | _ => True end.

(** An entry with the fields [own], its protocol's, and in the arrays inside it
    only the fields of their structs. *)
Definition known_entry (own : list string) (entry : Value) : Prop :=
  ∃ fs tag protocol, entry = VObject fs ∧ ("protocol"%string, tag) ∈ fs ∧
    buffered_tag protocols tag = Some protocol ∧
    keys_in (own ++ "protocol"%string :: binding_fields protocol) entry ∧
    ∀ name names v elements, nested_fields protocol name = Some names → (name, v) ∈ fs →
      v = VArray elements → ∀ e, e ∈ elements → keys_in names e.

Lemma struct_keys_in names v get : struct_fields true names v = Some get → keys_in names v.
Proof.
  destruct v as [| | | | | |fs]; try done. intros [Ho _]%struct_fields_known. exact (proj1 (others_nil _ _) Ho).
Qed.

Lemma elements_keys_in {T} (d : Value → option T) names (o : option Value) r elements :
  (∀ v t, d v = Some t → keys_in names v) → required (vec d) o = Some r ∨ or_default (vec d) [] o = Some r →
  o = Some (VArray elements) → ∀ e, e ∈ elements → keys_in names e.
Proof.
  intros Hd Hr -> e He. assert (mapM d elements = Some r) as Hm by (by destruct Hr).
  destruct (mapM_defined _ _ _ _ Hm He) as (t & _ & Ht). by eapply Hd.
Qed.

Lemma pair_keys v t : WeightedPair_decode v = Some t → keys_in pair_fields v.
Proof. unfold WeightedPair_decode. intros (get & H & _)%bind_Some. by eapply struct_keys_in. Qed.

Lemma child_keys v t : ChildAllocation_decode v = Some t → keys_in child_fields v.
Proof. unfold ChildAllocation_decode. intros (get & H & _)%bind_Some. by eapply struct_keys_in. Qed.

Lemma cap_child_keys v t : CapChild_decode v = Some t → keys_in cap_child_fields v.
Proof. unfold CapChild_decode. intros (get & H & _)%bind_Some. by eapply struct_keys_in. Qed.

(** A decoded binding has its protocol's fields only, each at most once. *)
Lemma binding_of_fields p fs b :
  binding_of p (VObject fs) = Some b → others (binding_fields p) fs = [] ∧
    ∃ get, struct_fields true (binding_fields p) (VObject fs) = Some get.
Proof.
  unfold binding_of. intros (decode & Hp & H)%bind_Some. name_cases Hp; apply fmap_Some in H as (r & H & _);
    unfold ModbusTcpBinding_decode, SnmpBinding_decode, RedfishBinding_decode, Dnp3TcpBinding_decode,
      BacnetIpBinding_decode, BacnetScBinding_decode, SunspecBinding_decode, SyntheticBinding_decode,
      DistributeBinding_decode, PowerCapBinding_decode in H;
    apply bind_Some in H as (get & H & _); (split; [by eapply struct_fields_known|by exists get]).
Qed.

Lemma field_in name v fs :
  NoDup fs.*1 → (name, v) ∈ fs → field (VObject fs) name = Some v.
Proof.
  intros Hnd Hin. cbn [field]. destruct (find_first _ fs) as [[k w]|] eqn:Hf.
  - apply find_first_Some in Hf as [Hk Hp]. bool_simpl. simpl in Hp. subst k.
    simpl. f_equal. by eapply NoDup_fst_inj.
  - pose proof (proj1 (find_first_None _ _) Hf _ Hin) as Hp.
    apply bool_decide_eq_false in Hp. by destruct Hp.
Qed.

Lemma values_of_NoDup fs : (∀ k, k ∈ fs.*1 → length (values_of k fs) ≤ 1)%nat → NoDup fs.*1.
Proof.
  induction fs as [|[k v] fs IH]; intros H; [constructor|]. cbn [fmap list_fmap fst] in *. constructor.
  - intros ([k' w] & Hk & Hw)%list_elem_of_fmap. simpl in Hk. subst k'.
    assert ((k, w) ∈ values_of k fs) as Hin by (apply elem_of_filterb; split; [done|by apply bool_decide_eq_true]).
    pose proof (H k ltac:(by left)) as Hl. unfold values_of in Hl, Hin. cbn [List.filter fst] in Hl.
    rewrite bool_decide_true in Hl by done. cbn [length] in Hl.
    destruct (List.filter _ fs); [by apply not_elem_of_nil in Hin|]. cbn [length] in Hl. lia.
  - apply IH. intros k' Hk'. pose proof (H k' ltac:(by right)) as Hl. unfold values_of in *.
    cbn [List.filter fst] in Hl. destruct (bool_decide (k = k')); cbn [length] in Hl; lia.
Qed.

(** An object a [deny_unknown_fields] struct is read from names each field once. *)
Lemma struct_fields_NoDup names fs get : struct_fields true names (VObject fs) = Some get → NoDup fs.*1.
Proof.
  intros H. destruct (struct_fields_known _ _ _ H) as [Ho _]. apply values_of_NoDup. intros k Hk.
  cbn [struct_fields andb] in H. rewrite bool_decide_true in H by done. cbn [negb] in H. unfold named_fields in H.
  destruct (forallb _ names) eqn:Hall; [|done]. rewrite forallb_forall in Hall.
  pose proof (Hall k (proj1 (list_elem_of_In _ _) (proj1 (others_nil _ _) Ho k Hk))). by bool_simpl.
Qed.

Lemma binding_of_nested p fs b name names v elements :
  binding_of p (VObject fs) = Some b → nested_fields p name = Some names → (name, v) ∈ fs →
  v = VArray elements → ∀ e, e ∈ elements → keys_in names e.
Proof.
  intros H Hn Hin ->. destruct (binding_of_fields _ _ _ H) as (_ & get0 & Hnd%struct_fields_NoDup).
  pose proof (field_in _ _ _ Hnd Hin) as Hf. apply bind_Some in Hn as (fields & Hp & Hn).
  name_cases Hp; name_cases Hn; apply bind_Some in H as (decode & [= <-] & Hb);
    apply fmap_Some in Hb as (r & Hb & _);
    unfold SyntheticBinding_decode, DistributeBinding_decode, PowerCapBinding_decode in Hb;
    apply bind_Some in Hb as (get & [_ ->]%struct_fields_known & Hb); cbv zeta in Hb; rewrite Hf in Hb;
    invert_decode Hb;
    eauto using elements_keys_in, pair_keys, child_keys, cap_child_keys.
Qed.

Lemma tagged_Some tag fs v rest :
  tagged tag fs = Some (v, rest) → (tag, v) ∈ fs ∧ rest = others [tag] fs.
Proof.
  unfold tagged. destruct (values_of tag fs) as [|[k w] [|]] eqn:Hv; [done| |done]. intros [= -> <-].
  assert ((k, v) ∈ values_of tag fs) as [Hin Hk]%elem_of_filterb by (rewrite Hv; by left).
  bool_simpl. simpl in Hk. by subst k.
Qed.

Lemma elem_of_others names fs k v : (k, v) ∈ others names fs ↔ (k, v) ∈ fs ∧ k ∉ names.
Proof.
  unfold others. rewrite elem_of_filterb, negb_true_iff. simpl. by rewrite bool_decide_eq_false.
Qed.

Lemma nested_not_own own p name names :
  own ∈ [measurement_fields; command_fields; heartbeat_fields] → nested_fields p name = Some names →
  name ∉ own ∧ name ≠ "protocol"%string.
Proof.
  intros Hown (fields & Hp & Hn)%bind_Some. name_cases Hp; name_cases Hn;
    repeat (apply elem_of_cons in Hown as [->|Hown]); try (by apply not_elem_of_nil in Hown);
    (split; [by apply (bool_decide_unpack _)|done]).
Qed.

(** What is left to the union by a struct that decodes is all known. *)
Lemma flattened_known own v get rest b :
  own ∈ [measurement_fields; command_fields; heartbeat_fields] →
  flattened own v = Some (get, rest) → ProtocolBinding_decode rest = Some b → known_entry own v.
Proof.
  intros Hown Hf Hb. destruct v as [| | | | | |fs]; try done. cbn [flattened] in Hf.
  apply bind_Some in Hf as (get' & _ & [= -> <-]). unfold ProtocolBinding_decode in Hb.
  apply bind_Some in Hb as ([tag rest] & [Htag ->]%tagged_Some & (p & Hp & Hb)%bind_Some).
  apply elem_of_others in Htag as [Htag _]. exists fs, tag, p. split_and!; [done..| |].
  - destruct (binding_of_fields _ _ _ Hb) as [Ho _]. intros k Hk. rewrite elem_of_app, elem_of_cons.
    destruct (decide (k ∈ own)); [by left|]. destruct (decide (k = "protocol"%string)); [by right; left|].
    right; right. apply (proj1 (others_nil _ _) Ho). apply list_elem_of_fmap in Hk as ([k' v] & -> & Hk).
    apply (list_elem_of_fmap_2 fst _ (k', v)). rewrite !elem_of_others. split; [done|].
    by rewrite list_elem_of_singleton.
  - intros name names v elements Hn Hin -> e He.
    eapply (binding_of_nested _ _ _ _ _ _ _ Hb Hn); [|done|exact He].
    destruct (nested_not_own _ _ _ _ Hown Hn). by rewrite !elem_of_others, list_elem_of_singleton.
Qed.

Lemma ProtocolSource_known v s :
  ProtocolSource_decode v = Some s → known_entry measurement_fields v ∧ binding_typed (src_binding s).
Proof.
  unfold ProtocolSource_decode. intros ([get rest] & Hf & H)%bind_Some. invert_decode H. injection H as <-.
  split; [eapply flattened_known; [by left|done..]|by eapply ProtocolBinding_decode_typed].
Qed.

Lemma CommandSource_known v s :
  CommandSource_decode v = Some s → known_entry command_fields v ∧ binding_typed (cmd_binding s).
Proof.
  unfold CommandSource_decode. intros ([get rest] & Hf & H)%bind_Some. invert_decode H. injection H as <-.
  split; [eapply flattened_known; [by right; left|done..]|by eapply ProtocolBinding_decode_typed].
Qed.

Lemma HeartbeatSource_known v s :
  HeartbeatSource_decode v = Some s → known_entry heartbeat_fields v ∧ binding_typed (hb_binding s) ∧
    fits_width 16 (hb_counter_modulo s).
Proof.
  unfold HeartbeatSource_decode. intros ([get rest] & Hf & H)%bind_Some.
  apply bind_Some in H as (modulo & Hm%required_fits & H). invert_decode H. injection H as <-.
  split; [eapply flattened_known; [by right; right; left|done..]|].
  split; [by eapply ProtocolBinding_decode_typed|done].
Qed.

(** ** The devices of a source map *)

Section Devices.
Context {T : Type} (from_value : Value → option T) (check : T → result unusable unit).

(** A device the gateway runs: provisioned, each of its entries decoded and
    usable. *)
Definition runs (channels : list (string * Value)) (m : gmap string T) : Prop :=
  existsb (λ e, is_unprovisioned e.2) channels = false ∧ dom m = list_to_set channels.*1 ∧
  ∀ name entry, (name, entry) ∈ channels →
    ∃ s, m !! name = Some s ∧ from_value entry = Some s ∧ check s = Ok ().

Lemma runs_unique channels m m' : runs channels m → runs channels m' → m = m'.
Proof.
  intros (_ & Hd & Hm) (_ & Hd' & Hm'). apply map_eq. intros name.
  destruct (decide (name ∈ channels.*1)) as [Hin|Hout].
  - apply list_elem_of_fmap in Hin as ([n entry] & -> & Hin). simpl.
    destruct (Hm _ _ Hin) as (s & -> & Hs & _), (Hm' _ _ Hin) as (s' & -> & Hs' & _). congruence.
  - assert (name ∉ dom m ∧ name ∉ dom m') as [H1%not_elem_of_dom H2%not_elem_of_dom]
      by (rewrite Hd, Hd', elem_of_list_to_set; done). congruence.
Qed.

Lemma parse_device_runs channels m :
  NoDup channels.*1 → parse_device from_value check channels = Some (Some m) → runs channels m.
Proof.
  intros Hnd. unfold parse_device. destruct (existsb _ channels) eqn:Hu; [done|].
  intros (parsed & Hp & H)%bind_Some. destruct (forallb _ parsed) eqn:Hall; [|done]. injection H as <-.
  assert (parsed.*1 = channels.*1) as Hk.
  { apply mapM_Some in Hp. clear -Hp. induction Hp as [|[k v] [k' t] l l' H _ IH]; [done|].
    simpl in H. apply bind_Some in H as (t' & _ & [= <- <-]). cbn [fmap list_fmap fst]. by f_equal. }
  split_and!; [done| |].
  - by rewrite dom_list_to_map_L, Hk.
  - intros name entry Hin. destruct (mapM_defined _ _ _ _ Hp Hin) as ([k t] & Ht & Hd). simpl in Hd.
    apply bind_Some in Hd as (s & Hs & [= <- <-]). exists s.
    rewrite forallb_forall in Hall. pose proof (Hall _ (proj1 (list_elem_of_In _ _) Ht)) as Hc. simpl in Hc.
    split_and!; [apply elem_of_list_to_map; [by rewrite Hk|done]|done|by destruct (check s) as [[]|]].
Qed.

Lemma runs_parse_device channels m :
  NoDup channels.*1 → runs channels m → parse_device from_value check channels = Some (Some m).
Proof.
  intros Hnd Hr. assert (∃ m', parse_device from_value check channels = Some (Some m')) as [m' Hm'].
  { destruct Hr as (Hu & _ & Hm). unfold parse_device. rewrite Hu.
    destruct (mapM _ channels) as [parsed|] eqn:Hp; cbn [mbind option_bind].
    - assert (forallb (λ e : string * T, is_ok (check e.2)) parsed = true) as ->; [|by eexists].
      apply forallb_forall. intros [k s] Hs%list_elem_of_In.
      destruct (mapM_elem _ _ _ _ Hp Hs) as ([k' entry] & Hin & Hd). simpl in Hd.
      apply bind_Some in Hd as (s' & Hs' & [= -> ->]). destruct (Hm _ _ Hin) as (s'' & _ & Hs'' & Hc). simpl.
      assert (s'' = s) as <- by congruence. by rewrite Hc.
    - apply mapM_None, Exists_exists in Hp as ([k entry] & Hin & Hd). destruct (Hm _ _ Hin) as (s & _ & Hs & _).
      simpl in Hd. by rewrite Hs in Hd. }
  rewrite Hm'. do 2 f_equal. eapply runs_unique; [by eapply parse_device_runs|done].
Qed.

Lemma parse_sources_lookup raw out :
  NoDup raw.*1 → parse_sources from_value check raw = Some out → ∀ d m,
  out !! d = Some m ↔ ∃ channels, (d, channels) ∈ raw ∧ parse_device from_value check channels = Some (Some m).
Proof.
  revert out. induction raw as [|[d' channels] raw IH]; intros out Hnd H d m; cbn [parse_sources] in H.
  - injection H as <-. split; [by rewrite lookup_empty|]. by intros (c & ?%not_elem_of_nil & _).
  - apply NoDup_cons in Hnd as [Hnot Hnd].
    apply bind_Some in H as (device & Hd & (rest & Hrest & [= <-])%bind_Some).
    pose proof (IH _ Hnd Hrest) as Hin. destruct (decide (d = d')) as [->|Hne].
    + assert (∀ c, (d', c) ∈ raw → False) as Hno
        by (intros c Hc; apply Hnot; by apply (list_elem_of_fmap_2 fst _ (d', c))).
      assert (rest !! d' = None) as Hr
        by (destruct (rest !! d') eqn:Hr; [|done]; apply Hin in Hr as (c & Hc & _); by destruct (Hno c)).
      split.
      * intros Hl. exists channels. split; [by left|].
        destruct device as [dm|]; [rewrite lookup_insert_eq in Hl|]; congruence.
      * intros (c & [[= ->]|Hc]%elem_of_cons & Hp); [|by destruct (Hno c)].
        rewrite Hd in Hp. injection Hp as ->. apply lookup_insert_eq.
    + assert (match device with Some dm => <[d':=dm]> rest | None => rest end !! d = rest !! d) as ->
        by (destruct device; [by apply lookup_insert_ne|done]).
      rewrite Hin. split; intros (c & Hc & Hp); exists c; (split; [|done]); [by right|].
      by apply elem_of_cons in Hc as [[= -> _]|Hc].
Qed.

Lemma parse_sources_decoded raw out d channels name entry :
  parse_sources from_value check raw = Some out → (d, channels) ∈ raw →
  existsb (λ e, is_unprovisioned e.2) channels = false → (name, entry) ∈ channels →
  ∃ s, from_value entry = Some s.
Proof.
  revert out. induction raw as [|[d' channels'] raw IH]; intros out H Hin Hu He; [by apply not_elem_of_nil in Hin|].
  cbn [parse_sources] in H. apply bind_Some in H as (device & Hd & (rest & Hrest & _)%bind_Some).
  apply elem_of_cons in Hin as [[= -> ->]|Hin]; [|by eapply IH].
  unfold parse_device in Hd. rewrite Hu in Hd. apply bind_Some in Hd as (parsed & Hp & _).
  destruct (mapM_defined _ _ _ _ Hp He) as ([k s] & _ & Hs). simpl in Hs.
  apply bind_Some in Hs as (s' & Hs' & _). by exists s'.
Qed.

(** A device is in the typed map exactly when it runs. *)
Lemma parse_sources_runs raw out :
  NoDup raw.*1 → (∀ d channels, (d, channels) ∈ raw → NoDup channels.*1) →
  parse_sources from_value check raw = Some out → ∀ d m,
  out !! d = Some m ↔ ∃ channels, (d, channels) ∈ raw ∧ runs channels m.
Proof.
  intros Hnd Hch H d m. rewrite (parse_sources_lookup _ _ Hnd H).
  split; intros (channels & Hin & Hr); exists channels; (split; [done|]); pose proof (Hch _ _ Hin);
    [by apply parse_device_runs|by apply runs_parse_device].
Qed.

(** Every entry of a provisioned device has the shape of one. *)
Definition well_shaped (raw : list (string * list (string * Value))) : Prop :=
  ∀ d channels, (d, channels) ∈ raw → existsb (λ e, is_unprovisioned e.2) channels = false →
    ∀ name entry, (name, entry) ∈ channels → is_Some (from_value entry).

Lemma parse_device_defined channels :
  is_Some (parse_device from_value check channels) ↔
  (existsb (λ e, is_unprovisioned e.2) channels = false →
   ∀ name entry, (name, entry) ∈ channels → is_Some (from_value entry)).
Proof.
  unfold parse_device. destruct (existsb _ channels); [by split|]. split.
  - intros [r (parsed & Hp & _)%bind_Some] _ name entry Hin.
    destruct (mapM_defined _ _ _ _ Hp Hin) as ([k s] & _ & Hs). simpl in Hs.
    apply bind_Some in Hs as (s' & -> & _). by eexists.
  - intros Hall. specialize (Hall eq_refl).
    destruct (mapM _ channels) as [parsed|] eqn:Hp; cbn [mbind option_bind]; [by destruct (forallb _ parsed); eexists|].
    exfalso. apply mapM_None, Exists_exists in Hp as ([k entry] & Hin & Hd). simpl in Hd.
    destruct (Hall k entry Hin) as [s Hs]. by rewrite Hs in Hd.
Qed.

(** Only an entry of the wrong shape fails the block. *)
Lemma parse_sources_defined raw : is_Some (parse_sources from_value check raw) ↔ well_shaped raw.
Proof.
  induction raw as [|[d channels] raw IH]; cbn [parse_sources].
  { split; [by intros _ d channels ?%not_elem_of_nil|by eexists]. }
  assert (well_shaped ((d, channels) :: raw) ↔ is_Some (parse_device from_value check channels) ∧ well_shaped raw) as ->.
  { rewrite parse_device_defined. unfold well_shaped. setoid_rewrite elem_of_cons. naive_solver. }
  rewrite <- IH. destruct (parse_device _ _ channels) as [device|]; cbn [mbind option_bind].
  2: { split; [by intros []|by intros [[] _]]. }
  destruct (parse_sources _ _ raw) as [rest|]; cbn [mbind option_bind]; (split; [by intros []|by intros [_ []]]).
Qed.
End Devices.

(** ** The spec's blocks *)

Definition block (doc : Value) (name : string) : option Value :=
  get ← struct_fields false spec_fields doc; get name.

(** The devices of a source map of the document with their entries. *)
Definition device_entries (doc : Value) (name : string) : list (string * list (string * Value)) :=
  default [] (v ← block doc name; source_map v).

Lemma source_map_NoDup v raw :
  source_map v = Some raw → NoDup raw.*1 ∧ ∀ d channels, (d, channels) ∈ raw → NoDup channels.*1.
Proof.
  unfold source_map. intros H. split; [by eapply map_of_NoDup|]. intros d channels Hin.
  destruct (map_of_elem _ _ _ _ _ H Hin) as (fs & x & _ & _ & Hx). by eapply map_of_NoDup.
Qed.

(** What a decoded spec's blocks are. *)
Lemma AsyncApiSpec_blocks doc spec :
  AsyncApiSpec_decode doc = Some spec →
  parse_sources ProtocolSource_decode measurement_check (device_entries doc "x-protocol-source") =
    Some (x_protocol_source spec) ∧
  parse_sources CommandSource_decode command_check (device_entries doc "x-command-source") =
    Some (x_command_source spec) ∧
  (if block doc "x-heartbeat-source" is Some v
   then heartbeats_decode v = Some (x_heartbeat_source spec) else x_heartbeat_source spec = ∅).
Proof.
  unfold AsyncApiSpec_decode, device_entries, block. intros (get & -> & H)%bind_Some. cbn [mbind option_bind].
  apply bind_Some in H as (info & _ & (m & Hm & (c & Hc & (h & Hh & H)%bind_Some)%bind_Some)%bind_Some).
  invert_decode H. injection H as <-. cbn [x_protocol_source x_command_source x_heartbeat_source].
  apply bind_Some in Hm as (v & -> & (raw & Hr & Hm)%bind_Some). cbn [mbind option_bind]. rewrite Hr.
  split; [done|]. split.
  - destruct (get "x-command-source"%string) as [w|]; cbn [or_default mbind option_bind] in *.
    + by apply bind_Some in Hc as (raw' & -> & Hc).
    + by injection Hc as <-.
  - destruct (get "x-heartbeat-source"%string); cbn [or_default] in Hh; [done|by injection Hh as <-].
Qed.

(** A spec but for its devices' entries: the document's blocks have their kind,
    and its version, heartbeats, trust and components decode. *)
Definition well_framed (doc : Value) : Prop :=
  ∃ get, struct_fields false spec_fields doc = Some get ∧
    is_Some (required SpecInfo_decode (get "info"%string)) ∧
    is_Some (required source_map (get "x-protocol-source"%string)) ∧
    is_Some (or_default source_map [] (get "x-command-source"%string)) ∧
    is_Some (or_default heartbeats_decode ∅ (get "x-heartbeat-source"%string)) ∧
    is_Some (or_default (hash_map DeviceTrust_decode) ∅ (get "x-device-trust"%string)) ∧
    is_Some (or_default Components_decode ∅ (get "components"%string)).

Lemma AsyncApiSpec_defined doc :
  is_Some (AsyncApiSpec_decode doc) ↔ well_framed doc ∧
    well_shaped ProtocolSource_decode (device_entries doc "x-protocol-source") ∧
    well_shaped CommandSource_decode (device_entries doc "x-command-source").
Proof.
  unfold AsyncApiSpec_decode, well_framed, device_entries, block.
  destruct (struct_fields false spec_fields doc) as [get|]; cbn [mbind option_bind].
  2: { split; [by intros []|by intros [(get & [=] & _) _]]. }
  rewrite <- (parse_sources_defined ProtocolSource_decode measurement_check),
    <- (parse_sources_defined CommandSource_decode command_check).
  unfold measurements, commands. split.
  - intros [spec (info & Hi & (m & Hm & (c & Hc & (h & Hh & (t & Ht & (k & Hk & _)%bind_Some)%bind_Some)%bind_Some)%bind_Some)%bind_Some)%bind_Some].
    apply bind_Some in Hm as (v & Hv & (raw & Hr & Hm)%bind_Some). rewrite Hv. cbn [mbind option_bind]. rewrite Hr.
    destruct (get "x-command-source"%string) as [u|] eqn:Hu; cbn [or_default mbind option_bind] in *.
    + apply bind_Some in Hc as (raw' & Hr' & Hc). rewrite Hr'. split; [|by split].
      exists get. rewrite Hi, Hv, Hu, Hh, Ht, Hk. cbn [or_default required mbind option_bind]. rewrite Hr, Hr'.
      split_and!; try done; by eexists.
    + split; [|by split; [|eexists]].
      exists get. rewrite Hi, Hv, Hu, Hh, Ht, Hk. cbn [or_default required mbind option_bind]. rewrite Hr.
      split_and!; try done; by eexists.
  - intros ((get' & [= <-] & [info Hi] & [raw Hr] & [raw' Hr'] & [h Hh] & [t Ht] & [k Hk]) & [m Hm] & [c Hc]).
    rewrite Hi, Hh, Ht, Hk. apply bind_Some in Hr as (v & Hv & Hr). rewrite Hv in *. cbn [mbind option_bind required] in *.
    rewrite Hr in *. cbn [default mbind option_bind] in *. change (id raw) with raw in *. rewrite Hm. cbn [mbind option_bind].
    destruct (get "x-command-source"%string) as [u|]; cbn [or_default mbind option_bind] in *; [|by eexists].
    rewrite Hr' in *. cbn [default mbind option_bind] in *. change (id raw') with raw' in *. rewrite Hc. by eexists.
Qed.

Lemma device_entries_NoDup doc name :
  NoDup (device_entries doc name).*1 ∧ ∀ d channels, (d, channels) ∈ device_entries doc name → NoDup channels.*1.
Proof.
  unfold device_entries. destruct (block doc name ≫= source_map) as [raw|] eqn:H; simpl.
  - apply bind_Some in H as (v & _ & H). by eapply source_map_NoDup.
  - split; [constructor|by intros ? ? ?%not_elem_of_nil].
Qed.

(** C36: which devices of a spec run. A spec decodes exactly if
    everything but its devices' entries does (its version, heartbeats, trust and
    components, and its blocks being maps) and every entry of every provisioned
    device has the shape of a measurement or a command: a device that carries the
    commissioning sentinel, or whose well-shaped entries name something the gateway
    cannot read or write, never fails the spec. And in a spec that decodes a device
    is polled exactly when none of its entries carries the sentinel and each is a
    measurement the gateway can read, and then with exactly its entries; its
    commands likewise: no such device changes what another gets, and none of a
    device's entries runs without the rest. A malformed entry does fail the whole
    spec, and so does a heartbeat that is not commissioned. *)
Theorem devices_judged_alone doc :
  (is_Some (AsyncApiSpec_decode doc) ↔
     well_framed doc ∧ well_shaped ProtocolSource_decode (device_entries doc "x-protocol-source") ∧
     well_shaped CommandSource_decode (device_entries doc "x-command-source")) ∧
  ∀ spec, AsyncApiSpec_decode doc = Some spec → ∀ d,
  (∀ m, x_protocol_source spec !! d = Some m ↔
     ∃ channels, (d, channels) ∈ device_entries doc "x-protocol-source" ∧
       runs ProtocolSource_decode measurement_check channels m) ∧
  (∀ m, x_command_source spec !! d = Some m ↔
     ∃ channels, (d, channels) ∈ device_entries doc "x-command-source" ∧
       runs CommandSource_decode command_check channels m).
Proof.
  split; [apply AsyncApiSpec_defined|]. intros spec (Hm & Hc & _)%AsyncApiSpec_blocks d.
  split; intros m; apply parse_sources_runs; try done; apply device_entries_NoDup.
Qed.

(** C39: a spec is accepted only if every entry of every provisioned device,
    measurements and commands, and every heartbeat has no field but those of
    its kind, of the protocol its tag names and, in the arrays inside it, of
    their structs: a misspelt or unimplemented field fails the whole spec
    instead of running on a default. *)
Theorem unknown_field_fails_spec doc spec :
  AsyncApiSpec_decode doc = Some spec →
  (∀ block own d channels name entry,
     (block, own) ∈ [("x-protocol-source", measurement_fields); ("x-command-source", command_fields)]%string →
     (d, channels) ∈ device_entries doc block → existsb (λ e, is_unprovisioned e.2) channels = false →
     (name, entry) ∈ channels → known_entry own entry) ∧
  (∀ fs d entry, block doc "x-heartbeat-source" = Some (VObject fs) → (d, entry) ∈ fs →
     known_entry heartbeat_fields entry).
Proof.
  intros (Hm & Hc & Hh)%AsyncApiSpec_blocks. split.
  - intros b own d channels name entry Hb Hin Hu He.
    repeat (apply elem_of_cons in Hb as [[= -> ->]|Hb]); [..|by apply not_elem_of_nil in Hb].
    + destruct (parse_sources_decoded _ _ _ _ _ _ _ _ Hm Hin Hu He) as (s & Hs). by eapply ProtocolSource_known.
    + destruct (parse_sources_decoded _ _ _ _ _ _ _ _ Hc Hin Hu He) as (s & Hs). by eapply CommandSource_known.
  - intros fs d entry Hb He. rewrite Hb in Hh. unfold heartbeats_decode, hash_map, map_of in Hh.
    apply fmap_Some in Hh as (all & (l & (r & Hr & _)%fmap_Some & _)%fmap_Some & _).
    destruct (mapM_defined _ _ _ _ Hr He) as ([k s] & _ & Hs). simpl in Hs.
    apply bind_Some in Hs as (s' & Hs & _). by eapply HeartbeatSource_known.
Qed.

(** Every entry of a spec holds integers of their width and can run. *)
Definition spec_typed (spec : AsyncApiSpec) : Prop :=
  (∀ d m name s, x_protocol_source spec !! d = Some m → m !! name = Some s →
     binding_typed (src_binding s) ∧ measurement_check s = Ok ()) ∧
  (∀ d m name s, x_command_source spec !! d = Some m → m !! name = Some s →
     binding_typed (cmd_binding s) ∧ command_check s = Ok ()) ∧
  (∀ d h, x_heartbeat_source spec !! d = Some h →
     binding_typed (hb_binding h) ∧ 2 <= hb_counter_modulo h < 65536 ∧ runnable h = Ok ()).

Lemma runs_checked {T} (from_value : Value → option T) check channels m name s :
  runs from_value check channels m → m !! name = Some s →
  ∃ entry, from_value entry = Some s ∧ check s = Ok ().
Proof.
  intros (_ & Hd & Hm) Hs. assert (name ∈ dom m) as Hin by (by apply elem_of_dom).
  rewrite Hd in Hin. apply elem_of_list_to_set, list_elem_of_fmap in Hin as ([n entry] & -> & Hin).
  destruct (Hm _ _ Hin) as (s' & Hs' & He & Hc). simpl in Hs. rewrite Hs in Hs'. injection Hs' as <-.
  by exists entry.
Qed.

Theorem decoded_spec_typed doc spec : AsyncApiSpec_decode doc = Some spec → spec_typed spec.
Proof.
  intros H. pose proof (AsyncApiSpec_blocks _ _ H) as (Hm & Hc & Hh). split_and!.
  - intros d m name s Hd Hs.
    apply (parse_sources_runs _ _ _ _ (proj1 (device_entries_NoDup _ _)) (proj2 (device_entries_NoDup _ _)) Hm) in Hd
      as (channels & _ & Hr).
    destruct (runs_checked _ _ _ _ _ _ Hr Hs) as (entry & He & Hck). split; [by eapply ProtocolSource_known|done].
  - intros d m name s Hd Hs.
    apply (parse_sources_runs _ _ _ _ (proj1 (device_entries_NoDup _ _)) (proj2 (device_entries_NoDup _ _)) Hc) in Hd
      as (channels & _ & Hr).
    destruct (runs_checked _ _ _ _ _ _ Hr Hs) as (entry & He & Hck). split; [by eapply CommandSource_known|done].
  - intros d h Hd. destruct (block doc "x-heartbeat-source") as [v|]; [|by rewrite Hh in Hd].
    unfold heartbeats_decode in Hh. apply fmap_Some in Hh as (all & Hall & Hh). rewrite Hh in Hd.
    unfold heartbeats in Hd. apply map_lookup_filter_Some in Hd as [Hd Hr]. simpl in Hr.
    destruct (hash_map_lookup _ _ _ _ _ Hall Hd) as (fs & x & _ & _ & Hx).
    destruct (HeartbeatSource_known _ _ Hx) as (_ & Hb & Hw). split; [done|].
    assert (runnable h = Ok ()) as Hrun by (by destruct (runnable h) as [[]|]). split; [|done].
    unfold runnable in Hrun. destruct (Z.ltb_spec (hb_counter_modulo h) 2); [done|].
    unfold fits_width in Hw. lia.
Qed.

(** ** Absent fields *)

(** What an absent field of a protocol's binding is read as, written out. *)
Definition default_field (protocol name : string) : option Value :=
  fields ← named protocol
    [("modbus_tcp", [("data_type", VString "int32"); ("word_order", VString "high_low");
                     ("function_code", VNull); ("scale_factor_address", VNull)]);
     ("snmp", [("scale", VFloat (of_Z 1))]);
     ("redfish", [("json_pointer", VNull); ("scale", VFloat (of_Z 1))]);
     ("dnp3_tcp", [("variation", VNull); ("scale", VFloat (of_Z 1)); ("outstation_address", VInt 1024)]);
     ("sunspec", [("bit", VNull)]);
     ("synthetic", [("inputs", VArray []); ("pairs", VArray [])]);
     ("distribute", (λ n, (n, VNull)) <$>
        ["state_of_charge_floor_percent"; "ramp_rate_per_sec"; "hysteresis_margin"; "hysteresis_dwell_secs";
         "power_min"; "power_max"; "import_limit_topic"; "export_limit_topic"; "active_power_topic";
         "poi_active_power_topic"; "operator_reserve_topic"; "site_capacity_wh"; "readiness_soc_percent";
         "recharge_power_w"]);
     ("power_cap", (λ n, (n, VNull)) <$>
        ["import_limit_topic"; "export_limit_topic"; "poi_active_power_topic"; "hysteresis_margin";
         "hysteresis_dwell_secs"; "ramp_rate_per_sec"])]%string;
  named name fields.

Lemma default_field_declared p name x : default_field p name = Some x → name ∈ binding_fields p.
Proof. intros (fields & Hp & Hn)%bind_Some. name_cases Hp; name_cases Hn; by apply (bool_decide_unpack _). Qed.

Lemma protocol_not_field p : "protocol"%string ∉ binding_fields p.
Proof.
  unfold binding_fields. destruct (named p _) as [names|] eqn:Hp; simpl; [|by apply not_elem_of_nil].
  name_cases Hp; by apply (bool_decide_unpack _).
Qed.

Lemma values_of_absent name fs : name ∉ fs.*1 → values_of name fs = [].
Proof.
  intros Hn. apply filterb_none. intros [k v] Hin. apply bool_decide_eq_false. simpl. intros ->.
  apply Hn. by apply (list_elem_of_fmap_2 fst _ (name, v)).
Qed.

Lemma values_of_cons_ne name k v fs : k ≠ name → values_of name ((k, v) :: fs) = values_of name fs.
Proof. intros Hne. unfold values_of. cbn [List.filter fst]. by rewrite bool_decide_false. Qed.

Lemma values_of_cons_eq name v fs : values_of name ((name, v) :: fs) = (name, v) :: values_of name fs.
Proof. unfold values_of. cbn [List.filter fst]. by rewrite bool_decide_true. Qed.

Lemma field_absent name fs : name ∉ fs.*1 → field (VObject fs) name = None.
Proof.
  intros Hn. cbn [field]. destruct (find_first _ fs) as [[k v]|] eqn:Hf; [|done].
  apply find_first_Some in Hf as [Hin Hk]. bool_simpl. simpl in Hk. subst k.
  destruct Hn. by apply (list_elem_of_fmap_2 fst _ (name, v)).
Qed.

(** An absent field written out is one more entry to read. *)
Lemma struct_fields_add names name x fs :
  name ∈ names → name ∉ fs.*1 →
  struct_fields true names (VObject ((name, x) :: fs)) =
    (λ _, field (VObject ((name, x) :: fs))) <$> struct_fields true names (VObject fs).
Proof.
  intros Hin Hn. cbn [struct_fields andb]. assert (others names ((name, x) :: fs) = others names fs) as ->
    by (unfold others; cbn [List.filter fst]; by rewrite bool_decide_true).
  destruct (negb _); [done|]. unfold named_fields.
  assert (forallb (λ n, bool_decide (length (values_of n ((name, x) :: fs)) ≤ 1)%nat) names =
          forallb (λ n, bool_decide (length (values_of n fs) ≤ 1)%nat) names) as ->; [|by destruct (forallb _ _)].
  clear Hin. induction names as [|n names IH]; [done|]. cbn [forallb]. rewrite IH. f_equal.
  destruct (decide (name = n)) as [->|Hne]; [|by rewrite values_of_cons_ne].
  rewrite values_of_cons_eq, values_of_absent by done. by rewrite !bool_decide_true by (simpl; lia).
Qed.

Lemma binding_of_add p name x fs :
  default_field p name = Some x → name ∉ fs.*1 →
  binding_of p (VObject ((name, x) :: fs)) = binding_of p (VObject fs).
Proof.
  intros Hd Hn. pose proof (struct_fields_add _ _ x _ (default_field_declared _ _ _ Hd) Hn) as Hs.
  pose proof (field_absent _ _ Hn) as Hnone.
  assert (field (VObject ((name, x) :: fs)) name = Some x) as Hname
    by (cbn [field find_first fst]; by rewrite bool_decide_true).
  assert (∀ n, n ≠ name → field (VObject ((name, x) :: fs)) n = field (VObject fs) n) as Hother
    by (intros n Hne; cbn [field find_first fst]; by rewrite bool_decide_false).
  apply bind_Some in Hd as (fields & Hp & Hd).
  name_cases Hp; name_cases Hd; unfold binding_of; destruct (named _ _) as [decode|] eqn:Hdec; try done;
    revert Hdec; intros [= <-]; cbn [mbind option_bind]; f_equal;
    unfold ModbusTcpBinding_decode, SnmpBinding_decode, RedfishBinding_decode, Dnp3TcpBinding_decode,
      BacnetIpBinding_decode, BacnetScBinding_decode, SunspecBinding_decode, SyntheticBinding_decode,
      DistributeBinding_decode, PowerCapBinding_decode; cbv zeta; rewrite Hs;
    (destruct (struct_fields true _ (VObject fs)) as [get|] eqn:Hg; [|done]);
    apply struct_fields_known in Hg as [_ ->]; cbn [fmap option_fmap option_map mbind option_bind];
    rewrite Hname, Hnone; rewrite !Hother by done; reflexivity.
Qed.

(** A binding whose spec predates a field is the binding with the field at its
    default. *)
Theorem omitted_field_is_default p name x fs :
  values_of "protocol" fs = [("protocol"%string, VString p)] → default_field p name = Some x → name ∉ fs.*1 →
  ProtocolBinding_decode ((name, x) :: fs) = ProtocolBinding_decode fs.
Proof.
  intros Htag Hd Hn. unfold ProtocolBinding_decode, tagged.
  assert (name ≠ "protocol"%string) as Hne
    by (intros ->; by eapply protocol_not_field, default_field_declared).
  rewrite values_of_cons_ne, Htag by done. cbn [mbind option_bind buffered_tag].
  assert (others ["protocol"%string] ((name, x) :: fs) = (name, x) :: others ["protocol"%string] fs) as ->
    by (unfold others; cbn [List.filter fst]; by rewrite bool_decide_false by (by rewrite list_elem_of_singleton)).
  apply binding_of_add; [done|]. intros ([k v] & -> & [Hin _]%elem_of_others)%list_elem_of_fmap.
  apply Hn. by apply (list_elem_of_fmap_2 fst _ (k, v)).
Qed.

(** ** A heartbeat before commissioning *)

Lemma modbus_port_number fs s b :
  binding_of "modbus_tcp" (VObject fs) = Some b → ("port"%string, VString s) ∈ fs → False.
Proof.
  intros H Hin. destruct (binding_of_fields _ _ _ H) as (_ & get0 & Hnd%struct_fields_NoDup).
  pose proof (field_in _ _ _ Hnd Hin) as Hf. apply bind_Some in H as (decode & [= <-] & Hb).
  apply fmap_Some in Hb as (r & Hb & _). unfold ModbusTcpBinding_decode in Hb.
  apply bind_Some in Hb as (get & [_ ->]%struct_fields_known & Hb).
  apply bind_Some in Hb as (host & _ & (port & Hp & _)%bind_Some). by rewrite Hf in Hp.
Qed.

(** The sentinel is looked for in measurements and commands only: a heartbeat
    whose port is still a text fails the whole spec, every other device with
    it. *)
Theorem unprovisioned_heartbeat_fails_spec doc fs d es s :
  block doc "x-heartbeat-source" = Some (VObject fs) → (d, VObject es) ∈ fs →
  values_of "protocol" es = [("protocol"%string, VString "modbus_tcp")] → ("port"%string, VString s) ∈ es →
  AsyncApiSpec_decode doc = None.
Proof.
  intros Hb Hd Htag Hport. destruct (AsyncApiSpec_decode doc) as [spec|] eqn:H; [|done]. exfalso.
  apply AsyncApiSpec_blocks in H as (_ & _ & Hh). rewrite Hb in Hh. unfold heartbeats_decode, hash_map, map_of in Hh.
  apply fmap_Some in Hh as (all & (l & (r & Hr & _)%fmap_Some & _)%fmap_Some & _).
  destruct (mapM_defined _ _ _ _ Hr Hd) as (h & _ & (hb & Hs & _)%bind_Some).
  unfold HeartbeatSource_decode in Hs. apply bind_Some in Hs as ([get rest] & Hf & Hs).
  cbn [snd flattened] in Hf. apply bind_Some in Hf as (get' & _ & [= _ <-]).
  apply bind_Some in Hs as (modulo & _ & (period & _ & (b & Hbind & _)%bind_Some)%bind_Some).
  unfold ProtocolBinding_decode in Hbind. apply bind_Some in Hbind as ([tag rest] & [Ht ->]%tagged_Some & Hbind).
  apply elem_of_others in Ht as [Ht _].
  assert (("protocol"%string, tag) ∈ values_of "protocol" es) as Hv
    by (apply elem_of_filterb; split; [done|by apply bool_decide_eq_true]).
  rewrite Htag in Hv. apply list_elem_of_singleton in Hv as [= ->]. apply bind_Some in Hbind as (p & [= <-] & Hbind).
  eapply modbus_port_number; [exact Hbind|]. rewrite !elem_of_others.
  split; [split; [exact Hport|]|]; by apply (bool_decide_unpack _).
Qed.

(** ** A spec of four devices *)

Section Demo.
Local Open Scope string_scope.

Definition demo_point (host : string) (function_code : Z) (more : list (string * Value)) : Value :=
  VObject (more ++
    [("unit", VString "watts"); ("poll_rate_hz", VFloat (of_Z 1)); ("protocol", VString "modbus_tcp");
     ("host", VString host); ("port", VInt 502); ("unit_id", VString "1"); ("function_code", VInt function_code);
     ("address", VInt 40); ("data_type", VString "uint16"); ("word_order", VString "high_low");
     ("scale", VFloat (of_Z 1)); ("offset", VFloat (of_Z 0))]).

Definition demo_child (more : list (string * Value)) : Value :=
  VObject (more ++
    [("device_id", VString "rack_1"); ("operating_state_topic", VString "t/state");
     ("state_of_charge_topic", VString "t/soc"); ("power_min", VFloat (of_Z (-1))); ("power_max", VInt 1)]).

Definition demo_module (child : list (string * Value)) : Value :=
  VObject [("verb", VString "set"); ("target", VString "active_power"); ("unit", VString "watts");
           ("protocol", VString "distribute"); ("allocation_policy", VString "equal_split");
           ("children", VArray [demo_child child])].

(** A meter; one whose address is not known yet; one whose template reads with
    a write function; a module. *)
Definition demo_doc (point child : list (string * Value)) : Value :=
  VObject [("info", VObject [("version", VString "v1")]);
           ("x-protocol-source",
             VObject [("meter_1", VObject [("active_power", demo_point "10.0.0.5" 3 point)]);
                      ("meter_2", VObject [("active_power", demo_point SENTINEL 3 [])]);
                      ("meter_3", VObject [("active_power", demo_point "10.0.0.7" 6 [])])]);
           ("x-command-source", VObject [("module_1", VObject [("cmd", demo_module child)])])].

Definition demo_decoded : AsyncApiSpec :=
  default (mkSpec "" ∅ ∅ ∅ ∅ ∅) (AsyncApiSpec_decode (demo_doc [] [])).

Lemma demo_doc_decodes : AsyncApiSpec_decode (demo_doc [] []) = Some demo_decoded.
Proof. by vm_compute. Qed.

(** As in [unknown_fields_test.rs]. *)
Example misspelt_field_fails : AsyncApiSpec_decode (demo_doc [("adress", VInt 41)] []) = None.
Proof. by vm_compute. Qed.
Example unknown_channel_field_fails : AsyncApiSpec_decode (demo_doc [("endianness", VString "little")] []) = None.
Proof. by vm_compute. Qed.
Example unknown_nested_field_fails : AsyncApiSpec_decode (demo_doc [] [("capacity", VInt 4000)]) = None.
Proof. by vm_compute. Qed.
Example address_out_of_range_fails :
  AsyncApiSpec_decode (demo_doc [("scale_factor_address", VInt 65536)] []) = None.
Proof. by vm_compute. Qed.
(** The site of [demo_doc] with one heartbeat more, its device not yet
    commissioned: as a command it is skipped, as a heartbeat it fails the spec. *)
Example unprovisioned_heartbeat_takes_the_site :
  match demo_doc [] [] with
  | VObject fs =>
      let beat port := VObject [("counter_modulo", VInt 256); ("period_s", VInt 1); ("protocol", VString "modbus_tcp");
        ("host", VString SENTINEL); ("port", port); ("unit_id", VString "1"); ("address", VInt 896);
        ("scale", VInt 1); ("offset", VInt 0); ("function_code", VInt 6); ("data_type", VString "uint16")] in
      let doc port := VObject (("x-heartbeat-source", VObject [("bms_1", beat port)]) :: fs) in
      AsyncApiSpec_decode (doc (VString SENTINEL)) = None ∧
      dom (default ∅ (x_heartbeat_source <$> AsyncApiSpec_decode (doc (VInt 502)))) = {["bms_1"]}
  | _ => False
  end.
Proof. split; by vm_compute. Qed.
Example trust_by_name : DeviceTrust_decode (VObject [("trust_mode", VString "snmpv3_usm");
    ("security_name", VString "gateway"); ("auth_protocol", VString "sha256"); ("priv_protocol", VString "aes128")])
  = Some (Snmpv3Usm "gateway" Sha256 Aes128).
Proof. reflexivity. Qed.

Lemma devices_judged_alone_witness :
  x_protocol_source demo_decoded !! "meter_2" = None ∧
  x_protocol_source demo_decoded !! "meter_3" = None ∧
  (∃ m, x_protocol_source demo_decoded !! "meter_1" = Some m) ∧
  ∃ m, x_command_source demo_decoded !! "module_1" = Some m.
Proof.
  destruct (devices_judged_alone (demo_doc [] [])) as [_ Hd]. specialize (Hd demo_decoded demo_doc_decodes).
  assert (∀ d m, x_protocol_source demo_decoded !! d = Some m → d ∈ ["meter_1"]) as Hin.
  { intros d m (channels & Hc & Hu & _ & Hr)%Hd.
    assert (device_entries (demo_doc [] []) "x-protocol-source" =
      [("meter_1", [("active_power", demo_point "10.0.0.5" 3 [])]);
       ("meter_2", [("active_power", demo_point SENTINEL 3 [])]);
       ("meter_3", [("active_power", demo_point "10.0.0.7" 6 [])])]) as He by (by vm_compute).
    rewrite He in Hc. apply elem_of_cons in Hc as [[= -> ->]|Hc]; [by left|].
    apply elem_of_cons in Hc as [[= -> ->]|Hc]; [by vm_compute in Hu|].
    apply list_elem_of_singleton in Hc as [= -> ->].
    destruct (Hr "active_power" (demo_point "10.0.0.7" 6 []) ltac:(by left)) as (s & _ & Hs & Hck).
    vm_compute in Hs. injection Hs as <-. by vm_compute in Hck. }
  split_and!.
  - destruct (_ !! _) eqn:Hm; [|done]. by apply Hin, list_elem_of_singleton in Hm.
  - destruct (_ !! _) eqn:Hm; [|done]. by apply Hin, list_elem_of_singleton in Hm.
  - assert ((if x_protocol_source demo_decoded !! "meter_1" is Some _ then true else false) = true) as Hs
      by (by vm_compute). destruct (_ !! _) as [m|]; [by exists m|done].
  - assert ((if x_command_source demo_decoded !! "module_1" is Some _ then true else false) = true) as Hs
      by (by vm_compute). destruct (_ !! _) as [m|]; [by exists m|done].
Defined.

Lemma unknown_field_fails_spec_witness :
  known_entry measurement_fields (demo_point "10.0.0.5" 3 []) ∧ known_entry command_fields (demo_module []).
Proof.
  pose proof (unknown_field_fails_spec (demo_doc [] []) demo_decoded demo_doc_decodes) as [H _]. split.
  - apply (H "x-protocol-source" measurement_fields "meter_1" [("active_power", demo_point "10.0.0.5" 3 [])]
      "active_power"); [by left|by left|by vm_compute|by left].
  - apply (H "x-command-source" command_fields "module_1" [("cmd", demo_module [])] "cmd");
      [by right; left|by left|by vm_compute|by left].
Defined.
End Demo.
