(* ===== verification/Session.v ===== *)
(** * Session: the subscriptions while the link to the broker comes and goes

    [src/mqtt/subscriptions.rs] and the subscribing part of
    [src/mqtt/subscriber.rs].  [Topology.update] is a topology change as one
    operation; here it is taken apart at its awaits, and the link to the broker
    may be lost and return between any two of them.  The session is clean: the
    broker forgets the subscriptions with the link, and paho's connected
    callback re-issues the list that is current then. *)

From Stdlib Require Import ZArith.
From S2P Require Import Prelude F64 Binary64 Text Allocation Cache Payload Bindings Config.
From S2P Require Import Topology.
Local Open Scope Z_scope.
Local Open Scope gateway_scope.

(** ** The session *)

(** Where [Subscriptions::update] is suspended; [Swapping]: the broker has
    answered, the list reconnects re-issue is not replaced yet. *)
Inductive UpdateStage := Unsubscribing | Subscribing | Swapping.

Record UpdateFlight := mkUpdate {
  up_stage : UpdateStage;
  up_new : list string * list Z;
  up_added : list string;
  up_removed : list string;
}.

(** The client, the broker's side of its session, the list shared with the
    connected callback ([None] until [subscribe] has set it) and the update
    under way. *)
Record MqttSession := mkMqtt {
  ms_connected : bool;
  ms_granted : gset string;
  ms_current : option (list string * list Z);
  ms_update : option UpdateFlight;
}.

Inductive MqttEvent :=
| LinkLost
| LinkBack (granted : bool)                          (* the broker's answer to the callback *)
| Subscribe (inputs : list string) (granted : bool)
| UpdateBegin (inputs : list string)
| UpdateNext (granted : bool).

(** [publisher::connect] has returned a client. *)
Definition connected_session : MqttSession := mkMqtt true ∅ None None.

Definition set_update (s : MqttSession) (u : option UpdateFlight) : MqttSession :=
  mkMqtt (ms_connected s) (ms_granted s) (ms_current s) u.

Definition set_granted (s : MqttSession) (granted : gset string) : MqttSession :=
  mkMqtt (ms_connected s) granted (ms_current s) (ms_update s).

(** A request with no topics is not sent. *)
Definition next_stage (u : UpdateFlight) : UpdateFlight :=
  let at_stage st := mkUpdate st (up_new u) (up_added u) (up_removed u) in
  match up_stage u with
  | Unsubscribing => match up_added u with [] => at_stage Swapping | _ => at_stage Subscribing end
  | _ => at_stage Swapping
  end.

Section Session.
Context (site_id : string).

Definition update_begin (current : list string * list Z) (inputs : list string) : UpdateFlight :=
  let new := subscription_list site_id inputs in
  let '(added, removed) := diff current.1 new.1 in
  let u := mkUpdate Unsubscribing new added removed in
  match removed with [] => next_stage u | _ => u end.

(** [update] resumed with the broker's answer; a refused request ends it. *)
Definition update_next (s : MqttSession) (u : UpdateFlight) (granted : bool) : MqttSession :=
  match up_stage u with
  | Unsubscribing =>
      if ms_connected s && granted
      then set_update (set_granted s (ms_granted s ∖ list_to_set (up_removed u))) (Some (next_stage u))
      else set_update s None
  | Subscribing =>
      if ms_connected s && granted
      then set_update (set_granted s (ms_granted s ∪ list_to_set (up_added u))) (Some (next_stage u))
      else set_update s None
  | Swapping => mkMqtt (ms_connected s) (ms_granted s) (Some (up_new u)) None
  end.

(** The closure of [set_connected_callback]. *)
Definition connected_callback (s : MqttSession) (granted : bool) : gset string :=
  match ms_current s with Some (topics, _) => if granted then list_to_set topics else ∅ | None => ∅ end.

(** [subscribe] that fails ends the gateway. *)
Definition session_step (s : MqttSession) (e : MqttEvent) : option MqttSession :=
  match e with
  | LinkLost => if ms_connected s then Some (mkMqtt false ∅ (ms_current s) (ms_update s)) else None
  | LinkBack granted =>
      if ms_connected s then None
      else Some (mkMqtt true (connected_callback s granted) (ms_current s) (ms_update s))
  | Subscribe inputs granted =>
      match ms_current s with
      | Some _ => None
      | None =>
          let list := subscription_list site_id inputs in
          if ms_connected s && granted
          then Some (mkMqtt true (ms_granted s ∪ list_to_set list.1) (Some list) (ms_update s)) else None
      end
  | UpdateBegin inputs =>
      match ms_current s, ms_update s with
      | Some current, None => Some (set_update s (Some (update_begin current inputs)))
      | _, _ => None
      end
  | UpdateNext granted => u ← ms_update s; Some (update_next s u granted)
  end.

Fixpoint session_run (s : MqttSession) (es : list MqttEvent) : option MqttSession :=
  match es with
  | [] => Some s
  | e :: es => s ← session_step s e; session_run s es
  end.

(** ** What is always heard *)

(** The topics an event makes the gateway's list hold [t]. *)
Definition lists (t : string) (e : MqttEvent) : Prop :=
  match e with
  | Subscribe inputs _ | UpdateBegin inputs => t ∈ (subscription_list site_id inputs).1
  | _ => True
  end.

Definition resubscribed (e : MqttEvent) : Prop := match e with LinkBack granted => granted = true | _ => True end.

Lemma fixed_topics_listed t e : t ∈ (subscription_list site_id []).1 → lists t e.
Proof.
  intros Ht. destruct e; try done; unfold lists, subscription_list in *; cbn [fst] in *;
    rewrite elem_of_app; left; by rewrite app_nil_r in Ht.
Qed.

(** What an update has still to add and to drop. *)
Lemma update_begin_fields current inputs :
  let u := update_begin current inputs in
  up_new u = subscription_list site_id inputs ∧
  (∀ t, t ∈ up_added u ↔ t ∈ (up_new u).1 ∧ t ∉ current.1) ∧
  (∀ t, t ∈ up_removed u ↔ t ∈ current.1 ∧ t ∉ (up_new u).1).
Proof.
  unfold update_begin, diff. remember (subscription_list site_id inputs) as new eqn:Hn.
  set (added := List.filter _ new.1). set (removed := List.filter _ current.1).
  assert (∀ t, t ∈ added ↔ t ∈ new.1 ∧ t ∉ current.1) as Ha
    by (intros t; unfold added; rewrite elem_of_filterb, negb_true_iff, bool_decide_eq_false; tauto).
  assert (∀ t, t ∈ removed ↔ t ∈ current.1 ∧ t ∉ new.1) as Hr
    by (intros t; unfold removed; rewrite elem_of_filterb, negb_true_iff, bool_decide_eq_false; tauto).
  clearbody added removed.
  destruct removed as [|r rs]; [|done]. unfold next_stage. simpl. by destruct added.
Qed.

Lemma next_stage_fields u :
  up_new (next_stage u) = up_new u ∧ up_added (next_stage u) = up_added u ∧
  up_removed (next_stage u) = up_removed u.
Proof. unfold next_stage. destruct (up_stage u), (up_added u) eqn:Ha; by rewrite ?Ha. Qed.

(** The invariant of a topic every list holds. *)
Definition heard (t : string) (s : MqttSession) : Prop :=
  (∀ c, ms_current s = Some c → t ∈ c.1) ∧
  (∀ u, ms_update s = Some u → t ∈ (up_new u).1 ∧ t ∉ up_removed u) ∧
  (ms_current s ≠ None → ms_connected s = true → t ∈ ms_granted s).

Lemma update_next_heard t s u granted :
  ms_current s ≠ None → ms_update s = Some u → heard t s → heard t (update_next s u granted).
Proof.
  intros Hcur Hu (Hc & Hup & Hg). destruct (Hup u Hu) as [Hnew Hrem].
  destruct (next_stage_fields u) as (Hfn & _ & Hfr).
  assert (∀ g, (ms_connected s = true → t ∈ g) → heard t (set_update (set_granted s g) (Some (next_stage u)))) as Hgo.
  { intros g Ht. split; [done|]. split; [|by intros _]. intros u' [= <-]. by rewrite Hfn, Hfr. }
  assert (heard t (set_update s None)) as Hstop by done.
  unfold update_next. destruct (up_stage u).
  - destruct (_ && _); [|done]. apply Hgo. intros Hconn. specialize (Hg Hcur Hconn).
    by rewrite elem_of_difference, elem_of_list_to_set.
  - destruct (_ && _); [|done]. apply Hgo. intros Hconn. rewrite elem_of_union. left. by apply Hg.
  - split; [by intros c [= <-]|]. split; [done|]. intros _. by apply Hg.
Qed.

Definition update_subscribed (s : MqttSession) : Prop := ms_update s ≠ None → ms_current s ≠ None.

Lemma session_step_subscribed s e s' : session_step s e = Some s' → update_subscribed s → update_subscribed s'.
Proof.
  unfold update_subscribed. intros Hs Hi. destruct e as [|g|inputs g|inputs|g]; unfold session_step in Hs.
  - destruct (ms_connected s); [|done]. by injection Hs as <-.
  - destruct (ms_connected s); [done|]. by injection Hs as <-.
  - destruct (ms_current s); [done|]. destruct (_ && _); [|done]. by injection Hs as <-.
  - destruct (ms_current s) eqn:Hc; [|done]. destruct (ms_update s); [done|]. injection Hs as <-. simpl. congruence.
  - destruct (ms_update s) as [u|]; simpl in Hs; [|done]. injection Hs as <-.
    unfold update_next. destruct (up_stage u); [destruct (_ && _)..|]; simpl; auto.
Qed.

Lemma session_step_heard t s e s' :
  session_step s e = Some s' → update_subscribed s → lists t e → resubscribed e → heard t s → heard t s'.
Proof.
  intros Hs Hsub Hl Hre Hh. pose proof Hh as (Hc & Hup & Hg). destruct e as [|g|inputs g|inputs|g]; unfold session_step in Hs.
  - destruct (ms_connected s); [|done]. by injection Hs as <-.
  - destruct (ms_connected s); [done|]. injection Hs as <-. split; [done|]. split; [done|]. simpl.
    intros Hcur _. unfold connected_callback. simpl in Hre. subst g.
    destruct (ms_current s) as [[topics q]|] eqn:Hcs; [|done].
    apply elem_of_list_to_set. by apply (Hc _ eq_refl).
  - destruct (ms_current s) as [|] eqn:Hcs; [done|]. destruct (_ && _); [|done]. apply (inj Some) in Hs as <-.
    split; [by intros c [= <-]|]. split.
    + intros u Hu. by destruct Hsub; [simpl in Hu; congruence|].
    + intros _ _. cbn [ms_granted]. rewrite elem_of_union. right. by apply elem_of_list_to_set.
  - destruct (ms_current s) as [c|] eqn:Hcs; [|done]. destruct (ms_update s); [done|]. injection Hs as <-.
    split; [simpl; rewrite Hcs; done|]. split; [|simpl; rewrite Hcs; done].
    intros u [= <-]. destruct (update_begin_fields c inputs) as (Hn & _ & Hr). rewrite Hr, Hn. tauto.
  - destruct (ms_update s) as [u|] eqn:Hu; simpl in Hs; [|done]. injection Hs as <-.
    apply update_next_heard; [by apply Hsub; congruence|done|done].
Qed.

(** C18: whatever order link losses, reconnects, topology changes and
    refused requests come in, a connected gateway is subscribed to both beacons
    and to its site's commands, and to every input topic that each topology so
    far needed; what a change adds or drops never costs it one of those.  The
    broker is taken to grant what the connected callback asks for. *)
Theorem kept_topics_always_heard es s :
  session_run connected_session es = Some s →
  (∀ e, e ∈ es → resubscribed e) →
  ms_connected s = true → ms_current s ≠ None →
  (∀ t, t ∈ (subscription_list site_id []).1 → t ∈ ms_granted s) ∧
  ∀ t, (∀ e, e ∈ es → lists t e) → t ∈ ms_granted s.
Proof.
  intros Hr Hre Hconn Hcur.
  enough (∀ t, (∀ e, e ∈ es → lists t e) → t ∈ ms_granted s) as Hall.
  { split; [|done]. intros t Ht. apply Hall. intros e _. by apply fixed_topics_listed. }
  intros t Hl. assert (heard t connected_session) as H0 by (split; [done|]; split; [done|]; by intros []).
  assert (update_subscribed connected_session) as H1 by (by intros []).
  enough (heard t s) as (_ & _ & Hg) by by apply Hg.
  revert Hr H0 H1. generalize connected_session. clear Hconn Hcur.
  induction es as [|e es IH]; intros s0 Hr H0 H1; [by injection Hr as <-|].
  simpl in Hr. destruct (session_step s0 e) as [s1|] eqn:Hs; simpl in Hr; [|done].
  assert (e ∈ e :: es) as He by left.
  eapply IH; [intros e' He'; apply Hre; by right|intros e' He'; apply Hl; by right|exact Hr| |].
  - eapply session_step_heard; [exact Hs|done|by apply Hl|by apply Hre|done].
  - by eapply session_step_subscribed.
Qed.

(** ** A reconnect while an update is under way *)

(** The gateway lists [t] and takes it for subscribed; the broker does not. *)
Definition deaf (t : string) (s : MqttSession) : Prop :=
  (∃ c, ms_current s = Some c ∧ t ∈ c.1) ∧ ms_connected s = true ∧ t ∉ ms_granted s ∧
  ∀ u, ms_update s = Some u → t ∉ up_added u ∧ t ∈ (up_new u).1.

Lemma session_step_deaf t s e s' :
  session_step s e = Some s' → lists t e → e ≠ LinkLost → deaf t s → deaf t s'.
Proof.
  intros Hs Hl He ((c & Hc & Ht) & Hconn & Hg & Hu). destruct e as [|g|inputs g|inputs|g]; unfold session_step in Hs.
  - done.
  - by rewrite Hconn in Hs.
  - by rewrite Hc in Hs.
  - rewrite Hc in Hs. destruct (ms_update s); [done|]. injection Hs as <-. split; [by exists c|].
    split; [done|]. split; [done|]. intros u [= <-].
    destruct (update_begin_fields c inputs) as (Hn & Ha & _). rewrite Ha, Hn. tauto.
  - destruct (ms_update s) as [u|] eqn:Hup; simpl in Hs; [|done]. injection Hs as <-.
    destruct (Hu u eq_refl) as [Hadd Hnew]. destruct (next_stage_fields u) as (Hfn & Hfa & _).
    assert (∀ g, t ∉ g → deaf t (set_update (set_granted s g) (Some (next_stage u)))) as Hgo.
    { intros g0 Hg0. split; [by exists c|]. split; [done|]. split; [done|]. intros u' [= <-]. by rewrite Hfa, Hfn. }
    assert (deaf t (set_update s None)) as Hstop by (split; [by exists c|done]).
    unfold update_next. destruct (up_stage u).
    + destruct (_ && _); [|done]. apply Hgo. rewrite elem_of_difference. tauto.
    + destruct (_ && _); [|done]. apply Hgo. rewrite elem_of_union, elem_of_list_to_set. tauto.
    + split; [by exists (up_new u)|]. by split.
Qed.

(** A reconnect that falls between the broker's answer to an update and
    the line that makes the new list current re-issues the old list: each topic
    the update added is then in the list and not subscribed.  No later topology
    change that still needs the topic subscribes it again, however many follow:
    the gateway stays deaf to it until the link is next lost. *)
Theorem reconnect_race_deafens s c u t :
  ms_connected s = true → ms_current s = Some c → ms_update s = Some u → up_stage u = Swapping →
  t ∈ (up_new u).1 → t ∉ c.1 →
  ∃ s1, session_run s [LinkLost; LinkBack true; UpdateNext true] = Some s1 ∧
    (∃ c1, ms_current s1 = Some c1 ∧ t ∈ c1.1) ∧
    ∀ es s', session_run s1 es = Some s' → (∀ e, e ∈ es → lists t e ∧ e ≠ LinkLost) →
      ms_connected s' = true ∧ t ∉ ms_granted s'.
Proof.
  intros Hconn Hc Hu Hst Hnew Hold. destruct c as [topics q].
  exists (mkMqtt true (list_to_set topics) (Some (up_new u)) None). split.
  { cbn [session_run session_step mbind option_bind]. rewrite Hconn. cbn [mbind option_bind ms_connected].
    unfold connected_callback. cbn [ms_current ms_update mbind option_bind]. rewrite Hc, Hu. cbn [mbind option_bind].
    unfold update_next. by rewrite Hst. }
  split; [by eexists|]. intros es s' Hr Hes.
  set (s1 := mkMqtt _ _ _ _) in Hr.
  assert (deaf t s1) as Hd.
  { split; [by eexists|]. split; [done|]. split; [|done]. simpl. by rewrite elem_of_list_to_set. }
  enough (deaf t s') as (_ & ? & ? & _) by done.
  clearbody s1. revert s1 Hr Hd. induction es as [|e es IH]; intros s1 Hr Hd; [by injection Hr as <-|].
  simpl in Hr. destruct (session_step s1 e) as [s2|] eqn:Hs; simpl in Hr; [|done].
  destruct (Hes e) as [Hl He]; [by left|].
  eapply IH; [intros e' He'; apply Hes; by right|exact Hr|]. by eapply session_step_deaf.
Qed.

(** A reconnect with no update under way restores the list exactly. *)
Lemma reconnect_heals s c :
  ms_connected s = true → ms_current s = Some c →
  ∃ s', session_run s [LinkLost; LinkBack true] = Some s' ∧ ms_granted s' = list_to_set c.1 ∧
    ms_current s' = Some c ∧ ms_connected s' = true.
Proof.
  intros Hconn Hc. destruct c as [topics q]. eexists. split.
  - cbn [session_run session_step]. rewrite Hconn. cbn [mbind option_bind ms_connected]. reflexivity.
  - unfold connected_callback. simpl. by rewrite Hc.
Qed.

(** ** An update nothing interrupts *)

Section Uninterrupted.
(** Which requests the broker grants. *)
Context (grants : list string → bool).

#[export] Instance session_broker : BrokerSession MqttSession := {
  subscribe_many topics _ s :=
    if ms_connected s && grants topics then (true, set_granted s (ms_granted s ∪ list_to_set topics)) else (false, s);
  unsubscribe_many topics s :=
    if ms_connected s && grants topics then (true, set_granted s (ms_granted s ∖ list_to_set topics)) else (false, s);
}.

Definition granted_now (u : UpdateFlight) : bool :=
  match up_stage u with
  | Unsubscribing => grants (up_removed u)
  | Subscribing => grants (up_added u)
  | Swapping => true
  end.

Fixpoint finish_update (n : nat) (s : MqttSession) : option MqttSession :=
  match ms_update s, n with
  | None, _ => Some s
  | Some _, O => None
  | Some u, S n => s ← session_step s (UpdateNext (granted_now u)); finish_update n s
  end.

Ltac compute_session :=
  cbv beta iota zeta delta [finish_update session_step update_next next_stage granted_now set_update set_granted
    ms_connected ms_granted ms_current ms_update up_stage up_new up_added up_removed mbind option_bind
    subscribe_many unsubscribe_many session_broker andb negb].

(** An update whose requests the link outlives, taken at its awaits,
    ends within three answers in exactly the list and the subscriptions of
    [update] as one operation, a refused request included. *)
Theorem uninterrupted_update s c inputs :
  ms_current s = Some c → ms_update s = None →
  (session_step s (UpdateBegin inputs) ≫= finish_update 3) =
  let '(_, c', s') := Topology.update site_id c inputs s in
  Some (mkMqtt (ms_connected s') (ms_granted s') (Some c') None).
Proof.
  destruct s as [conn granted cur upd]. cbn [ms_current ms_update]. intros -> ->.
  cbn [session_step ms_current ms_update mbind option_bind].
  unfold Topology.update, update_begin. destruct (diff c.1 _) as [added removed].
  set (new := subscription_list site_id inputs). clearbody new.
  destruct removed as [|r rs], added as [|a rest], conn; try reflexivity; compute_session;
    repeat (case_match; simplify_eq; compute_session; try done).
Qed.
End Uninterrupted.
End Session.

(** ** A module's meter is added while the broker restarts *)

(** The site boots with one meter, a change adds a second, and the link is lost
    and back before the new list is current. *)
Definition meters (inputs : list string) : list MqttEvent := [Subscribe inputs true].

Definition swapping : option MqttSession :=
  session_run "s1" connected_session (meters ["meter_1"%string] ++ [UpdateBegin ["meter_1"; "meter_2"]%string; UpdateNext true]).

Definition stormy : list MqttEvent :=
  meters ["meter_1"%string] ++ [UpdateBegin ["meter_1"; "meter_2"]%string; LinkLost; UpdateNext true;
    LinkBack true; UpdateBegin ["meter_2"; "meter_1"]%string; UpdateNext false; LinkLost; LinkBack true].

Definition listsb (t : string) (e : MqttEvent) : bool :=
  match e with
  | Subscribe inputs _ | UpdateBegin inputs => bool_decide (t ∈ (subscription_list "s1" inputs).1)
  | _ => true
  end.

Lemma listsb_true t es : forallb (listsb t) es = true → ∀ e, e ∈ es → lists "s1" t e.
Proof.
  rewrite forallb_forall. intros Hall e He. apply list_elem_of_In, Hall in He.
  destruct e; simpl in *; try done; by apply bool_decide_eq_true in He.
Qed.

Lemma kept_topics_always_heard_witness :
  match session_run "s1" connected_session stormy with
  | Some s => "sites/s1/devices/+/commands/#"%string ∈ ms_granted s ∧ "meter_1"%string ∈ ms_granted s
  | None => False
  end.
Proof.
  apply when_some; [by vm_compute|]. intros s Hs.
  destruct (kept_topics_always_heard "s1" stormy s Hs) as [Hfixed Hkept].
  - intros e He. apply list_elem_of_In in He. unfold stormy in He. simpl in He.
    repeat (destruct He as [<-|He]; [done|]). done.
  - assert (ms_connected <$> session_run "s1" connected_session stormy = Some true) as Hc by (by vm_compute).
    rewrite Hs in Hc. by injection Hc.
  - assert (((if ms_current s is Some _ then true else false)) = true) as Hc.
    { assert (((λ s, (if ms_current s is Some _ then true else false)) <$> session_run "s1" connected_session stormy) = Some true) as Hc
        by (by vm_compute). rewrite Hs in Hc. by injection Hc. }
    by destruct (ms_current s).
  - split; [apply Hfixed|apply Hkept; apply listsb_true; by vm_compute].
    unfold subscription_list. cbn [fst]. by (do 2 right; left).
Defined.

Definition later_change : list MqttEvent :=
  [UpdateBegin ["meter_2"; "meter_3"]%string; UpdateNext true; UpdateNext true; UpdateNext true].

(** The added meter stays unheard through a later change that keeps it. *)
Lemma reconnect_race_deafens_witness :
  match swapping with
  | Some s => ∃ s1, session_run "s1" s [LinkLost; LinkBack true; UpdateNext true] = Some s1 ∧
      ∃ s', session_run "s1" s1 later_change = Some s' ∧ "meter_2"%string ∉ ms_granted s'
  | None => False
  end.
Proof.
  apply when_some; [by vm_compute|]. intros s Hs. vm_compute in Hs.
  match type of Hs with Some (mkMqtt ?c ?g (Some ?l) (Some ?u)) = _ =>
    set (granted := g) in Hs; set (list := l) in Hs; set (upd := u) in Hs end.
  injection Hs as <-.
  destruct (reconnect_race_deafens "s1" (mkMqtt true granted (Some list) (Some upd)) list upd "meter_2")
    as (s1 & Hr & _ & Hdeaf).
  - done.
  - done.
  - done.
  - done.
  - unfold upd. simpl. by (do 4 right; left).
  - unfold list. simpl. by apply (bool_decide_eq_false _); vm_compute.
  - exists s1. split; [done|].
    assert (is_Some (session_run "s1" s1 later_change)) as [s' Hs'].
    { vm_compute in Hr. injection Hr as <-. by eexists. }
    exists s'. split; [done|]. eapply (Hdeaf _ s' Hs').
    intros e He. split; [by apply (listsb_true "meter_2" later_change eq_refl)|].
    apply list_elem_of_In in He. unfold later_change in He. simpl in He. repeat (destruct He as [<-|He]; [done|]). done.
Defined.

(** The site subscribed to its first meter. *)
Definition metered : MqttSession :=
  let list := subscription_list "s1" ["meter_1"%string] in mkMqtt true (list_to_set list.1) (Some list) None.

Lemma uninterrupted_update_witness :
  match session_step "s1" metered (UpdateBegin ["meter_2"%string]) ≫= finish_update "s1" (λ _, true) 3 with
  | Some s => bool_decide (ms_granted s = list_to_set (subscription_list "s1" ["meter_2"%string]).1)
  | None => false
  end = true.
Proof.
  rewrite (uninterrupted_update "s1" (λ _, true) metered (subscription_list "s1" ["meter_1"%string])
    ["meter_2"%string] eq_refl eq_refl). by vm_compute.
Defined.
