(* ===== verification/Poller.v ===== *)
(** * Polling, Redfish payloads and watchdog counters: [src/poller.rs],
    [src/redfish/client.rs] and [write.rs], [src/heartbeat.rs] and
    [src/loto/refresher.rs]

    One poller tick, with the protocol reads behind the interface [Reads] on an
    abstract world; [clock] is what [Instant::now()] answers.  [pointer] is
    [serde_json]'s [Value::pointer] (RFC 6901). *)

From Stdlib Require Import ZArith Lia Floats Ascii.
From stdpp Require Import pretty.
From S2P Require Import Prelude F64 Binary64 Text Cache Payload Bindings Dispatch.
Local Open Scope Z_scope.
Local Open Scope gateway_scope.

(** ** [redfish] *)

Inductive read_error :=
| PointerMissed (ptr uri : string)
| NotAReading (v : Value)
| FetchFailed (reason : string)
| SessionFailed (reason : string).

Section Redfish.
Context (pointer : Value → string → option Value).

Definition extract (body : Value) (b : RedfishBinding) : result read_error Raw :=
  value <-? match rf_json_pointer b with
            | Some ptr => ok_or (pointer body ptr) (PointerMissed ptr (rf_uri b))
            | None => Ok body
            end;
  match value with
  | VString text => Ok (Text text)
  | _ => raw <-? ok_or (as_f64 value) (NotAReading value); Ok (Number (f_mul raw (rf_scale b)))
  end.
End Redfish.

Definition unescape (token : string) : string :=
  str_replace "~0" "~" (str_replace "~1" "/" token).

(** [/A/B] and [v] to [{"A": {"B": v}}]. *)
Definition nest (pointer : string) (value : Value) : Value :=
  foldl (λ inner token, VObject [(unescape token, inner)]) value
    (rev (drop 1 (str_split "/" pointer))).

(** ** [poller.rs] *)

Record Point := mkPollPoint {
  pp_topic : string;
  pp_binding : ProtocolBinding;
  pp_period : Z;
  pp_payload : option Payload;
  pp_value_map : option (gmap string string);
}.

(** [Instant + Duration]. *)
Definition advance (due_at period now : Z) : Z :=
  let on_schedule := due_at + period in
  if on_schedule <=? now then now + period else on_schedule.

Definition due (next : list Z) (now : Z) : list nat :=
  List.filter (λ i, match next !! i with Some t => t <=? now | None => false end) (seq 0 (length next)).

(** [next.iter().min()], or now. *)
Definition wake (next : list Z) (now : Z) : Z :=
  match next with [] => now | t :: ts => foldl Z.min t ts end.

(** [format!("{host}:{port}")]. *)
Definition session_key (host : string) (port : Z) : string := (host ++ ":" ++ pretty port)%string.

(** [format!("{}:{}{}", b.host, b.port, b.uri)]. *)
Definition resource_key (b : RedfishBinding) : string :=
  (rf_host b ++ ":" ++ pretty (rf_port b) ++ rf_uri b)%string.

(** The reads a poller makes and the wall clock's [to_rfc3339]; [session] is an
    open Modbus session. *)
Class Reads (W session : Type) := {
  clock : W → Z;
  fetch_resource : RedfishBinding → W → result string Value * W;
  open_session : string → Z → W → result string session * W;
  modbus_read_on : session → ModbusTcpBinding → W → result read_error Raw * W;
  sunspec_read_on : session → SunspecBinding → W → result read_error Raw * W;
  read_other : ProtocolBinding → W → result read_error Raw * W;
  now_rfc3339 : W → string;
}.

Section Poll.
Context {W session : Type} `{Reads W session} `{Publisher W}.
Context (pointer : Value → string → option Value) (points : list Point).

Record PollState := mkPollState {
  next : list Z;
  sessions : gmap string session;
  fetched : gmap string (result string Value);
}.

Definition with_next (s : PollState) (i : nat) (p : Point) (w : W) : PollState :=
  mkPollState (alter (λ t, advance t (pp_period p) (clock w)) i (next s)) (sessions s) (fetched s).

(** The session for [host:port], opened when the device has none yet. *)
Definition session_for (s : PollState) (host : string) (port : Z) (w : W)
    : result string session * PollState * W :=
  match sessions s !! session_key host port with
  | Some c => (Ok c, s, w)
  | None =>
      let '(r, w) := open_session host port w in
      (r, match r with
          | Ok c => mkPollState (next s) (<[session_key host port := c]> (sessions s)) (fetched s)
          | Err _ => s
          end, w)
  end.

(** The read of one point: [None] when its session did not open. *)
Definition read_point_of (s : PollState) (p : Point) (w : W)
    : option (result read_error Raw) * PollState * W :=
  let on_session host port (read : session → W → result read_error Raw * W) :=
    let '(c, s, w) := session_for s host port w in
    match c with
    | Err _ => (None, s, w)
    | Ok c => let '(r, w) := read c w in (Some r, s, w)
    end in
  match pp_binding p with
  | Redfish b =>
      let '(body, s, w) :=
        match fetched s !! resource_key b with
        | Some body => (body, s, w)
        | None =>
            let '(body, w) := fetch_resource b w in
            (body, mkPollState (next s) (sessions s) (<[resource_key b := body]> (fetched s)), w)
        end in
      (Some (match body with Ok body => extract pointer body b | Err e => Err (FetchFailed e) end), s, w)
  | ModbusTcp b => on_session (mb_host b) (mb_port b) (λ c, modbus_read_on c b)
  | Sunspec b => on_session (ss_host b) (ss_port b) (λ c, sunspec_read_on c b)
  | other => let '(r, w) := read_other other w in (Some r, s, w)
  end.

(** [publish] of a reading: nothing is sent for one its schema refuses. *)
Definition publish (p : Point) (raw : Raw) (w : W) : result payload_error unit * W :=
  match pp_payload p, raw with
  | Some payload, raw =>
      match sample payload raw (pp_value_map p) (now_rfc3339 w) with
      | Ok doc => publish_sample (pp_topic p) doc w
      | Err e => (Err e, w)
      end
  | None, Number n => publish_measurement (now_rfc3339 w) (pp_topic p) n w
  | None, Text text => (Err (TextWithoutSchema text), w)
  end.

(** One turn of the loop of [poll_due]. *)
Definition poll_one (sw : PollState * W) (i : nat) : PollState * W :=
  match points !! i with
  | None => sw
  | Some p =>
      let '(r, s, w) := read_point_of sw.1 p sw.2 in
      let w := match r with Some (Ok raw) => (publish p raw w).2 | _ => w end in
      (with_next s i p w, w)
  end.

Definition poll_due (next : list Z) (sessions : gmap string session) (w : W) : PollState * W :=
  foldl poll_one (mkPollState next sessions ∅, w) (due next (clock w)).
End Poll.

(** ** [heartbeat.rs] *)

Record Counter := mkCounter {
  counter_device : string;
  counter_binding : ModbusTcpBinding;
  counter_modulo : Z;
  counter_period : Z;
}.

Definition steerable (connected : bool) (locked : gset string) (device_id : string) : bool :=
  connected && negb (bool_decide (device_id ∈ locked)).

(** One tick of [spawn]'s loop on its [count]. *)
Definition counter_tick {W} `{South W} (c : Counter) (connected : bool) (locked : gset string)
    (trust : option DeviceTrust) (creds : option GatewayCredentials) (count : Z) (w : W) : Z * W :=
  if steerable connected locked (counter_device c) then
    let '(r, w) := modbus_write (counter_binding c) (of_Z count) trust creds w in
    (match r with Ok _ => ((count + 1) mod counter_modulo c)%Z | Err _ => count end, w)
  else (count, w).

(** ** [loto/refresher.rs] *)

(** [apply]: the new set and whether it changed. *)
Definition loto_apply (current fresh : gset string) : gset string * bool :=
  if bool_decide (current = fresh) then (current, false) else (fresh, true).

(** A beacon's re-fetch: a failed one keeps the last known set. *)
Definition refetch (current : gset string) (answer : result string (gset string)) : gset string :=
  match answer with Ok fresh => (loto_apply current fresh).1 | Err _ => current end.

(** ** The schedule *)

(** The next due time is in the future, at most one period past the later of
    now and the last due time, and on the old schedule unless that has
    passed. *)
Lemma advance_spec due_at period now :
  0 < period →
  now < advance due_at period now <= Z.max due_at now + period ∧
  (now < due_at + period → advance due_at period now = due_at + period).
Proof. intros Hp. unfold advance. destruct (Z.leb_spec (due_at + period) now); lia. Qed.

(** A reading is published as [outgoing] shapes it. *)
Lemma publish_outgoing {W session : Type} `{Reads W session} `{Publisher W} (p : Point) raw (w : W) :
  publish p raw w = match outgoing (pp_payload p) (pp_value_map p) raw (now_rfc3339 w) with
                    | Ok doc => publish_sample (pp_topic p) doc w
                    | Err e => (Err e, w)
                    end.
Proof. unfold publish, outgoing. by destruct (pp_payload p), raw. Qed.

Lemma publish_world {W session : Type} `{Reads W session} `{Publisher W} (p : Point) raw (w : W) :
  (publish p raw w).2 = w ∨ ∃ m, (publish p raw w).2 = (mqtt_publish m w).2.
Proof.
  rewrite publish_outgoing. destruct (outgoing _ _ _ _) as [doc|e]; [right|by left].
  unfold publish_sample, publish_message. exists (mkMessage (pp_topic p) (Some doc) QOS_MEASUREMENT false).
  by destruct (mqtt_publish _ w) as [[e|] w1].
Qed.

Section PollFacts.
Context {W session : Type} `{Reads W session} `{Publisher W} (pointer : Value → string → option Value)
  (points : list Point).

Lemma session_for_next s host port w : next (session_for s host port w).1.2 = next s ∧
  fetched (session_for s host port w).1.2 = fetched s.
Proof.
  unfold session_for. destruct (sessions s !! _); [done|].
  destruct (open_session host port w) as [[c|e] w1]; done.
Qed.

Lemma read_point_next s p w : next (read_point_of pointer s p w).1.2 = next s.
Proof.
  unfold read_point_of. destruct (pp_binding p) as [b| |b| | | |b| | |];
    try (by destruct (read_other _ _)).
  - pose proof (session_for_next s (mb_host b) (mb_port b) w) as [Hn _].
    destruct (session_for _ _ _ _) as [[[c|e] s1] w1]; [|done]. by destruct (modbus_read_on _ _ _).
  - destruct (fetched s !! _); [done|]. by destruct (fetch_resource _ _).
  - pose proof (session_for_next s (ss_host b) (ss_port b) w) as [Hn _].
    destruct (session_for _ _ _ _) as [[[c|e] s1] w1]; [|done]. by destruct (sunspec_read_on _ _ _).
Qed.

Lemma poll_one_next s w i p :
  points !! i = Some p →
  let '(s', w') := poll_one pointer points (s, w) i in
  next s' = alter (λ t, advance t (pp_period p) (clock w')) i (next s).
Proof.
  intros Hp. unfold poll_one. rewrite Hp. cbn [fst snd].
  pose proof (read_point_next s p w) as Hn.
  destruct (read_point_of _ _ _ _) as [[r s1] w1]. cbn [with_next next fst snd] in *. by rewrite Hn.
Qed.

Section Clock.
(** The clock never goes back. *)
Hypothesis fetch_clock : ∀ b w, clock w <= clock (fetch_resource b w).2.
Hypothesis open_clock : ∀ h p w, clock w <= clock (open_session h p w).2.
Hypothesis modbus_clock : ∀ c b w, clock w <= clock (modbus_read_on c b w).2.
Hypothesis sunspec_clock : ∀ c b w, clock w <= clock (sunspec_read_on c b w).2.
Hypothesis other_clock : ∀ b w, clock w <= clock (read_other b w).2.
Hypothesis publish_clock : ∀ m w, clock w <= clock (mqtt_publish m w).2.

Lemma publish_never_back p raw w : clock w <= clock (publish p raw w).2.
Proof. destruct (publish_world p raw w) as [-> | [m ->]]; [lia|apply publish_clock]. Qed.

Lemma session_for_clock s host port w : clock w <= clock (session_for s host port w).2.
Proof.
  unfold session_for. destruct (sessions s !! _); [simpl; lia|].
  specialize (open_clock host port w). by destruct (open_session host port w).
Qed.

Lemma read_point_clock s p w : clock w <= clock (read_point_of pointer s p w).2.
Proof.
  unfold read_point_of. destruct (pp_binding p) as [b| |b| | | |b| | |];
    try (match goal with |- context [read_other ?x w] =>
           specialize (other_clock x w); by destruct (read_other x w) end).
  - pose proof (session_for_clock s (mb_host b) (mb_port b) w) as Hs.
    destruct (session_for _ _ _ _) as [[[c|e] s1] w1]; [|done]. cbn [snd] in Hs.
    specialize (modbus_clock c b w1). destruct (modbus_read_on _ _ _). cbn [snd] in *. lia.
  - destruct (fetched s !! _); [simpl; lia|]. specialize (fetch_clock b w).
    by destruct (fetch_resource _ _).
  - pose proof (session_for_clock s (ss_host b) (ss_port b) w) as Hs.
    destruct (session_for _ _ _ _) as [[[c|e] s1] w1]; [|done]. cbn [snd] in Hs.
    specialize (sunspec_clock c b w1). destruct (sunspec_read_on _ _ _). cbn [snd] in *. lia.
Qed.

Lemma poll_one_clock s w i : clock w <= clock (poll_one pointer points (s, w) i).2.
Proof.
  unfold poll_one. destruct (points !! i) as [p|]; [|simpl; lia]. cbn [fst snd].
  pose proof (read_point_clock s p w) as Hc. destruct (read_point_of _ _ _ _) as [[r s1] w1].
  cbn [snd] in *. destruct r as [[raw|e]|]; try lia. pose proof (publish_never_back p raw w1). lia.
Qed.

Lemma poll_fold ids s w :
  NoDup ids → (∀ i, i ∈ ids → is_Some (points !! i)) →
  let '(s', w') := foldl (poll_one pointer points) (s, w) ids in
  clock w <= clock w' ∧
  ∀ i, (i ∉ ids → next s' !! i = next s !! i) ∧
    (i ∈ ids → ∀ p t, points !! i = Some p → next s !! i = Some t →
      ∃ now, clock w <= now <= clock w' ∧ next s' !! i = Some (advance t (pp_period p) now)).
Proof.
  revert s w. induction ids as [|j ids IH]; intros s w Hnd Hin; cbn [foldl].
  { split; [lia|]. intros i. split; [done|]. by intros ?%not_elem_of_nil. }
  apply NoDup_cons in Hnd as [Hj Hnd]. destruct (Hin j) as [p Hp]; [by left|].
  pose proof (poll_one_next s w j p Hp) as Hn. pose proof (poll_one_clock s w j) as Hc.
  destruct (poll_one pointer points (s, w) j) as [s1 w1]. cbn [snd] in Hc.
  specialize (IH s1 w1 Hnd (λ i Hi, Hin i (list_elem_of_further i j ids Hi))).
  destruct (foldl _ _ _) as [s' w']. destruct IH as [Hc' Hall]. split; [lia|]. intros i.
  destruct (Hall i) as [Hout Hinn]. split.
  - intros [Hij Hi]%not_elem_of_cons. rewrite (Hout Hi), Hn.
    by rewrite list_lookup_alter_ne.
  - intros [->|Hi]%elem_of_cons q t Hq Ht.
    + assert (q = p) as -> by congruence. exists (clock w1). split; [lia|].
      by rewrite (Hout Hj), Hn, list_lookup_alter_eq, Ht.
    + assert (i ≠ j) as Hij by (by intros ->).
      destruct (Hinn Hi q t Hq) as (n & Hle & ?); [rewrite Hn; by rewrite list_lookup_alter_ne|].
      exists n. split; [lia|done].
Qed.

End Clock.
End PollFacts.

(** ** Shared fetches *)

Section Fetches.
Context {W session : Type} `{Reads W session} `{Publisher W} (pointer : Value → string → option Value)
  (points : list Point).
(** The resources fetched so far; nothing but a fetch adds to it. *)
Context (fetch_log : W → list string).
Hypothesis fetch_logs : ∀ b w, fetch_log (fetch_resource b w).2 = fetch_log w ++ [resource_key b].
Hypothesis open_logs : ∀ h p w, fetch_log (open_session h p w).2 = fetch_log w.
Hypothesis modbus_logs : ∀ c b w, fetch_log (modbus_read_on c b w).2 = fetch_log w.
Hypothesis sunspec_logs : ∀ c b w, fetch_log (sunspec_read_on c b w).2 = fetch_log w.
Hypothesis other_logs : ∀ b w, fetch_log (read_other b w).2 = fetch_log w.
Hypothesis publish_logs : ∀ m w, fetch_log (mqtt_publish m w).2 = fetch_log w.

(** Since [w0], each resource fetched was fetched once and is remembered. *)
Definition fetched_once (w0 : W) (s : PollState (session := session)) (w : W) : Prop :=
  ∃ l, fetch_log w = fetch_log w0 ++ l ∧ NoDup l ∧ ∀ k, k ∈ l → is_Some (fetched s !! k).

Lemma fetched_once_same w0 s w s' w' :
  fetched_once w0 s w → fetch_log w' = fetch_log w → fetched s' = fetched s → fetched_once w0 s' w'.
Proof. intros (l & Hl & Hnd & Hk) Hw Hs. exists l. rewrite Hw, Hs. done. Qed.

Lemma session_for_logs s host port w : fetch_log (session_for s host port w).2 = fetch_log w.
Proof.
  unfold session_for. destruct (sessions s !! _); [done|].
  specialize (open_logs host port w). by destruct (open_session host port w).
Qed.

Lemma read_point_once w0 s p w :
  fetched_once w0 s w →
  fetched_once w0 (read_point_of pointer s p w).1.2 (read_point_of pointer s p w).2.
Proof.
  intros Ho. unfold read_point_of. destruct (pp_binding p) as [b| |b| | | |b| | |];
    try (match goal with |- context [read_other ?x w] =>
           specialize (other_logs x w); destruct (read_other x w) as [r w1];
           by eapply fetched_once_same end).
  - pose proof (session_for_logs s (mb_host b) (mb_port b) w) as Hl.
    pose proof (session_for_next s (mb_host b) (mb_port b) w) as [_ Hf].
    destruct (session_for _ _ _ _) as [[[c|e] s1] w1]; [|by eapply fetched_once_same].
    specialize (modbus_logs c b w1). destruct (modbus_read_on c b w1) as [r w2]. cbn [fst snd] in *.
    eapply fetched_once_same; [exact Ho|congruence|done].
  - destruct (fetched s !! resource_key b) as [body|] eqn:Hb; [done|].
    specialize (fetch_logs b w). destruct (fetch_resource b w) as [body w1]. cbn [fst snd] in *.
    destruct Ho as (l & Hl & Hnd & Hk). exists (l ++ [resource_key b]). split_and!.
    + by rewrite fetch_logs, Hl, app_assoc.
    + apply NoDup_app. split_and!; [done| |apply NoDup_singleton].
      intros k Hkl ->%list_elem_of_singleton. apply Hk in Hkl as [? Hx]. congruence.
    + intros k [Hkl| ->%list_elem_of_singleton]%elem_of_app; cbn [fetched];
        [|rewrite lookup_insert_eq; by eexists].
      destruct (Hk k Hkl) as [v Hv]. rewrite lookup_insert_ne by congruence. by exists v.
  - pose proof (session_for_logs s (ss_host b) (ss_port b) w) as Hl.
    pose proof (session_for_next s (ss_host b) (ss_port b) w) as [_ Hf].
    destruct (session_for _ _ _ _) as [[[c|e] s1] w1]; [|by eapply fetched_once_same].
    specialize (sunspec_logs c b w1). destruct (sunspec_read_on c b w1) as [r w2]. cbn [fst snd] in *.
    eapply fetched_once_same; [exact Ho|congruence|done].
Qed.

Lemma poll_fold_once w0 ids s w :
  fetched_once w0 s w →
  let '(s', w') := foldl (poll_one pointer points) (s, w) ids in fetched_once w0 s' w'.
Proof.
  revert s w; induction ids as [|i ids IH]; intros s w Ho; cbn [foldl]; [done|].
  assert (let '(s1, w1) := poll_one pointer points (s, w) i in fetched_once w0 s1 w1) as H1.
  { unfold poll_one. destruct (points !! i) as [p|]; [|done]. cbn [fst snd].
    pose proof (read_point_once w0 s p w Ho) as Hr.
    destruct (read_point_of _ _ _ _) as [[r s1] w1]. cbn [fst snd] in Hr.
    eapply fetched_once_same; [exact Hr| |done].
    destruct r as [[raw|e]|]; [|done|done]. destruct (publish_world p raw w1) as [-> | [m ->]]; [done|apply publish_logs]. }
  destruct (poll_one _ _ _ _) as [s1 w1]. by apply IH.
Qed.

(** In one poller tick no Redfish resource is fetched
    twice, however many due readings share it and whether or not the first
    fetch failed. *)
Theorem one_fetch_per_resource nxt sess w :
  let '(_, w') := poll_due pointer points nxt sess w in
  ∃ l, fetch_log w' = fetch_log w ++ l ∧ NoDup l.
Proof.
  unfold poll_due.
  pose proof (poll_fold_once w (due nxt (clock w)) (mkPollState nxt sess ∅) w) as Hf.
  destruct (foldl _ _ _) as [s' w']. destruct Hf as (l & Hl & Hnd & _); [|by exists l].
  exists []. split_and!; [by rewrite app_nil_r|constructor|by intros k ?%not_elem_of_nil].
Qed.
End Fetches.

(** ** The Redfish write body *)

Lemma string_append_nil (t : string) : (t ++ "")%string = t.
Proof. induction t as [|a t IH]; [done|]. change (String a (t ++ "") = String a t). by rewrite IH. Qed.

Section Nest.
Context (pointer : Value → string → option Value).
(** RFC 6901: the empty pointer is the whole document, and a reference token
    selects the member of its unescaped name. *)
Hypothesis pointer_root : ∀ v, pointer v "" = Some v.
Hypothesis pointer_member : ∀ token rest v,
  str_mem "/" token = false → (rest = ""%string ∨ ∃ r, rest = String "/" r) →
  pointer (VObject [(unescape token, v)]) (String "/" (token ++ rest)) = pointer v rest.

Lemma nest_tokens token tokens v :
  str_mem "/" token = false → Forall (λ t, str_mem "/" t = false) tokens →
  nest (str_join "/" (""%string :: token :: tokens)) v =
  VObject [(unescape token, nest (str_join "/" (""%string :: tokens)) v)].
Proof.
  intros Ht Hts. unfold nest. rewrite !str_split_join; try done; try by repeat constructor.
  cbn [drop]. change (rev (token :: tokens)) with (rev tokens ++ [token]). by rewrite foldl_snoc.
Qed.

(** The PATCH body of a setpoint holds the value at
    exactly the binding's JSON pointer: a resource that took the body as it is
    reads back the value written. *)
Theorem redfish_body_holds_value tokens v :
  Forall (λ t, str_mem "/" t = false) tokens →
  let ptr := str_join "/" (""%string :: tokens) in
  pointer (nest ptr v) ptr = Some v.
Proof.
  cbv zeta. revert v. induction tokens as [|t tokens IH]; intros v Hall.
  - apply pointer_root.
  - apply Forall_cons in Hall as [Ht Hts]. rewrite nest_tokens by done.
    rewrite <- (IH v Hts).
    replace (str_join "/" (""%string :: t :: tokens))
      with (String "/" (t ++ str_join "/" (""%string :: tokens))).
    + apply pointer_member; [done|]. destruct tokens; [by left|right; by eexists].
    + destruct tokens as [|u tokens]; [|done].
      change (String "/" (t ++ "") = String "/" t). by rewrite string_append_nil.
Qed.
End Nest.

(** ** Watchdog counters *)

(** The counter written is always below its modulo, moves on
    by one (wrapping to 0) exactly after a write that succeeded, and a device
    that is locked out, or cut off from the broker, is not written at all. *)
Theorem counter_cycles {W} `{South W} (c : Counter) connected locked trust creds count (w : W) :
  2 <= counter_modulo c -> 0 <= count < counter_modulo c ->
  let '(count', w') := counter_tick c connected locked trust creds count w in
  0 <= count' < counter_modulo c ∧
  if connected && negb (bool_decide (counter_device c ∈ locked)) then
    let '(r, w1) := modbus_write (counter_binding c) (of_Z count) trust creds w in
    w' = w1 ∧
    count' = if is_ok r then (if count + 1 =? counter_modulo c then 0 else count + 1) else count
  else count' = count ∧ w' = w.
Proof.
  intros Hm Hc. unfold counter_tick, steerable. destruct (connected && _); [|done].
  destruct (modbus_write _ _ _ _ _) as [[u|e] w1]; cbn [is_ok]; [|done].
  destruct (Z.eqb_spec (count + 1) (counter_modulo c)) as [->|Hne].
  - rewrite Z_mod_same_full. split; [lia|done].
  - rewrite Z.mod_small by lia. split; [lia|done].
Qed.

(** ** A rack and two GPU readings *)

(** The clock, and the resources fetched. *)
Definition DemoReads : Type := Z * list string.

#[export] Instance demo_reads : Reads DemoReads unit := {
  clock w := w.1;
  fetch_resource b w := (Ok (VObject [("PowerWatts"%string, VInt 300)]), (w.1 + 2, w.2 ++ [resource_key b]));
  open_session host _ w := (if bool_decide (host = "dead"%string) then Err "refused"%string else Ok (), (w.1 + 3, w.2));
  modbus_read_on _ _ w := (Ok (Number (of_Z 1)), (w.1 + 1, w.2));
  sunspec_read_on _ _ w := (Ok (Number (of_Z 2)), (w.1 + 1, w.2));
  read_other _ w := (Err (NotAReading VNull), (w.1 + 1, w.2));
  now_rfc3339 _ := "now"%string;
}.

#[export] Instance demo_publisher : Publisher DemoReads := λ _ w, (None, w).

Fixpoint demo_walk (tokens : list string) (v : Value) : option Value :=
  match tokens with
  | [] => Some v
  | t :: tokens => v ← field v (unescape t); demo_walk tokens v
  end.

(** [pointer] on objects. *)
Definition demo_pointer (v : Value) (ptr : string) : option Value :=
  match str_split "/" ptr with ""%string :: tokens => demo_walk tokens v | _ => None end.

Lemma demo_pointer_member token rest v :
  str_mem "/" token = false → (rest = ""%string ∨ ∃ r, rest = String "/" r) →
  demo_pointer (VObject [(unescape token, v)]) (String "/" (token ++ rest)) = demo_pointer v rest.
Proof.
  intros Ht Hr. unfold demo_pointer.
  assert (field (VObject [(unescape token, v)]) (unescape token) = Some v) as Hf
    by (unfold field; cbn [find_first fst]; by rewrite bool_decide_true).
  change (String "/" (token ++ rest)) with ("" ++ String "/" (token ++ rest))%string.
  rewrite str_split_app by done. destruct Hr as [->|[r ->]].
  - rewrite string_append_nil, str_split_none by done. cbn [demo_walk]. by rewrite Hf.
  - rewrite str_split_app by done. cbn [demo_walk]. rewrite Hf.
    change (String "/" r) with ("" ++ String "/" r)%string. by rewrite str_split_app.
Qed.

Lemma redfish_body_holds_value_witness :
  nest "/Controls/Max~1Limit" (VInt 300) =
    VObject [("Controls"%string, VObject [("Max/Limit"%string, VInt 300)])] ∧
  demo_pointer (nest "/Controls/Max~1Limit" (VInt 300)) "/Controls/Max~1Limit" = Some (VInt 300).
Proof.
  split; [by vm_compute|].
  refine (redfish_body_holds_value demo_pointer _ demo_pointer_member ["Controls"; "Max~1Limit"]%string
    (VInt 300) _); [by intros v|by repeat constructor].
Defined.

Definition demo_gpu_point (name : string) : Point :=
  mkPollPoint name (Redfish (mkRedfish "bmc" 443 "/gpu" (Some "/PowerWatts"%string) (of_Z 1))) 10
    None None.

Definition demo_points : list Point :=
  [demo_gpu_point "a"; demo_gpu_point "b";
   mkPollPoint "c" (Sunspec (mkSunspec "dead" 502 "1" 1 "DA" None)) 5 None None;
   mkPollPoint "d" (Sunspec (mkSunspec "pcs" 502 "1" 1 "DA" None)) 5 None None].

(** At 100: two GPU readings due (one late by more than a period), the dead
    device due, the last reading not yet. *)
Example demo_poll :
  let '(s, w) := poll_due demo_pointer demo_points [100; 80; 98; 101] ∅ (100, []) in
  next s = [110; 112; 110; 101] ∧ w = (105, ["bmc:443/gpu"%string]).
Proof. vm_compute. done. Qed.


Lemma one_fetch_per_resource_witness :
  let '(_, w') := poll_due demo_pointer demo_points [100; 80; 98; 101] ∅ (100, []) in
  ∃ l, w'.2 = [] ++ l ∧ NoDup l.
Proof.
  refine (one_fetch_per_resource demo_pointer demo_points (λ w : DemoReads, w.2) _ _ _ _ _ _
    [100; 80; 98; 101] ∅ (100, [])); done.
Defined.

Definition demo_counter : Counter :=
  mkCounter "bms" (mkModbus "bms" 502 "100" 896 (of_Z 1) (of_Z 0) Codec.Uint16 Codec.HighLow (Some 6) None)
    256 1000.

Lemma counter_cycles_witness :
  counter_tick demo_counter true ∅ None None 255 demo_w0 =
    (0, mkDemoSite [] [("bms"%string, of_Z 255)]) ∧
  let '(count', w') := counter_tick demo_counter true {["bms"%string]} None None 255 demo_w0 in
  0 <= count' < 256 ∧ count' = 255 ∧ w' = demo_w0.
Proof.
  split; [by vm_compute|].
  refine (counter_cycles demo_counter true {["bms"%string]} None None 255 demo_w0 _ _);
    simpl; lia.
Defined.
