(* ===== verification/Southbound.v ===== *)
(** * South side: [src/read.rs], the HTTP half of [src/redfish/client.rs] and
    [write.rs]

    One read of one measurement, whatever its protocol, and the HTTP sessions
    Redfish keeps.  [reqwest] is the class [Http]: a client is built once, kept
    in a process-wide cache and dialled with a URL. *)

From Stdlib Require Import ZArith Lia Floats Ascii.
From stdpp Require Import pretty.
From S2P Require Import Prelude F64 Binary64 Text Integers Cache Payload Bindings Transport.
From S2P Require Import Clients Sunspec Dispatch Poller.
Local Open Scope Z_scope.
Local Open Scope gateway_scope.

(** ** HTTP clients *)

(** [(ca_bundle_path, cert_path, key_path)]. *)
Definition CredsKey : Type := string * string * string.
Definition creds_key (c : GatewayCredentials) : CredsKey := (ca_bundle_path c, cert_path c, key_path c).

(** A GET's answer: its status and its body as JSON, or a transport error. *)
Inductive HttpAnswer :=
| Response (status : Z) (json : option Value)
| NoResponse (what : string).

Class Http (W client : Type) := {
  build_plain : W → result string client * W;
  read_file : string → W → result string string * W;
  certificate_from_pem : string → bool;            (* whether the PEM parses *)
  identity_from_pem : string → bool;
  (* a client that trusts the CA bundle alone and presents the identity *)
  build_mtls : string → string → W → result string client * W;
  http_get : client → string → W → HttpAnswer * W;
  (* PATCH with [If-Match: *]: the status, or a transport error *)
  http_patch : client → string → Value → W → result string Z * W;
  (* the statics [PLAIN] and [MTLS] *)
  plain_slot : W → option client;
  set_plain_slot : client → W → W;
  mtls_slots : W → gmap CredsKey client;
  set_mtls_slots : gmap CredsKey client → W → W;
}.

Inductive redfish_error :=
| HttpFailed (e : read_failure)
| BodyNotJson
| BadReading (e : read_error)
| NeedsPointer (uri : string)
| PatchRefused (status : Z).

(** [StatusCode::is_success]. *)
Definition is_success (status : Z) : bool := (200 <=? status) && (status <? 300).

Section Redfish.
Context {W client : Type} `{Http W client} `{Sleep W}.
Context (pointer : Value → string → option Value).

(** [redfish/tls.rs]: the identity is the key's PEM followed by the
    certificate's. *)
Definition build_https_client (creds : GatewayCredentials) (w : W) : result read_failure client * W :=
  and_then (library (read_file (ca_bundle_path creds) w)) (λ ca_pem w,
  and_then (if certificate_from_pem ca_pem then Ok () else Err (LibraryError "parse CA bundle PEM"), w) (λ _ w,
  and_then (library (read_file (cert_path creds) w)) (λ cert_pem w,
  and_then (library (read_file (key_path creds) w)) (λ key_pem w,
  let combined := (key_pem ++ cert_pem)%string in
  and_then (if identity_from_pem combined then Ok () else Err (LibraryError "build reqwest Identity"), w) (λ _ w,
  library (build_mtls ca_pem combined w)))))).

(** What another task built meanwhile wins ([get_or_init], [or_insert]). *)
Definition plain_client (w : W) : result read_failure client * W :=
  match plain_slot w with
  | Some c => (Ok c, w)
  | None =>
      and_then (library (build_plain w)) (λ c w,
      match plain_slot w with
      | Some c => (Ok c, w)
      | None => (Ok c, set_plain_slot c w)
      end)
  end.

Definition https_client (creds : GatewayCredentials) (w : W) : result read_failure client * W :=
  let key := creds_key creds in
  match mtls_slots w !! key with
  | Some c => (Ok c, w)
  | None =>
      and_then (build_https_client creds w) (λ c w,
      match mtls_slots w !! key with
      | Some c => (Ok c, w)
      | None => (Ok c, set_mtls_slots (<[key := c]> (mtls_slots w)) w)
      end)
  end.

(** The client and scheme a device is dialled with. *)
Definition client_for (trust : option DeviceTrust) (creds : option GatewayCredentials) (w : W)
    : result read_failure (client * string) * W :=
  match trust, creds with
  | Some (TlsMutual _), Some creds =>
      and_then (https_client creds w) (λ c w, (Ok (c, "https"%string), w))
  | _, _ => and_then (plain_client w) (λ c w, (Ok (c, "http"%string), w))
  end.

Definition redfish_url (scheme : string) (b : RedfishBinding) : string :=
  (scheme ++ "://" ++ rf_host b ++ ":" ++ pretty (rf_port b) ++ "/redfish/v1" ++ rf_uri b)%string.

(** One GET: a non-success status and a transport error are tried again. *)
Definition get_once (c : client) (url : string) (w : W) : result read_failure (option Value) * W :=
  let '(answer, w) := http_get c url w in
  (match answer with
   | Response status json =>
       if is_success status then Ok json
       else Err (LibraryError ("redfish HTTP " ++ pretty status))
   | NoResponse what => Err (LibraryError what)
   end, w).

(** A body that is no JSON is final. *)
Definition fetch (c : client) (url : string) (w : W) : result redfish_error Value * W :=
  match with_retries (get_once c url) w with
  | (Ok (Some body), w) => (Ok body, w)
  | (Ok None, w) => (Err BodyNotJson, w)
  | (Err e, w) => (Err (HttpFailed e), w)
  end.

Definition redfish_fetch_resource (b : RedfishBinding) (trust : option DeviceTrust)
    (creds : option GatewayCredentials) (w : W) : result redfish_error Value * W :=
  match client_for trust creds w with
  | (Err e, w) => (Err (HttpFailed e), w)
  | (Ok (c, scheme), w) => fetch c (redfish_url scheme b) w
  end.

Definition redfish_read_measurement (b : RedfishBinding) (trust : option DeviceTrust)
    (creds : option GatewayCredentials) (w : W) : result redfish_error Raw * W :=
  and_then (redfish_fetch_resource b trust creds w) (λ body w,
  (match extract pointer body b with Ok raw => Ok raw | Err e => Err (BadReading e) end, w)).

Definition redfish_write_setpoint (b : RedfishBinding) (value : f64) (trust : option DeviceTrust)
    (creds : option GatewayCredentials) (w : W) : result redfish_error unit * W :=
  match rf_json_pointer b with
  | None => (Err (NeedsPointer (rf_uri b)), w)
  | Some ptr =>
      match client_for trust creds w with
      | (Err e, w) => (Err (HttpFailed e), w)
      | (Ok (c, scheme), w) =>
          let body := nest ptr (json_f64 (f_div value (rf_scale b))) in
          match http_patch c (redfish_url scheme b) body w with
          | (Err e, w) => (Err (HttpFailed (LibraryError e)), w)
          | (Ok status, w) => (if is_success status then Ok () else Err (PatchRefused status), w)
          end
      end
  end.
End Redfish.

(** ** [read.rs] *)

Inductive value_error :=
| ModbusRead (e : modbus_error)
| SunspecRead (e : sunspec_error)
| ClientRead (e : read_failure)
| RedfishRead (e : redfish_error).

(** An answer, the panic of [unreachable!], or a SunSpec discovery still
    walking when its [fuel] ran out. *)
Inductive Outcome (W : Type) :=
| Answered (r : result value_error Raw) (w : W)
| Unreachable
| Discovering.
Arguments Answered {W} r w.
Arguments Unreachable {W}.
Arguments Discovering {W}.

Definition answered {W A E} (wrap : E → value_error) (f : A → Raw) (r : result E A * W) : Outcome W :=
  Answered (match r.1 with Ok a => Ok (f a) | Err e => Err (wrap e) end) r.2.

Definition virtual (b : ProtocolBinding) : bool :=
  match b with Synthetic _ | Distribute _ | PowerCap _ => true | _ => false end.

Section Read.
Context {W snmp_session addr socket link config assoc client : Type}.
Context `{Rodbus W} `{SessionCache W} `{SunspecState W} `{Sleep W}.
Context `{SnmpLib W snmp_session} `{BacnetCodec} `{Udp W addr socket} `{ScLib W link}.
Context `{Dnp3Lib W config assoc} `{Http W client}.
Context (env : string → option string) (pointer : Value → string → option Value) (fuel : nat).

Definition read_value (binding : ProtocolBinding) (trust : option DeviceTrust)
    (creds : option GatewayCredentials) (w : W) : Outcome W :=
  match binding with
  | ModbusTcp b => answered ModbusRead Number (read_measurement b trust creds w)
  | Snmp b => answered ClientRead Number (snmp_read_measurement env b trust w)
  | Redfish b => answered RedfishRead id (redfish_read_measurement pointer b trust creds w)
  | Dnp3Tcp b => answered ClientRead Number (dnp3_read_measurement b trust creds w)
  | BacnetIp b => answered ClientRead Number (bacnet_read_measurement b w)
  | BacnetSc b => answered ClientRead Number (sc_read_measurement b creds w)
  | Sunspec b =>
      match channel (ss_host b) (ss_port b) trust creds w with
      | (Err e, w) => Answered (Err (ModbusRead e)) w
      | (Ok session, w) =>
          match Sunspec.sunspec_read_on fuel session b w with
          | None => Discovering
          | Some r => answered SunspecRead Number r
          end
      end
  | Synthetic _ | Distribute _ | PowerCap _ => Unreachable
  end.

(** A read panics on the bindings that are no device's. *)
Lemma read_value_unreachable b trust creds w :
  read_value b trust creds w = Unreachable ↔ virtual b = true.
Proof.
  destruct b; try (by split). cbn [read_value virtual].
  destruct (channel _ _ _ _ _) as [[s|e] w1]; [|by split]. by destruct (Sunspec.sunspec_read_on _ _ _ _).
Qed.
End Read.

(** ** Who a device is dialled as *)

Section Identity.
Context {W client : Type} `{Http W client}.
(** The PEMs a client was built with: its trust anchor and its identity. *)
Context (identity : client → option (string * string)).
(** What the credential files hold. *)
Context (file : string → string).

Definition identity_of (k : CredsKey) : string * string :=
  let '(ca, cert, key) := k in (file ca, (file key ++ file cert)%string).

(** Every cached client is under the credentials it was built with. *)
Definition slots_ok (w : W) : Prop :=
  (∀ c, plain_slot w = Some c → identity c = None) ∧
  (∀ k c, mtls_slots w !! k = Some c → identity c = Some (identity_of k)).

Hypothesis plain_built : ∀ w, slots_ok w →
  slots_ok (build_plain w).2 ∧ ∀ c, (build_plain w).1 = Ok c → identity c = None.
Hypothesis mtls_built : ∀ ca id w, slots_ok w → slots_ok (build_mtls ca id w).2 ∧
  ∀ c, (build_mtls ca id w).1 = Ok c → identity c = Some (ca, id).
Hypothesis files_stay : ∀ path w, slots_ok w → slots_ok (read_file path w).2 ∧
  ∀ pem, (read_file path w).1 = Ok pem → pem = file path.
Hypothesis plain_set : ∀ c w, plain_slot (set_plain_slot c w) = Some c ∧
  mtls_slots (set_plain_slot c w) = mtls_slots w.
Hypothesis mtls_set : ∀ m w, mtls_slots (set_mtls_slots m w) = m ∧
  plain_slot (set_mtls_slots m w) = plain_slot w.

Lemma https_built creds w :
  slots_ok w → slots_ok (build_https_client creds w).2 ∧
    ∀ c, (build_https_client creds w).1 = Ok c → identity c = Some (identity_of (creds_key creds)).
Proof.
  intros Hw. unfold build_https_client.
  destruct (files_stay (ca_bundle_path creds) w Hw) as [H1 Hca].
  destruct (read_file (ca_bundle_path creds) w) as [[ca|e] w1]; [|done].
  cbn [and_then library fst snd] in *. rewrite (Hca ca eq_refl) in *.
  destruct (certificate_from_pem _); [|done]. cbn [and_then].
  destruct (files_stay (cert_path creds) w1 H1) as [H2 Hcert].
  destruct (read_file (cert_path creds) w1) as [[cert|e] w2]; [|done].
  cbn [and_then library fst snd] in *. rewrite (Hcert cert eq_refl) in *.
  destruct (files_stay (key_path creds) w2 H2) as [H3 Hkey].
  destruct (read_file (key_path creds) w2) as [[key|e] w3]; [|done].
  cbn [and_then library fst snd] in *. rewrite (Hkey key eq_refl) in *.
  destruct (identity_from_pem _); [|done]. cbn [and_then].
  destruct (mtls_built (file (ca_bundle_path creds)) (file (key_path creds) ++ file (cert_path creds)) w3 H3)
    as [H4 Hid].
  destruct (build_mtls _ _ w3) as [[c|e] w4]; [|done]. cbn [library fst snd] in *.
  split; [done|]. intros c' [= <-]. by rewrite Hid.
Qed.

Lemma plain_client_identity w :
  slots_ok w → slots_ok (plain_client w).2 ∧ ∀ c, (plain_client w).1 = Ok c → identity c = None.
Proof.
  intros Hw. unfold plain_client. destruct (plain_slot w) as [c|] eqn:Hc.
  { split; [done|]. intros c' [= <-]. by apply (proj1 Hw). }
  destruct (plain_built w Hw) as [Hb Hid]. destruct (build_plain w) as [[c|e] w1]; [|done].
  cbn [and_then library fst snd] in *. destruct (plain_slot w1) as [c'|] eqn:Hc1.
  { split; [done|]. intros c'' [= <-]. by apply (proj1 Hb). }
  destruct (plain_set c w1) as [Hp Hm]. cbn [fst snd]. split; [|by intros c' [= <-]; apply Hid].
  split; [intros c'; rewrite Hp; intros [= <-]; by apply Hid|rewrite Hm; apply (proj2 Hb)].
Qed.

Lemma https_client_identity creds w :
  slots_ok w → slots_ok (https_client creds w).2 ∧
    ∀ c, (https_client creds w).1 = Ok c → identity c = Some (identity_of (creds_key creds)).
Proof.
  intros Hw. unfold https_client. destruct (mtls_slots w !! creds_key creds) as [c|] eqn:Hc.
  { split; [done|]. intros c' [= <-]. by apply (proj2 Hw). }
  destruct (https_built creds w Hw) as [Hb Hid].
  destruct (build_https_client creds w) as [[c|e] w1]; [|done].
  cbn [and_then fst snd] in *.
  destruct (mtls_slots w1 !! creds_key creds) as [c'|] eqn:Hc1.
  { split; [done|]. intros c'' [= <-]. by apply (proj2 Hb). }
  destruct (mtls_set (<[creds_key creds := c]> (mtls_slots w1)) w1) as [Hm Hp].
  cbn [fst snd]. split; [|by intros c' [= <-]; apply Hid]. split; [rewrite Hp; apply (proj1 Hb)|].
  intros k c'. rewrite Hm. destruct (decide (k = creds_key creds)) as [->|Hk].
  - rewrite lookup_insert_eq. intros [= <-]. by apply Hid.
  - rewrite lookup_insert_ne by done. apply (proj2 Hb).
Qed.

(** A device that requires mutual TLS, on a gateway that has
    credentials, is dialled over https with a client that trusts exactly the
    configured CA file and presents the configured key and certificate; any
    other device over http with the plain client.  A cached client is never
    reused under other credentials, as long as the files stay as they are. *)
Theorem redfish_dials_its_identity trust creds w :
  slots_ok w →
  let '(r, w') := client_for trust creds w in
  slots_ok w' ∧
  ∀ c scheme, r = Ok (c, scheme) →
    match trust, creds with
    | Some (TlsMutual _), Some creds => scheme = "https"%string ∧ identity c = Some (identity_of (creds_key creds))
    | _, _ => scheme = "http"%string ∧ identity c = None
    end.
Proof.
  intros Hw. unfold client_for.
  assert (let '(r, w') := and_then (plain_client w) (λ c w, (Ok (c, "http"%string), w)) in
    slots_ok w' ∧ ∀ c scheme, r = Ok (c, scheme) → scheme = "http"%string ∧ identity c = None) as Hplain.
  { destruct (plain_client_identity w Hw) as [Ho Hid].
    destruct (plain_client w) as [[c|e] w']; [|done]. split; [done|].
    intros c' scheme [= <- <-]. split; [done|by apply Hid]. }
  destruct trust as [[subject|name a p]|]; [destruct creds as [creds|]|..]; try exact Hplain.
  destruct (https_client_identity creds w Hw) as [Ho Hid].
  destruct (https_client creds w) as [[c|e] w']; [|done]. split; [done|].
  intros c' scheme [= <- <-]. split; [done|by apply Hid].
Qed.
End Identity.

(** A client that is its own identity, the two caches, and files that hold
    their own names. *)
#[export] Instance demo_http : Http (option (option (string * string)) * gmap CredsKey (option (string * string)))
    (option (string * string)) := {
  build_plain w := (Ok None, w);
  read_file path w := (Ok path, w);
  certificate_from_pem _ := true;
  identity_from_pem _ := true;
  build_mtls ca id w := (Ok (Some (ca, id)), w);
  http_get _ _ w := (NoResponse "down", w);
  http_patch _ _ _ w := (Ok 204, w);
  plain_slot w := w.1;
  set_plain_slot c w := (Some c, w.2);
  mtls_slots w := w.2;
  set_mtls_slots m w := (w.1, m);
}.

Definition demo_creds : GatewayCredentials := mkCredentials "gw.crt" "gw.key" "ca.crt".

Lemma redfish_dials_its_identity_witness :
  let '(r, w') := client_for (Some (TlsMutual "bmc")) (Some demo_creds) (None, ∅) in
  slots_ok id id w' ∧ r = Ok (Some ("ca.crt", "gw.keygw.crt")%string, "https"%string) ∧
  ∀ c scheme, r = Ok (c, scheme) → scheme = "https"%string ∧ c = Some ("ca.crt", "gw.keygw.crt")%string.
Proof.
  assert (let '(r, w') := client_for (Some (TlsMutual "bmc")) (Some demo_creds) (None, ∅) in
    slots_ok id id w' ∧ ∀ c scheme, r = Ok (c, scheme) → scheme = "https"%string ∧
      c = Some (identity_of id (creds_key demo_creds))) as H.
  { refine (redfish_dials_its_identity id id _ _ _ _ _ (Some (TlsMutual "bmc")) (Some demo_creds) (None, ∅) _).
    - intros w Hw. split; [done|]. by intros c [= <-].
    - intros ca i w Hw. split; [done|]. by intros c [= <-].
    - intros path w Hw. split; [done|]. by intros pem [= <-].
    - done.
    - done.
    - split; [done|]. intros k c Hk. exfalso. by apply (lookup_empty_Some k c) in Hk. }
  destruct H as [Hw Hc]. exact (conj Hw (conj eq_refl Hc)).
Defined.

(** A world whose only device is the Modbus one: every other call fails. *)
#[export] Instance mem_sleep : Sleep MemWorld := { sleep_ms _ w := w }.
#[export] Instance mem_snmp : SnmpLib MemWorld unit := {
  oid_valid _ := true;
  new_v2c _ _ w := (Err "down", w); new_v3 _ _ w := (Err "down", w);
  snmp_init _ w := (Err "down", w); snmp_get _ _ w := (Err "down", w);
}.
#[export] Instance mem_udp : Udp MemWorld unit unit := {
  lookup_host _ _ w := (Err "down", w); is_ipv4 _ := true; bind _ w := (Err "down", w);
  send_to _ _ _ w := (Err "down", w); recv _ w := (Err "down", w);
}.
#[export] Instance mem_sc : ScLib MemWorld unit := {
  subsec_nanos w := (0, w); sc_connect _ w := (Err "down", w); sc_read_property _ _ _ w := (Err "down", w);
}.
#[export] Instance mem_dnp3 : Dnp3Lib MemWorld unit unit := {
  dnp3_full_pki _ _ _ _ w := (Err "down", w); dnp3_connect _ _ _ w := (Err "down", w);
  dnp3_read _ _ _ w := (Err "down", w);
}.
#[export] Instance mem_http : Http MemWorld unit := {
  build_plain w := (Ok (), w); read_file _ w := (Err "none", w); certificate_from_pem _ := true;
  identity_from_pem _ := true; build_mtls _ _ w := (Ok (), w);
  http_get _ _ w := (NoResponse "down", w); http_patch _ _ _ w := (Err "down", w);
  plain_slot _ := None; set_plain_slot _ w := w; mtls_slots _ := ∅; set_mtls_slots _ w := w;
}.
