(* ===== verification/DeviceApi.v ===== *)
(** * Device API: [src/http/client.rs] and [src/loto/mod.rs::parse]

    The two documents the gateway fetches from device-api, with the retries of
    [get_with_backoff].  [reqwest] and the [backoff] crate are the class
    [DeviceApi]; the reading of a text into a tree is a parameter, and what the
    tree says is [Decode]'s. *)

From Stdlib Require Import ZArith Lia.
From stdpp Require Import pretty.
From S2P Require Import Prelude Cache Bindings Decode.
Local Open Scope Z_scope.
Local Open Scope gateway_scope.

(** A GET's answer: its status and its body, [None] when the body could not be
    read; or a transport error. *)
Inductive ApiAnswer :=
| ApiResponse (status : Z) (body : option string)
| ApiUnreachable (what : string).

Inductive api_error :=
| ClientUnbuilt (what : string)
| Unreachable (what : string)
| ServerError (status : Z)
| StatusError (status : Z)
| BodyUnread (status : Z)
| SpecUnparsed
| SpecInvalid
| LotoUnparsed.

(** [backoff::Error]. *)
Inductive attempt_error := Transient (e : api_error) | Permanent (e : api_error).

Class DeviceApi (W client : Type) := {
  build_client : W → result string client * W;
  api_get : client → string → W → ApiAnswer * W;
  (* [ExponentialBackoff]: restarted when [retry] begins; how many ms to wait
     before the next attempt, [None] when the 60 s are used up *)
  backoff_reset : W → W;
  next_backoff : W → option Z * W;
  api_sleep : Z → W → W;
}.

(** [StatusCode::is_server_error], and what [error_for_status] refuses. *)
Definition is_server_error (status : Z) : bool := (500 <=? status) && (status <? 600).
Definition is_client_error (status : Z) : bool := (400 <=? status) && (status <? 500).

Section Fetch.
Context {W client : Type} `{DeviceApi W client}.

(** The closure [retry] runs. *)
Definition attempt (c : client) (url : string) (w : W) : result attempt_error string * W :=
  let '(answer, w) := api_get c url w in
  (match answer with
   | ApiUnreachable what => Err (Transient (Unreachable what))
   | ApiResponse status body =>
       if is_server_error status then Err (Transient (ServerError status))
       else if is_client_error status then Err (Permanent (StatusError status))
       else ok_or body (Permanent (BodyUnread status))
   end, w).

(** [retry]'s loop; [None]: still at it after [fuel] attempts. *)
Fixpoint retry_attempts (fuel : nat) (c : client) (url : string) (w : W)
    : option (result api_error string * W) :=
  match fuel with
  | O => None
  | S fuel =>
      match attempt c url w with
      | (Ok body, w) => Some (Ok body, w)
      | (Err (Permanent e), w) => Some (Err e, w)
      | (Err (Transient e), w) =>
          match next_backoff w with
          | (None, w) => Some (Err e, w)
          | (Some ms, w) => retry_attempts fuel c url (api_sleep ms w)
          end
      end
  end.

Definition get_with_backoff (fuel : nat) (url : string) (w : W) : option (result api_error string * W) :=
  match build_client w with
  | (Err e, w) => Some (Err (ClientUnbuilt e), w)
  | (Ok c, w) => retry_attempts fuel c url (backoff_reset w)
  end.

(** ** The documents *)

Definition SpecInfo_valid (spec : AsyncApiSpec) : bool :=
  negb (bool_decide (spec_version spec = ""%string)).

(** The tree of a JSON text. *)
Context (from_str : string → option Value).

(** [serde_json::from_str::<AsyncApiSpec>]. *)
Definition spec_from_str (body : string) : option AsyncApiSpec :=
  doc ← from_str body; AsyncApiSpec_decode doc.

Definition fetch_asyncapi (fuel : nat) (base_url : string) (w : W)
    : option (result api_error AsyncApiSpec * W) :=
  '(r, w) ← get_with_backoff fuel (base_url ++ "/asyncapi") w;
  Some (body <-? r;
        spec <-? ok_or (spec_from_str body) SpecUnparsed;
        if SpecInfo_valid spec then Ok spec else Err SpecInvalid, w).

(** [LotoResponse] from a document. *)
Definition locked_devices (doc : Value) : option (list string) :=
  get ← struct_fields false ["locked_devices"%string] doc;
  required (vec as_str) (get "locked_devices"%string).

(** [loto::parse]. *)
Definition loto_parse (body : string) : result api_error (gset string) :=
  ids <-? ok_or (doc ← from_str body; locked_devices doc) LotoUnparsed;
  Ok (list_to_set ids).

Definition fetch_loto (fuel : nat) (base_url : string) (w : W)
    : option (result api_error (gset string) * W) :=
  '(r, w) ← get_with_backoff fuel (base_url ++ "/loto") w;
  Some (body <-? r; loto_parse body, w).

(** A fetched spec is one its types hold, entry by entry. *)
Lemma fetched_spec_typed fuel base_url w spec w' :
  fetch_asyncapi fuel base_url w = Some (Ok spec, w') → spec_typed spec ∧ spec_version spec ≠ ""%string.
Proof.
  unfold fetch_asyncapi. intros ([r w1] & _ & Hf)%bind_Some. injection Hf as Hf _.
  apply result_bind_Ok in Hf as (body & _ & (s & Hs%ok_or_Ok & Hf)%result_bind_Ok).
  destruct (SpecInfo_valid s) eqn:Hv; [|done]. injection Hf as ->.
  unfold spec_from_str in Hs. apply bind_Some in Hs as (doc & _ & Hd).
  split; [by eapply decoded_spec_typed|]. unfold SpecInfo_valid in Hv. by bool_simpl.
Qed.

(** ** How a fetch ends *)

(** The answer that decided: the last of the attempts, all before it transient. *)
Inductive decided (c : client) (url : string) : W → result api_error string → W → Prop :=
| decided_ok w body w' : attempt c url w = (Ok body, w') → decided c url w (Ok body) w'
| decided_permanent w e w' : attempt c url w = (Err (Permanent e), w') → decided c url w (Err e) w'
| decided_timeout w e w1 w' : attempt c url w = (Err (Transient e), w1) →
    next_backoff w1 = (None, w') → decided c url w (Err e) w'
| decided_later w e w1 ms w2 r w' : attempt c url w = (Err (Transient e), w1) →
    next_backoff w1 = (Some ms, w2) → decided c url (api_sleep ms w2) r w' → decided c url w r w'.

Lemma retry_decided fuel c url w r w' :
  retry_attempts fuel c url w = Some (r, w') → decided c url w r w'.
Proof.
  revert w. induction fuel as [|fuel IH]; intros w; [done|]. cbn [retry_attempts].
  destruct (attempt c url w) as [[body|[e|e]] w1] eqn:Ha.
  - intros [= <- <-]. by constructor.
  - destruct (next_backoff w1) as [[ms|] w2] eqn:Hb.
    + intros Hr. eapply decided_later; [exact Ha|exact Hb|by apply IH].
    + intros [= <- <-]. by eapply decided_timeout.
  - intros [= <- <-]. by constructor.
Qed.

Lemma attempt_ok c url w body w' :
  attempt c url w = (Ok body, w') →
  ∃ status, api_get c url w = (ApiResponse status (Some body), w') ∧
    is_server_error status = false ∧ is_client_error status = false.
Proof.
  unfold attempt. destruct (api_get c url w) as [[status [b|]|what] w1]; [..|done];
    destruct (is_server_error status) eqn:Hs, (is_client_error status) eqn:Hc; try done.
  intros [= -> ->]. by exists status.
Qed.

Lemma decided_answer c url w body w' :
  decided c url w (Ok body) w' →
  ∃ w0 status, api_get c url w0 = (ApiResponse status (Some body), w') ∧
    is_server_error status = false ∧ is_client_error status = false.
Proof.
  remember (Ok body) as r eqn:Hr. induction 1 as [w b w' Ha|w e w' Ha|w e w1 w' Ha Hb|w e w1 ms w2 r w' Ha Hb _ IH].
  - injection Hr as ->. apply attempt_ok in Ha as (status & ?). by exists w, status.
  - done.
  - done.
  - by apply IH.
Qed.

(** ** Time *)

(** The wall clock in ms, and when the current [retry] began.  A request takes
    at most [T] and a sleep overruns by at most [slack]; the crate waits at
    least 500 ms (half its first interval) and never past 60 s. *)
Context (clock started : W → Z) (T slack : Z).
Hypothesis get_time : ∀ c url w, clock w <= clock (api_get c url w).2 <= clock w + T ∧
  started (api_get c url w).2 = started w.
Hypothesis reset_time : ∀ w, started (backoff_reset w) = clock w ∧ clock (backoff_reset w) = clock w.
Hypothesis backoff_time : ∀ w, clock (next_backoff w).2 = clock w ∧ started (next_backoff w).2 = started w ∧
  ∀ ms, (next_backoff w).1 = Some ms → 500 <= ms ∧ clock w + ms <= started w + 60000.
Hypothesis sleep_time : ∀ ms w, clock w + ms <= clock (api_sleep ms w) <= clock w + ms + slack ∧
  started (api_sleep ms w) = started w.

Lemma attempt_time c url w :
  clock w <= clock (attempt c url w).2 <= clock w + T ∧ started (attempt c url w).2 = started w.
Proof. unfold attempt. pose proof (get_time c url w). by destruct (api_get c url w). Qed.

Lemma retry_ends n c url w :
  started w <= clock w <= started w + 60000 + slack →
  started w + 60000 - clock w < 500 * Z.of_nat (S n) →
  ∃ r w', retry_attempts (S n) c url w = Some (r, w') ∧ clock w' <= started w + 60000 + slack + T.
Proof.
  revert w. induction n as [|n IH]; intros w Hin Hn; remember (S _) as fuel eqn:Hf in |- *;
    rewrite Hf; clear Hf fuel; cbn [retry_attempts];
    pose proof (attempt_time c url w) as [Hc Hs];
    (destruct (attempt c url w) as [[body|[e|e]] w1]; cbn [snd] in *;
      [do 2 eexists; split; [done|lia]| |do 2 eexists; split; [done|lia]]);
    pose proof (backoff_time w1) as (Hc1 & Hs1 & Hms);
    (destruct (next_backoff w1) as [[ms|] w2]; cbn [fst snd] in *;
      [|do 2 eexists; split; [done|lia]]);
    specialize (Hms ms eq_refl); [lia|].
  pose proof (sleep_time ms w2) as [Hc2 Hs2].
  destruct (IH (api_sleep ms w2)) as (r & w' & Hr & Hw); [lia|lia|]. exists r, w'. split; [exact Hr|lia].
Qed.

Lemma get_ends url w c w0 :
  build_client w = (Ok c, w0) → 0 <= T → 0 <= slack →
  ∃ r w', get_with_backoff 121 url w = Some (r, w') ∧ clock w' <= clock w0 + 60000 + slack + T ∧
    decided c url (backoff_reset w0) r w'.
Proof.
  intros Hb HT Hslack. unfold get_with_backoff. rewrite Hb. destruct (reset_time w0) as [Hs Hc].
  destruct (retry_ends 120 c url (backoff_reset w0)) as (r & w' & Hr & Hw); [lia|lia|].
  exists r, w'. split; [done|]. split; [lia|]. by eapply retry_decided.
Qed.

(** A fetch of the lockouts answers within a minute and one request, in at
    most 121 requests, whatever device-api does; and a locked set it answers
    with is exactly the devices listed in a body device-api sent with a status
    that is no error: a transport error, a 5xx, a 4xx and a body that is not
    the document never yield a set, so none unlocks a device. *)
Theorem lockout_fetch_ends base_url w c w0 :
  build_client w = (Ok c, w0) → 0 <= T → 0 <= slack →
  ∃ r w', fetch_loto 121 base_url w = Some (r, w') ∧ clock w' <= clock w0 + 60000 + slack + T ∧
    ∀ locked, r = Ok locked →
      ∃ w1 status body doc ids,
        api_get c (base_url ++ "/loto") w1 = (ApiResponse status (Some body), w') ∧
        is_server_error status = false ∧ is_client_error status = false ∧
        from_str body = Some doc ∧ locked_devices doc = Some ids ∧
        ∀ d, d ∈ locked ↔ d ∈ ids.
Proof.
  intros Hb HT Hslack. unfold fetch_loto.
  destruct (get_ends (base_url ++ "/loto") w c w0 Hb HT Hslack) as (r & w' & -> & Hw & Hd).
  cbn [mbind option_bind]. do 2 eexists. split; [done|]. split; [lia|].
  intros locked Hlocked. destruct r as [body|e]; [|done].
  cbn [result_bind] in Hlocked. unfold loto_parse in Hlocked.
  apply decided_answer in Hd as (w1 & status & Hget & Hse & Hce).
  destruct (from_str body) as [doc|] eqn:Hdoc; [|done]. cbn [mbind option_bind] in Hlocked.
  destruct (locked_devices doc) as [ids|] eqn:Hids; [|done]. injection Hlocked as <-.
  exists w1, status, body, doc, ids. split_and!; try done. intros d. apply elem_of_list_to_set.
Qed.
End Fetch.

(** A device-api that answers 503 twice, then the document: the world is the
    time, the start of the retry and the requests served. *)
Record ApiWorld := mkApiWorld { aw_clock : Z; aw_started : Z; aw_served : nat }.

#[export] Instance demo_api : DeviceApi ApiWorld unit := {
  build_client w := (Ok (), w);
  api_get _ _ w :=
    (if bool_decide (aw_served w < 2)%nat then ApiResponse 503 (Some ""%string)
     else ApiResponse 200 (Some "body"%string),
     mkApiWorld (aw_clock w + 20) (aw_started w) (S (aw_served w)));
  backoff_reset w := mkApiWorld (aw_clock w) (aw_clock w) (aw_served w);
  next_backoff w :=
    (if aw_clock w + 1000 <=? aw_started w + 60000 then Some 1000 else None, w);
  api_sleep ms w := mkApiWorld (aw_clock w + ms) (aw_started w) (aw_served w);
}.

Definition demo_body (body : string) : option Value :=
  Some (VObject [("locked_devices"%string, VArray [VString "rack_1"; VString "rack_1"; VString "bmc_2"])]).

Lemma lockout_fetch_ends_witness :
  ∃ r w', fetch_loto demo_body 121 "http://api" (mkApiWorld 0 0 0) = Some (r, w') ∧
    r = Ok {["rack_1"; "bmc_2"]}%string ∧ aw_clock w' = 2060 ∧ aw_clock w' <= 60000 + 20.
Proof.
  destruct (lockout_fetch_ends demo_body aw_clock aw_started 20 0) with
    (base_url := "http://api"%string) (w := mkApiWorld 0 0 0) (c := ()) (w0 := mkApiWorld 0 0 0)
    as (r & w' & Hr & Hw & _).
  - intros c url w. simpl. split; [lia|done].
  - intros w. done.
  - intros w. simpl. split; [done|]. split; [done|]. intros ms.
    destruct (aw_clock w + 1000 <=? aw_started w + 60000) eqn:Hle; [|done]. intros [= <-].
    apply Z.leb_le in Hle. lia.
  - intros ms w. simpl. split; [lia|done].
  - done.
  - lia.
  - lia.
  - assert (option_map (λ x, (match x.1 with Ok l => bool_decide (l = {["rack_1"; "bmc_2"]}%string) | Err _ => false end,
      aw_clock x.2)) (fetch_loto demo_body 121 "http://api" (mkApiWorld 0 0 0)) = Some (true, 2060)) as Hv by (by vm_compute).
    exists r, w'. split; [exact Hr|]. rewrite Hr in Hv. cbn [option_map fst snd] in Hv. injection Hv as Hs Hc.
    split; [|lia]. destruct r as [l|e]; [|done]. by apply bool_decide_eq_true in Hs as ->.
Defined.
