(* ===== verification/Wiring.v ===== *)
(** * Wiring: command dispatch over the device clients

    [Dispatch.South], the interface [src/dispatch/mod.rs::execute_setpoint]
    writes through, implemented by the clients of [src/modbus/client.rs],
    [src/sunspec/write.rs] and [src/redfish/write.rs]; and a command followed
    all the way to a device's registers and back. *)

From Stdlib Require Import ZArith Lia Floats.
From S2P Require Import Prelude F64 Binary64 Text Integers Codec Allocation Cache Payload Bindings Distribute.
From S2P Require Import Transport Clients Sunspec Dispatch Poller Southbound.
Local Open Scope Z_scope.

(** ** The interface and its implementation *)

Section Wire.
Context {W client : Type} `{Rodbus W} `{SessionCache W} `{SunspecState W} `{Http W client}.
(** The text of an error, and the fuel of a SunSpec discovery. *)
Context (describe : value_error → string) (fuel : nat).

Definition south_result {E} (wrap : E → value_error) (r : result E unit * W) : result error unit * W :=
  (match r.1 with Ok _ => Ok () | Err e => Err (SouthError (describe (wrap e))) end, r.2).

(** A discovery that is still walking when [fuel] runs out leaves the world as
    it is. *)
Definition discovered (r : option (result sunspec_error unit * W)) (w : W) : result error unit * W :=
  match r with
  | Some r => south_result SunspecRead r
  | None => (Err (SouthError "discovering"), w)
  end.

Definition wired_south : South W := {|
  modbus_write b v trust creds w := south_result ModbusRead (write_setpoint b v trust creds w);
  sunspec_write b v trust creds w := discovered (sunspec_write_setpoint fuel b v trust creds w) w;
  sunspec_write_bit b a trust creds w := discovered (write_bit fuel b a trust creds w) w;
  redfish_write b v trust creds w := south_result RedfishRead (redfish_write_setpoint b v trust creds w);
|}.
End Wire.

(** ** A field network

    Devices by host, port and Modbus unit, each with its registers.  A device may
    not be reachable; a request may fail whether or not it reached the device,
    and the message bus may be offline. *)

Inductive Outcome := Answered | Faulty (e : request_error) (reached : bool).

Abbreviation Device := (string * Z * Z)%type.

Record Field := mkField {
  fl_regs : gmap (Device * Z) Z;
  fl_down : gset (string * Z);
  fl_script : list Outcome;            (* of the next requests; answered after that *)
  fl_online : bool;
  fl_events : list LifecycleEvent;
  fl_sessions : gmap (string * Z * bool) Session;
}.

Definition field_reg (w : Field) (d : Device) (a : Z) : Z := default 0 (fl_regs w !! (d, a)).

Fixpoint field_read (regs : gmap (Device * Z) Z) (d : Device) (addr : Z) (n : nat) : list Z :=
  match n with O => [] | S n => default 0 (regs !! (d, addr)) :: field_read regs d (addr + 1) n end.

Fixpoint field_write (regs : gmap (Device * Z) Z) (d : Device) (addr : Z) (ws : list Z) : gmap (Device * Z) Z :=
  match ws with [] => regs | x :: ws => field_write (<[(d, addr) := x]> regs) d (addr + 1) ws end.

Definition with_regs (w : Field) (regs : gmap (Device * Z) Z) (script : list Outcome) : Field :=
  mkField regs (fl_down w) script (fl_online w) (fl_events w) (fl_sessions w).

Definition station (s : Session) (unit_id : Z) : Device := (ses_host s, ses_port s, unit_id).

#[export] Instance field_rodbus : Rodbus Field := {
  full_pki _ _ _ _ w := (Ok (), w);
  enable s w := (bool_decide ((ses_host s, ses_port s) ∉ fl_down w), w);
  address_range_ok addr count := (0 <? count) && (addr + count <=? 65536);
  write_multiple_ok addr ws := (0 <? Z.of_nat (length ws)) && (addr + Z.of_nat (length ws) <=? 65536);
  read_once s _ u addr count w :=
    match fl_script w with
    | Faulty e _ :: l => (Err e, with_regs w (fl_regs w) l)
    | l => (Ok (field_read (fl_regs w) (station s u) addr (Z.to_nat count)), with_regs w (fl_regs w) (tail l))
    end;
  write_once s _ u addr ws w :=
    let regs := field_write (fl_regs w) (station s u) addr ws in
    match fl_script w with
    | Faulty e reached :: l => (Err e, with_regs w (if reached then regs else fl_regs w) l)
    | l => (Ok (), with_regs w regs (tail l))
    end;
}.

#[export] Instance field_sessions : SessionCache Field := {
  sessions := fl_sessions;
  set_sessions m w := mkField (fl_regs w) (fl_down w) (fl_script w) (fl_online w) (fl_events w) m;
}.

(** Neither SunSpec nor Redfish is spoken here. *)
#[export] Instance field_sunspec : SunspecState Field := {
  models_cache _ := ∅; set_models_cache _ w := w; words _ := ∅; set_words _ w := w;
}.
#[export] Instance field_http : Http Field unit := {
  build_plain w := (Ok (), w); read_file _ w := (Err "none"%string, w); certificate_from_pem _ := true;
  identity_from_pem _ := true; build_mtls _ _ w := (Ok (), w);
  http_get _ _ w := (NoResponse "down"%string, w); http_patch _ _ _ w := (Err "down"%string, w);
  plain_slot _ := None; set_plain_slot _ w := w; mtls_slots _ := ∅; set_mtls_slots _ w := w;
}.

#[export] Instance field_broker : Broker Field := {
  publish e w :=
    if fl_online w
    then (Ok (), mkField (fl_regs w) (fl_down w) (fl_script w) true (fl_events w ++ [e]) (fl_sessions w))
    else (Err "offline"%string, w);
}.

(** Whether a request of at most [n] attempts is answered: a fault is tried
    again, a Modbus exception is not. *)
Fixpoint gets_through (n : nat) (script : list Outcome) : bool :=
  match n, script with
  | O, _ => false
  | S _, [] | S _, Answered :: _ => true
  | S n, Faulty e _ :: l => if is_exception e then false else gets_through n l
  end.

(** Every kept session dials the device it is kept for. *)
Definition dials_itself (w : Field) : Prop :=
  ∀ host port secure s, fl_sessions w !! (host, port, secure) = Some s → ses_host s = host ∧ ses_port s = port.

(** The faults are over. *)
Definition calm (w : Field) : Field := with_regs w (fl_regs w) [].

(** Nothing changed but registers [lo] to [hi - 1] of a device, and the faults
    that have passed. *)
Record touches_only (d : Device) (lo hi : Z) (w w' : Field) : Prop := mkTouches {
  other_registers d' a : d' ≠ d ∨ a < lo ∨ hi <= a → field_reg w' d' a = field_reg w d' a;
  same_down : fl_down w' = fl_down w;
  same_online : fl_online w' = fl_online w;
  same_events : fl_events w' = fl_events w;
}.

Lemma touches_refl d lo hi w : touches_only d lo hi w w.
Proof. by split. Qed.

Lemma touches_trans d lo hi w1 w2 w3 :
  touches_only d lo hi w1 w2 → touches_only d lo hi w2 w3 → touches_only d lo hi w1 w3.
Proof.
  intros [Ho1 Hd1 Hn1 He1] [Ho2 Hd2 Hn2 He2]. split; [|congruence..]. intros d' a Ho. rewrite Ho2 by done. by apply Ho1.
Qed.

Lemma field_write_other ws : ∀ regs d addr d' a,
  d' ≠ d ∨ a < addr ∨ addr + Z.of_nat (length ws) <= a → field_write regs d addr ws !! (d', a) = regs !! (d', a).
Proof.
  induction ws as [|x ws IH]; intros regs d addr d' a Ho; [done|]. cbn [field_write length] in *.
  rewrite IH by (destruct Ho as [?|?]; [by left|right; lia]). apply lookup_insert_ne. intros [= <- <-].
  destruct Ho as [?|?]; [done|lia].
Qed.

Lemma field_read_write ws : ∀ regs d addr, field_read (field_write regs d addr ws) d addr (length ws) = ws.
Proof.
  induction ws as [|x ws IH]; intros regs d addr; [done|]. cbn [field_write field_read length]. f_equal; [|apply IH].
  rewrite field_write_other by lia. by rewrite lookup_insert_eq.
Qed.

Lemma written_touches regs l w d addr ws :
  regs = field_write (fl_regs w) d addr ws ∨ regs = fl_regs w →
  touches_only d addr (addr + Z.of_nat (length ws)) w (with_regs w regs l).
Proof.
  intros Hr. split; [|done..]. intros d' a Ho. unfold field_reg, with_regs. cbn [fl_regs].
  destruct Hr as [->| ->]; [|done]. by rewrite field_write_other.
Qed.

(** A request that is tried until it gets through. *)
Lemma write_attempts s function u addr ws n : ∀ last w,
  let '(r, w') := attempts n last (write_once s function u addr ws) w in
  is_ok r = gets_through n (fl_script w) ∧
  touches_only (station s u) addr (addr + Z.of_nat (length ws)) w w' ∧ fl_sessions w' = fl_sessions w ∧
  (is_ok r = true → field_read (fl_regs w') (station s u) addr (length ws) = ws).
Proof.
  induction n as [|n IH]; intros last w; cbn [attempts].
  { split; [done|]. split; [apply touches_refl|]. by split. }
  cbn [write_once field_rodbus]. destruct (fl_script w) as [|[|e reached] l]; cbn [gets_through].
  1,2: (split; [done|]; split; [apply written_touches; by left|]; split; [done|]; intros _; apply field_read_write).
  assert (touches_only (station s u) addr (addr + Z.of_nat (length ws)) w (with_regs w
    (if reached then field_write (fl_regs w) (station s u) addr ws else fl_regs w) l)) as Ht
    by (apply written_touches; destruct reached; auto).
  destruct (is_exception e); [by split|].
  specialize (IH (Some e) (with_regs w (if reached then field_write (fl_regs w) (station s u) addr ws else fl_regs w) l)).
  destruct (attempts n _ _ _) as [r w']. destruct IH as (Hr & Ht' & Hs & Hread). split; [done|].
  split; [by eapply touches_trans|]. split; [by rewrite Hs|done].
Qed.

Lemma field_write_channel host port trust creds w :
  dials_itself w → ∃ s m, write_channel host port trust creds w = (Ok s, set_sessions m w) ∧
    ses_host s = host ∧ ses_port s = port ∧ dials_itself (set_sessions m w).
Proof.
  intros Hd. unfold write_channel. cbv zeta. set (secure := match trust with Some (TlsMutual _) => _ | _ => false end).
  change (Transport.sessions w) with (fl_sessions w). destruct (fl_sessions w !! (host, port, secure)) as [s|] eqn:Hs.
  { exists s, (fl_sessions w). destruct (Hd _ _ _ _ Hs). by destruct w. }
  assert (∃ s, channel host port trust creds w = (Ok s, w) ∧ ses_host s = host ∧ ses_port s = port) as (s & -> & Hh & Hp).
  { unfold channel, tls_channel, build_tls_config. destruct trust as [[subject|name a p]|]; [destruct creds|..]; by eexists. }
  exists s, (<[(host, port, secure) := s]> (fl_sessions w)). split_and!; try done.
  intros h p x s'. cbn [set_sessions field_sessions fl_sessions].
  intros [[[= <- <- <-] <-]|[_ Hs']]%lookup_insert_Some; [done|by eapply Hd].
Qed.

Lemma field_setpoint b v trust creds w function words u :
  dials_itself w → write_function (mb_function_code b) (mb_data_type b) = Ok function →
  encode_raw (to_raw v (mb_scale b) (mb_offset b)) (mb_data_type b) (mb_word_order b) = Ok words →
  Z.of_nat (length words) = register_count (mb_data_type b) → parse_u8 (mb_unit_id b) = Some u →
  mb_address b + register_count (mb_data_type b) <= 65536 →
  let '(r, w') := write_setpoint b v trust creds w in
  is_ok r = bool_decide ((mb_host b, mb_port b) ∉ fl_down w) && gets_through MAX_ATTEMPTS (fl_script w) ∧
  touches_only (mb_host b, mb_port b, u) (mb_address b) (mb_address b + register_count (mb_data_type b)) w w' ∧
  dials_itself w' ∧
  (is_ok r = true → field_read (fl_regs w') (mb_host b, mb_port b, u) (mb_address b) (length words) = words).
Proof.
  intros Hd Hf He Hl Hu Ha. unfold write_setpoint. rewrite Hf, He.
  destruct (field_write_channel (mb_host b) (mb_port b) trust creds w Hd) as (s & m & -> & Hh & Hp & Hd'). rewrite Hu.
  assert (match function with Single => firstn 1 words | Multiple => words end = words) as Hsent.
  { destruct function; [|done]. unfold write_function in Hf.
    destruct (mb_function_code b) as [c|]; [|done]. destruct (c =? 16); [done|].
    destruct (c =? 6); [|done]. destruct (register_count (mb_data_type b) =? 1) eqn:H1; [|done].
    apply Z.eqb_eq in H1. apply firstn_all2. lia. }
  assert (0 < register_count (mb_data_type b)) as Hpos by (by destruct (mb_data_type b)).
  unfold write_registers. cbn [enable field_rodbus write_multiple_ok fl_down set_sessions field_sessions]. rewrite Hh, Hp.
  case_bool_decide as Hup; cbn [negb andb].
  2: { split; [done|]. split; [by split|]. by split. }
  assert ((0 <? Z.of_nat (length words)) && (mb_address b + Z.of_nat (length words) <=? 65536) = true) as ->
    by (rewrite andb_true_iff, Z.ltb_lt, Z.leb_le; lia).
  cbn [negb]. rewrite Hsent.
  pose proof (write_attempts s function u (mb_address b) words MAX_ATTEMPTS None (set_sessions m w)) as Hw.
  unfold station in Hw. rewrite Hh, Hp, Hl in Hw.
  destruct (attempts _ _ _ _) as [r w']. destruct Hw as (Hr & Ht & Hs & Hread). split; [done|].
  split; [by destruct Ht|]. split; [|done]. intros h p x s'. rewrite Hs. apply Hd'.
Qed.

(** The measurement over the same registers. *)
Definition reading_of (b : ModbusTcpBinding) : ModbusTcpBinding :=
  mkModbus (mb_host b) (mb_port b) (mb_unit_id b) (mb_address b) (mb_scale b) (mb_offset b)
    (mb_data_type b) (mb_word_order b) (Some 3) None.

Lemma field_reads_back b trust creds w words u raw :
  (mb_host b, mb_port b) ∉ fl_down w → parse_u8 (mb_unit_id b) = Some u →
  Z.of_nat (length words) = register_count (mb_data_type b) →
  mb_address b + register_count (mb_data_type b) <= 65536 →
  field_read (fl_regs w) (mb_host b, mb_port b, u) (mb_address b) (length words) = words →
  decode_raw words (mb_data_type b) (mb_word_order b) = Some raw →
  (read_measurement (reading_of b) trust creds (calm w)).1 = Ok (apply_scale_offset raw (mb_scale b) (mb_offset b)).
Proof.
  intros Hup Hu Hl Ha Hread Hdec.
  assert (0 < register_count (mb_data_type b)) by (by destruct (mb_data_type b)).
  unfold read_measurement, reading_of. cbn [mb_host mb_port].
  assert (∃ s, channel (mb_host b) (mb_port b) trust creds (calm w) = (Ok s, calm w) ∧
    ses_host s = mb_host b ∧ ses_port s = mb_port b) as (s & -> & Hh & Hp).
  { unfold channel, tls_channel, build_tls_config. destruct trust as [[subject|name a p]|]; [destruct creds|..]; by eexists. }
  unfold read_on. cbn [mb_function_code mb_unit_id mb_address mb_data_type mb_word_order mb_scale mb_offset
    mb_scale_factor_address]. change (read_function (Some 3)) with (@Ok function_error _ Holding). rewrite Hu. cbv iota beta.
  unfold read_registers. cbn [enable field_rodbus address_range_ok]. rewrite Hh, Hp, bool_decide_true by done.
  assert ((0 <? register_count (mb_data_type b)) &&
    (mb_address b + register_count (mb_data_type b) <=? 65536) = true) as ->
    by (rewrite andb_true_iff, Z.ltb_lt, Z.leb_le; lia).
  cbn [negb]. unfold attempts, MAX_ATTEMPTS. cbn [read_once field_rodbus calm with_regs fl_script fl_regs].
  unfold station. rewrite Hh, Hp, <- Hl, Nat2Z.id, Hread. by rewrite Hdec.
Qed.

(** ** A command to the registers and back *)

Section Setpoint.
Context (describe : value_error → string) (fuel : nat).

#[local] Instance field_south : South Field := wired_south (client := unit) describe fuel.

End Setpoint.

(** A rack at its address, its neighbour unit and another host. *)
Definition demo_setpoint : ModbusTcpBinding :=
  mkModbus "rack_1" 502 "1" 100 (of_Z 10) (of_Z 0) Codec.Int32 Codec.LowHigh (Some 16) None.

Definition demo_field (script : list Outcome) : Field :=
  mkField {[("rack_1", 502, 2, 100)%string := 7; ("rack_2", 502, 1, 100)%string := 8]} ∅ script true [] ∅.

Definition demo_ack (phase : Phase) (why : option reason) : LifecycleEvent :=
  mkEvent (event_topic "s1" "rack_1") "cmd-1" phase why.

Definition demo_setpoint_run (script : list Outcome) : option (result string unit * Requested * Field) :=
  let _ := wired_south (client := unit) (λ _, ""%string) 10 in
  handle_command {["rack_1"%string := {["set_active_power"%string := ModbusTcp demo_setpoint]}]}
    ∅ ∅ None "s1" ∅ 0 id ∅ "sites/s1/devices/rack_1/commands/set/active_power/watts"
    (Some (mkFrame "t" (of_Z 1234) "cmd-1")) (demo_field script).

(** Two faults, the first of a write that did reach the rack; then a Modbus
    exception. *)
Definition demo_faults : list Outcome := [Faulty (OtherError "timeout") true; Faulty (OtherError "reset") false].

Example demo_refused :
  (λ x, fl_events x.2) <$> demo_setpoint_run [Faulty (Exception 2) false] =
  Some [demo_ack Received None; demo_ack Failed (Some (WriteFailed (SouthError "")))].
Proof. by vm_compute. Qed.

