(* ===== verification/Tasks.v ===== *)
(** * The task set: [src/app.rs::spawn_task_set], [spawn_synthetic], and the
    tick of [src/der_dispatch/actual_power.rs]

    Which tasks the gateway runs for a spec, each with the configuration it is
    spawned with.  A [HashMap] is walked in the order of [map_to_list].  [None]
    is a panic. *)

From Stdlib Require Import ZArith Lia Floats.
From S2P Require Import Prelude F64 Binary64 Rounding Integers Text Cache Payload Bindings Config.
From S2P Require Import Transport Clients Sunspec PoiServo Dispatch EnvelopeTask DerDispatch Synthetic.
From S2P Require Import Periods Topology Poller Southbound.
Local Open Scope Z_scope.

(** ** Configurations *)

(** One [poller::run_device] task. *)
Record DevicePoller := mkDevicePoller {
  dp_device_id : string;
  dp_points : list Point;
  dp_trust : option DeviceTrust;
}.

Record DerDispatchTaskConfig := mkDerDispatchTask {
  dd_output_topic : string;
  dd_source_topics : list string;
  dd_tick_hz : f64;
}.

Record SiteDistributionConfig := mkSiteDistribution {
  sd_site_id : string;
  sd_topics : PostureTopics;
  sd_tick_hz : f64;
  sd_creds : option GatewayCredentials;
}.

Record TaskSet := mkTaskSet {
  ts_pollers : list DevicePoller;
  ts_synthetics : list SyntheticTaskConfig;
  ts_envelopes : list EnvelopeTaskConfig;
  ts_counters : list (Counter * option DeviceTrust);
  ts_beats : list (Beat * option DeviceTrust);
  ts_sheds : list ShedTaskConfig;
  ts_der_dispatch : DerDispatchTaskConfig;
  ts_site_distribution : SiteDistributionConfig;
}.

(** ** [actual_power::tick_once] *)

(** Holds unless every source is cached; a failed publish is only logged. *)
Definition actual_power_tick {W} `{Publisher W} (formatted : string → f64 → option Value)
    (cfg : DerDispatchTaskConfig) (cache : InputCache) (ts : string) (w : W) : W :=
  match sum_cached (dd_source_topics cfg) cache with
  | None => w
  | Some total =>
      (mqtt_publish (mkMessage (dd_output_topic cfg) (formatted ts total) QOS_MEASUREMENT true) w).2
  end.

(** ** [spawn_task_set] *)

(** What a measurement of [x-protocol-source] becomes. *)
Inductive Spawned :=
| Reads (p : Point)
| Computes (c : SyntheticTaskConfig)
| Dropped.

Definition is_synthetic (s : ProtocolSource) : bool :=
  match src_binding s with Synthetic _ => true | _ => false end.

Section Spawn.
Context (pointer : Value → string → option Value) (validator_for : Value → option (Value → bool)).
Context (spec : AsyncApiSpec) (cfg : Config).

Local Abbreviation site := (Config.site_id cfg).

(** A schema that won't compile falls back to publishing numbers. *)
Definition usable_payload (s : ProtocolSource) : option Payload :=
  reference ← src_payload s;
  match resolve pointer validator_for reference (components_schemas spec) with
  | Ok p => Some p
  | Err _ => None
  end.

Definition spawn_measurement (device_id : string) (m : string * ProtocolSource) : option Spawned :=
  let topic := build_topic site device_id m.1 (src_unit m.2) in
  let poll_rate := clamp_poll_rate (src_poll_rate_hz m.2) in
  match src_binding m.2 with
  | Synthetic b =>
      c ← synthetic_config spec b topic poll_rate site;
      Some (match c with Some c => Computes c | None => Dropped end)
  | b =>
      period ← duration_from_secs_f64 (f_div (of_Z 1) poll_rate);
      Some (Reads (mkPollPoint topic (clone_binding b) period (usable_payload m.2) (src_value_map m.2)))
  end.

Definition points_of (l : list Spawned) : list Point :=
  omap (λ s, match s with Reads p => Some p | _ => None end) l.

Definition synthetics_of (l : list Spawned) : list SyntheticTaskConfig :=
  omap (λ s, match s with Computes c => Some c | _ => None end) l.

(** The measurements of one device. *)
Definition spawn_device (d : string * gmap string ProtocolSource)
    : option (DevicePoller * list SyntheticTaskConfig) :=
  l ← mapM (spawn_measurement d.1) (map_to_list d.2);
  Some (mkDevicePoller d.1 (points_of l) (x_device_trust spec !! d.1), synthetics_of l).

(** The commands of every device, one after another. *)
Definition all_commands : list (string * CommandSource) :=
  d ← map_to_list (x_command_source spec); (λ c : CommandSource, (d.1, c)) <$> (map_to_list d.2).*2.

Definition envelope_of (c : string * CommandSource) : option (option EnvelopeTaskConfig) :=
  match cmd_binding c.2 with
  | Distribute d => t ← envelope_task_config c.1 c.2 d site; Some (Some t)
  | _ => Some None
  end.

Definition shed_of (c : string * CommandSource) : option (option ShedTaskConfig) :=
  match cmd_binding c.2 with
  | PowerCap p => from_binding c.1 (command_key c.2) p site (Config.gateway_credentials cfg)
  | _ => Some None
  end.

(** The guarded distribute bindings the shed may count on. *)
Definition storage_of (c : string * CommandSource) : option (option DistributeBinding) :=
  match cmd_binding c.2 with
  | Distribute d => g ← envelope_guard_config d; Some (match g with Some _ => Some d | None => None end)
  | _ => Some None
  end.

(** [let ProtocolBinding::ModbusTcp(binding) = .. else unreachable!]. *)
Definition counter_of (h : string * HeartbeatSource) : option (Counter * option DeviceTrust) :=
  match clone_binding (hb_binding h.2) with
  | ModbusTcp b =>
      period ← duration_from_secs_f64 (hb_period_s h.2);
      Some (mkCounter h.1 b (hb_counter_modulo h.2) period, x_device_trust spec !! h.1)
  | _ => None
  end.

Definition command_bindings : list (string * ProtocolBinding) :=
  (λ c : string * CommandSource, (c.1, cmd_binding c.2)) <$> all_commands.

Definition with_storage (storage : list DistributeBinding) (c : ShedTaskConfig) : ShedTaskConfig :=
  mkShedTask (st_modules c) (st_control c) (st_poi_topic c) (st_import_limit_topic c)
    (st_export_limit_topic c) (st_creds c) storage (st_site_id c).

Definition der_dispatch_config : DerDispatchTaskConfig :=
  mkDerDispatchTask ("sites/" ++ site ++ "/devices/der_dispatch/measurements/actual_active_power/watts")
    (collect_der_dispatch_active_power_topics spec site) DEFAULT_POLL_HZ.

Definition site_distribution_config : SiteDistributionConfig :=
  mkSiteDistribution site
    (mkPostureTopics
       ("sites/" ++ site ++ "/devices/der_dispatch/measurements/event_active/none")
       ("sites/" ++ site ++ "/devices/der_dispatch/measurements/target_setpoint_present/none")
       ("sites/" ++ site ++ "/devices/der_dispatch/measurements/target_active_power/watts"))
    DEFAULT_POLL_HZ (Config.gateway_credentials cfg).

Definition spawn_task_set : option TaskSet :=
  devices ← mapM spawn_device (map_to_list (x_protocol_source spec));
  sheds ← mapM shed_of all_commands;
  storage ← mapM storage_of all_commands;
  envelopes ← mapM envelope_of all_commands;
  counters ← mapM counter_of (map_to_list (x_heartbeat_source spec));
  Some (mkTaskSet
    (List.filter (λ p, match dp_points p with [] => false | _ => true end) devices.*1)
    (mjoin devices.*2)
    (omap id envelopes)
    counters
    ((λ b, (b, x_device_trust spec !! beat_device_id b)) <$> (map_to_list (beats command_bindings)).*2)
    (with_storage (omap id storage) <$> per_poi (omap id sheds))
    der_dispatch_config site_distribution_config).
End Spawn.

(** ** Periods *)

Lemma clamp_poll_rate_range v :
  f_nan (default DEFAULT_POLL_HZ v) = false →
  f_leb MIN_POLL_HZ (clamp_poll_rate v) = true ∧ f_leb (clamp_poll_rate v) MAX_POLL_HZ = true.
Proof.
  intros Hn. unfold clamp_poll_rate. set (raw := default DEFAULT_POLL_HZ v) in *. clearbody raw.
  destruct (f_ltb raw MIN_POLL_HZ) eqn:Hlo; [split; by vm_compute|].
  destruct (f_ltb MAX_POLL_HZ raw) eqn:Hhi; [split; by vm_compute|].
  split; apply not_ltb_leb; done || by vm_compute.
Qed.

Lemma clamp_poll_rate_nan v :
  f_nan (default DEFAULT_POLL_HZ v) = true → f_nan (clamp_poll_rate v) = true.
Proof.
  intros Hn. unfold clamp_poll_rate. set (raw := default DEFAULT_POLL_HZ v) in *. clearbody raw.
  assert (f_ltb raw MIN_POLL_HZ = false) as -> by (rewrite ford_lt; by rewrite nan_leb).
  assert (f_ltb MAX_POLL_HZ raw = false) as -> by (rewrite ford_lt; by rewrite nan_leb_r).
  done.
Qed.

Lemma nan_period (x : f64) : f_nan x = true → duration_from_secs_f64 (f_div (of_Z 1) x) = None.
Proof.
  rewrite f64_nan_SF. intros Hx. unfold duration_from_secs_f64. simpl. rewrite div_spec, f64_of_Z_1.
  by destruct (Prim2SF x).
Qed.

(** A second, as a [Duration] divided by a clamped rate. *)
Lemma rate_period (x : f64) :
  f_leb MIN_POLL_HZ x = true → f_leb x MAX_POLL_HZ = true →
  ∃ ns, duration_from_secs_f64 (f_div (of_Z 1) x) = Some ns ∧ 100000000 <= ns <= 100000000000.
Proof.
  intros Hlo Hhi. apply (quotient_duration (of_Z 1) x 4503599627370496 (-52) 1); [|by left|done..].
  apply f64_of_Z_1.
Qed.

Lemma rate_stale_limit (x : f64) :
  f_leb MIN_POLL_HZ x = true → f_leb x MAX_POLL_HZ = true →
  ∃ ns, duration_from_secs_f64 (f_div MISSED_POLLS x) = Some ns ∧ 300000000 <= ns <= 300000000000.
Proof.
  intros Hlo Hhi. apply (quotient_duration MISSED_POLLS x 6755399441055744 (-51) 3); [|by right|done..].
  by vm_compute.
Qed.

Lemma poll_period v p :
  duration_from_secs_f64 (f_div (of_Z 1) (clamp_poll_rate v)) = Some p →
  100000000 <= p <= 100000000000.
Proof.
  intros Hp. destruct (f_nan (default DEFAULT_POLL_HZ v)) eqn:Hn.
  - apply clamp_poll_rate_nan, nan_period in Hn. congruence.
  - apply clamp_poll_rate_range in Hn as [Hlo Hhi].
    destruct (rate_period _ Hlo Hhi) as (ns & Hns & Hb). congruence.
Qed.

(** ** What can panic *)

(** A rate is a JSON number, so never NaN. *)
Definition rates_ok (spec : AsyncApiSpec) : Prop :=
  ∀ d channels m s, x_protocol_source spec !! d = Some channels → channels !! m = Some s →
    f_nan (default DEFAULT_POLL_HZ (src_poll_rate_hz s)) = false.

(** The dwell a guarded binding asks for. *)
Definition dwell_of (b : ProtocolBinding) : option f64 :=
  match b with
  | Distribute d =>
      match db_ramp_rate_per_sec d, db_hysteresis_margin d, db_hysteresis_dwell_secs d with
      | Some _, Some _, Some secs => Some secs
      | _, _, _ => None
      end
  | PowerCap p =>
      match pc_ramp_rate_per_sec p, pc_hysteresis_margin p, pc_hysteresis_dwell_secs p with
      | Some _, Some _, Some secs => Some secs
      | _, _, _ => None
      end
  | _ => None
  end.

Definition dwell_ok (b : ProtocolBinding) : Prop :=
  ∀ secs, dwell_of b = Some secs → is_Some (duration_from_secs_f64 secs).

Lemma stale_entries_total spec topics : rates_ok spec → is_Some (stale_entries spec topics).
Proof.
  intros Hok. induction topics as [|t topics [rest Hrest]]; cbn [stale_entries]; [by eexists|].
  destruct (poll_rate_hz spec t) as [hz|] eqn:Hz; [|by eexists].
  assert (f_leb MIN_POLL_HZ hz = true ∧ f_leb hz MAX_POLL_HZ = true) as [Hlo Hhi].
  { unfold poll_rate_hz in Hz. destruct (str_split _ t) as [|? [|? [|? [|dev [|? [|m [|? []]]]]]]]; try done.
    destruct (x_protocol_source spec !! dev) as [channels|] eqn:Hd; simpl in Hz; [|done].
    destruct (channels !! m) as [src|] eqn:Hm; simpl in Hz; [|done].
    eapply clamp_bounds; [exact Hz|]. by eapply Hok. }
  destruct (rate_stale_limit hz Hlo Hhi) as (ns & -> & _). rewrite Hrest. simpl. by eexists.
Qed.

Lemma synthetic_config_total spec b out hz site :
  rates_ok spec → is_Some (synthetic_config spec b out hz site).
Proof.
  intros Hok. unfold synthetic_config, stale_limits.
  assert (∀ topics, ∃ limits, map_extend ∅ <$> stale_entries spec topics = Some limits) as Hl.
  { intros topics. destruct (stale_entries_total spec topics Hok) as [l ->]. by eexists. }
  case_bool_decide.
  - destruct (Hl (((λ p, (substitute_site_id (wp_topic p) site, wp_weight p)) <$> syn_pairs b).*1)) as [l Hl'].
    rewrite Hl'. simpl. by eexists.
  - destruct (operation_parse _) as [op|e]; [|by eexists].
    destruct (Hl ((λ t, substitute_site_id t site) <$> syn_inputs b)) as [l Hl']. rewrite Hl'. simpl. by eexists.
Qed.

Lemma guard_config_dwell d : is_Some (envelope_guard_config d) ↔ dwell_ok (Distribute d).
Proof.
  unfold envelope_guard_config, dwell_ok, dwell_of.
  destruct (db_ramp_rate_per_sec d), (db_hysteresis_margin d), (db_hysteresis_dwell_secs d) as [secs|];
    try (split; [done|by eexists]).
  destruct (duration_from_secs_f64 secs) as [ns|] eqn:Hs; simpl.
  - split; [|by eexists]. intros _ ? [= <-]. by eexists.
  - split; [by intros [? ?]|]. intros Hd. destruct (Hd secs eq_refl) as [? ?]. congruence.
Qed.

Lemma from_binding_dwell d k p site creds :
  is_Some (from_binding d k p site creds) ↔ dwell_ok (PowerCap p).
Proof.
  unfold from_binding, dwell_ok, dwell_of.
  destruct (pc_ramp_rate_per_sec p), (pc_hysteresis_margin p), (pc_hysteresis_dwell_secs p) as [secs|];
    try (split; [done|by eexists]).
  destruct (duration_from_secs_f64 secs) as [ns|] eqn:Hs; simpl.
  - split; [|by eexists]. intros _ ? [= <-]. by eexists.
  - split; [by intros [? ?]|]. intros Hd. destruct (Hd secs eq_refl) as [? ?]. congruence.
Qed.

Lemma dwell_ok_other b :
  match b with Distribute _ | PowerCap _ => True | _ => dwell_ok b end.
Proof. by destruct b. Qed.

Section Panics.
Context (pointer : Value → string → option Value) (validator_for : Value → option (Value → bool)).
Context (spec : AsyncApiSpec) (cfg : Config).

Local Abbreviation spawn := (spawn_task_set pointer validator_for spec cfg).

Lemma spawn_measurement_total d m channels s :
  rates_ok spec → x_protocol_source spec !! d = Some channels → channels !! m = Some s →
  is_Some (spawn_measurement pointer validator_for spec cfg d (m, s)).
Proof.
  intros Hok Hd Hm. unfold spawn_measurement. cbn [fst snd].
  destruct (clamp_poll_rate_range (src_poll_rate_hz s)) as [Hlo Hhi]; [by eapply Hok|].
  destruct (rate_period _ Hlo Hhi) as (ns & -> & _).
  destruct (src_binding s) as [b|b|b|b|b|b|b|b|b|b]; try (simpl; by eexists).
  destruct (synthetic_config_total spec b
    (build_topic (Config.site_id cfg) d m (src_unit s)) (clamp_poll_rate (src_poll_rate_hz s))
    (Config.site_id cfg) Hok) as [c ->]. simpl. by eexists.
Qed.

Lemma spawn_devices_total :
  rates_ok spec → is_Some (mapM (spawn_device pointer validator_for spec cfg) (map_to_list (x_protocol_source spec))).
Proof.
  intros Hok. apply mapM_is_Some, Forall_forall. intros [d channels] Hd%elem_of_map_to_list.
  unfold compose, spawn_device. cbn [fst snd].
  assert (is_Some (mapM (spawn_measurement pointer validator_for spec cfg d) (map_to_list channels))) as [l ->].
  { apply mapM_is_Some, Forall_forall. intros [m s] Hm%elem_of_map_to_list.
    by eapply spawn_measurement_total. }
  simpl. by eexists.
Qed.

Lemma all_commands_in d c : (d, c) ∈ all_commands spec ↔
  ∃ channels n, x_command_source spec !! d = Some channels ∧ channels !! n = Some c.
Proof.
  unfold all_commands. rewrite list_elem_of_bind. split.
  - intros ([d' channels] & (c' & [= -> ->] & Hc)%list_elem_of_fmap & Hd%elem_of_map_to_list).
    cbn [fst snd] in *. apply list_elem_of_fmap in Hc as ([n c''] & -> & Hn%elem_of_map_to_list).
    by exists channels, n.
  - intros (channels & n & Hd & Hn). exists (d, channels). cbn [fst snd]. split.
    + apply list_elem_of_fmap. exists c. split; [done|]. apply list_elem_of_fmap. exists (n, c).
      split; [done|]. by apply elem_of_map_to_list.
    + by apply elem_of_map_to_list.
Qed.

Lemma commands_total :
  (∀ c, c ∈ all_commands spec → dwell_ok (cmd_binding c.2)) ↔
  is_Some (mapM (shed_of cfg) (all_commands spec)) ∧ is_Some (mapM storage_of (all_commands spec)) ∧
  is_Some (mapM (envelope_of cfg) (all_commands spec)).
Proof.
  rewrite !mapM_is_Some, !Forall_forall. unfold compose, shed_of, storage_of, envelope_of. split.
  - intros Hok. split_and!; intros c Hc; specialize (Hok c Hc);
      destruct (cmd_binding c.2) as [b|b|b|b|b|b|b|b|b|b]; try (by eexists).
    + by apply from_binding_dwell.
    + apply guard_config_dwell in Hok as [g ->]. simpl. by eexists.
    + unfold envelope_task_config. apply guard_config_dwell in Hok as [g ->]. simpl. by eexists.
  - intros (Hsh & Hst & _) c Hc. specialize (Hsh c Hc). specialize (Hst c Hc).
    pose proof (dwell_ok_other (cmd_binding c.2)) as Ho.
    destruct (cmd_binding c.2) as [b|b|b|b|b|b|b|b|b|b]; try exact Ho.
    + apply guard_config_dwell. destruct (envelope_guard_config b); [by eexists|by destruct Hst].
    + by eapply from_binding_dwell.
Qed.

(** C33: building the task set of a parsed spec panics exactly when some
    guarded command's dwell, or some heartbeat's period, is no [Duration]
    (negative, or 2^64 s and more): neither is refused when the spec is read,
    and no other field of a spec can stop the gateway here. *)
Theorem spawn_panics_iff raw :
  rates_ok spec → x_heartbeat_source spec = heartbeats raw →
  is_Some spawn ↔
  (∀ d channels n c, x_command_source spec !! d = Some channels → channels !! n = Some c →
     dwell_ok (cmd_binding c)) ∧
  (∀ d h, x_heartbeat_source spec !! d = Some h → is_Some (duration_from_secs_f64 (hb_period_s h))).
Proof.
  intros Hok Hraw.
  assert ((∀ d channels n c, x_command_source spec !! d = Some channels → channels !! n = Some c →
    dwell_ok (cmd_binding c)) ↔ ∀ c, c ∈ all_commands spec → dwell_ok (cmd_binding c.2)) as ->.
  { split; [intros H [d c] (channels & n & Hd & Hn)%all_commands_in; by eapply H|].
    intros H d channels n c Hd Hn. apply (H (d, c)), all_commands_in. by exists channels, n. }
  rewrite commands_total.
  assert ((∀ d h, x_heartbeat_source spec !! d = Some h → is_Some (duration_from_secs_f64 (hb_period_s h))) ↔
    is_Some (mapM (counter_of spec) (map_to_list (x_heartbeat_source spec)))) as ->.
  { rewrite mapM_is_Some, Forall_forall. unfold compose, counter_of.
    assert (∀ d h, x_heartbeat_source spec !! d = Some h → ∃ b, hb_binding h = ModbusTcp b) as Hm.
    { intros d h. rewrite Hraw. unfold heartbeats. rewrite map_lookup_filter_Some. intros [_ Hr].
      cbn [snd] in Hr. unfold runnable in Hr. repeat (case_match; try done). by eexists. }
    split.
    - intros H [d h] Hd%elem_of_map_to_list. cbn [fst snd]. destruct (Hm d h Hd) as [b ->].
      destruct (H d h Hd) as [p ->]. simpl. by eexists.
    - intros H d h Hd. specialize (H (d, h) (proj2 (elem_of_map_to_list _ _ _) Hd)).
      cbn [fst snd] in H. destruct (Hm d h Hd) as [b Hb]. rewrite Hb in H. simpl in H.
      destruct (duration_from_secs_f64 (hb_period_s h)); [by eexists|by destruct H]. }
  unfold spawn_task_set. destruct (spawn_devices_total Hok) as [devices ->]. cbn [mbind option_bind].
  destruct (mapM (shed_of cfg) _); cbn [mbind option_bind]; [|split; [by intros []|by intros [[[] _] _]]].
  destruct (mapM storage_of _); cbn [mbind option_bind]; [|split; [by intros []|by intros [[_ [[] _]] _]]].
  destruct (mapM (envelope_of cfg) _); cbn [mbind option_bind]; [|split; [by intros []|by intros [[_ [_ []]] _]]].
  destruct (mapM (counter_of spec) _); cbn [mbind option_bind]; [|split; [by intros []|by intros [_ []]]].
  split; [|by eexists]. intros _. split_and!; by eexists.
Qed.
End Panics.

(** ** Who reads what *)

Section Coverage.
Context (pointer : Value → string → option Value) (validator_for : Value → option (Value → bool)).
Context (spec : AsyncApiSpec) (cfg : Config).

(** The measurements of a device that come from the device. *)
Definition device_readings (channels : gmap string ProtocolSource) : list (string * ProtocolSource) :=
  List.filter (λ m, negb (is_synthetic m.2)) (map_to_list channels).

Definition reading_of (d : string) (m : string * ProtocolSource) : string * ProtocolBinding :=
  (build_topic (Config.site_id cfg) d m.1 (src_unit m.2), src_binding m.2).

Definition point_key (p : Point) : string * ProtocolBinding := (pp_topic p, pp_binding p).

Lemma spawn_measurement_point d m r :
  spawn_measurement pointer validator_for spec cfg d m = Some r →
  if is_synthetic m.2 then points_of [r] = []
  else ∃ p, r = Reads p ∧ point_key p = reading_of d m ∧ 100000000 <= pp_period p <= 100000000000.
Proof.
  unfold spawn_measurement, is_synthetic. intros Hr.
  assert (∀ b, src_binding m.2 = b → (∀ s, b ≠ Synthetic s) →
    ∃ p, r = Reads p ∧ point_key p = reading_of d m ∧ 100000000 <= pp_period p <= 100000000000) as Hreal.
  { intros b Hb Hns. assert ((period ← duration_from_secs_f64
      (f_div (of_Z 1) (clamp_poll_rate (src_poll_rate_hz m.2)));
      Some (Reads (mkPollPoint (build_topic (Config.site_id cfg) d m.1 (src_unit m.2))
        (clone_binding (src_binding m.2)) period
        (usable_payload pointer validator_for spec m.2) (src_value_map m.2)))) = Some r) as Hr'.
    { rewrite <- Hr, Hb. destruct b; try done. by destruct (Hns b). }
    destruct (duration_from_secs_f64 _) as [p|] eqn:Hp; simpl in Hr'; [|done]. injection Hr' as <-.
    eexists. split; [done|]. split; [by unfold point_key, reading_of; simpl; rewrite clone_binding_eq|].
    by apply poll_period in Hp. }
  destruct (src_binding m.2) as [b|b|b|b|b|b|b|b|b|b] eqn:Hb; try (apply (Hreal _ eq_refl); by intros s).
  destruct (synthetic_config _ _ _ _ _) as [[c|]|]; simpl in Hr; [..|done]; by injection Hr as <-.
Qed.

Lemma spawn_device_spec d channels p ss :
  spawn_device pointer validator_for spec cfg (d, channels) = Some (p, ss) →
  dp_device_id p = d ∧ (point_key <$> dp_points p) = reading_of d <$> device_readings channels ∧
  dp_trust p = x_device_trust spec !! d ∧
  Forall (λ q, 100000000 <= pp_period q <= 100000000000) (dp_points p).
Proof.
  unfold spawn_device. cbn [fst snd].
  destruct (mapM _ _) as [l|] eqn:Hl; simpl; [|done]. intros [= <- <-]. cbn [dp_device_id dp_points dp_trust].
  apply mapM_Some in Hl. split; [done|]. unfold device_readings.
  induction Hl as [|m r ms l Hm _ (IHk & IHt & IHp)]; [by split_and!|]. cbn [List.filter].
  apply spawn_measurement_point in Hm. destruct (is_synthetic m.2); cbn [negb].
  - destruct r as [q|c|]; [done|..]; done.
  - destruct Hm as (q & -> & Hk & Hp). cbn [points_of omap list_omap]. rewrite !fmap_cons.
    split; [by f_equal|]. split; [done|]. by constructor.
Qed.

End Coverage.

(** ** Commands as measurements *)

Section Virtual.
Context {W snmp_session addr socket link config assoc client : Type}.
Context `{Rodbus W} `{SessionCache W} `{SunspecState W} `{Sleep W}.
Context `{SnmpLib W snmp_session} `{BacnetCodec} `{Udp W addr socket} `{ScLib W link}.
Context `{Dnp3Lib W config assoc} `{Http W client}.
Context (env : string → option string) (pointer : Value → string → option Value)
  (validator_for : Value → option (Value → bool)) (fuel : nat) (spec : AsyncApiSpec) (cfg : Config).

(** A measurement whose binding is a [distribute] or a [power_cap] passes
    the intake check of measurements and becomes a point of its device's
    poller, whose first read of it is the [unreachable!] panic: the device's
    other readings stop with it. *)
Theorem virtual_measurement_panics d m s trust creds w :
  virtual (src_binding s) = true → is_synthetic s = false →
  f_nan (default DEFAULT_POLL_HZ (src_poll_rate_hz s)) = false →
  measurement_check s = Ok () ∧
  ∃ p, spawn_measurement pointer validator_for spec cfg d (m, s) = Some (Reads p) ∧
    pp_binding p = src_binding s ∧
    read_value env pointer fuel (pp_binding p) trust creds w = Unreachable.
Proof.
  unfold is_synthetic. intros Hv Hs Hn. split; [by unfold measurement_check; destruct (src_binding s)|].
  unfold spawn_measurement. cbn [fst snd].
  destruct (clamp_poll_rate_range _ Hn) as [Hlo Hhi]. destruct (rate_period _ Hlo Hhi) as (ns & Hns & _).
  destruct (src_binding s) as [b|b|b|b|b|b|b|b|b|b] eqn:Hb; try done; rewrite Hns;
    (eexists; split; [done|]; cbn [pp_binding]; rewrite clone_binding_eq; split; [done|]);
    by apply read_value_unreachable.
Qed.
End Virtual.

(** ** A small site *)

Definition demo_meter (poll : option f64) : ProtocolSource :=
  mkProtocolSource "watts" poll None None
    (ModbusTcp (mkModbus "meter" 502 "1" 100 (of_Z 1) (of_Z 0) Codec.Uint16 Codec.HighLow None None)).

Definition demo_heartbeat (period_s : f64) : HeartbeatSource :=
  mkHeartbeatSource 256 period_s
    (ModbusTcp (mkModbus "bms" 502 "100" 896 (of_Z 1) (of_Z 0) Codec.Uint16 Codec.HighLow (Some 6) None)).

Definition demo_tasks_spec (period_s : f64) : AsyncApiSpec :=
  mkSpec "v1" {["meter"%string := {["active_power"%string := demo_meter (Some (lit 1 1000))]}]}
    ∅ (heartbeats {["bms"%string := demo_heartbeat period_s]}) ∅ ∅.

Definition demo_gateway_config : Config :=
  Config.mkConfig "http://device-api:3000" "tcp://hivemq:1883" "arcnode_gateway" "s1" "info" None.

Definition demo_spawn (period_s : f64) : option TaskSet :=
  spawn_task_set (λ _ _, None) (λ _, None) (demo_tasks_spec period_s) demo_gateway_config.

Lemma demo_rates_ok period_s : rates_ok (demo_tasks_spec period_s).
Proof.
  intros d channels m s. cbn [x_protocol_source demo_tasks_spec].
  intros [_ <-]%lookup_singleton_Some [_ <-]%lookup_singleton_Some. by vm_compute.
Qed.

(** A period of 1e20 s passes the spec's own check and panics the spawn. *)
Lemma spawn_panics_iff_witness :
  x_heartbeat_source (demo_tasks_spec (of_Z (10 ^ 20))) !! "bms"%string = Some (demo_heartbeat (of_Z (10 ^ 20))) ∧
  demo_spawn (of_Z (10 ^ 20)) = None ∧
  (is_Some (demo_spawn (of_Z 1)) ↔
   (∀ d channels n c, x_command_source (demo_tasks_spec (of_Z 1)) !! d = Some channels →
      channels !! n = Some c → dwell_ok (cmd_binding c)) ∧
   (∀ d h, x_heartbeat_source (demo_tasks_spec (of_Z 1)) !! d = Some h →
      is_Some (duration_from_secs_f64 (hb_period_s h)))) ∧
  is_Some (demo_spawn (of_Z 1)).
Proof.
  split; [by vm_compute|]. split; [by vm_compute|]. split.
  - apply (spawn_panics_iff (λ _ _, None) (λ _, None) (demo_tasks_spec (of_Z 1)) demo_gateway_config
      {["bms"%string := demo_heartbeat (of_Z 1)]}); [apply demo_rates_ok|done].
  - destruct (demo_spawn (of_Z 1)) as [ts|] eqn:Hts; [by eexists|by vm_compute in Hts].
Defined.


Definition demo_capped : ProtocolSource :=
  mkProtocolSource "percent" None None None (PowerCap (mkPowerCap [] None None None None None None)).

Lemma virtual_measurement_panics_witness :
  measurement_check demo_capped = Ok () ∧
  ∃ p, spawn_measurement (λ _ _, None) (λ _, None) (demo_tasks_spec (of_Z 1)) demo_gateway_config
         "rack" ("cap"%string, demo_capped) = Some (Reads p) ∧
    pp_binding p = src_binding demo_capped ∧
    read_value (λ _, None) (λ _ _, None) 10 (pp_binding p) None None pcs = Unreachable.
Proof.
  apply (virtual_measurement_panics (λ _, None) (λ _ _, None) (λ _, None) 10 (demo_tasks_spec (of_Z 1))
    demo_gateway_config "rack" "cap" demo_capped None None pcs); by vm_compute.
Defined.
