(* ===== verification/Gateway.v ===== *)
(** * The gateway: the shared state of [src/app.rs] and the interleaving of the
    tasks that use it

    The state [app::run] shares between its tasks, the tasks that write to
    devices, and one step per point where another task can run: a message of
    the subscriber ([src/mqtt/subscriber.rs]), a re-fetch of the lockouts
    ([src/loto/refresher.rs]), a topology reconcile, and the ticks of the
    envelope, shed, heartbeat and site tasks, each split where it awaits.  A
    tick reads the lockouts once, when it begins, and then writes device by
    device.  A command, of the operator or of the site task, runs in the stages
    of [Commands] and holds the locks of the lockouts, channels and trust all
    the while, so that a re-fetch of the lockouts and the swap of a new topology
    wait for it.

    [step] is a function on the state and an event; it is [None] when the event
    cannot happen in that state, or panics.  The pollers and the synthetic
    channels write nothing of the state, so they have no step here; their ticks
    are in [Poller] and [Synthetic]. *)

From Stdlib Require Import ZArith Lia Floats.
From S2P Require Import Prelude F64 Binary64 Text Allocation Cache Payload Bindings Config WriteOrder.
From S2P Require Import Transport.
From S2P Require Import Writes PoiServo ControlLaw Shed Distribute Sunspec Dispatch Commands EnvelopeTask DerDispatch.
From S2P Require Import Synthetic Topology Poller Tasks.
Local Open Scope Z_scope.

(** ** Tasks at work *)

(** A distribute task: when it last ticked; its plan and the writes left of it
    while it writes. *)
Record EnvelopeSlot := mkEnvelopeSlot {
  es_config : EnvelopeTaskConfig;
  es_state : TaskState;
  es_last_tick : Z;
  es_flight : option (Plan f64 * list (string * f64));
}.

(** A shed task: the cap it applies, the writes left, and whether all so far
    succeeded. *)
Record ShedSlot := mkShedSlot {
  sh_config : ShedTaskConfig;
  sh_controller : ShedController f64;
  sh_last_poi : option Z;
  sh_flight : option (f64 * list (string * string * f64) * bool);
}.

(** A counter heartbeat: whether it found its device steerable. *)
Record CounterSlot := mkCounterSlot {
  co_counter : Counter;
  co_trust : option DeviceTrust;
  co_count : Z;
  co_flight : bool;
}.

(** A CmdBits heartbeat, likewise. *)
Record BeatSlot := mkBeatSlot {
  be_beat : Beat;
  be_trust : option DeviceTrust;
  be_flight : bool;
}.

(** The site task in one of its two loops over modules: the commands left, of
    which the first may be under way. *)
Inductive SiteWork :=
| Restoring (all_published : bool)
| Dispatching.

Record SiteFlight := mkSite {
  sf_work : SiteWork;
  sf_todo : list (string * f64);
  sf_command : option CommandFlight;
}.

(** How far an accepted new topology has been taken over. *)
Inductive Stage := ChannelsSwapped | TrustSwapped | Resubscribed.

(** The main loop serves, has left on the shutdown signal, or has returned. *)
Inductive Lifecycle := Serving | Stopping | Stopped.

Record Gateway (W : Type) := mkGateway {
  g_spec : AsyncApiSpec;                       (* [current_spec] *)
  g_channels : Channels;                       (* [Devices] *)
  g_trust : gmap string DeviceTrust;
  g_locked : gset string;
  g_requested : Requested;                     (* [last_requested] *)
  g_cache : InputCache;
  g_memory : EventMemory;                      (* [site_event] *)
  g_subscriptions : list string * list Z;
  g_beacon : bool;                             (* an unseen topology beacon *)
  g_loto_beacon : bool;
  g_loto_fetching : bool;                      (* a re-fetch of the lockouts is under way *)
  g_running : bool;                            (* the task set is not cancelled *)
  g_reconciling : option (AsyncApiSpec * Stage);
  g_tasks : TaskSet;
  g_envelopes : list EnvelopeSlot;
  g_sheds : list ShedSlot;
  g_counters : list CounterSlot;
  g_beats : list BeatSlot;
  g_site : option SiteFlight;
  g_command : option CommandFlight;            (* the subscriber's *)
  g_phase : Lifecycle;
  g_world : W;
}.
Arguments mkGateway {W}.
Arguments g_spec {W}. Arguments g_channels {W}. Arguments g_trust {W}. Arguments g_locked {W}.
Arguments g_requested {W}. Arguments g_cache {W}. Arguments g_memory {W}.
Arguments g_subscriptions {W}. Arguments g_beacon {W}. Arguments g_loto_beacon {W}.
Arguments g_loto_fetching {W}. Arguments g_running {W}. Arguments g_reconciling {W}. Arguments g_tasks {W}. Arguments g_envelopes {W}. Arguments g_sheds {W}.
Arguments g_counters {W}. Arguments g_beats {W}. Arguments g_site {W}. Arguments g_command {W}. Arguments g_phase {W}. Arguments g_world {W}.

Section Updates.
Context {W : Type}.

Definition set_locked (g : Gateway W) (v : gset string) : Gateway W :=
  mkGateway (g_spec g) (g_channels g) (g_trust g) v (g_requested g) (g_cache g) (g_memory g)
    (g_subscriptions g) (g_beacon g) (g_loto_beacon g) false (g_running g) (g_reconciling g) (g_tasks g)
    (g_envelopes g) (g_sheds g) (g_counters g) (g_beats g) (g_site g) (g_command g) (g_phase g)
    (g_world g).

Definition set_cache (g : Gateway W) (v : InputCache) : Gateway W :=
  mkGateway (g_spec g) (g_channels g) (g_trust g) (g_locked g) (g_requested g) v (g_memory g)
    (g_subscriptions g) (g_beacon g) (g_loto_beacon g) (g_loto_fetching g) (g_running g)
    (g_reconciling g) (g_tasks g) (g_envelopes g) (g_sheds g) (g_counters g) (g_beats g) (g_site g)
    (g_command g) (g_phase g) (g_world g).

Definition set_signals (g : Gateway W) (topology loto fetching running : bool) : Gateway W :=
  mkGateway (g_spec g) (g_channels g) (g_trust g) (g_locked g) (g_requested g) (g_cache g) (g_memory g)
    (g_subscriptions g) topology loto fetching running (g_reconciling g) (g_tasks g) (g_envelopes g)
    (g_sheds g) (g_counters g) (g_beats g) (g_site g) (g_command g) (g_phase g) (g_world g).

Definition set_phase (g : Gateway W) (phase : Lifecycle) (running : bool) : Gateway W :=
  mkGateway (g_spec g) (g_channels g) (g_trust g) (g_locked g) (g_requested g) (g_cache g) (g_memory g)
    (g_subscriptions g) (g_beacon g) (g_loto_beacon g) (g_loto_fetching g) running (g_reconciling g)
    (g_tasks g) (g_envelopes g) (g_sheds g) (g_counters g) (g_beats g) (g_site g) (g_command g) phase
    (g_world g).

(** A reconcile on its way to [fresh]. *)
Definition set_topology (g : Gateway W) (fresh : AsyncApiSpec) (stage : Stage) (channels : Channels)
    (trust : gmap string DeviceTrust) (subs : list string * list Z) (w : W) : Gateway W :=
  mkGateway (g_spec g) channels trust (g_locked g) (g_requested g) (g_cache g) (g_memory g) subs
    (g_beacon g) (g_loto_beacon g) (g_loto_fetching g) (g_running g) (Some (fresh, stage)) (g_tasks g)
    (g_envelopes g) (g_sheds g) (g_counters g) (g_beats g) (g_site g) (g_command g) (g_phase g) w.

(** After a stage of a command: the requests and the world. *)
Definition set_requested (g : Gateway W) (r : Requested) (w : W) : Gateway W :=
  mkGateway (g_spec g) (g_channels g) (g_trust g) (g_locked g) r (g_cache g) (g_memory g)
    (g_subscriptions g) (g_beacon g) (g_loto_beacon g) (g_loto_fetching g) (g_running g)
    (g_reconciling g) (g_tasks g) (g_envelopes g) (g_sheds g) (g_counters g) (g_beats g) (g_site g)
    (g_command g) (g_phase g) w.

Definition set_command (g : Gateway W) (c : option CommandFlight) : Gateway W :=
  mkGateway (g_spec g) (g_channels g) (g_trust g) (g_locked g) (g_requested g) (g_cache g) (g_memory g)
    (g_subscriptions g) (g_beacon g) (g_loto_beacon g) (g_loto_fetching g) (g_running g)
    (g_reconciling g) (g_tasks g) (g_envelopes g) (g_sheds g) (g_counters g) (g_beats g) (g_site g) c
    (g_phase g) (g_world g).

Definition set_envelope (g : Gateway W) (i : nat) (s : EnvelopeSlot) (w : W) : Gateway W :=
  mkGateway (g_spec g) (g_channels g) (g_trust g) (g_locked g) (g_requested g) (g_cache g) (g_memory g)
    (g_subscriptions g) (g_beacon g) (g_loto_beacon g) (g_loto_fetching g) (g_running g)
    (g_reconciling g) (g_tasks g) (<[i := s]> (g_envelopes g)) (g_sheds g) (g_counters g) (g_beats g)
    (g_site g) (g_command g) (g_phase g) w.

Definition set_shed (g : Gateway W) (i : nat) (s : ShedSlot) (w : W) : Gateway W :=
  mkGateway (g_spec g) (g_channels g) (g_trust g) (g_locked g) (g_requested g) (g_cache g) (g_memory g)
    (g_subscriptions g) (g_beacon g) (g_loto_beacon g) (g_loto_fetching g) (g_running g)
    (g_reconciling g) (g_tasks g) (g_envelopes g) (<[i := s]> (g_sheds g)) (g_counters g) (g_beats g)
    (g_site g) (g_command g) (g_phase g) w.

Definition set_counter (g : Gateway W) (i : nat) (s : CounterSlot) (w : W) : Gateway W :=
  mkGateway (g_spec g) (g_channels g) (g_trust g) (g_locked g) (g_requested g) (g_cache g) (g_memory g)
    (g_subscriptions g) (g_beacon g) (g_loto_beacon g) (g_loto_fetching g) (g_running g)
    (g_reconciling g) (g_tasks g) (g_envelopes g) (g_sheds g) (<[i := s]> (g_counters g)) (g_beats g)
    (g_site g) (g_command g) (g_phase g) w.

Definition set_beat (g : Gateway W) (i : nat) (s : BeatSlot) (w : W) : Gateway W :=
  mkGateway (g_spec g) (g_channels g) (g_trust g) (g_locked g) (g_requested g) (g_cache g) (g_memory g)
    (g_subscriptions g) (g_beacon g) (g_loto_beacon g) (g_loto_fetching g) (g_running g)
    (g_reconciling g) (g_tasks g) (g_envelopes g) (g_sheds g) (g_counters g) (<[i := s]> (g_beats g))
    (g_site g) (g_command g) (g_phase g) w.

Definition set_site (g : Gateway W) (m : EventMemory) (s : option SiteFlight) : Gateway W :=
  mkGateway (g_spec g) (g_channels g) (g_trust g) (g_locked g) (g_requested g) (g_cache g) m
    (g_subscriptions g) (g_beacon g) (g_loto_beacon g) (g_loto_fetching g) (g_running g)
    (g_reconciling g) (g_tasks g) (g_envelopes g) (g_sheds g) (g_counters g) (g_beats g) s (g_command g)
    (g_phase g) (g_world g).
End Updates.

(** ** Starting a task set *)

Definition start_envelope (now : Z) (c : EnvelopeTaskConfig) : EnvelopeSlot :=
  mkEnvelopeSlot c (mkTask None new_writes) now None.

Definition start_shed (c : ShedTaskConfig) : ShedSlot :=
  mkShedSlot c (new_shed (st_control c)) None None.

Definition start_counter (c : Counter * option DeviceTrust) : CounterSlot :=
  mkCounterSlot c.1 c.2 0 false.

Definition start_beat (b : Beat * option DeviceTrust) : BeatSlot := mkBeatSlot b.1 b.2 false.

(** What can happen, in an order the scheduler chooses. *)
Inductive Event :=
| Message (topic : string) (doc : option Value) (frame : option CommandFrame) (now : Z)
| CommandNext (now : Z)
| LotoBegin
| LotoRefetch (answer : result string (gset string))
| Cancel
| Reconcile (answer : result string AsyncApiSpec) (now : Z)
| ReconcileNext (now : Z)
| Shutdown
| Disconnect
| EnvelopeBegin (i : nat) (now : Z)
| EnvelopeWrite (i : nat)
| EnvelopeLand (i : nat) (landed_at : Z)
| ShedBegin (i : nat) (now : Z)
| ShedWrite (i j : nat)
| ShedEnd (i : nat)
| CounterBegin (i : nat)
| CounterWrite (i : nat)
| BeatBegin (i : nat)
| BeatWrite (i : nat)
| SiteBegin (now : Z)
| SiteNext (now : Z).

Section Step.
Context {W : Type} `{South W} `{Broker W} `{BrokerSession W}.
Context (pointer : Value → string → option Value) (validator_for : Value → option (Value → bool)).
Context (hash_order : ∀ A : Type, list (string * A) → list (string * A)).
Context (frame_of : f64 → option CommandFrame).
Context (order : list (string * string * f64) → list (string * string * f64)).
Context (cfg : Config).
(** [client.is_connected()]; the fuel of a SunSpec discovery. *)
Context `{Rodbus W} `{SessionCache W} `{SunspecState W}.
Context (connected : W → bool) (fuel : nat).

Local Abbreviation site := (Config.site_id cfg).
Local Abbreviation creds := (Config.gateway_credentials cfg).

(** [spawn_task_set] on the state: every task starts afresh; what is shared
    stays. *)
Definition respawn (g : Gateway W) (spec : AsyncApiSpec) (channels : Channels)
    (trust : gmap string DeviceTrust) (subscriptions : list string * list Z) (now : Z) (w : W)
    : option (Gateway W) :=
  ts ← spawn_task_set pointer validator_for spec cfg;
  Some (mkGateway spec channels trust (g_locked g) (g_requested g) (g_cache g) (g_memory g)
    subscriptions (g_beacon g) (g_loto_beacon g) (g_loto_fetching g) true None ts
    (start_envelope now <$> ts_envelopes ts) (start_shed <$> ts_sheds ts)
    (start_counter <$> ts_counters ts) (start_beat <$> ts_beats ts) None (g_command g) (g_phase g) w).

(** Every task has returned: [join_next] until none is left. *)
Definition joined (g : Gateway W) : bool :=
  forallb (λ s, match es_flight s with None => true | Some _ => false end) (g_envelopes g) &&
  forallb (λ s, match sh_flight s with None => true | Some _ => false end) (g_sheds g) &&
  forallb (λ s, negb (co_flight s)) (g_counters g) &&
  forallb (λ s, negb (be_flight s)) (g_beats g) &&
  match g_site g with None => true | Some _ => false end.

(** No command holds the locks of the shared maps. *)
Definition unlocked (g : Gateway W) : bool :=
  match g_command g, g_site g with
  | None, None => true
  | None, Some f => match sf_command f with None => true | Some _ => false end
  | Some _, _ => false
  end.

(** [app::run]'s answer to a topology beacon: a spec that is not fetched or not
    aligned with the credentials restarts the tasks of the current one; an
    accepted one is taken over in stages, and other tasks can run between
    them.  Each map is swapped once no command reads it. *)
Definition reconcile (g : Gateway W) (answer : result string AsyncApiSpec) (now : Z) : option (Gateway W) :=
  let keep := respawn g (g_spec g) (g_channels g) (g_trust g) (g_subscriptions g) now (g_world g) in
  match answer with
  | Err _ => keep
  | Ok fresh =>
      if is_ok (validate_trust_creds_alignment fresh creds) then
        if unlocked g then
          Some (set_topology g fresh ChannelsSwapped (device_channels fresh) (g_trust g)
                  (g_subscriptions g) (g_world g))
        else None
      else keep
  end.

Definition reconcile_next (g : Gateway W) (now : Z) : option (Gateway W) :=
  match g_reconciling g with
  | None => None
  | Some (fresh, ChannelsSwapped) =>
      if unlocked g then
        Some (set_topology g fresh TrustSwapped (g_channels g) (x_device_trust fresh)
                (g_subscriptions g) (g_world g))
      else None
  | Some (fresh, TrustSwapped) =>
      let '(_, subscriptions, w) :=
        update site (g_subscriptions g) (input_topics fresh site) (g_world g) in
      Some (set_topology g fresh Resubscribed (g_channels g) (g_trust g) subscriptions w)
  | Some (fresh, Resubscribed) =>
      respawn g fresh (g_channels g) (g_trust g) (g_subscriptions g) now (g_world g)
  end.

(** ** Commands *)

(** The code of a command up to where it awaits next. *)
Definition start_command (g : Gateway W) (topic : string) (frame : option CommandFrame)
    : result string (option CommandFlight) * Gateway W :=
  let '(r, w) := command_begin (g_channels g) site topic frame (g_world g) in
  (r, set_requested g (g_requested g) w).

Definition resume_command (g : Gateway W) (c : CommandFlight) (now : Z) : option (Progress * Gateway W) :=
  '(p, requested, w) ← command_next (g_channels g) (g_trust g) (g_locked g) creds site (g_cache g) now
    order c (g_requested g) (g_world g);
  Some (p, set_requested g requested w).

(** The subscriber's loop on one message; [doc] and [frame] are its payload as a
    document and as a command.  It takes the next message once a command is
    answered. *)
Definition on_message (g : Gateway W) (topic : string) (doc : option Value)
    (frame : option CommandFrame) (now : Z) : option (Gateway W) :=
  match g_command g with
  | Some _ => None
  | None =>
      if bool_decide (topic = "system/topology_changed"%string) then
        Some (set_signals g true (g_loto_beacon g) (g_loto_fetching g) (g_running g))
      else if bool_decide (topic = "system/loto_changed"%string) then
        Some (set_signals g (g_beacon g) true (g_loto_fetching g) (g_running g))
      else if str_contains "/commands/" topic then
        let '(r, g) := start_command g topic frame in
        Some (set_command g (match r with Ok c => c | Err _ => None end))
      else Some (set_cache g (cache_sample (g_cache g) topic doc now))
  end.

Definition subscriber_next (g : Gateway W) (now : Z) : option (Gateway W) :=
  c ← g_command g;
  '(p, g) ← resume_command g c now;
  Some (set_command g (match p with Waits c => Some c | Answers _ => None end)).

(** ** Envelope ticks *)

(** [now.duration_since(last_tick)] saturates at zero. *)
Definition since_last_tick (s : EnvelopeSlot) (now : Z) : Z := Z.max 0 (now - es_last_tick s).

Definition envelope_begin (g : Gateway W) (i : nat) (now : Z) : option (Gateway W) :=
  s ← g_envelopes g !! i;
  match es_flight s with
  | Some _ => None
  | None =>
      '(st, p) ← tick_plan (es_config s) site (g_cache g) (g_requested g) (g_locked g) now
        (es_state s) (since_last_tick s now);
      Some (set_envelope g i
        (mkEnvelopeSlot (es_config s) st now ((λ p, (p, writes p)) <$> p)) (g_world g))
  end.

(** One child's write; a refusal ends the tick. *)
Definition envelope_write (g : Gateway W) (i : nat) : option (Gateway W) :=
  s ← g_envelopes g !! i;
  match es_flight s with
  | Some (p, share :: todo) =>
      let '(r, w) := write_share (g_channels g) (g_trust g) creds
                       (etc_channel_key (es_config s)) share (g_world g) in
      Some (set_envelope g i
        (mkEnvelopeSlot (es_config s) (es_state s) (es_last_tick s)
           (if is_ok r then Some (p, todo) else None)) w)
  | _ => None
  end.

Definition envelope_land (g : Gateway W) (i : nat) (landed_at : Z) : option (Gateway W) :=
  s ← g_envelopes g !! i;
  match es_flight s with
  | Some (p, []) =>
      let st := es_state s in
      Some (set_envelope g i
        (mkEnvelopeSlot (es_config s)
           (mkTask (controller st) (landed (task_writes st) p landed_at)) (es_last_tick s) None) (g_world g))
  | _ => None
  end.

(** ** Shed ticks *)

Definition shed_begin (g : Gateway W) (i : nat) (now : Z) : option (Gateway W) :=
  s ← g_sheds g !! i;
  match sh_flight s with
  | Some _ => None
  | None =>
      let c := sh_config s in
      let spare := spare_w (st_storage c) (st_poi_topic c) (st_site_id c) (g_cache g) (g_locked g) now in
      let '(last_poi, t) := inputs c (g_cache g) spare (sh_last_poi s) in
      match t with
      | None => Some (set_shed g i (mkShedSlot c (sh_controller s) last_poi None) (g_world g))
      | Some t =>
          '(ctrl, percent) ← shed_tick (sh_controller s) t;
          match percent with
          | None => Some (set_shed g i (mkShedSlot c ctrl last_poi None) (g_world g))
          | Some percent =>
              caps ← module_caps c percent (g_requested g);
              Some (set_shed g i
                (mkShedSlot c ctrl last_poi (Some (percent, unlocked_caps (g_locked g) caps, true)))
                (g_world g))
          end
      end
  end.

(** The [j]-th of the writes under way completes. *)
Definition shed_write (g : Gateway W) (i j : nat) : option (Gateway W) :=
  s ← g_sheds g !! i;
  match sh_flight s with
  | Some (percent, todo, ok) =>
      cap ← todo !! j;
      let '(r, w) := write_one (g_channels g) (g_trust g) (st_creds (sh_config s)) cap (g_world g) in
      Some (set_shed g i
        (mkShedSlot (sh_config s) (sh_controller s) (sh_last_poi s)
           (Some (percent, delete j todo, ok && is_ok r))) w)
  | None => None
  end.

Definition shed_end (g : Gateway W) (i : nat) : option (Gateway W) :=
  s ← g_sheds g !! i;
  match sh_flight s with
  | Some (percent, [], ok) =>
      Some (set_shed g i
        (mkShedSlot (sh_config s)
           (if ok : bool then confirm (sh_controller s) percent else sh_controller s)
           (sh_last_poi s) None) (g_world g))
  | _ => None
  end.

(** ** Heartbeats *)

Definition counter_begin (g : Gateway W) (i : nat) : option (Gateway W) :=
  s ← g_counters g !! i;
  if co_flight s then None
  else
    let go := steerable (connected (g_world g)) (g_locked g) (counter_device (co_counter s)) in
    Some (set_counter g i (mkCounterSlot (co_counter s) (co_trust s) (co_count s) go) (g_world g)).

Definition counter_write (g : Gateway W) (i : nat) : option (Gateway W) :=
  s ← g_counters g !! i;
  if negb (co_flight s) then None
  else
    let c := co_counter s in
    let '(r, w) := modbus_write (counter_binding c) (of_Z (co_count s)) (co_trust s) creds (g_world g) in
    let count := match r with
                 | Ok _ => ((co_count s + 1) mod counter_modulo c)%Z
                 | Err _ => co_count s
                 end in
    Some (set_counter g i (mkCounterSlot c (co_trust s) count false) w).

(** A beat that may not go on forgets its word at once; [None]: its discovery
    has not come to an end. *)
Definition beat_begin (g : Gateway W) (i : nat) : option (Gateway W) :=
  s ← g_beats g !! i;
  if be_flight s then None
  else if steerable (connected (g_world g)) (g_locked g) (beat_device_id (be_beat s)) then
    Some (set_beat g i (mkBeatSlot (be_beat s) (be_trust s) true) (g_world g))
  else
    w ← beat_once fuel (be_beat s) false (be_trust s) creds (g_world g);
    Some (set_beat g i s w).

Definition beat_write (g : Gateway W) (i : nat) : option (Gateway W) :=
  s ← g_beats g !! i;
  if negb (be_flight s) then None
  else
    w ← beat_once fuel (be_beat s) true (be_trust s) creds (g_world g);
    Some (set_beat g i (mkBeatSlot (be_beat s) (be_trust s) false) w).

(** ** Site ticks *)

Definition site_begin (g : Gateway W) (now : Z) : option (Gateway W) :=
  match g_site g with
  | Some _ => None
  | None =>
      let operator := operator_setpoints (g_requested g) in
      match posture (sd_topics (ts_site_distribution (g_tasks g))) (g_cache g) with
      | Hold => Some g
      | Release =>
          Some (set_site g (g_memory g)
            (Some (mkSite (Restoring true) (end_ hash_order (g_memory g) operator) None)))
      | DispatchTarget target =>
          let m := begin (g_memory g) operator in
          match modules_with_bounds hash_order site (g_channels g) (g_locked g) (g_cache g) now target with
          | None | Some [] => Some (set_site g m None)
          | Some modules =>
              Some (set_site g m
                (Some (mkSite Dispatching (changed m (allocate target modules SocWeighted)) None)))
          end
      end
  end.

(** [dispatch_one] has returned [ok] for the first of the commands left. *)
Definition site_answered (g : Gateway W) (f : SiteFlight) (ok : bool) : Gateway W :=
  match sf_todo f with
  | [] => set_site g (g_memory g) None
  | (module_id, value) :: todo =>
      match sf_work f with
      | Restoring all => set_site g (g_memory g) (Some (mkSite (Restoring (ok && all)) todo None))
      | Dispatching =>
          set_site g (if ok then record (g_memory g) module_id value else g_memory g)
            (Some (mkSite Dispatching todo None))
      end
  end.

(** The command under way goes on; or the next one begins; or the loop ends. *)
Definition site_next (g : Gateway W) (now : Z) : option (Gateway W) :=
  f ← g_site g;
  match sf_command f, sf_todo f with
  | Some c, _ =>
      '(p, g) ← resume_command g c now;
      Some match p with
           | Waits c => set_site g (g_memory g) (Some (mkSite (sf_work f) (sf_todo f) (Some c)))
           | Answers r => site_answered g f (is_ok r)
           end
  | None, (module_id, value) :: _ =>
      let '(r, g) := start_command g (module_topic site module_id) (frame_of value) in
      Some match r with
           | Ok (Some c) => set_site g (g_memory g) (Some (mkSite (sf_work f) (sf_todo f) (Some c)))
           | Ok None => site_answered g f true
           | Err _ => site_answered g f false
           end
  | None, [] =>
      Some (set_site g match sf_work f with
                       | Restoring true => clear (g_memory g)
                       | _ => g_memory g
                       end None)
  end.

(** ** One step *)

(** A cancelled task set may still begin a tick: [select!] takes either branch
    when a tick is due, too.  It is joined before a reconcile goes on, so then
    there is no task. *)
Definition alive (g : Gateway W) (next : option (Gateway W)) : option (Gateway W) :=
  match g_reconciling g with None => next | Some _ => None end.

Definition react (g : Gateway W) (e : Event) : option (Gateway W) :=
  match e with
  | Message topic doc frame now => on_message g topic doc frame now
  | CommandNext now => subscriber_next g now
  | LotoBegin =>
      if g_loto_beacon g && negb (g_loto_fetching g)
      then Some (set_signals g (g_beacon g) false true (g_running g)) else None
  | LotoRefetch answer =>
      if g_loto_fetching g && (unlocked g || negb (is_ok answer))
      then Some (set_locked g (refetch (g_locked g) answer)) else None
  | Cancel =>
      if g_beacon g && g_running g
      then Some (set_signals g false (g_loto_beacon g) (g_loto_fetching g) false) else None
  | Reconcile answer now =>
      match g_phase g with
      | Serving => if negb (g_running g) && joined g then alive g (reconcile g answer now) else None
      | _ => None
      end
  | ReconcileNext now => reconcile_next g now
  | Shutdown =>
      if g_running g then Some (set_phase g Stopping false) else None
  | Disconnect =>
      match g_phase g with
      | Stopping => if joined g then Some (set_phase g Stopped false) else None
      | _ => None
      end
  | EnvelopeBegin i now => alive g (envelope_begin g i now)
  | EnvelopeWrite i => envelope_write g i
  | EnvelopeLand i landed_at => envelope_land g i landed_at
  | ShedBegin i now => alive g (shed_begin g i now)
  | ShedWrite i j => shed_write g i j
  | ShedEnd i => shed_end g i
  | CounterBegin i => alive g (counter_begin g i)
  | CounterWrite i => counter_write g i
  | BeatBegin i => alive g (beat_begin g i)
  | BeatWrite i => beat_write g i
  | SiteBegin now => alive g (site_begin g now)
  | SiteNext now => site_next g now
  end.

(** Once [app::run] has returned, the process is gone. *)
Definition step (g : Gateway W) (e : Event) : option (Gateway W) :=
  match g_phase g with Stopped => None | _ => react g e end.

Fixpoint run (g : Gateway W) (es : list Event) : option (Gateway W) :=
  match es with
  | [] => Some g
  | e :: es => g ← step g e; run g es
  end.

(** [app::run] up to its loop: the spec is fetched and aligned, the lockouts
    are known, the subscriptions stand and the first task set is spawned; one
    re-fetch of the lockouts is due. *)
Definition boot (spec : AsyncApiSpec) (locked : gset string) (now : Z) (w : W) : option (Gateway W) :=
  if is_ok (validate_trust_creds_alignment spec creds) then
    ts ← spawn_task_set pointer validator_for spec cfg;
    respawn (mkGateway spec ∅ ∅ locked ∅ ∅ new_event_memory ([], []) false true false true None ts [] [] [] []
               None None Serving w)
      spec (device_channels spec) (x_device_trust spec)
      (subscription_list site (input_topics spec site)) now w
  else None.

(** What a gateway can get to. *)
Inductive reachable : Gateway W → Prop :=
| reach_boot spec locked now w g : boot spec locked now w = Some g → reachable g
| reach_step g e g' : reachable g → step g e = Some g' → reachable g'.
End Step.

(** ** What a tick takes from the lockouts *)

Lemma tick_plan_unlocked c site_id cache requested locked now s dt st p :
  tick_plan c site_id cache requested locked now s dt = Some (st, Some p) →
  ∀ id, id ∈ (writes p).*1 → id ∉ locked.
Proof.
  unfold tick_plan. cbv zeta.
  match goal with |- context [mbind _ ?r] => destruct r as [[[s1 target]|]|]; simpl; [|done|done] end.
  destruct (etc_binding c) as [| | | | | | | |d|]; try done.
  destruct (compute_shares _ _ _ _ _ _) as [shares|e] eqn:Hs; [|done].
  intros Hp id Hid. eapply compute_shares_unlocked; [exact Hs|].
  pose proof (plan_ids (task_writes s1) shares id) as Hids.
  destruct (plan (task_writes s1) shares) as [ws o]. injection Hp as <- ->. by apply Hids.
Qed.

(** ** Commands, and the steps that only look *)

Section Facts.
Context {W : Type} `{South W} `{Broker W} `{BrokerSession W}.
Context (pointer : Value → string → option Value) (validator_for : Value → option (Value → bool)).
Context (hash_order : ∀ A : Type, list (string * A) → list (string * A)).
Context (frame_of : f64 → option CommandFrame).
Context (order : list (string * string * f64) → list (string * string * f64)).
Context (cfg : Config).
Context `{Rodbus W} `{SessionCache W} `{SunspecState W}.
Context (connected : W → bool) (fuel : nat).

Local Abbreviation creds := (Config.gateway_credentials cfg).
Local Abbreviation stepg := (step pointer validator_for hash_order frame_of order cfg connected fuel).
Local Abbreviation spawned := (spawn_task_set pointer validator_for).

Lemma respawn_Some (g : Gateway W) spec channels trust subs now w g' :
  respawn pointer validator_for cfg g spec channels trust subs now w = Some g' →
  ∃ ts, spawned spec cfg = Some ts ∧
    g' = mkGateway spec channels trust (g_locked g) (g_requested g) (g_cache g) (g_memory g)
      subs (g_beacon g) (g_loto_beacon g) (g_loto_fetching g) true None ts
      (start_envelope now <$> ts_envelopes ts) (start_shed <$> ts_sheds ts)
      (start_counter <$> ts_counters ts) (start_beat <$> ts_beats ts) None (g_command g) (g_phase g) w.
Proof.
  unfold respawn. destruct (spawned spec cfg) as [ts|]; simpl; [|done]. intros [= <-]. by exists ts.
Qed.

Lemma reachable_run es : ∀ g g' : Gateway W,
  reachable pointer validator_for hash_order frame_of order cfg connected fuel g →
  run pointer validator_for hash_order frame_of order cfg connected fuel g es = Some g' →
  reachable pointer validator_for hash_order frame_of order cfg connected fuel g'.
Proof.
  induction es as [|e es IH]; intros g g' Hg Hr; [by injection Hr as <-|].
  change (stepg g e ≫= (λ g, run pointer validator_for hash_order frame_of order cfg connected fuel g es)
    = Some g') in Hr.
  destruct (stepg g e) as [g1|] eqn:Hs; [|done]. eapply IH; [|exact Hr]. by eapply reach_step.
Qed.

Lemma step_alive (g : Gateway W) e :
  g_phase g ≠ Stopped →
  stepg g e = react pointer validator_for hash_order frame_of order cfg connected fuel g e.
Proof. unfold step. by destruct (g_phase g). Qed.

Lemma step_react (g : Gateway W) e g' :
  stepg g e = Some g' →
  react pointer validator_for hash_order frame_of order cfg connected fuel g e = Some g'.
Proof. unfold step. by destruct (g_phase g). Qed.

(** A reconcile restarts the current tasks or begins to take a new spec over. *)
Lemma reconcile_Some (g : Gateway W) answer now g' :
  reconcile pointer validator_for cfg g answer now = Some g' →
  respawn pointer validator_for cfg g (g_spec g) (g_channels g) (g_trust g) (g_subscriptions g) now (g_world g)
    = Some g' ∨
  ∃ fresh, answer = Ok fresh ∧ is_ok (validate_trust_creds_alignment fresh creds) = true ∧
    unlocked g = true ∧ g' = set_topology g fresh ChannelsSwapped (device_channels fresh) (g_trust g)
           (g_subscriptions g) (g_world g).
Proof.
  unfold reconcile. destruct answer as [fresh|e]; [|by left].
  destruct (is_ok (validate_trust_creds_alignment fresh creds)) eqn:Hok; [|by left].
  destruct (unlocked g) eqn:Hu; [|done]. intros [= <-]. right. by exists fresh.
Qed.

(** The steps that change the topology. *)
Definition takes_over (e : Event) : bool :=
  match e with Reconcile _ _ | ReconcileNext _ => true | _ => false end.

Lemma alive_Some (g : Gateway W) next g' :
  alive g next = Some g' → g_reconciling g = None ∧ next = Some g'.
Proof. unfold alive. by destruct (g_reconciling g). Qed.

(** The others keep it. *)
Definition topology (g : Gateway W) :=
  (g_spec g, g_channels g, g_trust g, g_tasks g, g_reconciling g).

Lemma start_command_Some (g : Gateway W) topic frame r g' :
  start_command cfg g topic frame = (r, g') →
  ∃ w, command_begin (g_channels g) (Config.site_id cfg) topic frame (g_world g) = (r, w) ∧
    g' = set_requested g (g_requested g) w.
Proof. unfold start_command. destruct (command_begin _ _ _ _ _) as [r0 w]. intros [= <- <-]. by exists w. Qed.

Lemma resume_command_Some (g : Gateway W) c now p g' :
  resume_command order cfg g c now = Some (p, g') →
  ∃ requested w,
    command_next (g_channels g) (g_trust g) (g_locked g) creds (Config.site_id cfg) (g_cache g) now order c
      (g_requested g) (g_world g) = Some (p, requested, w) ∧ g' = set_requested g requested w.
Proof.
  unfold resume_command. destruct (command_next _ _ _ _ _ _ _ _ _ _ _) as [[[p0 r] w]|]; simpl; [|done].
  intros [= <- <-]. by exists r, w.
Qed.

(** What an answered command of the site task changes. *)
Lemma site_answered_eq (g : Gateway W) f ok :
  ∃ m s, site_answered g f ok = set_site g m s ∧ (∀ f', s = Some f' → sf_command f' = None).
Proof.
  unfold site_answered. destruct (sf_todo f) as [|[id v] todo]; [|destruct (sf_work f)];
    eexists _, _; (split; [reflexivity|]); by intros f' [= <-].
Qed.

End Facts.

Ltac split_step :=
  repeat match goal with
  | H : mbind _ ?o = Some _ |- _ => destruct o eqn:?; simpl in H; [|done]
  | H : context [match ?x with (_, _) => _ end] |- _ => destruct x eqn:?
  | H : (if ?b then _ else _) = Some _ |- _ => destruct b eqn:?
  | H : match ?x with _ => _ end = Some _ |- _ => destruct x eqn:?
  | H : Some _ = Some _ |- _ => injection H as <-
  | H : None = Some _ |- _ => done
  end.

Ltac step_cases Hs :=
  unfold on_message, subscriber_next, envelope_begin, envelope_write, envelope_land, shed_begin, shed_write,
    shed_end, counter_begin, counter_write, beat_begin, beat_write, site_begin, site_next in Hs;
  cbv zeta in Hs; split_step;
  repeat match goal with
  | H : start_command _ _ _ _ = _ |- _ => apply start_command_Some in H as (? & ? & ->)
  | H : resume_command _ _ _ _ _ = _ |- _ => apply resume_command_Some in H as (? & ? & ? & ->)
  | |- context [site_answered ?g ?f ?ok] =>
      let m := fresh "m" in let s := fresh "s" in let E := fresh "E" in
      destruct (site_answered_eq g f ok) as (m & s & E & ?); rewrite E
  | |- context [match ?x with Waits _ => _ | Answers _ => _ end] => destruct x
  | r : result string (option CommandFlight) |- _ => destruct r as [[?|]|?]
  end.

Section Invariants.
Context {W : Type} `{South W} `{Broker W} `{BrokerSession W}.
Context (pointer : Value → string → option Value) (validator_for : Value → option (Value → bool)).
Context (hash_order : ∀ A : Type, list (string * A) → list (string * A)).
Context (frame_of : f64 → option CommandFrame).
Context (order : list (string * string * f64) → list (string * string * f64)).
Context (cfg : Config).
Context `{Rodbus W} `{SessionCache W} `{SunspecState W}.
Context (connected : W → bool) (fuel : nat).

Local Abbreviation creds := (Config.gateway_credentials cfg).
Local Abbreviation stepg := (step pointer validator_for hash_order frame_of order cfg connected fuel).
Local Abbreviation spawned := (spawn_task_set pointer validator_for).

Lemma step_topology (g : Gateway W) e g' :
  stepg g e = Some g' → takes_over e = false → topology g' = topology g.
Proof.
  intros Hs%step_react Hr. destruct e; cbn [react] in Hs; try done; try apply alive_Some in Hs as [_ Hs].
  all: step_cases Hs; done.
Qed.

Lemma fmap_insert_same {A B} (f : A → B) (l : list A) i x y :
  l !! i = Some x → f y = f x → f <$> <[i := y]> l = f <$> l.
Proof.
  intros Hi Hf. rewrite list_fmap_insert, Hf. apply list_insert_id. by rewrite list_lookup_fmap, Hi.
Qed.

(** The configurations the writing tasks run with, and the trust the heartbeats
    are written with. *)
Definition counter_config (s : CounterSlot) : Counter * option DeviceTrust := (co_counter s, co_trust s).
Definition beat_config (s : BeatSlot) : Beat * option DeviceTrust := (be_beat s, be_trust s).

Definition configs (g : Gateway W) :=
  (es_config <$> g_envelopes g, sh_config <$> g_sheds g,
   counter_config <$> g_counters g, beat_config <$> g_beats g).

Lemma step_configs (g : Gateway W) e g' :
  stepg g e = Some g' → takes_over e = false → configs g' = configs g.
Proof.
  intros Hs%step_react Hr. destruct e; cbn [react] in Hs; try done; try apply alive_Some in Hs as [_ Hs].
  all: step_cases Hs; try done.
  all: unfold configs; cbn [g_envelopes g_sheds g_counters g_beats set_envelope set_shed set_counter set_beat];
    repeat match goal with |- (_, _) = (_, _) => f_equal end; by eapply fmap_insert_same.
Qed.

(** ** The topology in force *)

Definition aligned (spec : AsyncApiSpec) : Prop :=
  is_ok (validate_trust_creds_alignment spec creds) = true.

(** Where command dispatch's two maps come from. *)
Definition maps_ok (g : Gateway W) : Prop :=
  match g_reconciling g with
  | None => g_channels g = device_channels (g_spec g) ∧ g_trust g = x_device_trust (g_spec g)
  | Some (fresh, stage) =>
      aligned fresh ∧ g_channels g = device_channels fresh ∧
      g_trust g = x_device_trust (match stage with ChannelsSwapped => g_spec g | _ => fresh end)
  end.

Record topology_ok (g : Gateway W) : Prop := mkTopologyOk {
  top_maps : maps_ok g;
  top_aligned : aligned (g_spec g);
  top_tasks : spawned (g_spec g) cfg = Some (g_tasks g);
  top_envelopes : (es_config <$> g_envelopes g) = ts_envelopes (g_tasks g);
  top_sheds : (sh_config <$> g_sheds g) = ts_sheds (g_tasks g);
  top_counters : (counter_config <$> g_counters g) = ts_counters (g_tasks g);
  top_beats : (beat_config <$> g_beats g) = ts_beats (g_tasks g);
}.

Lemma respawn_topology_ok (g g' : Gateway W) spec subs now w :
  respawn pointer validator_for cfg g spec (device_channels spec) (x_device_trust spec) subs now w = Some g' →
  aligned spec → topology_ok g'.
Proof.
  intros (ts & Hts & ->)%respawn_Some Ha. split; try done; cbn [g_envelopes g_sheds g_counters g_beats g_tasks];
    rewrite <- list_fmap_compose.
  - apply list_fmap_id.
  - apply list_fmap_id.
  - rewrite <- (list_fmap_id (ts_counters ts)) at 2. apply list_fmap_ext. by intros _ [c t] _.
  - rewrite <- (list_fmap_id (ts_beats ts)) at 2. apply list_fmap_ext. by intros _ [b t] _.
Qed.

Lemma take_over_ok (g g' : Gateway W) e :
  topology_ok g → stepg g e = Some g' → takes_over e = true → topology_ok g'.
Proof.
  intros [Hm Ha Hts He Hsh Hco Hbe] Hs%step_react He'. unfold maps_ok in Hm. destruct e; try done; cbn [react] in Hs.
  - destruct (g_phase g); [|done..]. destruct (negb _ && _); [|done].
    apply alive_Some in Hs as [Hn Hs]. rewrite Hn in Hm.
    destruct Hm as [Hc Ht]. apply reconcile_Some in Hs as [Hs|(fresh & -> & Hok & _ & ->)].
    + rewrite Hc, Ht in Hs. by eapply respawn_topology_ok.
    + by split.
  - unfold reconcile_next in Hs. destruct (g_reconciling g) as [[fresh stage]|]; [|done].
    destruct Hm as (Hok & Hc & Ht), stage.
    + destruct (unlocked g); [|done]. injection Hs as <-. by split.
    + destruct (update _ _ _ _) as [[ok subs] w]. injection Hs as <-. by split.
    + rewrite Hc, Ht in Hs. by eapply respawn_topology_ok.
Qed.

Lemma reachable_topology_ok (g : Gateway W) :
  reachable pointer validator_for hash_order frame_of order cfg connected fuel g → topology_ok g.
Proof.
  induction 1 as [spec locked now w g Hb|g e g' _ IH Hs].
  - unfold boot in Hb. destruct (is_ok _) eqn:Ha; [|done].
    destruct (spawned spec cfg) as [ts|]; simpl in Hb; [|done]. by eapply respawn_topology_ok.
  - destruct (takes_over e) eqn:Ht; [by eapply take_over_ok|].
    pose proof (step_topology _ _ _ Hs Ht) as Htop. pose proof (step_configs _ _ _ Hs Ht) as Hcfg.
    destruct IH as [Hm Ha Hts He Hsh Hco Hbe]. unfold topology, configs in *.
    injection Htop as Hs1 Hs2 Hs3 Hs4 Hs5. injection Hcfg as Hs6 Hs7 Hs8 Hs9.
    unfold maps_ok in Hm. split; unfold maps_ok; rewrite ?Hs1, ?Hs2, ?Hs3, ?Hs4, ?Hs5, ?Hs6, ?Hs7, ?Hs8, ?Hs9; done.
Qed.

Lemma aligned_trust spec d subject :
  aligned spec → x_device_trust spec !! d = Some (TlsMutual subject) → is_Some creds.
Proof.
  unfold aligned, validate_trust_creds_alignment. destruct creds as [c|]; [by eexists|]. intros Ha Hd.
  destruct (find_first _ _) as [[d' t]|] eqn:Hf; [done|].
  rewrite find_first_None in Hf. by specialize (Hf (d, TlsMutual subject) (proj2 (elem_of_map_to_list _ _ _) Hd)).
Qed.

(** C21: in every state the gateway can reach, the task
    set it last started, the configurations of its envelope and shed tasks, the
    counters and beats of its heartbeat tasks and the trust these are written with
    are exactly what spawning from the spec in force gives, none left from an
    earlier spec and none missing; unless a reconcile is taking a new spec over, the
    maps command dispatch looks devices up in are that spec's too, and while one
    does they are the new spec's or, for the trust, still the old one's. Every spec
    in force passed the credentials check: a device recorded as requiring mutual TLS
    is only ever served by a gateway that has credentials. *)
Theorem topology_is_the_accepted_spec (g : Gateway W) :
  reachable pointer validator_for hash_order frame_of order cfg connected fuel g →
  spawned (g_spec g) cfg = Some (g_tasks g) ∧
  (es_config <$> g_envelopes g) = ts_envelopes (g_tasks g) ∧
  (sh_config <$> g_sheds g) = ts_sheds (g_tasks g) ∧
  ((λ s, (co_counter s, co_trust s)) <$> g_counters g) = ts_counters (g_tasks g) ∧
  ((λ s, (be_beat s, be_trust s)) <$> g_beats g) = ts_beats (g_tasks g) ∧
  match g_reconciling g with
  | None => g_channels g = device_channels (g_spec g) ∧ g_trust g = x_device_trust (g_spec g)
  | Some (fresh, stage) =>
      g_channels g = device_channels fresh ∧
      g_trust g = x_device_trust (match stage with ChannelsSwapped => g_spec g | _ => fresh end)
  end ∧
  ∀ d subject, g_trust g !! d = Some (TlsMutual subject) → is_Some creds.
Proof.
  intros [Hm Ha Hts He Hsh Hco Hbe]%reachable_topology_ok. unfold maps_ok in Hm.
  do 5 (split; [done|]).
  destruct (g_reconciling g) as [[fresh stage]|].
  - destruct Hm as (Hok & Hc & Ht). split; [done|]. intros d subject. rewrite Ht.
    destruct stage; by apply aligned_trust.
  - destruct Hm as [Hc Ht]. split; [done|]. intros d subject. rewrite Ht. by apply aligned_trust.
Qed.

(** ** The lifecycle *)

(** A task set runs only while the main loop serves and takes no topology over;
    shutdown is not seen while it does. *)
Definition lifecycle_ok (g : Gateway W) : Prop :=
  (g_running g = true → g_phase g = Serving ∧ g_reconciling g = None) ∧
  (g_reconciling g ≠ None → g_phase g = Serving).

Lemma respawn_lifecycle (g g' : Gateway W) spec channels trust subs now w :
  respawn pointer validator_for cfg g spec channels trust subs now w = Some g' →
  g_phase g = Serving → lifecycle_ok g'.
Proof. intros (ts & _ & ->)%respawn_Some Hp. by split. Qed.

Definition lifecycle (g : Gateway W) := (g_running g, g_reconciling g, g_phase g).

Lemma step_lifecycle (g : Gateway W) e g' : stepg g e = Some g' → lifecycle_ok g → lifecycle_ok g'.
Proof.
  intros Hs%step_react [Hrun Hrec]. unfold lifecycle_ok.
  assert (lifecycle g' = lifecycle g → lifecycle_ok g') as Hsame
    by (unfold lifecycle; intros [= Ha Hb Hc]; unfold lifecycle_ok; by rewrite Ha, Hb, Hc).
  destruct e; cbn [react] in Hs;
    try (apply Hsame; try apply alive_Some in Hs as [_ Hs]; by step_cases Hs).
  - destruct (g_beacon g && g_running g) eqn:Hb; [|done]. injection Hs as <-. by split.
  - destruct (g_phase g) eqn:Hp; [|done..]. destruct (negb _ && _) eqn:Hj; [|done].
    apply andb_true_iff in Hj as [Hn%negb_true_iff _].
    apply alive_Some in Hs as [_ [Hs|(fresh & _ & _ & _ & ->)]%reconcile_Some];
      [by eapply respawn_lifecycle|].
    split; cbn; congruence.
  - unfold reconcile_next in Hs. destruct (g_reconciling g) as [[fresh stage]|] eqn:Hg; [|done].
    assert (g_running g = false) as Hn by (destruct (g_running g); [by destruct Hrun|done]).
    specialize (Hrec ltac:(done)). destruct stage.
    + destruct (unlocked g); [|done]. injection Hs as <-. split; cbn; congruence.
    + destruct (update _ _ _ _) as [[ok subs] w]. injection Hs as <-. split; cbn; congruence.
    + by eapply respawn_lifecycle.
  - destruct (g_running g) eqn:Hr; [|done]. injection Hs as <-. destruct Hrun as [_ Hn]; [done|].
    split; cbn; congruence.
  - destruct (g_phase g) eqn:Hp; [done| |done]. destruct (joined g); [|done]. injection Hs as <-.
    split; cbn; [done|]. intros Hn. by specialize (Hrec Hn).
Qed.

Lemma reachable_lifecycle (g : Gateway W) :
  reachable pointer validator_for hash_order frame_of order cfg connected fuel g → lifecycle_ok g.
Proof.
  induction 1 as [spec locked now w g Hb|g e g' _ IH Hs]; [|by eapply step_lifecycle].
  unfold boot in Hb. destruct (is_ok _); [|done].
  destruct (spawned spec cfg); simpl in Hb; [|done]. by eapply respawn_lifecycle in Hb.
Qed.

(** ** Commands hold the maps they were decided on *)

Definition flights_ok (g : Gateway W) : Prop :=
  (∀ c, g_command g = Some c → flight_ok (g_channels g) (g_locked g) c) ∧
  ∀ f c, g_site g = Some f → sf_command f = Some c → flight_ok (g_channels g) (g_locked g) c.

Lemma unlocked_flights_ok (g g' : Gateway W) :
  unlocked g = true → g_command g' = g_command g → g_site g' = g_site g → flights_ok g'.
Proof.
  unfold unlocked, flights_ok. intros Hu -> ->. destruct (g_command g); [done|]. split; [done|].
  intros f c Hf Hc. by rewrite Hf, Hc in Hu.
Qed.

Lemma respawn_flights_ok (g g' : Gateway W) spec channels trust subs now w :
  respawn pointer validator_for cfg g spec channels trust subs now w = Some g' →
  (∀ c, g_command g = Some c → flight_ok channels (g_locked g) c) → flights_ok g'.
Proof. intros (ts & _ & ->)%respawn_Some Hc. by split. Qed.

Lemma start_command_flight (g : Gateway W) topic frame r g' :
  start_command cfg g topic frame = (r, g') →
  ∃ w, g' = set_requested g (g_requested g) w ∧
    ∀ c, r = Ok (Some c) → flight_ok (g_channels g) (g_locked g) c.
Proof.
  intros (w & Hb & ->)%start_command_Some. exists w. split; [done|]. intros c ->.
  apply command_begin_ok in Hb. unfold flight_ok. by rewrite Hb.
Qed.

Section Flights.
Hypothesis order_perm : ∀ l, order l ≡ₚ l.

Lemma resume_command_flight (g : Gateway W) c now p g' :
  resume_command order cfg g c now = Some (p, g') → flight_ok (g_channels g) (g_locked g) c →
  ∃ requested w, g' = set_requested g requested w ∧
    ∀ c', p = Waits c' → flight_ok (g_channels g) (g_locked g) c' ∧
      (stage_work (g_channels g) c' < stage_work (g_channels g) c)%nat.
Proof.
  intros (r & w & Hn & ->)%resume_command_Some Hok. exists r, w. split; [done|].
  intros c' ->. by eapply command_next_ok.
Qed.

Lemma subscriber_flights_ok (g g' : Gateway W) e :
  flights_ok g → match e with
                 | Message topic doc frame now => on_message cfg g topic doc frame now
                 | CommandNext now => subscriber_next order cfg g now
                 | _ => None
                 end = Some g' → flights_ok g'.
Proof.
  intros Hok Hs. assert (∀ r w c, (∀ c', c = Some c' → flight_ok (g_channels g) (g_locked g) c') →
    flights_ok (set_command (set_requested g r w) c)) as Hset by (intros r w c Hc; split; [exact Hc|apply Hok]).
  destruct e; try done.
  - unfold on_message in Hs. destruct (g_command g); [done|].
    case_bool_decide; [by injection Hs as <-|]. case_bool_decide; [by injection Hs as <-|].
    destruct (str_contains _ _); [|by injection Hs as <-].
    destruct (start_command _ _ _ _) as [r g1] eqn:Hc.
    apply start_command_flight in Hc as (w & -> & Hf). injection Hs as <-.
    apply Hset. intros c Hr. apply Hf. by destruct r; subst.
  - unfold subscriber_next in Hs. destruct (g_command g) as [c|] eqn:Hc; simpl in Hs; [|done].
    destruct (resume_command _ _ _ _ _) as [[p g1]|] eqn:Hr; simpl in Hs; [|done]. injection Hs as <-.
    apply resume_command_flight in Hr as (r & w & -> & Hf); [|by apply Hok].
    apply Hset. intros c' Hp'. apply Hf. destruct p; [by injection Hp' as ->|done].
Qed.

Lemma site_flights_ok (g g' : Gateway W) now :
  flights_ok g → site_next frame_of order cfg g now = Some g' → flights_ok g'.
Proof.
  intros Hok Hs. unfold site_next in Hs. destruct (g_site g) as [f|] eqn:Hf; simpl in Hs; [|done].
  assert (∀ r w m s, (∀ f' c, s = Some f' → sf_command f' = Some c → flight_ok (g_channels g) (g_locked g) c) →
    flights_ok (set_site (set_requested g r w) m s)) as Hset
    by (intros r w m s Hs'; split; [apply Hok|exact Hs']).
  assert (∀ r w ok, flights_ok (site_answered (set_requested g r w) f ok)) as Hans.
  { intros r w ok. destruct (site_answered_eq (set_requested g r w) f ok) as (m & s & -> & Hn).
    apply Hset. intros f' c ->%Hn. done. }
  destruct (sf_command f) as [c|] eqn:Hc; [|destruct (sf_todo f) as [|[id v] todo]].
  - destruct (resume_command _ _ _ _ _) as [[p g1]|] eqn:Hr; simpl in Hs; [|done]. injection Hs as <-.
    apply resume_command_flight in Hr as (r & w & -> & Hn); [|by eapply (proj2 Hok)].
    destruct p as [c'|a]; [apply Hset|by apply Hans]. intros f' c1 [= <-] [= <-]. by apply Hn.
  - injection Hs as <-. split; [apply Hok|done].
  - destruct (start_command _ _ _ _) as [r g1] eqn:Hst.
    apply start_command_flight in Hst as (w & -> & Hn). injection Hs as <-.
    destruct r as [[c'|]|]; [apply Hset|by apply Hans..]. intros f' c1 [= <-] [= <-]. by apply Hn.
Qed.

Lemma step_flights_ok (g : Gateway W) e g' : stepg g e = Some g' → flights_ok g → flights_ok g'.
Proof.
  intros Hs%step_react Hok.
  destruct e; cbn [react] in Hs; try (by eapply (subscriber_flights_ok g g' (Message _ _ _ _)));
    try (by eapply (subscriber_flights_ok g g' (CommandNext _))); try (by eapply site_flights_ok).
  2: { destruct (g_loto_fetching g && _) eqn:Hl; [|done]. injection Hs as <-.
    apply andb_true_iff in Hl as [_ [Hu|Hn]%orb_true_iff]; [by eapply unlocked_flights_ok|].
    by destruct answer. }
  3: { destruct (g_phase g); [|done..]. destruct (negb _ && _); [|done]. apply alive_Some in Hs as [_ Hs].
    apply reconcile_Some in Hs as [Hs|(fresh & _ & _ & Hu & ->)];
      [eapply respawn_flights_ok; [exact Hs|apply Hok]|by eapply unlocked_flights_ok]. }
  3: { unfold reconcile_next in Hs. destruct (g_reconciling g) as [[fresh []]|]; [..|done].
    - destruct (unlocked g) eqn:Hu; [|done]. injection Hs as <-. by eapply unlocked_flights_ok.
    - destruct (update _ _ _ _) as [[ok subs] w]. injection Hs as <-. exact Hok.
    - eapply respawn_flights_ok; [exact Hs|apply Hok]. }
  all: try apply alive_Some in Hs as [_ Hs]; step_cases Hs; try exact Hok.
  all: split; [apply Hok|by intros f' c' [= <-]].
Qed.

Lemma reachable_flights_ok (g : Gateway W) :
  reachable pointer validator_for hash_order frame_of order cfg connected fuel g → flights_ok g.
Proof.
  induction 1 as [spec locked now w g Hb|g e g' _ IH Hs]; [|by eapply step_flights_ok].
  unfold boot in Hb. destruct (is_ok _); [|done].
  destruct (spawned spec cfg); simpl in Hb; [|done]. by eapply respawn_flights_ok in Hb.
Qed.
End Flights.

(** Between the two map swaps of an accepted new topology, command
    dispatch already resolves the new spec's bindings but still with the old
    spec's trust: a command that lands there for a device the new spec first
    requires mutual TLS of is written without it. *)
Theorem swap_window_uses_old_trust (g : Gateway W) fresh topic doc f now ct b w1 :
  reachable pointer validator_for hash_order frame_of order cfg connected fuel g →
  g_reconciling g = Some (fresh, ChannelsSwapped) → g_command g = None →
  topic ≠ "system/topology_changed"%string → topic ≠ "system/loto_changed"%string →
  str_contains "/commands/" topic = true →
  parse_command_topic topic (Config.site_id cfg) = Some ct → ct_device_id ct ∉ g_locked g →
  channel_of (device_channels fresh) (ct_device_id ct) (ct_verb ct ++ "_" ++ ct_target ct)
    = Some (ModbusTcp b) →
  Dispatch.publish (ack (Config.site_id cfg) (ct_device_id ct) (frame_command_id f) Received None)
    (g_world g) = (Ok (), w1) →
  ∃ g', run pointer validator_for hash_order frame_of order cfg connected fuel g
      [Message topic doc (Some f) now; CommandNext now; CommandNext now] = Some g' ∧
    g_world g' = (modbus_write b (frame_value f) (x_device_trust (g_spec g) !! ct_device_id ct) creds w1).2.
Proof.
  intros Hreach Hr Hcmd Ht1 Ht2 Hc Hct Hl Hb Hack.
  destruct (reachable_lifecycle g Hreach) as [_ Hp]. rewrite Hr in Hp. specialize (Hp ltac:(done)).
  apply reachable_topology_ok in Hreach as [Hm _ _ _ _ _ _]. unfold maps_ok in Hm. rewrite Hr in Hm.
  destruct Hm as (_ & Hch & Htr).
  assert (is_Some (device_channels fresh !! ct_device_id ct)) as [device Hd]
    by (unfold channel_of in Hb; by destruct (device_channels fresh !! _)).
  cbn [run]. unfold step. rewrite Hp. cbn [react]. unfold on_message. rewrite Hcmd.
  rewrite !bool_decide_false, Hc by done. unfold start_command, command_begin. rewrite Hct, Hch, Hd, Hack.
  cbn [mbind option_bind set_command set_requested g_phase]. rewrite Hp.
  unfold subscriber_next, resume_command, command_next. cbn [cf_stage cf_device cf_key cf_frame mbind option_bind
    set_command set_requested g_phase g_command g_channels g_locked g_requested g_world].
  rewrite Hch, bool_decide_false, Hb by done. destruct (record_request _ _ _ _) as [r prev].
  cbn [mbind option_bind set_command set_requested g_phase g_command g_world g_trust g_requested at_stage
    cf_stage cf_frame cf_device cf_key begin_writes execute_setpoint]. rewrite Hp.
  cbn [mbind option_bind cf_stage cf_frame cf_device cf_key at_stage].
  rewrite Htr. destruct (modbus_write _ _ _ _ _) as [a w2]. eexists. by split.
Qed.

(** ** What the cache holds *)

Definition cache_ok (cache : InputCache) : Prop :=
  ∀ topic e, cache !! topic = Some e → is_measurement e.1 = true.

Lemma cache_sample_ok cache topic doc now : cache_ok cache → cache_ok (cache_sample cache topic doc now).
Proof.
  intros Hok. unfold cache_sample. destruct (doc ≫= sample_value) as [v|]; [|done].
  destruct (is_measurement v) eqn:Hv; [|done]. intros t e. destruct (decide (t = topic)) as [->|Hne].
  - rewrite cache_insert_eq. by intros [= <-].
  - rewrite cache_insert_ne by done. apply Hok.
Qed.

(** Only a message changes the cache. *)
Lemma step_cache (g : Gateway W) e g' :
  stepg g e = Some g' →
  g_cache g' = g_cache g ∨
  ∃ topic doc frame now, e = Message topic doc frame now ∧ g_cache g' = cache_sample (g_cache g) topic doc now.
Proof.
  intros Hs%step_react. destruct (takes_over e) eqn:He; destruct e; try done; cbn [react] in Hs.
  1: { destruct (g_phase g); [|done..]. destruct (negb _ && _); [|done]. apply alive_Some in Hs as [_ Hs].
    apply reconcile_Some in Hs as [(ts & _ & ->)%respawn_Some|(fresh & _ & _ & _ & ->)]; by left. }
  1: { unfold reconcile_next in Hs. destruct (g_reconciling g) as [[fresh []]|]; [..|done].
    - destruct (unlocked g); [|done]. injection Hs as <-. by left.
    - destruct (update _ _ _ _) as [[ok subs] w]. injection Hs as <-. by left.
    - apply respawn_Some in Hs as (ts & _ & ->). by left. }
  all: try apply alive_Some in Hs as [_ Hs]; step_cases Hs; try (by left); right; by do 4 eexists.
Qed.

(** C38: in every state the gateway can reach, the input cache holds only
    numbers, booleans and labels: no task ever reads an object, an array or a
    null as an input. *)
Theorem cache_holds_measurements (g : Gateway W) topic e :
  reachable pointer validator_for hash_order frame_of order cfg connected fuel g →
  g_cache g !! topic = Some e → is_measurement e.1 = true.
Proof.
  intros Hr. revert topic e. change (cache_ok (g_cache g)).
  induction Hr as [spec locked now w g Hb|g ev g' _ IH Hs].
  - unfold boot in Hb. destruct (is_ok _); [|done].
    destruct (spawned spec cfg) as [ts|]; simpl in Hb; [|done].
    apply respawn_Some in Hb as (ts' & _ & ->). intros t e He. by apply (lookup_empty_Some t e) in He.
  - apply step_cache in Hs as [->|(t & doc & frame & now & _ & ->)]; [done|]. by apply cache_sample_ok.
Qed.
End Invariants.
