(* ===== verification/Interleaving.v ===== *)
(** * Interleaving: lockouts, and the end of what is under way

    What the steps of [Gateway] preserve however they are scheduled: a device
    that is locked out with no write to it under way is not written to again;
    a lockout that lands during a tick does not stop the tick's writes; and
    the ticks and commands under way end, so that a reconcile and a shutdown
    complete. *)

From Stdlib Require Import ZArith Lia Floats.
From S2P Require Import Prelude F64 Binary64 Text Allocation Cache Payload Bindings Config WriteOrder.
From S2P Require Import Transport.
From S2P Require Import Writes PoiServo ControlLaw Shed Distribute Sunspec Dispatch Commands EnvelopeTask DerDispatch.
From S2P Require Import Synthetic Topology Poller Tasks Gateway.
Local Open Scope Z_scope.

Section Lockout.
Context {W : Type} `{South W} `{Broker W} `{BrokerSession W}.
Context (pointer : Value → string → option Value) (validator_for : Value → option (Value → bool)).
Context (hash_order : ∀ A : Type, list (string * A) → list (string * A)).
Context (frame_of : f64 → option CommandFrame).
Context (order : list (string * string * f64) → list (string * string * f64)).
Context (cfg : Config).
Context `{Rodbus W} `{SessionCache W} `{SunspecState W}.
Context (connected : W → bool) (fuel : nat).

Local Abbreviation creds := (Config.gateway_credentials cfg).
Local Abbreviation stepg := (step pointer validator_for hash_order frame_of order cfg connected fuel).
Local Abbreviation rung := (run pointer validator_for hash_order frame_of order cfg connected fuel).
Local Abbreviation spawned := (spawn_task_set pointer validator_for).

(** The device under lockout; which bindings belong to which device; and what
    must not change: anything that only a write through a binding of [victim]
    touches. *)
Context (victim : string) (own : string → ProtocolBinding → Prop) (P : W → Prop).
Hypothesis publish_keeps : ∀ e w, P w → P (Dispatch.publish e w).2.
Hypothesis modbus_keeps : ∀ d b v tr cr w, d ≠ victim → own d (ModbusTcp b) →
  P w → P (modbus_write b v tr cr w).2.
Hypothesis sunspec_keeps : ∀ d b v tr cr w, d ≠ victim → own d (Sunspec b) →
  P w → P (sunspec_write b v tr cr w).2.
Hypothesis bit_keeps : ∀ d b a tr cr w, d ≠ victim → own d (Sunspec b) →
  P w → P (sunspec_write_bit b a tr cr w).2.
Hypothesis redfish_keeps : ∀ d b v tr cr w, d ≠ victim → own d (Redfish b) →
  P w → P (redfish_write b v tr cr w).2.
Hypothesis beat_keeps : ∀ b go tr w w', beat_once fuel b go tr creds w = Some w' →
  (go = true → beat_device_id b ≠ victim ∧ own (beat_device_id b) (Sunspec (beat_point b))) →
  P w → P w'.
Hypothesis subscribe_keeps : ∀ ts qs w, P w → P (subscribe_many ts qs w).2.
Hypothesis unsubscribe_keeps : ∀ ts w, P w → P (unsubscribe_many ts w).2.
Hypothesis order_permutes : ∀ l, order l ≡ₚ l.

(** Every binding a spec gives a device is that device's own. *)
Definition spec_own (spec : AsyncApiSpec) : Prop :=
  (∀ d key b, channel_of (device_channels spec) d key = Some b → own d b) ∧
  ∀ ts, spawned spec cfg = Some ts →
    (∀ c, c ∈ ts_counters ts → own (counter_device c.1) (ModbusTcp (counter_binding c.1))) ∧
    (∀ b, b ∈ ts_beats ts → own (beat_device_id b.1) (Sunspec (beat_point b.1))).

(** No write to the victim is under way in a task. *)
Definition envelope_free (s : EnvelopeSlot) : Prop :=
  ∀ p todo, es_flight s = Some (p, todo) → victim ∉ todo.*1.

Definition shed_free (s : ShedSlot) : Prop :=
  ∀ percent todo ok, sh_flight s = Some (percent, todo, ok) → ∀ c, c ∈ todo → c.1.1 ≠ victim.

Definition counter_free (s : CounterSlot) : Prop :=
  own (counter_device (co_counter s)) (ModbusTcp (counter_binding (co_counter s))) ∧
  (co_flight s = true → counter_device (co_counter s) ≠ victim).

Definition beat_free (s : BeatSlot) : Prop :=
  own (beat_device_id (be_beat s)) (Sunspec (beat_point (be_beat s))) ∧
  (be_flight s = true → beat_device_id (be_beat s) ≠ victim).

Record isolated (g : Gateway W) : Prop := mkIsolated {
  iso_locked : victim ∈ g_locked g;
  iso_spec : spec_own (g_spec g);
  iso_channels : ∀ d key b, channel_of (g_channels g) d key = Some b → own d b;
  iso_fresh : ∀ fresh stage, g_reconciling g = Some (fresh, stage) → spec_own fresh;
  iso_envelopes : Forall envelope_free (g_envelopes g);
  iso_sheds : Forall shed_free (g_sheds g);
  iso_counters : Forall counter_free (g_counters g);
  iso_beats : Forall beat_free (g_beats g);
  iso_flights : flights_ok g;
}.

(** The lockout stays, and a new topology keeps to the devices' own bindings. *)
Definition keeps_lockout (e : Event) : Prop :=
  match e with
  | LotoRefetch (Ok fresh) => victim ∈ fresh
  | Reconcile (Ok fresh) _ => spec_own fresh
  | _ => True
  end.

Lemma channel_own g d key b : isolated g → channel_of (g_channels g) d key = Some b → own d b.
Proof. intros Hi. apply (iso_channels g Hi). Qed.

Lemma flights_step g e g' : isolated g → stepg g e = Some g' → flights_ok g'.
Proof. intros Hi Hs. eapply step_flights_ok; [exact order_permutes|exact Hs|apply Hi]. Qed.

(** A command's steps, whoever sends it. *)
Lemma unlocked_own g d b :
  isolated g → unlocked_binding (g_channels g) (g_locked g) d b → d ≠ victim ∧ own d b.
Proof. intros Hi [Hl [key Hb]]. split; [|by eapply channel_own]. intros ->. by destruct Hl, Hi. Qed.

Lemma start_command_keeps g topic frame r g' :
  P (g_world g) → start_command cfg g topic frame = (r, g') →
  ∃ w, g' = set_requested g (g_requested g) w ∧ P w.
Proof.
  intros Hp (w & Hb & ->)%start_command_Some. exists w. split; [done|].
  pose proof (command_begin_keeps (g_channels g) (Config.site_id cfg) P publish_keeps topic frame _ Hp) as Hk.
  by rewrite Hb in Hk.
Qed.

Lemma resume_command_keeps g c now p g' :
  isolated g → flight_ok (g_channels g) (g_locked g) c → P (g_world g) →
  resume_command order cfg g c now = Some (p, g') →
  ∃ requested w, g' = set_requested g requested w ∧ P w.
Proof.
  intros Hi Hc Hp (r & w & Hn & ->)%resume_command_Some. exists r, w. split; [done|].
  eapply (command_next_keeps (g_channels g) (g_trust g) (g_locked g) creds (Config.site_id cfg) (g_cache g)
    now order P publish_keeps); [..|exact order_permutes|exact Hc|exact Hp|exact Hn].
  all: intros d b v w0 [Hd Ho]%(unlocked_own g) Hw; [eauto|done].
Qed.

Lemma write_share_keeps g key s w :
  isolated g → s.1 ≠ victim → P w →
  P (write_share (g_channels g) (g_trust g) creds key s w).2.
Proof.
  intros Hi Hs Hw. unfold write_share. destruct (channel_of _ _ _) as [b|] eqn:Hb; [|done].
  apply (channel_own g) in Hb; [|done]. destruct b as [b| | | | | |b| | |]; try done.
  - pose proof (modbus_keeps _ b s.2 (g_trust g !! s.1) creds w Hs Hb Hw). by destruct (modbus_write _ _ _ _ _).
  - pose proof (sunspec_keeps _ b s.2 (g_trust g !! s.1) creds w Hs Hb Hw). by destruct (sunspec_write _ _ _ _ _).
Qed.

Lemma write_one_keeps g cr cap w :
  isolated g → cap.1.1 ≠ victim → P w → P (write_one (g_channels g) (g_trust g) cr cap w).2.
Proof.
  destruct cap as [[d key] watts]. intros Hi Hs Hw. unfold write_one.
  destruct (channel_of _ _ _) as [b|] eqn:Hb; [|done]. apply (channel_own g) in Hb; [|done].
  destruct b; try done. by eapply redfish_keeps.
Qed.

Lemma update_keeps s current inputs w : P w → P (update s current inputs w).2.
Proof.
  intros Hw. unfold update. destruct (diff _ _) as [added removed].
  assert (P (match removed with [] => (true, w) | _ => unsubscribe_many removed w end).2) as Hu
    by (destruct removed; [done|by apply unsubscribe_keeps]).
  destruct (match removed with [] => _ | _ => _ end) as [ok w1]. cbn [snd] in Hu.
  destruct (negb ok); [done|].
  assert (P (match added with [] => (true, w1) | _ => subscribe_many added ((λ _, 0) <$> added) w1 end).2)
    as Hs by (destruct added; [done|by apply subscribe_keeps]).
  destruct (match added with [] => _ | _ => _ end) as [ok2 w2]. by destruct (negb ok2).
Qed.

Lemma respawn_isolated g spec channels trust subs now w g' :
  victim ∈ g_locked g → spec_own spec →
  (∀ d key b, channel_of channels d key = Some b → own d b) →
  (∀ c, g_command g = Some c → flight_ok channels (g_locked g) c) → P w →
  respawn pointer validator_for cfg g spec channels trust subs now w = Some g' →
  isolated g' ∧ P (g_world g').
Proof.
  intros Hl Ho Hch Hcmd Hp Hr. pose proof Hr as Hfl. eapply respawn_flights_ok in Hfl; [|exact Hcmd].
  apply respawn_Some in Hr as (ts & Hts & ->). split; [|done].
  destruct (proj2 Ho ts Hts) as [Hc Hb]. split; try done; cbn [g_envelopes g_sheds g_counters g_beats].
  - apply Forall_fmap, Forall_forall. by intros c _ p todo.
  - apply Forall_fmap, Forall_forall. by intros c _ p todo ok.
  - apply Forall_fmap, Forall_forall. intros c Hin. split; [by apply Hc|done].
  - apply Forall_fmap, Forall_forall. intros c Hin. split; [by apply Hb|done].
Qed.

Lemma boot_isolated spec locked now w g :
  boot pointer validator_for cfg spec locked now w = Some g →
  victim ∈ locked → spec_own spec → P w → isolated g ∧ P (g_world g).
Proof.
  unfold boot. intros Hb Hl Ho Hp. destruct (is_ok _); [|done].
  destruct (spawned spec cfg) as [ts|]; simpl in Hb; [|done].
  eapply respawn_isolated in Hb; try done. apply Ho.
Qed.

Lemma reconcile_isolated g e g' :
  isolated g → P (g_world g) → keeps_lockout e → takes_over e = true → stepg g e = Some g' →
  isolated g' ∧ P (g_world g').
Proof.
  intros Hi Hp Hk He Hs. pose proof (flights_step _ _ _ Hi Hs) as Hfl.
  apply step_react in Hs. destruct e; try done; cbn [react] in Hs.
  - destruct (g_phase g); [|done..]. destruct (negb _ && _); [|done]. apply alive_Some in Hs as [_ Hs].
    apply reconcile_Some in Hs as [Hr|(fresh & -> & _ & Hu & ->)].
    + eapply respawn_isolated; [apply Hi|apply Hi|apply (iso_channels g Hi)|apply (iso_flights g Hi)|exact Hp|exact Hr].
    + split; [|done]. destruct Hi. split; try done; cbn.
      * apply Hk.
      * by intros f st [= <- <-].
  - unfold reconcile_next in Hs. destruct (g_reconciling g) as [[fresh stage]|] eqn:Hr; [|done].
    pose proof (iso_fresh g Hi fresh stage Hr) as Hf. destruct stage.
    + destruct (unlocked g); [|done]. injection Hs as <-. split; [|done]. destruct Hi. split; try done.
      by intros f st [= <- <-].
    + pose proof (update_keeps (Config.site_id cfg) (g_subscriptions g)
        (input_topics fresh (Config.site_id cfg)) _ Hp) as Hw.
      destruct (update _ _ _ _) as [[ok subs] w]. injection Hs as <-.
      split; [|done]. destruct Hi. split; try done. by intros f st [= <- <-].
    + eapply respawn_isolated; [apply Hi|exact Hf|apply (iso_channels g Hi)|apply (iso_flights g Hi)|exact Hp|exact Hs].
Qed.

Lemma subscriber_isolated g e g' :
  isolated g → P (g_world g) → stepg g e = Some g' →
  match e with Message _ _ _ _ | CommandNext _ => True | _ => False end →
  isolated g' ∧ P (g_world g').
Proof.
  intros Hi Hp Hs He. pose proof (flights_step _ _ _ Hi Hs) as Hfl.
  apply step_react in Hs. destruct e; try done; cbn [react] in Hs.
  - unfold on_message in Hs. destruct (g_command g); [done|].
    case_bool_decide; [by injection Hs as <-; destruct Hi|].
    case_bool_decide; [by injection Hs as <-; destruct Hi|].
    destruct (str_contains _ _); [|by injection Hs as <-; destruct Hi].
    destruct (start_command _ _ _ _) as [r g1] eqn:Hc.
    apply start_command_keeps in Hc as (w & -> & Hw); [|done]. injection Hs as <-.
    split; [|done]. destruct Hi. by split.
  - unfold subscriber_next in Hs. destruct (g_command g) as [c|] eqn:Hc; simpl in Hs; [|done].
    destruct (resume_command _ _ _ _ _) as [[p g1]|] eqn:Hr; simpl in Hs; [|done]. injection Hs as <-.
    apply resume_command_keeps in Hr as (r & w & -> & Hw); [|done|by apply (iso_flights g Hi)|done].
    split; [|done]. destruct Hi. by split.
Qed.

(** The ticks of the tasks that write. *)
Lemma envelope_isolated g e g' :
  isolated g → P (g_world g) → stepg g e = Some g' →
  match e with EnvelopeBegin _ _ | EnvelopeWrite _ | EnvelopeLand _ _ => True | _ => False end →
  isolated g' ∧ P (g_world g').
Proof.
  intros Hi Hp Hs%step_react He. destruct e; try done; cbn [react] in Hs; try apply alive_Some in Hs as [_ Hs].
  - unfold envelope_begin in Hs.
    destruct (g_envelopes g !! i) as [s|] eqn:Hl; simpl in Hs; [|done].
    destruct (es_flight s); [done|].
    destruct (tick_plan _ _ _ _ _ _ _ _) as [[st p]|] eqn:Ht; simpl in Hs; [|done]. injection Hs as <-.
    split; [|done]. destruct Hi. split; try done. cbn [set_envelope g_envelopes].
    apply Forall_insert; [done|]. intros q todo. destruct p as [p|]; simpl; [|done].
    intros [= <- <-] Hv. by eapply tick_plan_unlocked in Ht; [|exact Hv].
  - unfold envelope_write in Hs. destruct (g_envelopes g !! i) as [s|] eqn:Hl; simpl in Hs; [|done].
    destruct (es_flight s) as [[p [|share todo]]|] eqn:Hf; try done.
    pose proof (Forall_lookup_1 _ _ _ _ (iso_envelopes g Hi) Hl p (share :: todo) Hf) as Hfree.
    rewrite fmap_cons, not_elem_of_cons in Hfree. destruct Hfree as [Hne Hfree].
    pose proof (write_share_keeps g (etc_channel_key (es_config s)) share _ Hi (not_eq_sym Hne) Hp) as Hw.
    destruct (write_share _ _ _ _ _ _) as [r w]. injection Hs as <-. split; [|done].
    destruct Hi. split; try done. cbn [set_envelope g_envelopes].
    apply Forall_insert; [done|]. intros q todo'. cbn [es_flight]. destruct (is_ok r); [|done].
    by intros [= <- <-].
  - unfold envelope_land in Hs. destruct (g_envelopes g !! i) as [s|] eqn:Hl; simpl in Hs; [|done].
    destruct (es_flight s) as [[p [|share todo]]|] eqn:Hf; try done. injection Hs as <-. split; [|done].
    destruct Hi. split; try done. cbn [set_envelope g_envelopes]. by apply Forall_insert.
Qed.

Lemma shed_isolated g e g' :
  isolated g → P (g_world g) → stepg g e = Some g' →
  match e with ShedBegin _ _ | ShedWrite _ _ | ShedEnd _ => True | _ => False end →
  isolated g' ∧ P (g_world g').
Proof.
  intros Hi Hp Hs%step_react He. destruct e; try done; cbn [react] in Hs; try apply alive_Some in Hs as [_ Hs].
  - unfold shed_begin in Hs.
    destruct (g_sheds g !! i) as [s|] eqn:Hl; simpl in Hs; [|done].
    destruct (sh_flight s); [done|]. destruct (inputs _ _ _ _) as [last_poi [t|]].
    2: { injection Hs as <-. split; [|done]. destruct Hi. split; try done. by apply Forall_insert. }
    destruct (shed_tick _ _) as [[ctrl [percent|]]|]; simpl in Hs; [| |done].
    2: { injection Hs as <-. split; [|done]. destruct Hi. split; try done. by apply Forall_insert. }
    destruct (module_caps _ _ _) as [caps|]; simpl in Hs; [|done]. injection Hs as <-. split; [|done].
    destruct Hi. split; try done. apply Forall_insert; [done|]. intros q todo ok [= <- <- <-] c Hc Hv.
    apply unlocked_caps_unlocked in Hc. by rewrite Hv in Hc.
  - unfold shed_write in Hs. destruct (g_sheds g !! i) as [s|] eqn:Hl; simpl in Hs; [|done].
    destruct (sh_flight s) as [[[percent todo] ok]|] eqn:Hf; [|done].
    destruct (todo !! j) as [cap|] eqn:Hj; simpl in Hs; [|done].
    pose proof (Forall_lookup_1 _ _ _ _ (iso_sheds g Hi) Hl _ _ _ Hf) as Hfree.
    pose proof (write_one_keeps g (st_creds (sh_config s)) cap _ Hi
      (Hfree cap (list_elem_of_lookup_2 _ _ _ Hj)) Hp) as Hw.
    destruct (write_one _ _ _ _ _) as [r w]. injection Hs as <-. split; [|done].
    destruct Hi. split; try done. apply Forall_insert; [done|]. intros q todo' ok' [= <- <- <-] c Hc.
    apply Hfree. apply list_elem_of_lookup in Hc as [k Hk].
    destruct (decide (k < j)%nat).
    + rewrite list_lookup_delete_lt in Hk by done. by eapply list_elem_of_lookup_2.
    + rewrite list_lookup_delete_ge in Hk by lia. by eapply list_elem_of_lookup_2.
  - unfold shed_end in Hs. destruct (g_sheds g !! i) as [s|] eqn:Hl; simpl in Hs; [|done].
    destruct (sh_flight s) as [[[percent [|c todo]] ok]|]; try done. injection Hs as <-. split; [|done].
    destruct Hi. split; try done. by apply Forall_insert.
Qed.
Lemma steerable_unlocked go locked d : steerable go locked d = true → d ∉ locked.
Proof. unfold steerable. rewrite andb_true_iff, negb_true_iff. intros [_ Hl]. by case_bool_decide. Qed.

Lemma heartbeat_isolated g e g' :
  isolated g → P (g_world g) → stepg g e = Some g' →
  match e with CounterBegin _ | CounterWrite _ | BeatBegin _ | BeatWrite _ => True | _ => False end →
  isolated g' ∧ P (g_world g').
Proof.
  intros Hi Hp Hs%step_react He. destruct e; try done; cbn [react] in Hs; try apply alive_Some in Hs as [_ Hs].
  - unfold counter_begin in Hs.
    destruct (g_counters g !! i) as [s|] eqn:Hl; simpl in Hs; [|done].
    destruct (co_flight s); [done|]. injection Hs as <-. split; [|done].
    destruct (Forall_lookup_1 _ _ _ _ (iso_counters g Hi) Hl) as [Ho _].
    destruct Hi. split; try done. apply Forall_insert; [done|]. split; [done|].
    cbn. intros Hgo%steerable_unlocked Hv. by rewrite Hv in Hgo.
  - unfold counter_write in Hs. destruct (g_counters g !! i) as [s|] eqn:Hl; simpl in Hs; [|done].
    destruct (Forall_lookup_1 _ _ _ _ (iso_counters g Hi) Hl) as [Ho Hf].
    destruct (co_flight s); [|done]. simpl in Hs.
    pose proof (modbus_keeps _ _ (of_Z (co_count s)) (co_trust s) creds _ (Hf eq_refl) Ho Hp) as Hw.
    destruct (modbus_write _ _ _ _ _) as [r w]. injection Hs as <-. split; [|done].
    destruct Hi. split; try done. apply Forall_insert; [done|]. by split.
  - unfold beat_begin in Hs. destruct (g_beats g !! i) as [s|] eqn:Hl; simpl in Hs; [|done].
    destruct (be_flight s) eqn:Hfl; [done|].
    destruct (Forall_lookup_1 _ _ _ _ (iso_beats g Hi) Hl) as [Ho _].
    destruct (steerable _ _ _) eqn:Hgo.
    + injection Hs as <-. split; [|done]. destruct Hi. split; try done.
      apply Forall_insert; [done|]. split; [done|]. intros _ Hv.
      apply steerable_unlocked in Hgo. cbn in Hv. by rewrite Hv in Hgo.
    + injection Hs as <-. split; [|by apply (beat_keeps (be_beat s) false (be_trust s) (g_world g))].
      destruct Hi. split; try done.
      apply Forall_insert; [done|]. split; [done|congruence].
  - unfold beat_write in Hs. destruct (g_beats g !! i) as [s|] eqn:Hl; simpl in Hs; [|done].
    destruct (Forall_lookup_1 _ _ _ _ (iso_beats g Hi) Hl) as [Ho Hf].
    destruct (be_flight s); [|done]. simpl in Hs.
    destruct (beat_once _ _ _ _ _ _) as [w|] eqn:Hb; simpl in Hs; [|done]. injection Hs as <-.
    split; [|eapply beat_keeps; [exact Hb|intros _; split; [by apply Hf|done]|done]].
    destruct Hi. split; try done. apply Forall_insert; [done|]. by split.
Qed.

Lemma site_isolated g e g' :
  isolated g → P (g_world g) → stepg g e = Some g' →
  match e with SiteBegin _ | SiteNext _ => True | _ => False end →
  isolated g' ∧ P (g_world g').
Proof.
  intros Hi Hp Hs He. pose proof (flights_step _ _ _ Hi Hs) as Hfl.
  apply step_react in Hs. destruct e; try done; cbn [react] in Hs; try apply alive_Some in Hs as [_ Hs].
  - unfold site_begin in Hs.
    destruct (g_site g); [done|]. destruct (posture _ _) as [| |target].
    + by injection Hs as <-.
    + injection Hs as <-. split; [|done]. destruct Hi. by split.
    + destruct (modules_with_bounds _ _ _ _ _ _ _) as [[|m ms]|];
        injection Hs as <-; (split; [|done]); destruct Hi; by split.
  - unfold site_next in Hs. destruct (g_site g) as [f|] eqn:Hf; simpl in Hs; [|done].
    assert (∀ r w m s, P w → flights_ok (set_site (set_requested g r w) m s) →
      isolated (set_site (set_requested g r w) m s) ∧ P (g_world (set_site (set_requested g r w) m s))) as Hset
      by (intros r w m s Hw Hs'; split; [destruct Hi; by split|done]).
    assert (∀ r w ok, P w → flights_ok (site_answered (set_requested g r w) f ok) →
      isolated (site_answered (set_requested g r w) f ok) ∧
      P (g_world (site_answered (set_requested g r w) f ok))) as Hans.
    { intros r w ok Hw. destruct (site_answered_eq (set_requested g r w) f ok) as (m & s & -> & Hn).
      by apply Hset. }
    destruct (sf_command f) as [c|] eqn:Hc; [|destruct (sf_todo f) as [|[id v] todo]].
    + destruct (resume_command _ _ _ _ _) as [[p g1]|] eqn:Hr; simpl in Hs; [|done]. injection Hs as <-.
      apply resume_command_keeps in Hr as (r & w & -> & Hw); [|done|by eapply (iso_flights g Hi)|done].
      destruct p as [c'|a]; [by apply Hset|by apply Hans].
    + injection Hs as <-. split; [destruct Hi; by split|done].
    + destruct (start_command _ _ _ _) as [r g1] eqn:Hst.
      apply start_command_keeps in Hst as (w & -> & Hw); [|done]. injection Hs as <-.
      destruct r as [[c'|]|]; [by apply Hset|by apply Hans..].
Qed.

Lemma refetch_keeps d locked answer :
  d ∈ locked → match answer with Ok fresh => d ∈ fresh | Err _ => True end → d ∈ refetch locked answer.
Proof. intros Hl Ha. destruct answer; [|done]. simpl. unfold loto_apply. by case_bool_decide. Qed.

Lemma step_isolated g e g' :
  isolated g → P (g_world g) → keeps_lockout e → stepg g e = Some g' →
  isolated g' ∧ P (g_world g').
Proof.
  intros Hi Hp Hk Hs. destruct (takes_over e) eqn:Ht; [by eapply reconcile_isolated|].
  assert (∀ b c d r, isolated (set_signals g b c d r) ∧ P (g_world (set_signals g b c d r))) as Hsig
    by (split; [by destruct Hi|done]).
  pose proof (flights_step _ _ _ Hi Hs) as Hfl.
  destruct e; try done.
  1, 2: by eapply subscriber_isolated.
  1-5: apply step_react in Hs; cbn [react] in Hs.
  - destruct (_ && _); [|done]. injection Hs as <-. apply Hsig.
  - destruct (g_loto_fetching g && _) eqn:Hf; [|done]. injection Hs as <-. split; [|done].
    pose proof (refetch_keeps victim (g_locked g) answer (iso_locked g Hi) Hk).
    destruct Hi. by split.
  - destruct (_ && _); [|done]. injection Hs as <-. apply Hsig.
  - destruct (g_running g); [|done]. injection Hs as <-. split; [by destruct Hi|done].
  - destruct (g_phase g); [done| |done]. destruct (joined g); [|done]. injection Hs as <-.
    split; [by destruct Hi|done].
  - by eapply envelope_isolated.
  - by eapply envelope_isolated.
  - by eapply envelope_isolated.
  - by eapply shed_isolated.
  - by eapply shed_isolated.
  - by eapply shed_isolated.
  - by eapply heartbeat_isolated.
  - by eapply heartbeat_isolated.
  - by eapply heartbeat_isolated.
  - by eapply heartbeat_isolated.
  - by eapply site_isolated.
  - by eapply site_isolated.
Qed.

(** C1: once a device is locked out and no tick that began before is still writing
    to it, nothing the gateway does writes to it, whatever happens and in
    whatever order its tasks run: commands, envelope, shed, heartbeat and site
    ticks, restarts of the task set and new topologies; until a re-fetch of the
    lockouts no longer lists it.  [P] is any property of the world that only
    writes through the device's own bindings can break. *)
Theorem lockout_is_final g es g' :
  isolated g → P (g_world g) → Forall keeps_lockout es → rung g es = Some g' →
  victim ∈ g_locked g' ∧ P (g_world g').
Proof.
  intros Hi Hp Hes Hr. enough (isolated g' ∧ P (g_world g')) as [Hi' Hp'] by (split; [apply Hi'|done]).
  revert g Hi Hp Hr. induction Hes as [|e es He _ IH]; intros g Hi Hp Hr; simpl in Hr.
  - by injection Hr as <-.
  - destruct (stepg g e) as [g1|] eqn:Hs; simpl in Hr; [|done].
    apply step_isolated in Hs as [Hi1 Hp1]; [|done..]. by eapply IH.
Qed.
End Lockout.

(** ** A cancelled task set ends *)

Lemma forallb_lookup_false {A} (f : A → bool) l :
  forallb f l = false → ∃ i x, l !! i = Some x ∧ f x = false.
Proof.
  induction l as [|x l IH]; simpl; [done|]. destruct (f x) eqn:Hx; [|by exists 0%nat, x].
  intros (i & y & Hl & Hy)%IH. by exists (S i), y.
Qed.

Lemma sum_list_with_insert {A} (f : A → nat) l i x y :
  l !! i = Some x → (sum_list_with f (<[i := y]> l) + f x = sum_list_with f l + f y)%nat.
Proof.
  revert i. induction l as [|z l IH]; intros [|i] Hl; simpl in *; [done|done| |].
  - injection Hl as ->. lia.
  - specialize (IH i Hl). lia.
Qed.

Definition envelope_work (s : EnvelopeSlot) : nat :=
  match es_flight s with None => 0 | Some (_, todo) => S (length todo) end.

Definition shed_work (s : ShedSlot) : nat :=
  match sh_flight s with None => 0 | Some (_, todo, _) => S (length todo) end.

Definition command_work (channels : Channels) (c : option CommandFlight) : nat :=
  match c with None => 0 | Some c => stage_work channels c end.

(** A command of the site task begins, records, writes and answers. *)
Definition command_steps (channels : Channels) : nat := 4 + all_width channels.

#[local] Arguments command_steps : simpl never.

Definition site_work (channels : Channels) (f : option SiteFlight) : nat :=
  match f with
  | None => 0
  | Some f =>
      match sf_command f with
      | None => S (command_steps channels * length (sf_todo f))
      | Some c => S (stage_work channels c + command_steps channels * (length (sf_todo f) - 1))
      end
  end.

(** How many steps the ticks and commands under way still take, at most. *)
Definition work {W} (g : Gateway W) : nat :=
  sum_list_with envelope_work (g_envelopes g) + sum_list_with shed_work (g_sheds g) +
  sum_list_with (λ s, if co_flight s then 1 else 0)%nat (g_counters g) +
  sum_list_with (λ s, if be_flight s then 1 else 0)%nat (g_beats g) + site_work (g_channels g) (g_site g) +
  command_work (g_channels g) (g_command g).

(** A step of a tick or command that has begun. *)
Definition continues (e : Event) : bool :=
  match e with
  | EnvelopeWrite _ | EnvelopeLand _ _ | ShedWrite _ _ | ShedEnd _
  | CounterWrite _ | BeatWrite _ | SiteNext _ | CommandNext _ => true
  | _ => false
  end.

(** What goes on beside them and begins neither: samples and beacons that arrive,
    and the re-fetches of the lockouts. *)
Definition bystander (e : Event) : bool :=
  match e with
  | Message topic _ _ _ => negb (str_contains "/commands/" topic)
  | LotoBegin | LotoRefetch _ => true
  | _ => false
  end.

Section Drain.
Context {W : Type} `{South W} `{Broker W} `{BrokerSession W}.
Context (pointer : Value → string → option Value) (validator_for : Value → option (Value → bool)).
Context (hash_order : ∀ A : Type, list (string * A) → list (string * A)).
Context (frame_of : f64 → option CommandFrame).
Context (order : list (string * string * f64) → list (string * string * f64)).
Context (cfg : Config).
Context `{Rodbus W} `{SessionCache W} `{SunspecState W}.
Context (connected : W → bool) (fuel : nat).

Local Abbreviation rung := (run pointer validator_for hash_order frame_of order cfg connected fuel).
Local Abbreviation stepg := (step pointer validator_for hash_order frame_of order cfg connected fuel).

(** Whether the tasks run, and what a command is decided on. *)
Definition frame_state (g : Gateway W) :=
  (g_running g, g_phase g, g_channels g, g_trust g,
    ((λ s, (be_beat s, be_trust s)) <$> g_beats g, g_reconciling g, g_spec g)).

(** No command the gateway knows panics. *)
Definition commands_return (g : Gateway W) : Prop :=
  ∀ d key b v locked cache now w, channel_of (g_channels g) d key = Some b →
    is_Some (execute_setpoint (g_channels g) (g_trust g) locked (Config.gateway_credentials cfg)
      (Config.site_id cfg) cache now order b v d key w).

(** Every heartbeat's discovery comes to an end. *)
Definition beats_return (g : Gateway W) : Prop :=
  ∀ s w, s ∈ g_beats g → is_Some (beat_once fuel (be_beat s) true (be_trust s) (Config.gateway_credentials cfg) w).

(** ** Every step of what has begun brings it nearer to its end *)

Definition lessens (g g' : Gateway W) : Prop := (work g' < work g)%nat ∧ frame_state g' = frame_state g.

Lemma set_envelope_lessens (g : Gateway W) i s s' w :
  g_envelopes g !! i = Some s → (envelope_work s' < envelope_work s)%nat → lessens g (set_envelope g i s' w).
Proof.
  intros Hl Hlt. split; [|done]. unfold work. simpl.
  pose proof (sum_list_with_insert envelope_work _ _ _ s' Hl). lia.
Qed.

Lemma set_shed_lessens (g : Gateway W) i s s' w :
  g_sheds g !! i = Some s → (shed_work s' < shed_work s)%nat → lessens g (set_shed g i s' w).
Proof.
  intros Hl Hlt. split; [|done]. unfold work. simpl.
  pose proof (sum_list_with_insert shed_work _ _ _ s' Hl). lia.
Qed.

Lemma set_counter_lessens (g : Gateway W) i s s' w :
  g_counters g !! i = Some s → co_flight s = true → co_flight s' = false → lessens g (set_counter g i s' w).
Proof.
  intros Hl Hf Hf'. split; [|done]. unfold work. simpl.
  pose proof (sum_list_with_insert (λ s, if co_flight s then 1 else 0)%nat _ _ _ s' Hl) as Hs.
  cbn beta in Hs. rewrite Hf, Hf' in Hs. lia.
Qed.

Lemma set_beat_lessens (g : Gateway W) i s w :
  g_beats g !! i = Some s → be_flight s = true →
  lessens g (set_beat g i (mkBeatSlot (be_beat s) (be_trust s) false) w).
Proof.
  intros Hl Hf. split.
  - unfold work. simpl. match goal with |- context [<[i := ?y]> _] =>
      pose proof (sum_list_with_insert (λ s, if be_flight s then 1 else 0)%nat _ _ _ y Hl) as Hs end.
    cbn beta in Hs. rewrite Hf in Hs. simpl in Hs. lia.
  - unfold frame_state. simpl. do 3 f_equal. by eapply fmap_insert_same.
Qed.

Lemma set_site_lessens (g : Gateway W) r w m s :
  (site_work (g_channels g) s < site_work (g_channels g) (g_site g))%nat →
  lessens g (set_site (set_requested g r w) m s).
Proof. intros Hlt. split; [|done]. unfold work. simpl. lia. Qed.

Lemma envelope_continues (g g' : Gateway W) e :
  match e with
  | EnvelopeWrite i => envelope_write cfg g i
  | EnvelopeLand i at_ => envelope_land g i at_
  | _ => None
  end = Some g' → lessens g g'.
Proof.
  destruct e; try done; unfold envelope_write, envelope_land; intros Hs;
    destruct (g_envelopes g !! i) as [s|] eqn:Hl; simpl in Hs; try done;
    destruct (es_flight s) as [[p [|share todo]]|] eqn:Hf; try done.
  - destruct (write_share _ _ _ _ _ _) as [r w]. injection Hs as <-.
    eapply set_envelope_lessens; [exact Hl|]. unfold envelope_work. rewrite Hf. destruct (is_ok r); simpl; lia.
  - injection Hs as <-. eapply set_envelope_lessens; [exact Hl|]. unfold envelope_work. rewrite Hf. simpl. lia.
Qed.

Lemma shed_continues (g g' : Gateway W) e :
  match e with
  | ShedWrite i j => shed_write g i j
  | ShedEnd i => shed_end g i
  | _ => None
  end = Some g' → lessens g g'.
Proof.
  destruct e; try done; unfold shed_write, shed_end; intros Hs;
    destruct (g_sheds g !! i) as [s|] eqn:Hl; simpl in Hs; try done;
    destruct (sh_flight s) as [[[percent todo] ok]|] eqn:Hf; try done.
  - destruct (todo !! j) as [cap|] eqn:Hj; simpl in Hs; [|done].
    destruct (write_one _ _ _ _ _) as [r w]. injection Hs as <-.
    eapply set_shed_lessens; [exact Hl|]. unfold shed_work. rewrite Hf. cbn [sh_flight].
    pose proof (length_delete todo j ltac:(by eexists)). pose proof (lookup_lt_Some _ _ _ Hj). lia.
  - destruct todo; [|done]. injection Hs as <-.
    eapply set_shed_lessens; [exact Hl|]. unfold shed_work. rewrite Hf. simpl. lia.
Qed.

Lemma heartbeat_continues (g g' : Gateway W) e :
  match e with
  | CounterWrite i => counter_write cfg g i
  | BeatWrite i => beat_write cfg fuel g i
  | _ => None
  end = Some g' → lessens g g'.
Proof.
  destruct e; try done; unfold counter_write, beat_write; intros Hs.
  - destruct (g_counters g !! i) as [s|] eqn:Hl; simpl in Hs; [|done].
    destruct (co_flight s) eqn:Hf; simpl in Hs; [|done]. destruct (modbus_write _ _ _ _ _) as [r w].
    injection Hs as <-. by eapply set_counter_lessens.
  - destruct (g_beats g !! i) as [s|] eqn:Hl; simpl in Hs; [|done].
    destruct (be_flight s) eqn:Hf; cbn [negb] in Hs; [|done].
    destruct (beat_once _ _ _ _ _ _) as [w|]; simpl in Hs; [|done]. injection Hs as <-.
    by apply set_beat_lessens.
Qed.

(** The caps of a command complete in some order. *)
Hypothesis order_perm : ∀ l, order l ≡ₚ l.

Lemma command_continues (g g' : Gateway W) now :
  flights_ok g → subscriber_next order cfg g now = Some g' → lessens g g'.
Proof.
  intros Hok Hs. unfold subscriber_next in Hs. destruct (g_command g) as [c|] eqn:Hc; simpl in Hs; [|done].
  destruct (resume_command _ _ _ _ _) as [[p g1]|] eqn:Hr; simpl in Hs; [|done]. injection Hs as <-.
  apply resume_command_flight in Hr as (r & w & -> & Hw); [|exact order_perm|by apply Hok].
  split; [|done]. unfold work. simpl. rewrite Hc.
  destruct p as [c'|a]; simpl; [destruct (Hw c' eq_refl); lia|].
  pose proof (stage_work_pos (g_channels g) c). lia.
Qed.

Lemma site_answered_lessens (g : Gateway W) f r w ok :
  (S (command_steps (g_channels g) * (length (sf_todo f) - 1)) < site_work (g_channels g) (g_site g))%nat ∨
  sf_todo f = [] ∧ (0 < site_work (g_channels g) (g_site g))%nat →
  lessens g (site_answered (set_requested g r w) f ok).
Proof.
  unfold site_answered. intros Hlt. destruct (sf_todo f) as [|[id v] todo]; [|destruct (sf_work f)];
    apply set_site_lessens; simpl in *; rewrite ?Nat.sub_0_r in Hlt; destruct Hlt as [?|[? ?]]; try done; lia.
Qed.

Lemma site_continues (g g' : Gateway W) now :
  flights_ok g → site_next frame_of order cfg g now = Some g' → lessens g g'.
Proof.
  intros Hok Hs. unfold site_next in Hs. destruct (g_site g) as [f|] eqn:Hf; simpl in Hs; [|done].
  destruct (sf_command f) as [c|] eqn:Hcf; [|destruct (sf_todo f) as [|[id v] todo] eqn:Ht].
  - destruct (resume_command _ _ _ _ _) as [[p g1]|] eqn:Hr; simpl in Hs; [|done]. injection Hs as <-.
    apply resume_command_flight in Hr as (r & w & -> & Hw); [|exact order_perm|by eapply (proj2 Hok)].
    destruct p as [c'|a].
    + apply set_site_lessens. rewrite Hf. simpl. rewrite Hcf. destruct (Hw c' eq_refl). lia.
    + apply site_answered_lessens. rewrite Hf. simpl. rewrite Hcf. pose proof (stage_work_pos (g_channels g) c).
      left. lia.
  - injection Hs as <-. apply (set_site_lessens g (g_requested g) (g_world g)). rewrite Hf. simpl. rewrite Hcf. lia.
  - destruct (start_command _ _ _ _) as [r g1] eqn:Hst. apply start_command_Some in Hst as (w & Hb & ->).
    injection Hs as <-. assert (command_steps (g_channels g) = 4 + all_width (g_channels g))%nat as Hcs by done.
    destruct r as [[c'|]|e].
    + apply command_begin_ok in Hb. apply set_site_lessens. rewrite Hf. simpl. rewrite Hcf, Ht. simpl.
      unfold stage_work. rewrite Hb. lia.
    + apply site_answered_lessens. rewrite Hf. simpl. rewrite Hcf, Ht. simpl. left. lia.
    + apply site_answered_lessens. rewrite Hf. simpl. rewrite Hcf, Ht. simpl. left. lia.
Qed.

Lemma step_continues (g g' : Gateway W) e :
  continues e = true → flights_ok g → stepg g e = Some g' → lessens g g'.
Proof.
  intros Hc Hok Hs%step_react. destruct e; try done; cbn [react] in Hs.
  - by eapply command_continues.
  - by eapply (envelope_continues g g' (EnvelopeWrite i)).
  - by eapply (envelope_continues g g' (EnvelopeLand i landed_at)).
  - by eapply (shed_continues g g' (ShedWrite i j)).
  - by eapply (shed_continues g g' (ShedEnd i)).
  - by eapply (heartbeat_continues g g' (CounterWrite i)).
  - by eapply (heartbeat_continues g g' (BeatWrite i)).
  - by eapply site_continues.
Qed.

Lemma step_bystander (g g' : Gateway W) e :
  bystander e = true → stepg g e = Some g' → work g' = work g ∧ frame_state g' = frame_state g.
Proof.
  intros He Hs%step_react. destruct e; try done; cbn [react] in Hs.
  - unfold on_message in Hs. destruct (g_command g); [done|]. simpl in He. apply negb_true_iff in He.
    case_bool_decide; [by injection Hs as <-|]. case_bool_decide; [by injection Hs as <-|].
    rewrite He in Hs. by injection Hs as <-.
  - destruct (_ && _); [|done]. by injection Hs as <-.
  - destruct (_ && _); [|done]. by injection Hs as <-.
Qed.

(** ** What has begun is never stuck *)

Definition goes_on (g : Gateway W) : Prop := ∃ e, continues e = true ∧ is_Some (stepg g e).

Lemma react_goes_on (g : Gateway W) e :
  g_phase g ≠ Stopped → continues e = true →
  is_Some (react pointer validator_for hash_order frame_of order cfg connected fuel g e) → goes_on g.
Proof. intros Hp Hc Hs. exists e. split; [done|]. unfold step. by destruct (g_phase g). Qed.

Lemma envelope_goes_on (g : Gateway W) i s :
  g_phase g ≠ Stopped → g_envelopes g !! i = Some s → es_flight s ≠ None → goes_on g.
Proof.
  intros Hp Hl Hf. destruct (es_flight s) as [[p [|share todo]]|] eqn:He; [..|done].
  - apply (react_goes_on _ (EnvelopeLand i 0)); [done..|]. simpl. unfold envelope_land. rewrite Hl. simpl.
    rewrite He. by eexists.
  - apply (react_goes_on _ (EnvelopeWrite i)); [done..|]. simpl. unfold envelope_write. rewrite Hl. simpl.
    rewrite He. destruct (write_share _ _ _ _ _ _). by eexists.
Qed.

Lemma shed_goes_on (g : Gateway W) i s :
  g_phase g ≠ Stopped → g_sheds g !! i = Some s → sh_flight s ≠ None → goes_on g.
Proof.
  intros Hp Hl Hf. destruct (sh_flight s) as [[[percent [|cap todo]] ok]|] eqn:He; [..|done].
  - apply (react_goes_on _ (ShedEnd i)); [done..|]. simpl. unfold shed_end. rewrite Hl. simpl. rewrite He. by eexists.
  - apply (react_goes_on _ (ShedWrite i 0)); [done..|]. simpl. unfold shed_write. rewrite Hl. simpl. rewrite He. simpl.
    destruct (write_one _ _ _ _ _). by eexists.
Qed.

Lemma counter_goes_on (g : Gateway W) i s :
  g_phase g ≠ Stopped → g_counters g !! i = Some s → co_flight s = true → goes_on g.
Proof.
  intros Hp Hl Hf. apply (react_goes_on _ (CounterWrite i)); [done..|]. simpl. unfold counter_write.
  rewrite Hl. simpl. rewrite Hf. simpl. destruct (modbus_write _ _ _ _ _). by eexists.
Qed.

Lemma beat_goes_on (g : Gateway W) i s :
  g_phase g ≠ Stopped → beats_return g → g_beats g !! i = Some s → be_flight s = true → goes_on g.
Proof.
  intros Hp Hr Hl Hf. destruct (Hr s (g_world g)) as [w Hw]; [by eapply list_elem_of_lookup_2|].
  apply (react_goes_on _ (BeatWrite i)); [done..|]. cbn [react]. unfold beat_write. rewrite Hl.
  cbn [mbind option_bind]. rewrite Hf. cbn [negb]. rewrite Hw. by eexists.
Qed.

Lemma resume_returns (g : Gateway W) c :
  flight_ok (g_channels g) (g_locked g) c → commands_return g → is_Some (resume_command order cfg g c 0).
Proof.
  intros Hok Hc. unfold resume_command.
  assert (is_Some (command_next (g_channels g) (g_trust g) (g_locked g) (Config.gateway_credentials cfg)
    (Config.site_id cfg) (g_cache g) 0 order c (g_requested g) (g_world g))) as [[[p r] w] Hn].
  { unfold command_next, flight_ok in *.
    destruct (cf_stage c) as [|b prev|prev f|prev [u|e]]; cbn beta iota; [| | |by eexists|by eexists].
    - case_bool_decide; [by eexists|]. destruct (channel_of _ _ _); [|by eexists].
      destruct (record_request _ _ _ _). by eexists.
    - destruct (Hc _ _ b (frame_value (cf_frame c)) (g_locked g) (g_cache g) 0 (g_world g) (proj2 Hok)) as [[r0 w0] He].
      rewrite <- (begin_writes_finish _ _ _ _ _ _ _ _ prev) in He.
      destruct (begin_writes _ _ _ _ _ _ _ _ _ _ _ _ _ _) as [[s w1]|]; [by eexists|done].
    - destruct (write_next _ _ _ _ _ _ _). by eexists. }
  rewrite Hn. by eexists.
Qed.

Lemma command_goes_on (g : Gateway W) c :
  g_phase g ≠ Stopped → flights_ok g → commands_return g → g_command g = Some c → goes_on g.
Proof.
  intros Hp Hok Hc Hl. destruct (resume_returns g c) as [[p g1] Hr]; [by apply Hok|done|].
  apply (react_goes_on _ (CommandNext 0)); [done..|]. cbn [react]. unfold subscriber_next. rewrite Hl.
  cbn [mbind option_bind]. rewrite Hr. by eexists.
Qed.

Lemma site_goes_on (g : Gateway W) f :
  g_phase g ≠ Stopped → flights_ok g → commands_return g → g_site g = Some f → goes_on g.
Proof.
  intros Hp Hok Hc Hf. apply (react_goes_on _ (SiteNext 0)); [done..|]. cbn [react]. unfold site_next. rewrite Hf.
  cbn [mbind option_bind]. destruct (sf_command f) as [c|] eqn:Hcf; [|destruct (sf_todo f) as [|[id v] todo]].
  - destruct (resume_returns g c) as [[p g1] ->]; [by eapply (proj2 Hok)|done|]. by eexists.
  - by eexists.
  - destruct (start_command _ _ _ _). by eexists.
Qed.

(** Nothing is under way. *)
Definition quiet (g : Gateway W) : bool :=
  joined g && match g_command g with None => true | Some _ => false end.

Lemma unquiet_goes_on (g : Gateway W) :
  g_phase g ≠ Stopped → flights_ok g → commands_return g → beats_return g → quiet g = false → goes_on g.
Proof.
  intros Hp Hok Hc Hb. unfold quiet, joined. rewrite !andb_false_iff. intros [[[[[Hj|Hj]|Hj]|Hj]|Hj]|Hj].
  - apply forallb_lookup_false in Hj as (i & s & Hl & Hs). eapply envelope_goes_on; [done|exact Hl|].
    by destruct (es_flight s).
  - apply forallb_lookup_false in Hj as (i & s & Hl & Hs). eapply shed_goes_on; [done|exact Hl|].
    by destruct (sh_flight s).
  - apply forallb_lookup_false in Hj as (i & s & Hl & Hs). eapply counter_goes_on; [done|exact Hl|].
    by destruct (co_flight s).
  - apply forallb_lookup_false in Hj as (i & s & Hl & Hs). eapply beat_goes_on; [done|exact Hb|exact Hl|].
    by destruct (be_flight s).
  - destruct (g_site g) as [f|] eqn:Hf; [|done]. by eapply site_goes_on.
  - destruct (g_command g) as [c|] eqn:Hf; [|done]. by eapply command_goes_on.
Qed.

(** ** Draining *)

(** What has begun goes on, in any order, and nothing new begins. *)
Definition draining (e : Event) : bool := continues e || bystander e.

Definition steps_taken (es : list Event) : nat := length (List.filter continues es).

(** What a drain relies on, and keeps. *)
Record drainable (g : Gateway W) : Prop := mkDrainable {
  drain_alive : g_phase g ≠ Stopped;
  drain_flights : flights_ok g;
  drain_commands : commands_return g;
  drain_beats : beats_return g;
}.

Lemma drainable_frame (g g' : Gateway W) :
  frame_state g' = frame_state g → flights_ok g' → drainable g → drainable g'.
Proof.
  intros Hfs Hok [Hp _ Hc Hb]. unfold frame_state in Hfs. injection Hfs as Hr1 Hph Hch Htr Hbt Hrc Hsp.
  constructor; [by rewrite Hph|done|unfold commands_return; by rewrite Hch, Htr|].
  intros s w Hin. apply (list_elem_of_fmap_2 (λ s, (be_beat s, be_trust s))) in Hin.
  rewrite Hbt in Hin. apply list_elem_of_fmap in Hin as (s0 & [= -> ->] & Hin). by apply Hb.
Qed.

Lemma drained es : ∀ g g' : Gateway W,
  drainable g → Forall (λ e, draining e = true) es → rung g es = Some g' →
  drainable g' ∧ frame_state g' = frame_state g ∧ (steps_taken es + work g' <= work g)%nat.
Proof.
  induction es as [|e es IH]; intros g g' Hd Hes Hr; [injection Hr as <-; split; [done|]; split; [done|simpl; lia]|].
  apply Forall_cons in Hes as [He Hes].
  change (stepg g e ≫= (λ g, rung g es) = Some g') in Hr.
  destruct (stepg g e) as [g1|] eqn:Hs; cbn [mbind option_bind] in Hr; [|done].
  assert (frame_state g1 = frame_state g ∧
    ((if continues e then 1 else 0) + work g1 <= work g)%nat) as [Hf1 Hw1].
  { unfold draining in He. destruct (continues e) eqn:Hc.
    - destruct (step_continues g g1 e Hc (drain_flights _ Hd) Hs). split; [done|lia].
    - destruct (step_bystander g g1 e He Hs) as [-> ?]. split; [done|lia]. }
  assert (drainable g1) as Hd1
    by (eapply drainable_frame; [exact Hf1|by eapply step_flights_ok; [..|apply Hd]|done]).
  destruct (IH g1 g' Hd1 Hes Hr) as (Hd' & Hf' & Hw'). split; [done|]. split; [congruence|].
  unfold steps_taken in *. cbn [List.filter]. destruct (continues e); cbn [length]; lia.
Qed.

(** The spec a reconcile ends with. *)
Definition outcome (g : Gateway W) (answer : result string AsyncApiSpec) : AsyncApiSpec :=
  match answer with
  | Ok fresh =>
      if is_ok (validate_trust_creds_alignment fresh (Config.gateway_credentials cfg)) then fresh
      else g_spec g
  | Err _ => g_spec g
  end.

Lemma respawn_running (g g' : Gateway W) s c t sub now w :
  respawn pointer validator_for cfg g s c t sub now w = Some g' →
  g_running g' = true ∧ joined g' = true ∧ g_spec g' = s.
Proof.
  intros (ts & _ & ->)%respawn_Some. split; [done|]. split; [|done].
  unfold joined. cbn [g_envelopes g_sheds g_counters g_beats g_site].
  rewrite !andb_true_iff, !forallb_forall. split_and!; try done;
    intros x (y & <- & _)%in_map_iff; done.
Qed.

Lemma quiet_unlocked (g : Gateway W) : quiet g = true → joined g = true ∧ unlocked g = true.
Proof.
  unfold quiet, unlocked, joined. rewrite !andb_true_iff. intros [[[[[He Hs] Hc] Hb] Hsite] Hcmd].
  split_and!; try done. destruct (g_command g), (g_site g); done.
Qed.

Lemma rung_app (g : Gateway W) es es' : rung g (es ++ es') = rung g es ≫= λ g, rung g es'.
Proof.
  revert g. induction es as [|e es IH]; intros g; [done|].
  change (stepg g e ≫= (λ g, rung g (es ++ es')) = (stepg g e ≫= λ g, rung g es) ≫= λ g, rung g es').
  destruct (stepg g e) as [g1|]; [|done]. apply IH.
Qed.

(** A quiet gateway's reconcile comes to its end. *)
Lemma reconcile_ends (g : Gateway W) answer now :
  g_phase g = Serving → g_running g = false → quiet g = true → g_reconciling g = None →
  is_Some (spawn_task_set pointer validator_for (outcome g answer) cfg) →
  ∃ n g', (n <= 3)%nat ∧ rung g (Reconcile answer now :: replicate n (ReconcileNext now)) = Some g' ∧
    g_running g' = true ∧ joined g' = true ∧ g_spec g' = outcome g answer.
Proof.
  intros Hph Hrun [Hj Hu]%quiet_unlocked Hr [ts Hts].
  assert (∀ (g : Gateway W) s c t sub w, spawn_task_set pointer validator_for s cfg = Some ts →
    is_Some (respawn pointer validator_for cfg g s c t sub now w)) as Hre
    by (intros ? s c t sub w Hs; unfold respawn; rewrite Hs; by eexists).
  unfold outcome in *. assert (∀ es, rung g (Reconcile answer now :: es) =
    reconcile pointer validator_for cfg g answer now ≫= λ g, rung g es) as Hstep
    by (intros es; simpl; unfold step; rewrite Hph; simpl; rewrite Hph, Hrun, Hj; simpl; unfold alive; by rewrite Hr).
  setoid_rewrite Hstep. unfold reconcile. rewrite Hu.
  destruct answer as [fresh|e]; [destruct (is_ok _)|].
  - destruct (update (Config.site_id cfg) (g_subscriptions g) (input_topics fresh (Config.site_id cfg))
      (g_world g)) as [[ok subs] w] eqn:Hup.
    set (g3 := set_topology g fresh Resubscribed (device_channels fresh) (x_device_trust fresh) subs w).
    destruct (Hre g3 fresh (device_channels fresh) (x_device_trust fresh) subs w Hts) as [g' Hg'].
    exists 3%nat, g'. split; [lia|]. split; [|by apply respawn_running in Hg'].
    simpl. unfold step. simpl. rewrite Hph. simpl. unfold reconcile_next. simpl.
    change (unlocked (set_topology _ _ _ _ _ _ _)) with (unlocked g). rewrite Hu. simpl. rewrite Hph. simpl.
    rewrite Hup. simpl. rewrite Hph. simpl. fold g3. change (respawn pointer validator_for cfg g3
      fresh (device_channels fresh) (x_device_trust fresh) subs now w ≫= (λ g, Some g) = Some g'). by rewrite Hg'.
  - destruct (Hre g (g_spec g) (g_channels g) (g_trust g) (g_subscriptions g) (g_world g) Hts) as [g' Hg'].
    exists 0%nat, g'. rewrite Hg'. split; [lia|]. split; [done|]. by apply respawn_running in Hg'.
  - destruct (Hre g (g_spec g) (g_channels g) (g_trust g) (g_subscriptions g) (g_world g) Hts) as [g' Hg'].
    exists 0%nat, g'. rewrite Hg'. split; [lia|]. split; [done|]. by apply respawn_running in Hg'.
Qed.

(** C28: a cancelled task set ends and is replaced, in every
    order. Whatever ticks and commands are under way when the tasks have been
    cancelled, and however many of their writes fail: take any run in which they go
    on in any order, with samples, beacons and re-fetches of the lockouts arriving
    in between and nothing further begun. It holds at most [work g] of their steps;
    as long as anything is still under way one of them can take a step; and once
    nothing is, the reconcile, whatever device-api answers, comes within three more
    steps to a running task set of the spec it decided for. This needs that no
    command panics, that the new task set can be built, and that no SunSpec device
    keeps a heartbeat's discovery walking for ever. *)
Theorem reconcile_completes (g : Gateway W) answer now es g1 :
  reachable pointer validator_for hash_order frame_of order cfg connected fuel g →
  g_phase g = Serving → g_running g = false → g_reconciling g = None → commands_return g → beats_return g →
  is_Some (spawn_task_set pointer validator_for (outcome g answer) cfg) →
  Forall (λ e, draining e = true) es → rung g es = Some g1 →
  (steps_taken es + work g1 <= work g)%nat ∧
  if quiet g1 then ∃ n g', (n <= 3)%nat ∧
    rung g1 (Reconcile answer now :: replicate n (ReconcileNext now)) = Some g' ∧
    g_running g' = true ∧ joined g' = true ∧ g_spec g' = outcome g answer
  else goes_on g1.
Proof.
  intros Hok%(reachable_flights_ok _ _ _ _ _ _ _ _ order_perm) Hph Hrun Hrec Hc Hbeats Hts Hes Hr.
  assert (drainable g) as Hd by (constructor; [by rewrite Hph|done..]).
  destruct (drained es g g1 Hd Hes Hr) as (Hd1 & Hfs & Hw). split; [done|].
  destruct (quiet g1) eqn:Hq; [|apply unquiet_goes_on; [apply Hd1..|exact Hq]].
  unfold frame_state in Hfs. injection Hfs as Hr1 Hph1 Hch Htr Hbt Hrc Hsp.
  assert (outcome g1 answer = outcome g answer) as Ho by (unfold outcome; by rewrite Hsp).
  destruct (reconcile_ends g1 answer now) as (n & g' & Hn & Hr' & Hrest); [congruence..|by rewrite Ho|].
  rewrite Ho in Hrest. exists n, g'. by split_and!; [..|apply Hrest|apply Hrest|apply Hrest].
Qed.

(** C29: on the shutdown signal the gateway stops, in every order.
    The task set is cancelled; take any run in which the ticks and commands under
    way go on in any order, with samples, beacons and re-fetches of the lockouts
    arriving in between and nothing further begun. It holds at most [work g] of
    their steps, the command and trust maps stay as they are, as long as a task is
    still at work a step can be taken, and once none is the process disconnects and
    is gone. This needs that no command panics and that no heartbeat's discovery
    walks for ever. *)
Theorem shutdown_completes (g : Gateway W) :
  reachable pointer validator_for hash_order frame_of order cfg connected fuel g →
  g_running g = true → commands_return g → beats_return g →
  ∃ g0, stepg g Shutdown = Some g0 ∧ work g0 = work g ∧
    ∀ es g1, Forall (λ e, draining e = true) es → rung g0 es = Some g1 →
      (steps_taken es + work g1 <= work g)%nat ∧
      g_channels g1 = g_channels g ∧ g_trust g1 = g_trust g ∧
      (if joined g1 then stepg g1 Disconnect = Some (set_phase g1 Stopped false) else goes_on g1).
Proof.
  intros Hreach Hrun Hc Hb.
  destruct (reachable_lifecycle _ _ _ _ _ _ _ _ g Hreach) as [Hl _]. destruct (Hl Hrun) as [Hp Hrec].
  assert (stepg g Shutdown = Some (set_phase g Stopping false)) as Hs
    by (unfold step; rewrite Hp; simpl; by rewrite Hrun).
  exists (set_phase g Stopping false). split; [done|]. split; [done|]. intros es g1 Hes Hr.
  assert (drainable (set_phase g Stopping false)) as Hd.
  { constructor; [done| |exact Hc|exact Hb]. eapply step_flights_ok; [exact order_perm|exact Hs|].
    by eapply reachable_flights_ok. }
  destruct (drained es _ g1 Hd Hes Hr) as (Hd1 & Hfs & Hw).
  unfold frame_state in Hfs. injection Hfs as Hr1 Hph1 Hch Htr Hbt Hrc Hsp.
  split; [exact Hw|]. split; [done|]. split; [done|]. destruct (joined g1) eqn:Hj.
  - unfold step. rewrite Hph1. cbn [react]. by rewrite Hph1, Hj.
  - apply unquiet_goes_on; [apply Hd1..|]. unfold quiet. by rewrite Hj.
Qed.
End Drain.

(** ** A lockout during a tick *)

Section MidTick.
Context {W : Type} `{South W} `{Broker W} `{BrokerSession W}.
Context (pointer : Value → string → option Value) (validator_for : Value → option (Value → bool)).
Context (hash_order : ∀ A : Type, list (string * A) → list (string * A)).
Context (frame_of : f64 → option CommandFrame).
Context (order : list (string * string * f64) → list (string * string * f64)).
Context (cfg : Config).
Context `{Rodbus W} `{SessionCache W} `{SunspecState W}.
Context (connected : W → bool) (fuel : nat).

(** A lockout that lands while a distribute task is writing does not
    stop it: the next step of the tick writes the planned power to the device
    that is locked out by now. *)
Theorem begun_tick_ignores_lockout (g : Gateway W) i s p d v todo b fresh :
  g_phase g ≠ Stopped → g_loto_fetching g = true → unlocked g = true →
  g_envelopes g !! i = Some s → es_flight s = Some (p, (d, v) :: todo) →
  channel_of (g_channels g) d (etc_channel_key (es_config s)) = Some (ModbusTcp b) → d ∈ fresh →
  ∃ g', run pointer validator_for hash_order frame_of order cfg connected fuel g
      [LotoRefetch (Ok fresh); EnvelopeWrite i] = Some g' ∧
    d ∈ g_locked g' ∧
    g_world g' =
      (modbus_write b v (g_trust g !! d) (Config.gateway_credentials cfg) (g_world g)).2.
Proof.
  intros Hp Hb Hu Hl Hf Hc Hd.
  cbn [run]. rewrite step_alive by done. cbn [react]. rewrite Hb, Hu. cbn [andb orb mbind option_bind].
  rewrite step_alive by done. cbn [react]. unfold envelope_write. simpl. rewrite Hl. simpl. rewrite Hf. unfold write_share. cbn [fst snd]. rewrite Hc.
  assert (d ∈ (loto_apply (g_locked g) fresh).1) as Hk.
  { unfold loto_apply. case_bool_decide as He; [by rewrite He|done]. }
  destruct (modbus_write _ _ _ _ _) as [r w]. eexists. split; [done|]. by split.
Qed.
End MidTick.

(** Commands that are no power cap and guard no ill-formed dwell return. *)
Lemma plain_commands_return {W} `{South W} `{Broker W} order cfg (g : Gateway W) :
  (∀ d k b, channel_of (g_channels g) d k = Some b →
     match b with
     | PowerCap _ => False
     | Distribute d => is_Some (envelope_guard_config d)
     | _ => True
     end) → commands_return order cfg g.
Proof.
  intros Hb d key b v locked cache now w Hch. apply Hb in Hch. destruct b as [| | | | | |s| |dist|]; try done; simpl.
  - destruct (ss_bit s); [|by eexists]. destruct (action _ _); by eexists.
  - unfold dispatch_distribute. destruct Hch as [[c|] ->]; by eexists.
Qed.
