(* ===== verification/Atomicity.v ===== *)
(** * Atomicity: steps that are not interrupted

    [Gateway] takes a tick of a distribute task, a tick of the site task and a
    command apart where they await.  Run with no step of another task in
    between, each ends in exactly the state and world of the operation as a
    whole: the ticks of [EnvelopeTask] and [DerDispatch], and
    [Dispatch.handle_command]. *)

From Stdlib Require Import ZArith Lia Floats.
From S2P Require Import Prelude F64 Binary64 Text Allocation Cache Payload Bindings Config WriteOrder.
From S2P Require Import Transport.
From S2P Require Import Writes PoiServo ControlLaw Shed Distribute Sunspec Dispatch Commands EnvelopeTask DerDispatch.
From S2P Require Import Synthetic Topology Poller Tasks Gateway.
Local Open Scope Z_scope.

(** ** A tick no other task runs in *)

Section Uninterrupted.
Context {W : Type} `{South W} `{Broker W} `{BrokerSession W}.
Context (pointer : Value → string → option Value) (validator_for : Value → option (Value → bool)).
Context (hash_order : ∀ A : Type, list (string * A) → list (string * A)).
Context (frame_of : f64 → option CommandFrame).
Context (order : list (string * string * f64) → list (string * string * f64)).
Context (cfg : Config).
Context `{Rodbus W} `{SessionCache W} `{SunspecState W}.
Context (connected : W → bool) (fuel : nat).
Context (i : nat) (landed_at : Z).

Local Abbreviation creds := (Config.gateway_credentials cfg).
Local Abbreviation rung := (run pointer validator_for hash_order frame_of order cfg connected fuel).
Local Abbreviation stepg := (step pointer validator_for hash_order frame_of order cfg connected fuel).

(** What a begun tick of task [i] does next; and that it has nothing to do. *)
Definition own_step (e : Event) : Prop := e = EnvelopeWrite i ∨ e = EnvelopeLand i landed_at.

Definition idle (g : Gateway W) : Prop := ∃ s, g_envelopes g !! i = Some s ∧ es_flight s = None.

(** [es] is the rest of a tick of [i], from [g] to [g']. *)
Definition finishes (g : Gateway W) (es : list Event) (g' : Gateway W) : Prop :=
  Forall own_step es ∧ rung g es = Some g' ∧ idle g'.

Lemma set_envelope_twice (g : Gateway W) a b w w' :
  set_envelope (set_envelope g i a w) i b w' = set_envelope g i b w'.
Proof. unfold set_envelope. simpl. by rewrite list_insert_insert_eq. Qed.

Lemma idle_set (g : Gateway W) s c st last w :
  g_envelopes g !! i = Some s → idle (set_envelope g i (mkEnvelopeSlot c st last None) w).
Proof.
  intros Hl. exists (mkEnvelopeSlot c st last None). split; [|done].
  apply list_lookup_insert_eq. by eapply lookup_lt_Some.
Qed.

Lemma finishes_idle g g' : idle g → (∃ es, finishes g es g') ↔ g' = g.
Proof.
  intros (s & Hl & Hf). split.
  - intros (es & He & Hr & _). destruct He as [|e es Hown _]; [by injection Hr as <-|].
    change (stepg g e ≫= (λ g, rung g es) = Some g') in Hr.
    destruct (stepg g e) as [g1|] eqn:Hs; [|done]. exfalso. apply step_react in Hs.
    destruct Hown as [-> | ->]; cbn [react] in Hs; unfold envelope_write, envelope_land in Hs;
      rewrite Hl in Hs; simpl in Hs; by rewrite Hf in Hs.
  - intros ->. exists []. split_and!; [constructor|done|by exists s].
Qed.

(** A tick with work left takes its one possible step. *)
Lemma finishes_step g g1 g' s f e :
  g_envelopes g !! i = Some s → es_flight s = Some f → own_step e → stepg g e = Some g1 →
  (∀ e', own_step e' → e' ≠ e → stepg g e' = None) →
  (∃ es, finishes g es g') ↔ ∃ es, finishes g1 es g'.
Proof.
  intros Hl Hf Hown Hs Hne. split.
  - intros (es & Hes & Hr & Hi). destruct Hes as [|e1 es Hown1 Hes].
    { simpl in Hr. injection Hr as <-. destruct Hi as (s' & Hl' & Hf'). congruence. }
    exists es. change (stepg g e1 ≫= (λ g, rung g es) = Some g') in Hr. split_and!; [done| |done].
    destruct (stepg g e1) as [g2|] eqn:Hs1; [|done].
    assert (e1 = e) as ->.
    { destruct Hown1 as [-> | ->], Hown as [-> | ->]; try done;
        (rewrite Hne in Hs1; [done|by (left + right)|done]). }
    rewrite Hs in Hs1. by injection Hs1 as ->.
  - intros (es & Hes & Hr & Hi). exists (e :: es). split_and!; [by constructor| |done].
    change (stepg g e ≫= (λ g, rung g es) = Some g'). by rewrite Hs.
Qed.

Lemma finishes_writes c st last p todo : ∀ (g g' : Gateway W),
  g_phase g ≠ Stopped →
  g_envelopes g !! i = Some (mkEnvelopeSlot c st last (Some (p, todo))) →
  (∃ es, finishes g es g') ↔
  let '(r, w) := write_shares (g_channels g) (g_trust g) creds todo (etc_channel_key c) (g_world g) in
  g' = set_envelope g i
    (mkEnvelopeSlot c
       (match r with
        | Ok _ => mkTask (controller st) (landed (task_writes st) p landed_at)
        | Err _ => st
        end) last None) w.
Proof.
  induction todo as [|share todo IH]; intros g g' Hph Hl.
  - erewrite finishes_step; [|exact Hl|done|by right|by rewrite step_alive; [simpl; unfold envelope_land; rewrite Hl|]|].
    + by apply finishes_idle, (idle_set _ _ _ _ _ _ Hl).
    + intros e' [-> | ->] Hne; [|done]. rewrite step_alive by done. simpl. unfold envelope_write. by rewrite Hl.
  - destruct (write_share (g_channels g) (g_trust g) creds (etc_channel_key c) share (g_world g))
      as [r w] eqn:Hw.
    assert (stepg g (EnvelopeWrite i) = Some (set_envelope g i
      (mkEnvelopeSlot c st last (if is_ok r then Some (p, todo) else None)) w)) as Hs
      by (rewrite step_alive by done; simpl; unfold envelope_write; rewrite Hl; simpl; by rewrite Hw).
    erewrite finishes_step; [|exact Hl|done|by left|exact Hs|].
    2: { intros e' [-> | ->] Hne; [done|]. rewrite step_alive by done. simpl. unfold envelope_land. by rewrite Hl. }
    simpl. rewrite Hw. destruct r as [u|e]; simpl.
    + rewrite IH; [|done|simpl; apply list_lookup_insert_eq; by eapply lookup_lt_Some]. simpl.
      destruct (write_shares _ _ _ _ _ _) as [r w']. by rewrite set_envelope_twice.
    + by apply finishes_idle, (idle_set _ _ _ _ _ _ Hl).
Qed.

(** A tick of a distribute task, taken as its separate steps (the plan, one
    write per child, the record of what landed) with no step of another task
    in between, ends in exactly the state and world of the task's tick as one
    operation, over the time since its last tick, writes that fail included;
    and it ends in no other. *)
Theorem uninterrupted_tick (g g' : Gateway W) s now :
  g_phase g ≠ Stopped → g_reconciling g = None → g_envelopes g !! i = Some s → es_flight s = None →
  (∃ g1 es, stepg g (EnvelopeBegin i now) = Some g1 ∧ finishes g1 es g') ↔
  ∃ st w, tick_once (es_config s) (Config.site_id cfg) (g_cache g) (g_requested g) (g_channels g)
      (g_trust g) (g_locked g) creds (es_state s) (Z.max 0 (now - es_last_tick s)) now landed_at (g_world g)
      = Some (st, w) ∧
    g' = set_envelope g i (mkEnvelopeSlot (es_config s) st now None) w.
Proof.
  intros Hph Hrec Hl Hf. destruct s as [c st0 last f]. simpl in Hf. subst f. rewrite step_alive by done. simpl.
  unfold alive, envelope_begin, tick_once. rewrite Hrec, Hl. simpl. unfold since_last_tick. cbn [es_last_tick].
  destruct (tick_plan c _ _ _ _ _ _ _) as [[st p]|]; simpl.
  2: { split; [by intros (g1 & es & ? & _)|by intros (st & w & ? & _)]. }
  set (g1 := set_envelope g i _ _).
  assert (g_envelopes g1 !! i = Some (mkEnvelopeSlot c st now ((λ p, (p, writes p)) <$> p))) as Hl1
    by (simpl; apply list_lookup_insert_eq; by eapply lookup_lt_Some).
  transitivity (∃ es, finishes g1 es g').
  { split; [intros (g2 & es & [= <-] & Hfin); by exists es|]. intros [es Hfin]. by exists g1, es. }
  destruct p as [p|]; simpl in Hl1.
  - rewrite (finishes_writes c st now p _ g1 g' Hph Hl1). simpl.
    destruct (write_shares _ _ _ _ _ _) as [r w]. unfold g1. rewrite set_envelope_twice.
    split; [intros ->; by do 2 eexists|]. intros (st' & w' & [= <- <-] & ->). by destruct r.
  - rewrite finishes_idle by (unfold g1; by eapply idle_set).
    split; [intros ->; by do 2 eexists|]. by intros (st' & w' & [= <- <-] & ->).
Qed.
End Uninterrupted.


(** ** A command no other task runs in *)

Section CommandAlone.
Context {W : Type} `{South W} `{Broker W} `{BrokerSession W}.
Context (pointer : Value → string → option Value) (validator_for : Value → option (Value → bool)).
Context (hash_order : ∀ A : Type, list (string * A) → list (string * A)).
Context (frame_of : f64 → option CommandFrame).
Context (order : list (string * string * f64) → list (string * string * f64)).
Context (cfg : Config).
Context `{Rodbus W} `{SessionCache W} `{SunspecState W}.
Context (connected : W → bool) (fuel : nat) (now : Z).

Local Abbreviation creds := (Config.gateway_credentials cfg).
Local Abbreviation site := (Config.site_id cfg).
Local Abbreviation rung := (run pointer validator_for hash_order frame_of order cfg connected fuel).
Local Abbreviation stepg := (step pointer validator_for hash_order frame_of order cfg connected fuel).
Local Abbreviation finish g := (command_finish (g_channels g) (g_trust g) (g_locked g) creds site (g_cache g)
  now order).

(** [e] again and again until [idle]. *)
Definition ends (e : Event) (idle : Gateway W → Prop) (g g' : Gateway W) : Prop :=
  ∃ n, rung g (replicate n e) = Some g' ∧ idle g'.

Lemma ends_step e idle (g g' : Gateway W) :
  ¬ idle g → ends e idle g g' ↔ ∃ g1, stepg g e = Some g1 ∧ ends e idle g1 g'.
Proof.
  intros Hn. split.
  - intros ([|n] & Hr & Hi); [by injection Hr as ->|].
    change (stepg g e ≫= (λ g, rung g (replicate n e)) = Some g') in Hr.
    destruct (stepg g e) as [g1|]; [|done]. exists g1. split; [done|]. by exists n.
  - intros (g1 & Hs & n & Hr & Hi). exists (S n). split; [|done].
    change (stepg g e ≫= (λ g, rung g (replicate n e)) = Some g'). by rewrite Hs.
Qed.

Lemma ends_idle e (idle : Gateway W → Prop) (g g' : Gateway W) :
  idle g → stepg g e = None → ends e idle g g' ↔ g' = g.
Proof.
  intros Hi Hs. split; [|intros ->; by exists 0%nat].
  intros ([|n] & Hr & _); [by injection Hr as ->|].
  change (stepg g e ≫= (λ g, rung g (replicate n e)) = Some g') in Hr. by rewrite Hs in Hr.
Qed.

Definition subscriber_idle (g : Gateway W) : Prop := g_command g = None.

Lemma subscriber_ends c : ∀ (g : Gateway W) g',
  g_phase g ≠ Stopped → g_command g = Some c →
  ends (CommandNext now) subscriber_idle g g' ↔
  ∃ r requested w, finish g c (g_requested g) (g_world g) = Some (r, requested, w) ∧
    g' = set_command (set_requested g requested w) None.
Proof.
  induction c as [c IH] using stage_ind. intros g g' Hp Hc.
  rewrite ends_step by (unfold subscriber_idle; congruence).
  assert (stepg g (CommandNext now) = subscriber_next order cfg g now) as -> by (unfold step; by destruct (g_phase g)).
  rewrite command_next_finish. unfold subscriber_next. rewrite Hc. cbn [mbind option_bind]. unfold resume_command.
  destruct (command_next _ _ _ _ _ _ _ _ _ _ _) as [[[p r] w]|] eqn:Hnext; simpl.
  2: { split; [by intros (? & ? & _)|by intros (? & ? & ? & ? & _)]. }
  transitivity (ends (CommandNext now) subscriber_idle
    (set_command (set_requested g r w) (match p with Waits c => Some c | Answers _ => None end)) g').
  { split; [by intros (g1 & [= <-] & He)|]. intros He. by eexists. }
  destruct p as [c'|a].
  - apply command_next_nearer in Hnext. rewrite (IH c' Hnext); done.
  - rewrite ends_idle; [|done|unfold step; simpl; by destruct (g_phase g)].
    split; [intros ->; by do 3 eexists|]. by intros (? & ? & ? & [= <- <- <-] & ->).
Qed.

(** A command the subscriber takes, run through its stages (the
    [Received] event, the record of the request, the write, the answer) with
    no step of another task in between, ends in exactly the requests and the
    world of [handle_command] as one operation, and in no other state; and it
    ends, unless the write panics. *)
Theorem uninterrupted_command (g g' : Gateway W) topic doc frame :
  g_phase g ≠ Stopped → g_command g = None →
  topic ≠ "system/topology_changed"%string → topic ≠ "system/loto_changed"%string →
  str_contains "/commands/" topic = true →
  (∃ g1, stepg g (Message topic doc frame now) = Some g1 ∧ ends (CommandNext now) subscriber_idle g1 g') ↔
  ∃ r requested w,
    handle_command (g_channels g) (g_trust g) (g_locked g) creds site (g_cache g) now order (g_requested g)
      topic frame (g_world g) = Some (r, requested, w) ∧
    g' = set_command (set_requested g requested w) None.
Proof.
  intros Hp Hc Ht1 Ht2 Hcmd. rewrite <- command_run_eq. unfold command_run.
  assert (stepg g (Message topic doc frame now) = on_message cfg g topic doc frame now) as ->
    by (unfold step; by destruct (g_phase g)).
  unfold on_message. rewrite Hc, !bool_decide_false, Hcmd by done. unfold start_command.
  destruct (command_begin _ _ _ _ _) as [r w] eqn:Hb.
  match goal with |- (∃ g1, Some ?x = Some g1 ∧ _) ↔ _ => set (g1 := x) end.
  transitivity (ends (CommandNext now) subscriber_idle g1 g').
  { split; [by intros (g2 & [= <-] & He)|]. intros He. by eexists. }
  destruct r as [[c|]|e]; subst g1.
  - by rewrite (subscriber_ends c).
  - rewrite ends_idle; [|done|unfold step; simpl; by destruct (g_phase g)].
    split; [intros ->; by do 3 eexists|]. by intros (? & ? & ? & [= <- <- <-] & ->).
  - rewrite ends_idle; [|done|unfold step; simpl; by destruct (g_phase g)].
    split; [intros ->; by do 3 eexists|]. by intros (? & ? & ? & [= <- <- <-] & ->).
Qed.

(** ** A site tick no other task runs in *)

Definition site_idle (g : Gateway W) : Prop := g_site g = None.

Lemma site_step (g : Gateway W) :
  g_phase g ≠ Stopped → stepg g (SiteNext now) = site_next frame_of order cfg g now.
Proof. unfold step. by destruct (g_phase g). Qed.

Lemma site_done (g g' : Gateway W) : g_phase g ≠ Stopped → g_site g = None → ends (SiteNext now) site_idle g g' ↔ g' = g.
Proof. intros Hp Hs. apply ends_idle; [done|]. rewrite site_step by done. unfold site_next. by rewrite Hs. Qed.

(** The command under way, to its answer. *)
Lemma site_command_ends c : ∀ (g : Gateway W) f g',
  g_phase g ≠ Stopped → g_site g = Some f → sf_command f = Some c →
  ends (SiteNext now) site_idle g g' ↔
  ∃ r requested w, finish g c (g_requested g) (g_world g) = Some (r, requested, w) ∧
    ends (SiteNext now) site_idle (site_answered (set_requested g requested w) f (is_ok r)) g'.
Proof.
  induction c as [c IH] using stage_ind. intros g f g' Hp Hs Hc.
  rewrite ends_step by (unfold site_idle; congruence). rewrite site_step by done.
  rewrite command_next_finish. unfold site_next. rewrite Hs. cbn [mbind option_bind]. rewrite Hc. unfold resume_command.
  destruct (command_next _ _ _ _ _ _ _ _ _ _ _) as [[[p r] w]|] eqn:Hnext; simpl.
  2: { split; [by intros (? & ? & _)|by intros (? & ? & ? & ? & _)]. }
  match goal with |- (∃ g1, Some ?x = Some g1 ∧ _) ↔ _ => set (g1 := x) end.
  transitivity (ends (SiteNext now) site_idle g1 g').
  { split; [by intros (g2 & [= <-] & He)|]. intros He. by eexists. }
  destruct p as [c'|a]; subst g1.
  - apply command_next_nearer in Hnext. erewrite (IH c' Hnext); [|done|done|done]. simpl.
    assert (∀ r' w' ok, site_answered (set_requested (set_site (set_requested g r w) (g_memory g)
      (Some (mkSite (sf_work f) (sf_todo f) (Some c')))) r' w') (mkSite (sf_work f) (sf_todo f) (Some c')) ok =
      site_answered (set_requested g r' w') f ok) as Heq.
    { intros r' w' ok. unfold site_answered. simpl. destruct (sf_todo f) as [|[id v] todo]; [done|].
      by destruct (sf_work f). }
    by setoid_rewrite Heq.
  - split; [intros He; by do 3 eexists|]. by intros (? & ? & ? & [= <- <- <-] & He).
Qed.

(** One command of the site task: [dispatch_one]. *)
Lemma site_dispatch_ends (g : Gateway W) work id v todo g' :
  g_phase g ≠ Stopped → g_site g = Some (mkSite work ((id, v) :: todo) None) →
  ends (SiteNext now) site_idle g g' ↔
  ∃ ok requested w,
    dispatch_one frame_of order site creds (g_channels g) (g_trust g) (g_locked g) (g_cache g) now id v
      (g_requested g) (g_world g) = Some (ok, requested, w) ∧
    ends (SiteNext now) site_idle
      (set_site (set_requested g requested w)
         (match work with Restoring _ => g_memory g | Dispatching => if (ok : bool) then record (g_memory g) id v else g_memory g end)
         (Some (mkSite (match work with Restoring all => Restoring (ok && all) | Dispatching => Dispatching end) todo None))) g'.
Proof.
  intros Hp Hs. rewrite ends_step by (unfold site_idle; congruence). rewrite site_step by done.
  unfold site_next. rewrite Hs. cbn [mbind option_bind sf_command sf_todo]. unfold dispatch_one.
  rewrite <- command_run_eq. unfold command_run, start_command.
  destruct (command_begin _ _ _ _ _) as [r w] eqn:Hb.
  match goal with |- (∃ g1, Some ?x = Some g1 ∧ _) ↔ _ => set (g1 := x) end.
  transitivity (ends (SiteNext now) site_idle g1 g').
  { split; [by intros (g2 & [= <-] & He)|]. intros He. by eexists. }
  assert (∀ r w ok, site_answered (set_requested g r w) (mkSite work ((id, v) :: todo) None) ok =
    set_site (set_requested g r w)
      (match work with Restoring _ => g_memory g | Dispatching => if (ok : bool) then record (g_memory g) id v else g_memory g end)
      (Some (mkSite (match work with Restoring all => Restoring (ok && all) | Dispatching => Dispatching end) todo None))) as Heq
    by (intros r' w' ok; unfold site_answered; simpl; by destruct work).
  destruct r as [[c|]|e]; subst g1.
  - erewrite (site_command_ends c); [|done|done|done]. cbn [g_requested g_world set_site set_requested
      g_channels g_trust g_locked g_cache].
    destruct (command_finish _ _ _ _ _ _ _ _ _ _ _) as [[[r requested] w']|]; cbn [mbind option_bind].
    2: { split; [by intros (? & ? & ? & ? & _)|by intros (? & ? & ? & ? & _)]. }
    assert (∀ r' w' ok, site_answered (set_requested (set_site (set_requested g (g_requested g) w) (g_memory g)
      (Some (mkSite work ((id, v) :: todo) (Some c)))) r' w') (mkSite work ((id, v) :: todo) (Some c)) ok =
      site_answered (set_requested g r' w') (mkSite work ((id, v) :: todo) None) ok) as Heq'
      by (intros r' w2 ok; unfold site_answered; simpl; by destruct work).
    cbn [sf_work sf_todo] in *. setoid_rewrite Heq'. setoid_rewrite Heq.
    split; [intros (? & ? & ? & [= <- <- <-] & He); by do 3 eexists|].
    intros (? & ? & ? & [= <- <- <-] & He). by do 3 eexists.
  - rewrite Heq. cbn [mbind option_bind]. split; [intros He; by do 3 eexists|].
    by intros (? & ? & ? & [= <- <- <-] & He).
  - rewrite Heq. cbn [mbind option_bind]. split; [intros He; by do 3 eexists|].
    by intros (? & ? & ? & [= <- <- <-] & He).
Qed.

(** The two loops. *)
Lemma restoring_ends todo : ∀ (g : Gateway W) all g',
  g_phase g ≠ Stopped → g_site g = Some (mkSite (Restoring all) todo None) →
  ends (SiteNext now) site_idle g g' ↔
  ∃ ok requested w,
    restore_all frame_of order site creds (g_channels g) (g_trust g) (g_locked g) (g_cache g) now todo
      (g_requested g) (g_world g) = Some (ok, requested, w) ∧
    g' = set_site (set_requested g requested w) (if ok && all then clear (g_memory g) else g_memory g) None.
Proof.
  induction todo as [|[id v] todo IH]; intros g all g' Hp Hs.
  - rewrite ends_step by (unfold site_idle; congruence). rewrite site_step by done.
    unfold site_next. rewrite Hs. cbn [mbind option_bind sf_command sf_todo sf_work restore_all].
    assert (set_requested g (g_requested g) (g_world g) = g) as Hg by (by destruct g).
    split.
    + intros (g1 & [= <-] & He). apply site_done in He as ->; [|done|done]. do 3 eexists. split; [done|].
      rewrite Hg. by destruct all.
    + intros (? & ? & ? & [= <- <- <-] & ->). rewrite Hg. eexists. split; [done|]. apply site_done; [done|done|].
      by destruct all.
  - rewrite (site_dispatch_ends g (Restoring all) id v todo g' Hp Hs). cbn [restore_all].
    destruct (dispatch_one _ _ _ _ _ _ _ _ _ _ _ _ _) as [[[ok r] w]|]; cbn [mbind option_bind].
    2: { split; [by intros (? & ? & ? & ? & _)|by intros (? & ? & ? & ? & _)]. }
    transitivity (ends (SiteNext now) site_idle (set_site (set_requested g r w) (g_memory g)
      (Some (mkSite (Restoring (ok && all)) todo None))) g').
    { split; [by intros (? & ? & ? & [= <- <- <-] & He)|]. intros He. by do 3 eexists. }
    rewrite IH; [|done|done]. simpl.
    destruct (restore_all _ _ _ _ _ _ _ _ _ _ _ _) as [[[ok' r'] w']|]; cbn [mbind option_bind].
    2: { split; [by intros (? & ? & ? & ? & _)|by intros (? & ? & ? & ? & _)]. }
    assert (ok' && (ok && all) = (ok && ok') && all) as Hb by (by destruct ok, ok').
    split; intros (? & ? & ? & [= <- <- <-] & ->); do 3 eexists; (split; [done|]); by rewrite Hb.
Qed.

Lemma dispatching_ends todo : ∀ (g g' : Gateway W),
  g_phase g ≠ Stopped → g_site g = Some (mkSite Dispatching todo None) →
  ends (SiteNext now) site_idle g g' ↔
  ∃ m requested w,
    dispatch_all frame_of order site creds (g_channels g) (g_trust g) (g_locked g) (g_cache g) now todo
      (g_memory g) (g_requested g) (g_world g) = Some (m, requested, w) ∧
    g' = set_site (set_requested g requested w) m None.
Proof.
  induction todo as [|[id v] todo IH]; intros g g' Hp Hs.
  - rewrite ends_step by (unfold site_idle; congruence). rewrite site_step by done.
    unfold site_next. rewrite Hs. cbn [mbind option_bind sf_command sf_todo sf_work dispatch_all].
    assert (set_requested g (g_requested g) (g_world g) = g) as Hg by (by destruct g).
    split.
    + intros (g1 & [= <-] & He). apply site_done in He as ->; [|done|done]. do 3 eexists. split; [done|]. by rewrite Hg.
    + intros (? & ? & ? & [= <- <- <-] & ->). rewrite Hg. eexists. split; [done|]. by apply site_done.
  - rewrite (site_dispatch_ends g Dispatching id v todo g' Hp Hs). cbn [dispatch_all].
    destruct (dispatch_one _ _ _ _ _ _ _ _ _ _ _ _ _) as [[[ok r] w]|]; cbn [mbind option_bind].
    2: { split; [by intros (? & ? & ? & ? & _)|by intros (? & ? & ? & ? & _)]. }
    transitivity (ends (SiteNext now) site_idle (set_site (set_requested g r w)
      (if (ok : bool) then record (g_memory g) id v else g_memory g) (Some (mkSite Dispatching todo None))) g').
    { split; [by intros (? & ? & ? & [= <- <- <-] & He)|]. intros He. by do 3 eexists. }
    by rewrite IH.
Qed.

(** A tick of the site task, taken as its separate steps (what the
    event asks for, then one command per module in its stages) with no step of
    another task in between, ends in exactly the memory, requests and world of
    the tick as one operation, refused and failed commands included; and it
    ends in no other. *)
Theorem uninterrupted_site_tick (g g' : Gateway W) :
  g_phase g ≠ Stopped → g_reconciling g = None → g_site g = None →
  (∃ g1, stepg g (SiteBegin now) = Some g1 ∧ ends (SiteNext now) site_idle g1 g') ↔
  ∃ m requested w,
    site_tick hash_order frame_of order site (sd_topics (ts_site_distribution (g_tasks g))) creds
      (g_channels g) (g_trust g) (g_locked g) (g_cache g) now (g_memory g) (g_requested g) (g_world g)
      = Some (m, requested, w) ∧
    g' = set_site (set_requested g requested w) m None.
Proof.
  intros Hp Hr Hs.
  assert (stepg g (SiteBegin now) = site_begin hash_order cfg g now) as ->
    by (unfold step; destruct (g_phase g); [cbn [react]; unfold alive; by rewrite Hr..|done]).
  unfold site_begin, site_tick, release. rewrite Hs.
  assert (∀ m, set_site (set_requested g (g_requested g) (g_world g)) m None = set_site g m None) as Hg
    by (intros m; by destruct g).
  assert (set_site g (g_memory g) None = g) as Hid by (destruct g; simpl in *; by subst).
  assert (∀ g1 : Gateway W, (∃ g2, Some g1 = Some g2 ∧ ends (SiteNext now) site_idle g2 g') ↔
    ends (SiteNext now) site_idle g1 g') as Hone
    by (intros g1; split; [by intros (g2 & [= <-] & He)|intros He; by eexists]).
  assert (∀ m, ends (SiteNext now) site_idle (set_site g m None) g' ↔
    ∃ m' r w, Some (m, g_requested g, g_world g) = Some (m', r, w) ∧ g' = set_site (set_requested g r w) m' None) as Hnone.
  { intros m. rewrite site_done by done.
    split; [intros ->; do 3 eexists; split; [done|by rewrite Hg]|]. intros (? & ? & ? & [= <- <- <-] & ->). apply Hg. }
  destruct (posture _ _) as [| |target].
  - rewrite Hone. rewrite <- Hid at 1. apply Hnone.
  - rewrite Hone, restoring_ends; [|done|done]. simpl.
    destruct (restore_all _ _ _ _ _ _ _ _ _ _ _ _) as [[[ok r] w]|]; cbn [mbind option_bind].
    2: { split; [by intros (? & ? & ? & ? & _)|by intros (? & ? & ? & ? & _)]. }
    split; intros (? & ? & ? & [= <- <- <-] & ->); do 3 eexists; (split; [done|]); by destruct ok.
  - destruct (modules_with_bounds _ _ _ _ _ _ _) as [[|m ms]|]; [rewrite Hone; apply Hnone| |rewrite Hone; apply Hnone].
    by rewrite Hone, dispatching_ends.
Qed.
End CommandAlone.
