(* ===== verification/Requests.v ===== *)
(** * Requests: what the gateway remembers while commands overlap

    [last_requested] is the target the envelope and site tasks steer to.  Two
    commands can be under way at once, the subscriber's and the site task's;
    each records its request before its write and takes it back if the write
    fails ([src/dispatch/requested.rs]).  What a request stands against, and
    what it does not. *)

From Stdlib Require Import ZArith Lia Floats.
From S2P Require Import Prelude F64 Binary64 Text Allocation Cache Payload Bindings Config WriteOrder.
From S2P Require Import Transport.
From S2P Require Import Writes PoiServo ControlLaw Shed Distribute Sunspec Dispatch Commands EnvelopeTask DerDispatch.
From S2P Require Import Synthetic Topology Poller Tasks Gateway.
Local Open Scope Z_scope.
Local Open Scope gateway_scope.

(** ** One stage of a command *)

Lemma restore_lookup r d k v previous d' k' :
  requested_of (restore_request r d k v previous) d' k' = requested_of r d' k' ∨
  d = d' ∧ k = k' ∧ ∃ u, requested_of r d k = Some u ∧ f_eqb u v = true ∧
    requested_of (restore_request r d k v previous) d' k' = previous.
Proof.
  unfold restore_request. destruct (r !! d) as [device|] eqn:Hd; [|by left].
  destruct (device !! k) as [u|] eqn:Hk; [|by left]. destruct (f_eqb u v) eqn:Hu; [|by left].
  rewrite requested_of_insert. case_bool_decide as Hdd; [|by left]. subst d'.
  destruct (decide (k = k')) as [<-|Hne].
  - right. split; [done|]. split; [done|]. exists u. unfold requested_of at 1. rewrite Hd. simpl.
    split; [done|]. split; [done|]. destruct previous; [by rewrite lookup_insert_eq|by rewrite lookup_delete_eq].
  - left. unfold requested_of. rewrite Hd. simpl.
    destruct previous; [by rewrite lookup_insert_ne|by rewrite lookup_delete_ne].
Qed.

(** Past its record, and how it will end if that is known. *)
Definition may_take_back (c : CommandFlight) : bool :=
  match cf_stage c with
  | Acked | Written _ (Ok _) => false
  | Recorded _ _ | Writing _ _ | Written _ (Err _) => true
  end.

Definition concerns (c : CommandFlight) (d k : string) : bool :=
  bool_decide (cf_device c = d) && bool_decide (cf_key c = k).

Lemma concerns_true c d k : concerns c d k = true ↔ cf_device c = d ∧ cf_key c = k.
Proof. unfold concerns. by rewrite andb_true_iff, !bool_decide_eq_true. Qed.

(** A request another command asked for: [c] does not take it back. *)
Definition spares (d k : string) (v : f64) (c : CommandFlight) : Prop :=
  concerns c d k = true → may_take_back c = true → f_eqb v (frame_value (cf_frame c)) = false.

Section Stage.
Context {W : Type} `{South W} `{Broker W}.
Context (channels : Channels) (trust : gmap string DeviceTrust) (locked : gset string)
  (creds : option GatewayCredentials) (site_id : string) (cache : InputCache) (now : Z)
  (order : list (string * string * f64) → list (string * string * f64)).

Lemma answer_event_requested (c : CommandFlight) phase why requested (w : W) :
  ∃ r w', answer_event site_id c phase why requested w = (Answers r, requested, w').
Proof. unfold answer_event. destruct (Dispatch.publish _ w) as [r w']. by exists r, w'. Qed.

(** A stage that is no record keeps a request it spares, and the command still
    spares it. *)
Lemma command_next_spares c requested w p requested' w' d k v :
  command_next channels trust locked creds site_id cache now order c requested w = Some (p, requested', w') →
  requested_of requested d k = Some v → spares d k v c →
  (concerns c d k = true → cf_stage c ≠ Acked) →
  requested_of requested' d k = Some v ∧ ∀ c', p = Waits c' → spares d k v c'.
Proof.
  unfold command_next. intros Hn Hv Hsp Hrec.
  assert (∀ ph why, Some (answer_event site_id c ph why requested w) = Some (p, requested', w') →
    requested_of requested' d k = Some v ∧ ∀ c', p = Waits c' → spares d k v c') as Hsame.
  { intros ph why Ha. destruct (answer_event_requested c ph why requested w) as (r & w0 & He).
    rewrite He in Ha. by injection Ha as <- <- <-. }
  unfold spares, may_take_back in Hsp.
  destruct (cf_stage c) as [|b prev|prev f|prev [u|e]] eqn:Hst; cbn beta iota in Hn; [| | |by eapply Hsame|].
  - case_bool_decide; [by eapply Hsame|]. destruct (channel_of _ _ _) as [b|]; [|by eapply Hsame].
    destruct (record_request _ _ _ _) as [r prev] eqn:Hr. injection Hn as <- <- <-.
    assert (concerns c d k = false) as Hcon by (apply not_true_iff_false; intros Hcon; by apply Hrec in Hcon).
    split; [|intros c' [= <-] Hcc; change (concerns c d k = true) in Hcc; congruence].
    replace r with (record_request requested (cf_device c) (cf_key c) (frame_value (cf_frame c))).1 by (by rewrite Hr).
    rewrite record_request_lookup, bool_decide_false; [done|]. by rewrite <- concerns_true, Hcon.
  - destruct (begin_writes _ _ _ _ _ _ _ _ _ _ _ _ _ _) as [[s w1]|]; simpl in Hn; [|done].
    injection Hn as <- <- <-. split; [done|]. intros c' [= <-] Hcon Htake. by apply Hsp.
  - destruct (write_next _ _ _ _ _ _ _) as [s w1].
    injection Hn as <- <- <-. split; [done|]. intros c' [= <-] Hcon Htake. by apply Hsp.
  - injection Hn as Hn. destruct (answer_event_requested c Failed (Some (WriteFailed e))
      (restore_request requested (cf_device c) (cf_key c) (frame_value (cf_frame c)) prev) w) as (r & w0 & He).
    rewrite He in Hn. injection Hn as <- <- <-. split; [|done].
    destruct (restore_lookup requested (cf_device c) (cf_key c) (frame_value (cf_frame c)) prev d k)
      as [->|(Hd & Hk & u & Hu & Heq & _)]; [done|].
    rewrite Hd, Hk in Hu. assert (v = u) as -> by congruence.
    rewrite Hsp in Heq; [done|by apply concerns_true|done].
Qed.
End Stage.

(** ** Runs *)

Section Runs.
Context {W : Type} `{South W} `{Broker W} `{BrokerSession W}.
Context (pointer : Value → string → option Value) (validator_for : Value → option (Value → bool)).
Context (hash_order : ∀ A : Type, list (string * A) → list (string * A)).
Context (frame_of : f64 → option CommandFrame).
Context (order : list (string * string * f64) → list (string * string * f64)).
Context (cfg : Config).
Context `{Rodbus W} `{SessionCache W} `{SunspecState W}.
Context (connected : W → bool) (fuel : nat).

Local Abbreviation creds := (Config.gateway_credentials cfg).
Local Abbreviation stepg := (step pointer validator_for hash_order frame_of order cfg connected fuel).
Local Abbreviation rung := (run pointer validator_for hash_order frame_of order cfg connected fuel).

(** The command a step takes on. *)
Definition resumed (g : Gateway W) (e : Event) : option CommandFlight :=
  match e with
  | CommandNext _ => g_command g
  | SiteNext _ => f ← g_site g; sf_command f
  | _ => None
  end.

(** The step after which a new request for the setpoint is on record. *)
Definition records (d k : string) (g : Gateway W) (e : Event) : Prop :=
  ∃ c, resumed g e = Some c ∧ concerns c d k = true ∧ cf_stage c = Acked.

(** Nothing newer is recorded for the setpoint while [es] happens. *)
Fixpoint unrecorded (d k : string) (g : Gateway W) (es : list Event) : Prop :=
  match es with
  | [] => True
  | e :: es => ¬ records d k g e ∧ match stepg g e with Some g => unrecorded d k g es | None => True end
  end.

(** The request on record, and no command under way that takes it back. *)
Definition stands (d k : string) (v : f64) (g : Gateway W) : Prop :=
  requested_of (g_requested g) d k = Some v ∧
  (∀ c, g_command g = Some c → spares d k v c) ∧
  ∀ f c, g_site g = Some f → sf_command f = Some c → spares d k v c.

Lemma acked_spares c d k v : cf_stage c = Acked → spares d k v c.
Proof. unfold spares, may_take_back. by intros ->. Qed.

Lemma start_command_spares (g : Gateway W) topic frame r g' d k v :
  start_command cfg g topic frame = (r, g') →
  ∃ w, g' = set_requested g (g_requested g) w ∧ ∀ c, r = Ok (Some c) → spares d k v c.
Proof.
  intros (w & Hb & ->)%start_command_Some. exists w. split; [done|]. intros c ->.
  apply acked_spares. by eapply command_begin_ok.
Qed.

Lemma resume_command_spares (g : Gateway W) c now p g' d k v :
  resume_command order cfg g c now = Some (p, g') → stands d k v g → spares d k v c →
  (concerns c d k = true → cf_stage c ≠ Acked) →
  ∃ requested w, g' = set_requested g requested w ∧ requested_of requested d k = Some v ∧
    ∀ c', p = Waits c' → spares d k v c'.
Proof.
  intros (r & w & Hn & ->)%resume_command_Some [Hv _] Hsp Hrec. exists r, w. split; [done|].
  by eapply command_next_spares.
Qed.

Lemma message_stands (g g' : Gateway W) topic doc frame now d k v :
  on_message cfg g topic doc frame now = Some g' → stands d k v g → stands d k v g'.
Proof.
  intros Hs Hst. unfold on_message in Hs. destruct (g_command g); [done|].
  case_bool_decide; [by injection Hs as <-|]. case_bool_decide; [by injection Hs as <-|].
  destruct (str_contains _ _); [|by injection Hs as <-].
  destruct (start_command _ _ _ _) as [r g1] eqn:Hc.
  apply (start_command_spares _ _ _ _ _ d k v) in Hc as (w & -> & Hf). injection Hs as <-.
  destruct Hst as (Hv & _ & Hsite). split; [done|]. split; [|done]. intros c Hr. cbn in Hr. apply Hf. by destruct r; subst.
Qed.

Lemma subscriber_stands (g g' : Gateway W) now d k v :
  subscriber_next order cfg g now = Some g' → ¬ records d k g (CommandNext now) →
  stands d k v g → stands d k v g'.
Proof.
  intros Hs Hr Hst. unfold subscriber_next in Hs. destruct (g_command g) as [c|] eqn:Hc; simpl in Hs; [|done].
  destruct (resume_command _ _ _ _ _) as [[p g1]|] eqn:Hrc; simpl in Hs; [|done]. injection Hs as <-.
  pose proof Hst as (Hv & Hcmd & Hsite).
  eapply resume_command_spares in Hrc as (r & w & -> & Hv' & Hf); [|exact Hst|by apply Hcmd|].
  - split; [done|]. split; [|done]. intros c' Hp. cbn in Hp. apply Hf. destruct p; [by injection Hp as ->|done].
  - intros Hcon Hst'. apply Hr. by exists c.
Qed.

Lemma site_next_stands (g g' : Gateway W) now d k v :
  site_next frame_of order cfg g now = Some g' → ¬ records d k g (SiteNext now) →
  stands d k v g → stands d k v g'.
Proof.
  intros Hs Hr Hst. unfold site_next in Hs. destruct (g_site g) as [f|] eqn:Hf; simpl in Hs; [|done].
  pose proof Hst as (Hv & Hcmd & Hsite).
  assert (∀ r w m s, requested_of r d k = Some v → (∀ f' c, s = Some f' → sf_command f' = Some c → spares d k v c) →
    stands d k v (set_site (set_requested g r w) m s)) as Hset by (intros r w m s Hv' Hs'; by split_and!).
  assert (∀ r w ok, requested_of r d k = Some v → stands d k v (site_answered (set_requested g r w) f ok)) as Hans.
  { intros r w ok Hv'. destruct (site_answered_eq (set_requested g r w) f ok) as (m & s & -> & Hn).
    apply Hset; [done|]. intros f' c ->%Hn. done. }
  destruct (sf_command f) as [c|] eqn:Hc; [|destruct (sf_todo f) as [|[id x] todo]].
  - destruct (resume_command _ _ _ _ _) as [[p g1]|] eqn:Hrc; simpl in Hs; [|done]. injection Hs as <-.
    eapply resume_command_spares in Hrc as (r & w & -> & Hv' & Hn); [|exact Hst|by eapply Hsite|].
    + destruct p as [c'|a]; [apply Hset; [done|]|by apply Hans]. intros f' c1 [= <-] [= <-]. by apply Hn.
    + intros Hcon Hst'. apply Hr. exists c. by rewrite <- Hc; simpl; rewrite Hf.
  - injection Hs as <-. by split_and!.
  - destruct (start_command _ _ _ _) as [r g1] eqn:Hstart.
    apply (start_command_spares _ _ _ _ _ d k v) in Hstart as (w & -> & Hn). injection Hs as <-.
    destruct r as [[c'|]|]; [apply Hset; [done|]|by apply Hans..]. intros f' c1 [= <-] [= <-]. by apply Hn.
Qed.

(** What the other steps leave alone. *)
Definition commands (g : Gateway W) := (g_requested g, g_command g, (g_site g ≫= sf_command)).

Lemma commands_stands (g g' : Gateway W) d k v : commands g' = commands g → stands d k v g → stands d k v g'.
Proof.
  unfold commands, stands. intros [= -> -> Hs] (Hv & Hc & Hsite). split; [done|]. split; [done|].
  intros f c Hf Hcmd. rewrite Hf in Hs. simpl in Hs. rewrite Hcmd in Hs.
  destruct (g_site g) as [f0|] eqn:Hf0; [|done]. by eapply Hsite.
Qed.

Lemma step_commands (g : Gateway W) e g' :
  stepg g e = Some g' →
  match e with Message _ _ _ _ | CommandNext _ | SiteNext _ | Reconcile _ _ | ReconcileNext _ => False | _ => True end →
  commands g' = commands g ∨ (g_site g ≫= sf_command) = None ∧
    (g_requested g', g_command g', g_site g' ≫= sf_command) = (g_requested g, g_command g, None).
Proof.
  intros Hs%step_react He. destruct e; try done; cbn [react] in Hs; try apply alive_Some in Hs as [_ Hs].
  all: step_cases Hs; try (by left).
  all: by right.
Qed.

(** A reconcile finds no command of the site task, and leaves none. *)
Lemma take_over_commands (g : Gateway W) e g' :
  stepg g e = Some g' → takes_over e = true →
  g_requested g' = g_requested g ∧ g_command g' = g_command g ∧ (g_site g' = g_site g ∨ g_site g' = None).
Proof.
  intros Hs%step_react He. destruct e; try done; cbn [react] in Hs.
  - destruct (g_phase g); [|done..]. destruct (negb _ && _); [|done]. apply alive_Some in Hs as [_ Hs].
    apply reconcile_Some in Hs as [(ts & _ & ->)%respawn_Some|(fresh & _ & _ & _ & ->)]; split_and!; auto.
  - unfold reconcile_next in Hs. destruct (g_reconciling g) as [[fresh []]|]; [..|done].
    + destruct (unlocked g); [|done]. injection Hs as <-. split_and!; auto.
    + destruct (update _ _ _ _) as [[ok subs] w]. injection Hs as <-. split_and!; auto.
    + apply respawn_Some in Hs as (ts & _ & ->). split_and!; auto.
Qed.

Lemma step_stands (g : Gateway W) e g' d k v :
  stepg g e = Some g' → ¬ records d k g e → stands d k v g → stands d k v g'.
Proof.
  intros Hs Hr Hst. destruct (takes_over e) eqn:Ht.
  { destruct (take_over_commands g e g' Hs Ht) as (Hq & Hc & Hsite). destruct Hst as (Hv & Hcmd & Hs').
    unfold stands. rewrite Hq, Hc. split_and!; [done|done|]. destruct Hsite as [->| ->]; [done|done]. }
  assert (match e with Message _ _ _ _ | CommandNext _ | SiteNext _ | Reconcile _ _ | ReconcileNext _ => False | _ => True end →
    stands d k v g') as Hother.
  { intros He. destruct (step_commands g e g' Hs He) as [Heq|[_ [= Hq Hc Hn]]]; [by eapply commands_stands|].
    destruct Hst as (Hv & Hcmd & _). unfold stands. rewrite Hq, Hc. split_and!; [done|done|].
    intros f c Hf Hcf. rewrite Hf in Hn. simpl in Hn. congruence. }
  destruct e; try done; try (by apply Hother); apply step_react in Hs; cbn [react] in Hs.
  - by eapply message_stands.
  - by eapply subscriber_stands.
  - by eapply site_next_stands.
Qed.

(** C12: a request on record stands until a newer one for the same setpoint is
    recorded: whatever the tasks do meanwhile, and however many other commands
    fail, no restore takes it back, provided each command already under way
    for the setpoint either has been written or asked for another value. *)
Theorem request_stands d k v es : ∀ g g' : Gateway W,
  stands d k v g → unrecorded d k g es → rung g es = Some g' →
  requested_of (g_requested g') d k = Some v.
Proof.
  intros g g' Hst Hun Hr. enough (stands d k v g') as Hst' by apply Hst'.
  revert g Hst Hun Hr. induction es as [|e es IH]; intros g Hst Hun Hr; [by injection Hr as <-|].
  change (stepg g e ≫= (λ g, rung g es) = Some g') in Hr. destruct Hun as [Hn Hun].
  destruct (stepg g e) as [g1|] eqn:Hs; [|done]. eapply IH; [|done|exact Hr]. by eapply step_stands.
Qed.

(** Two commands for one setpoint that overlap and both fail do not leave it
    as it was: the first one's restore sees the second's value and leaves it,
    and the second puts back what it replaced, the value the first one was
    refused.  That refused value is now the target the tasks steer to. *)
Theorem overlapping_failures_keep_refused (g : Gateway W) c1 c2 f p1 e1 e2 now :
  g_phase g ≠ Stopped →
  g_command g = Some c1 → cf_stage c1 = Written p1 (Err e1) →
  g_site g = Some f → sf_command f = Some c2 →
  cf_stage c2 = Written (Some (frame_value (cf_frame c1))) (Err e2) →
  cf_device c1 = cf_device c2 → cf_key c1 = cf_key c2 →
  requested_of (g_requested g) (cf_device c2) (cf_key c2) = Some (frame_value (cf_frame c2)) →
  f_eqb (frame_value (cf_frame c2)) (frame_value (cf_frame c1)) = false →
  f_eqb (frame_value (cf_frame c2)) (frame_value (cf_frame c2)) = true →
  ∃ g', rung g [CommandNext now; SiteNext now] = Some g' ∧
    requested_of (g_requested g') (cf_device c2) (cf_key c2) = Some (frame_value (cf_frame c1)).
Proof.
  intros Hp Hc1 Hs1 Hf Hc2 Hs2 Hd Hk Hv Hne Heq.
  cbn [run]. rewrite step_alive by done. cbn [react]. unfold subscriber_next, resume_command, command_next.
  rewrite Hc1. cbn [mbind option_bind]. rewrite Hs1, Hd, Hk.
  set (r1 := restore_request _ _ _ _ p1).
  destruct (answer_event_requested (Config.site_id cfg) c1 Failed (Some (WriteFailed e1)) r1 (g_world g))
    as (a1 & w1 & ->). cbn [mbind option_bind].
  assert (r1 = g_requested g) as ->.
  { unfold r1, restore_request. unfold requested_of in Hv.
    destruct (g_requested g !! cf_device c2) as [device|]; [|done]. simpl in Hv. by rewrite Hv, Hne. }
  rewrite step_alive by done. cbn [react]. unfold site_next, resume_command, command_next.
  cbn [set_command set_requested g_site g_requested g_world g_channels g_trust g_locked g_cache].
  rewrite Hf. cbn [mbind option_bind]. rewrite Hc2, Hs2.
  set (r2 := restore_request _ _ _ _ _).
  destruct (answer_event_requested (Config.site_id cfg) c2 Failed (Some (WriteFailed e2)) r2 w1)
    as (a2 & w2 & ->). cbn [mbind option_bind]. eexists. split; [done|].
  match goal with |- context [site_answered ?g0 f ?ok] => destruct (site_answered_eq g0 f ok) as (m & s & -> & _) end.
  cbn. unfold r2, restore_request. unfold requested_of in Hv |- *.
  destruct (g_requested g !! cf_device c2) as [device|]; [|done]. simpl in Hv. rewrite Hv, Heq.
  by rewrite lookup_insert_eq; simpl; rewrite lookup_insert_eq.
Qed.
End Runs.
