(* ===== verification/Lockouts.v ===== *)
(** * Lockouts: whether the gateway knows what device-api has locked out

    [src/loto/refresher.rs] against the source of truth.  Beside the gateway of
    [Gateway] stand device-api's own set, the beacons on their way
    ([system/loto_changed]: sent by device-api after a change, heard if the
    link is up, queued in the subscriber's stream) and what the re-fetch under
    way has read.  When is the gateway's set device-api's? *)

From Stdlib Require Import ZArith Lia.
From S2P Require Import Prelude F64 Binary64 Text Allocation Cache Payload Bindings Config WriteOrder.
From S2P Require Import Transport.
From S2P Require Import Writes PoiServo ControlLaw Shed Distribute Sunspec Dispatch Commands EnvelopeTask DerDispatch.
From S2P Require Import Synthetic Topology Poller Tasks Gateway.
Local Open Scope Z_scope.
Local Open Scope gateway_scope.

Record Plant (W : Type) := mkPlant {
  p_locked : gset string;             (* device-api's *)
  p_unsent : nat;                     (* beacons device-api has still to send *)
  p_link : bool;                      (* the gateway hears the broker *)
  p_queue : nat;                      (* beacons heard and not handled *)
  p_read : option (gset string);      (* what the re-fetch under way was answered *)
  p_gateway : Gateway W;
}.
Arguments mkPlant {W}. Arguments p_locked {W}. Arguments p_unsent {W}. Arguments p_link {W}.
Arguments p_queue {W}. Arguments p_read {W}. Arguments p_gateway {W}.

Inductive PlantEvent :=
| ApiLocks (locked : gset string)     (* a lockout is set or cleared *)
| ApiBeacon
| LinkDown
| LinkUp
| ApiAnswers                          (* device-api answers the re-fetch under way *)
| Does (e : Event).

Definition loto_topic : string := "system/loto_changed".

Section Plant.
Context {W : Type} `{South W} `{Broker W} `{BrokerSession W}.
Context (pointer : Value → string → option Value) (validator_for : Value → option (Value → bool)).
Context (hash_order : ∀ A : Type, list (string * A) → list (string * A)).
Context (frame_of : f64 → option CommandFrame).
Context (order : list (string * string * f64) → list (string * string * f64)).
Context (cfg : Config).
Context `{Rodbus W} `{SessionCache W} `{SunspecState W}.
Context (connected : W → bool) (fuel : nat).

Local Abbreviation stepg := (step pointer validator_for hash_order frame_of order cfg connected fuel).

(** A step of the gateway: a beacon is taken from the queue, a fetch begins with
    no answer, and ends with the one it has read or with an error. *)
Definition gateway_step (p : Plant W) (e : Event) : option (Plant W) :=
  let go queue read :=
    g ← stepg (p_gateway p) e; Some (mkPlant (p_locked p) (p_unsent p) (p_link p) queue read g) in
  match e with
  | Message topic _ _ _ =>
      if bool_decide (topic = loto_topic) then
        match p_queue p with S n => go n (p_read p) | O => None end
      else go (p_queue p) (p_read p)
  | LotoBegin => go (p_queue p) None
  | LotoRefetch (Ok locked) =>
      if bool_decide (p_read p = Some locked) then go (p_queue p) None else None
  | LotoRefetch (Err _) => go (p_queue p) None
  | _ => go (p_queue p) (p_read p)
  end.

Definition plant_step (p : Plant W) (ev : PlantEvent) : option (Plant W) :=
  match ev with
  | ApiLocks locked => Some (mkPlant locked (S (p_unsent p)) (p_link p) (p_queue p) (p_read p) (p_gateway p))
  | ApiBeacon =>
      match p_unsent p with
      | S n => Some (mkPlant (p_locked p) n (p_link p) (if p_link p then S (p_queue p) else p_queue p) (p_read p)
                       (p_gateway p))
      | O => None
      end
  | LinkDown => Some (mkPlant (p_locked p) (p_unsent p) false (p_queue p) (p_read p) (p_gateway p))
  | LinkUp => Some (mkPlant (p_locked p) (p_unsent p) true (p_queue p) (p_read p) (p_gateway p))
  | ApiAnswers =>
      if g_loto_fetching (p_gateway p) && (if p_read p is Some _ then false else true)
      then Some (mkPlant (p_locked p) (p_unsent p) (p_link p) (p_queue p) (Some (p_locked p)) (p_gateway p)) else None
  | Does e => gateway_step p e
  end.

Fixpoint plant_run (p : Plant W) (evs : list PlantEvent) : option (Plant W) :=
  match evs with
  | [] => Some p
  | ev :: evs => p ← plant_step p ev; plant_run p evs
  end.

(** The gateway of [boot], in a plant where anything was locked meanwhile. *)
Definition boot_plant (g : Gateway W) (locked : gset string) (link : bool) : Plant W :=
  mkPlant locked 0 link 0 None g.

(** ** What a step of the gateway does to its set *)

Definition loto_view (g : Gateway W) := (g_locked g, g_loto_beacon g, g_loto_fetching g).

Definition loto_event (e : Event) : bool :=
  match e with
  | Message topic _ _ _ => bool_decide (topic = loto_topic)
  | LotoBegin | LotoRefetch _ => true
  | _ => false
  end.

Lemma respawn_loto (g : Gateway W) spec channels trust subs now w g' :
  respawn pointer validator_for cfg g spec channels trust subs now w = Some g' → loto_view g' = loto_view g.
Proof. by intros (ts & _ & ->)%respawn_Some. Qed.

Lemma step_loto_view (g : Gateway W) e g' :
  stepg g e = Some g' → loto_event e = false → loto_view g' = loto_view g.
Proof.
  intros Hs%step_react He.
  destruct e; try done; cbn [react] in Hs; try apply alive_Some in Hs as [_ Hs].
  4: { destruct (g_phase g); [|done..]. destruct (negb _ && _); [|done]. apply alive_Some in Hs as [_ Hs].
    apply reconcile_Some in Hs as [Hs|(fresh & _ & _ & _ & ->)]; [by eapply respawn_loto|done]. }
  4: { unfold reconcile_next in Hs. destruct (g_reconciling g) as [[fresh []]|]; [..|done].
    - destruct (unlocked g); [|done]. by injection Hs as <-.
    - destruct (update _ _ _ _) as [[ok subs] w]. by injection Hs as <-.
    - by eapply respawn_loto. }
  all: step_cases Hs; try done.
  all: unfold loto_event, loto_topic in He; congruence.
Qed.

(** ** When the sets agree *)

(** News of a change is on its way. *)
Definition told (p : Plant W) : Prop :=
  (0 < p_unsent p)%nat ∨ (0 < p_queue p)%nat ∨ g_loto_beacon (p_gateway p) = true.

Definition informed (p : Plant W) : Prop :=
  (g_loto_fetching (p_gateway p) = false → p_read p = None) ∧
  (told p ∨
   if g_loto_fetching (p_gateway p) then p_read p = None ∨ p_read p = Some (p_locked p)
   else g_locked (p_gateway p) = p_locked p).

(** A beacon nobody hears, and a re-fetch given up. *)
Definition faultless (p : Plant W) (ev : PlantEvent) : Prop :=
  match ev with
  | ApiBeacon => p_link p = true
  | Does (LotoRefetch answer) => is_ok answer = true
  | _ => True
  end.

Lemma gateway_step_other (p : Plant W) e p' :
  gateway_step p e = Some p' → loto_event e = false →
  ∃ g, stepg (p_gateway p) e = Some g ∧ p' = mkPlant (p_locked p) (p_unsent p) (p_link p) (p_queue p) (p_read p) g ∧
    loto_view g = loto_view (p_gateway p).
Proof.
  intros Hs He. assert (gateway_step p e =
    (g ← stepg (p_gateway p) e; Some (mkPlant (p_locked p) (p_unsent p) (p_link p) (p_queue p) (p_read p) g))) as Heq.
  { unfold gateway_step. destruct e; try done. simpl in He. by rewrite He. }
  rewrite Heq in Hs. destruct (stepg (p_gateway p) e) as [g|] eqn:Hg; simpl in Hs; [|done].
  injection Hs as <-. exists g. split; [done|]. split; [done|]. by eapply step_loto_view.
Qed.

Lemma other_informed (p : Plant W) e p' :
  gateway_step p e = Some p' → loto_event e = false → informed p → informed p'.
Proof.
  intros Hs He (Hread & Ht). destruct (gateway_step_other p e p' Hs He) as (g & _ & -> & [= Hl Hb Hf]).
  unfold informed, told in *. cbn [p_gateway p_locked p_unsent p_queue p_read]. by rewrite Hl, Hb, Hf.
Qed.

Lemma loto_informed (p : Plant W) e p' :
  gateway_step p e = Some p' → loto_event e = true → faultless p (Does e) → informed p → informed p'.
Proof.
  intros Hs He Hf (Hread & Ht). destruct e as [topic doc frame now| | |answer| | | | | | | | | | | | | | | | |];
    try done; simpl in He, Hf, Hs.
  - rewrite He in Hs. apply bool_decide_eq_true in He as ->. destruct (p_queue p) as [|n]; [done|].
    destruct (stepg _ _) as [g|] eqn:Hg; simpl in Hs; [|done]. injection Hs as <-.
    apply step_react in Hg. cbn [react] in Hg. unfold on_message in Hg.
    destruct (g_command (p_gateway p)); [done|]. rewrite bool_decide_false in Hg by done.
    rewrite bool_decide_true in Hg by done. injection Hg as <-. split; [done|]. left. by right; right.
  - destruct (stepg _ _) as [g|] eqn:Hg; simpl in Hs; [|done]. injection Hs as <-.
    apply step_react in Hg. cbn [react] in Hg. destruct (_ && _); [|done]. injection Hg as <-.
    split; [done|]. right. by left.
  - destruct answer as [locked|e]; [|done]. case_bool_decide as Hr; [|done].
    destruct (stepg _ _) as [g|] eqn:Hg; simpl in Hs; [|done]. injection Hs as <-.
    apply step_react in Hg. cbn [react] in Hg. destruct (g_loto_fetching _ && _) eqn:Hl; [|done]. injection Hg as <-.
    apply andb_true_iff in Hl as [Hl _]. split; [done|]. destruct Ht as [Ht|Ht]; [by left|]. right. simpl.
    rewrite Hl, Hr in Ht. destruct Ht as [Ht|[= ->]]; [done|].
    unfold refetch, loto_apply. by case_bool_decide.
Qed.

Lemma plant_step_informed (p : Plant W) ev p' :
  plant_step p ev = Some p' → faultless p ev → informed p → informed p'.
Proof.
  intros Hs Hf Hi. pose proof Hi as (Hread & Ht). destruct ev as [locked| | | | |e]; simpl in Hs, Hf.
  - injection Hs as <-. split; [done|]. left. left. simpl. lia.
  - destruct (p_unsent p) as [|n]; [done|]. injection Hs as <-. split; [done|]. left. right; left.
    simpl. rewrite Hf. lia.
  - by injection Hs as <-.
  - by injection Hs as <-.
  - destruct (g_loto_fetching _) eqn:Hl; [|done]. destruct (p_read p); [done|]. injection Hs as <-.
    unfold informed, told in *. cbn [p_gateway p_locked p_unsent p_queue p_read]. rewrite Hl.
    split; [done|]. destruct Ht; [by left|]. right. by right.
  - destruct (loto_event e) eqn:He; [by eapply loto_informed|by eapply other_informed].
Qed.

(** The run meets no fault. *)
Fixpoint faultless_run (p : Plant W) (evs : list PlantEvent) : Prop :=
  match evs with
  | [] => True
  | ev :: evs => faultless p ev ∧ match plant_step p ev with Some p => faultless_run p evs | None => True end
  end.

(** A run in which the link stays up and re-fetches are answered. *)
Definition calm (ev : PlantEvent) : bool :=
  match ev with LinkDown | Does (LotoRefetch (Err _)) => false | _ => true end.

Lemma gateway_step_link (p : Plant W) e p' : gateway_step p e = Some p' → p_link p' = p_link p.
Proof. unfold gateway_step. intros Hs. split_step; simpl in *; simplify_eq; done. Qed.

Lemma calm_faultless evs : ∀ p : Plant W, p_link p = true → forallb calm evs = true → faultless_run p evs.
Proof.
  induction evs as [|ev evs IH]; intros p Hl Hc; [done|]. simpl in Hc. apply andb_true_iff in Hc as [Hc Hcs].
  split; [by destruct ev as [| | | | |[| | |[]| | | | | | | | | | | | | | | | |]]|].
  destruct (plant_step p ev) as [p1|] eqn:Hs; [|done]. apply IH; [|done].
  destruct ev as [| | | | |e]; simpl in Hs; try done; split_step; try done. by rewrite (gateway_step_link _ _ _ Hs).
Qed.

(** Nothing is on its way. *)
Definition settled (p : Plant W) : Prop := ¬ told p ∧ g_loto_fetching (p_gateway p) = false.

Lemma plant_run_informed evs : ∀ p p' : Plant W,
  plant_run p evs = Some p' → faultless_run p evs → informed p → informed p'.
Proof.
  induction evs as [|ev evs IH]; intros p p' Hr Hf Hi; [by injection Hr as <-|].
  simpl in Hr, Hf. destruct Hf as [Hf Hfs]. destruct (plant_step p ev) as [p1|] eqn:Hs; simpl in Hr; [|done].
  eapply IH; [exact Hr|done|]. by eapply plant_step_informed.
Qed.

(** C7: from boot on, however lockouts change while the gateway starts and
    runs, and however beacons, re-fetches, commands and ticks interleave: as
    long as no beacon goes unheard and no re-fetch is given up, the gateway's
    set is device-api's whenever no beacon or re-fetch is outstanding. *)
Theorem settled_gateway_knows_the_lockouts spec locked now w g api link evs p :
  boot pointer validator_for cfg spec locked now w = Some g →
  plant_run (boot_plant g api link) evs = Some p → faultless_run (boot_plant g api link) evs →
  settled p → g_locked (p_gateway p) = p_locked p.
Proof.
  intros Hb Hr Hf [Hn Hl]. assert (informed (boot_plant g api link)) as Hi.
  { unfold boot in Hb. destruct (is_ok _); [|done]. destruct (spawn_task_set _ _ _ _) as [ts|]; simpl in Hb; [|done].
    apply respawn_Some in Hb as (ts' & _ & ->). split; [done|]. left. by right; right. }
  destruct (plant_run_informed evs _ _ Hr Hf Hi) as [_ [Ht|Ht]]; [done|]. by rewrite Hl in Ht.
Qed.

(** ** While nothing is outstanding *)

(** The events that are not device-api's change or its beacon. *)
Definition no_news (ev : PlantEvent) : bool := match ev with ApiLocks _ | ApiBeacon => false | _ => true end.

Lemma settled_stays (p : Plant W) ev p' :
  plant_step p ev = Some p' → no_news ev = true → settled p →
  settled p' ∧ p_locked p' = p_locked p ∧ g_locked (p_gateway p') = g_locked (p_gateway p).
Proof.
  intros Hs Hn [Ht Hl]. unfold settled, told in *. destruct ev as [locked| | | | |e]; simpl in Hs; try done.
  - by injection Hs as <-.
  - by injection Hs as <-.
  - by rewrite Hl in Hs.
  - destruct (loto_event e) eqn:He.
    + exfalso. destruct e as [topic doc frame now| | |answer| | | | | | | | | | | | | | | | |];
        try done; simpl in He, Hs.
      * rewrite He in Hs. destruct (p_queue p); [done|]. apply Ht. right; left. lia.
      * destruct (stepg _ _) as [g|] eqn:Hg; simpl in Hs; [|done].
        apply step_react in Hg. cbn [react] in Hg. destruct (g_loto_beacon _) eqn:Hb; [|done]. apply Ht. by right; right.
      * assert (stepg (p_gateway p) (LotoRefetch answer) = None) as Hg.
        { unfold step. cbn [react]. rewrite Hl. by destruct (g_phase _). }
        rewrite Hg in Hs. destruct answer; [|done]. by case_bool_decide.
    + destruct (gateway_step_other p e p' Hs He) as (g & _ & -> & [= Hlk Hb Hf]). simpl. by rewrite Hlk, Hb, Hf.
Qed.

Lemma settled_run evs : ∀ p p' : Plant W,
  plant_run p evs = Some p' → forallb no_news evs = true → settled p →
  p_locked p' = p_locked p ∧ g_locked (p_gateway p') = g_locked (p_gateway p).
Proof.
  induction evs as [|ev evs IH]; intros p p' Hr Hn Hst; [by injection Hr as <-|].
  simpl in Hr, Hn. apply andb_true_iff in Hn as [Hn Hns].
  destruct (plant_step p ev) as [p1|] eqn:Hs; simpl in Hr; [|done].
  destruct (settled_stays p ev p1 Hs Hn Hst) as (Hst1 & <- & <-). by eapply IH.
Qed.

Lemma plant_run_cons (p : Plant W) ev evs p1 :
  plant_step p ev = Some p1 → plant_run p (ev :: evs) = plant_run p1 evs.
Proof. cbn [plant_run]. by intros ->. Qed.

(** A beacon handled, and a re-fetch of which no answer comes. *)
Lemma hears_loto (p : Plant W) doc frame now n :
  g_phase (p_gateway p) ≠ Stopped → g_command (p_gateway p) = None → p_queue p = S n →
  plant_step p (Does (Message loto_topic doc frame now)) =
  Some (mkPlant (p_locked p) (p_unsent p) (p_link p) n (p_read p)
    (set_signals (p_gateway p) (g_beacon (p_gateway p)) true (g_loto_fetching (p_gateway p)) (g_running (p_gateway p)))).
Proof.
  intros Hph Hc Hq. cbn [plant_step]. unfold gateway_step. rewrite bool_decide_true, Hq by done.
  rewrite step_alive by done. cbn [react]. unfold on_message. rewrite Hc, bool_decide_false by done.
  by rewrite bool_decide_true by done.
Qed.

Lemma loto_begins (p : Plant W) :
  g_phase (p_gateway p) ≠ Stopped → g_loto_beacon (p_gateway p) = true → g_loto_fetching (p_gateway p) = false →
  plant_step p (Does LotoBegin) =
  Some (mkPlant (p_locked p) (p_unsent p) (p_link p) (p_queue p) None
    (set_signals (p_gateway p) (g_beacon (p_gateway p)) false true (g_running (p_gateway p)))).
Proof.
  intros Hph Hb Hf. cbn [plant_step]. unfold gateway_step. rewrite step_alive by done. cbn [react]. by rewrite Hb, Hf.
Qed.

Lemma loto_gives_up (p : Plant W) e :
  g_phase (p_gateway p) ≠ Stopped → g_loto_fetching (p_gateway p) = true →
  plant_step p (Does (LotoRefetch (Err e))) =
  Some (mkPlant (p_locked p) (p_unsent p) (p_link p) (p_queue p) None (set_locked (p_gateway p) (g_locked (p_gateway p)))).
Proof.
  intros Hph Hf. cbn [plant_step]. unfold gateway_step. rewrite step_alive by done. cbn [react is_ok negb].
  by rewrite Hf, orb_true_r.
Qed.

Lemma loto_lands (p : Plant W) locked :
  g_phase (p_gateway p) ≠ Stopped → g_loto_fetching (p_gateway p) = true → unlocked (p_gateway p) = true →
  p_read p = Some locked →
  ∃ g, plant_step p (Does (LotoRefetch (Ok locked))) =
      Some (mkPlant (p_locked p) (p_unsent p) (p_link p) (p_queue p) None g) ∧ g = set_locked (p_gateway p) locked.
Proof.
  intros Hph Hf Hu Hr. eexists. split; [|reflexivity]. cbn [plant_step]. unfold gateway_step.
  rewrite bool_decide_true by done. rewrite step_alive by done. cbn [react is_ok negb]. rewrite Hf, Hu.
  cbn [andb orb mbind option_bind]. do 3 f_equal. unfold refetch, loto_apply. by case_bool_decide.
Qed.

(** ** Catching up *)

(** Nothing keeps the subscriber and the refresher from their work. *)
Definition ready (p : Plant W) : Prop :=
  g_phase (p_gateway p) ≠ Stopped ∧ g_command (p_gateway p) = None ∧ unlocked (p_gateway p) = true ∧ p_unsent p = 0%nat.

(** The steps of it: a beacon is handled, a re-fetch begins, is answered, lands. *)
Definition catches (ev : PlantEvent) : bool :=
  match ev with
  | ApiAnswers | Does LotoBegin | Does (LotoRefetch (Ok _)) => true
  | Does (Message topic _ _ _) => bool_decide (topic = loto_topic)
  | _ => false
  end.

(** What may go on beside them: samples and topology beacons, the link, and the
    ticks of the tasks, the site task's apart, whose commands hold the locks. *)
Definition aside (ev : PlantEvent) : bool :=
  match ev with
  | LinkDown | LinkUp => true
  | Does e =>
      match e with
      | Message topic _ _ _ => negb (bool_decide (topic = loto_topic)) && negb (str_contains "/commands/" topic)
      | EnvelopeBegin _ _ | EnvelopeWrite _ | EnvelopeLand _ _ | ShedBegin _ _ | ShedWrite _ _ | ShedEnd _
      | CounterBegin _ | CounterWrite _ | BeatBegin _ | BeatWrite _ => true
      | _ => false
      end
  | _ => false
  end.

(** The steps of it still to be taken, at most: a queued beacon may cost a
    re-fetch of its own. *)
Definition to_catch_up (p : Plant W) : nat :=
  4 * p_queue p + (if g_loto_beacon (p_gateway p) then 3 else 0) +
  if g_loto_fetching (p_gateway p) then (if p_read p is Some _ then 1 else 2) else 0.

(** What the locks of the maps depend on. *)
Definition lock_state (g : Gateway W) := (g_phase g, g_command g, g_site g).

Lemma ready_lock_state (p p' : Plant W) :
  lock_state (p_gateway p') = lock_state (p_gateway p) → p_unsent p' = p_unsent p → ready p → ready p'.
Proof. intros [= Hph Hc Hs] Hn. unfold ready, unlocked. by rewrite Hph, Hc, Hs, Hn. Qed.

Lemma step_lock_state (g g' : Gateway W) e :
  stepg g e = Some g' → catches (Does e) || aside (Does e) = true → lock_state g' = lock_state g.
Proof.
  intros Hs%step_react He. destruct e as [topic doc frame now| | |answer| | | | | | | | | | | | | | | | |];
    try done; cbn [react] in Hs; try apply alive_Some in Hs as [_ Hs]; try (step_cases Hs; done).
  unfold on_message in Hs. destruct (g_command g); [done|].
  case_bool_decide; [by injection Hs as <-|]. case_bool_decide as Hl; [by injection Hs as <-|].
  simpl in He. rewrite (bool_decide_false (topic = loto_topic)) in He by done. simpl in He.
  apply negb_true_iff in He. rewrite He in Hs. by injection Hs as <-.
Qed.

(** A step of the catching up leaves fewer of them. *)
Lemma catches_step (p p' : Plant W) ev :
  catches ev = true → plant_step p ev = Some p' →
  (to_catch_up p' < to_catch_up p)%nat ∧ p_locked p' = p_locked p ∧ p_unsent p' = p_unsent p ∧
  lock_state (p_gateway p') = lock_state (p_gateway p).
Proof.
  intros Hc Hs. destruct ev as [| | | | |e]; try done; cbn [plant_step] in Hs.
  - destruct (g_loto_fetching _) eqn:Hf; [|done]. destruct (p_read p) eqn:Hr; [done|]. injection Hs as <-.
    split; [|done]. unfold to_catch_up. simpl. rewrite Hf, Hr. lia.
  - assert (∀ g, stepg (p_gateway p) e = Some g → lock_state g = lock_state (p_gateway p)) as Hlk
      by (intros g Hg; eapply step_lock_state; [exact Hg|by rewrite Hc]).
    destruct e as [topic doc frame now| | |[locked|e]| | | | | | | | | | | | | | | | |]; try done;
      unfold gateway_step in Hs; simpl in Hc.
    + rewrite Hc in Hs. apply bool_decide_eq_true in Hc as ->. destruct (p_queue p) as [|n] eqn:Hq; [done|].
      destruct (stepg _ _) as [g|] eqn:Hg; simpl in Hs; [|done]. injection Hs as <-. specialize (Hlk g eq_refl).
      apply step_react in Hg. cbn [react] in Hg. unfold on_message in Hg. destruct (g_command (p_gateway p)); [done|].
      rewrite bool_decide_false, bool_decide_true in Hg by done. injection Hg as <-. split; [|done].
      unfold to_catch_up. simpl. rewrite Hq. destruct (g_loto_beacon _); lia.
    + destruct (stepg _ _) as [g|] eqn:Hg; simpl in Hs; [|done]. injection Hs as <-. specialize (Hlk g eq_refl).
      apply step_react in Hg. cbn [react] in Hg.
      destruct (g_loto_beacon _) eqn:Hb, (g_loto_fetching _) eqn:Hf; try done. injection Hg as <-. split; [|done].
      unfold to_catch_up. simpl. rewrite Hb, Hf. lia.
    + case_bool_decide as Hr; [|done]. destruct (stepg _ _) as [g|] eqn:Hg; simpl in Hs; [|done].
      injection Hs as <-. specialize (Hlk g eq_refl). apply step_react in Hg. cbn [react] in Hg.
      destruct (g_loto_fetching _) eqn:Hf; [|done]. simpl in Hg. destruct (_ || _); [|done]. injection Hg as <-.
      split; [|done]. unfold to_catch_up. simpl. rewrite Hf, Hr. lia.
Qed.

Lemma aside_step (p p' : Plant W) ev :
  aside ev = true → plant_step p ev = Some p' →
  to_catch_up p' = to_catch_up p ∧ p_locked p' = p_locked p ∧ p_unsent p' = p_unsent p ∧
  lock_state (p_gateway p') = lock_state (p_gateway p).
Proof.
  intros Ha Hs. destruct ev as [| | | | |e]; try done; cbn [plant_step] in Hs; try (by injection Hs as <-).
  assert (loto_event e = false) as He.
  { destruct e; try done. simpl in Ha |- *. by destruct (bool_decide _). }
  destruct (gateway_step_other p e p' Hs He) as (g & Hg & -> & [= Hl Hb Hf]).
  split; [unfold to_catch_up; simpl; by rewrite Hb, Hf|]. split; [done|]. split; [done|].
  eapply step_lock_state; [exact Hg|]. rewrite Ha. by destruct (catches _).
Qed.

Lemma catching_faultless (p : Plant W) ev : catches ev || aside ev = true → faultless p ev.
Proof. by destruct ev as [| | | | |[| | |[]| | | | | | | | | | | | | | | | |]]. Qed.

(** While there is something to catch up with, one of its steps can be taken. *)
Lemma catching_up_goes_on (p : Plant W) :
  ready p → (0 < to_catch_up p)%nat → ∃ ev, catches ev = true ∧ is_Some (plant_step p ev).
Proof.
  intros (Hph & Hc & Hu & Hn) Hpos. unfold to_catch_up in Hpos. destruct (g_loto_fetching (p_gateway p)) eqn:Hf.
  - destruct (p_read p) as [locked|] eqn:Hr.
    + exists (Does (LotoRefetch (Ok locked))). split; [done|].
      destruct (loto_lands p locked Hph Hf Hu Hr) as (g & -> & _). by eexists.
    + exists ApiAnswers. split; [done|]. cbn [plant_step]. rewrite Hf, Hr. by eexists.
  - destruct (g_loto_beacon (p_gateway p)) eqn:Hb.
    + exists (Does LotoBegin). split; [done|]. rewrite loto_begins by done. by eexists.
    + destruct (p_queue p) as [|n] eqn:Hq; [lia|].
      exists (Does (Message loto_topic None None 0)). split; [done|]. erewrite hears_loto by done. by eexists.
Qed.

(** C30: take a gateway that has missed no beacon and given up no
    re-fetch since it last knew device-api's lockouts ([informed]), with no command
    holding the locks and no beacon still to be sent. In any run in which it handles
    its queued beacons and its re-fetches are answered, in any order and with
    samples, ticks and link losses in between, at most four steps per queued beacon,
    three for a beacon noticed and two for a re-fetch under way are taken; as long
    as one is left it can be taken; and when none is, nothing is outstanding and the
    gateway's set is device-api's. *)
Theorem lockouts_catch_up evs : ∀ p p' : Plant W,
  informed p → ready p → Forall (λ ev, catches ev || aside ev = true) evs → plant_run p evs = Some p' →
  (length (List.filter catches evs) + to_catch_up p' <= to_catch_up p)%nat ∧ p_locked p' = p_locked p ∧
  if decide (to_catch_up p' = 0%nat) then settled p' ∧ g_locked (p_gateway p') = p_locked p
  else ∃ ev, catches ev = true ∧ is_Some (plant_step p' ev).
Proof.
  induction evs as [|ev evs IH]; intros p p' Hi Hrd Hevs Hr.
  - injection Hr as <-. split; [simpl; lia|]. split; [done|]. destruct (decide _) as [Hz|Hz].
    + destruct Hrd as (_ & _ & _ & Hn). unfold to_catch_up in Hz.
      assert (settled p) as Hst.
      { unfold settled, told. destruct (g_loto_beacon _), (g_loto_fetching _), (p_read p); try lia; split; try done;
          rewrite Hn; intros [?|[?|?]]; try done; lia. }
      split; [done|]. destruct Hst as [Ht Hf]. destruct Hi as [_ [?|Hk]]; [done|]. by rewrite Hf in Hk.
    + apply catching_up_goes_on; [done|lia].
  - apply Forall_cons in Hevs as [Hev Hevs]. cbn [plant_run] in Hr.
    destruct (plant_step p ev) as [p1|] eqn:Hs; simpl in Hr; [|done].
    assert (((if catches ev then 1 else 0) + to_catch_up p1 <= to_catch_up p)%nat ∧ p_locked p1 = p_locked p ∧
      p_unsent p1 = p_unsent p ∧ lock_state (p_gateway p1) = lock_state (p_gateway p)) as (Hlt & Hl & Hn & Hlk).
    { destruct (catches ev) eqn:Hc; [destruct (catches_step p p1 ev Hc Hs) as (? & ? & ? & ?); split_and!; [lia|done..]|].
      destruct (aside_step p p1 ev Hev Hs) as (-> & ? & ? & ?). by split_and!. }
    destruct (IH p1 p') as (Hlen & Hl' & Hend); [|by eapply ready_lock_state|done|done|].
    + eapply plant_step_informed; [exact Hs|by apply catching_faultless|done].
    + cbn [List.filter]. split; [destruct (catches ev); cbn [length] in *; lia|]. rewrite <- Hl. split; [done|].
      exact Hend.
Qed.

(** ** A fault *)

(** A lockout device-api sets while the gateway's link is down, or whose
    re-fetch is given up, stays unknown to the gateway: nothing it does by
    itself, the reconnect and every later tick and command included, looks
    again, and it goes on with the set it had until device-api next beacons. *)
Theorem missed_lockout_stays_missed (p : Plant W) (locked : gset string) doc frame now e :
  settled p → p_queue p = 0%nat → p_unsent p = 0%nat → g_phase (p_gateway p) ≠ Stopped →
  g_command (p_gateway p) = None → p_link p = true →
  ∀ fault, fault = [LinkDown; ApiLocks locked; ApiBeacon; LinkUp] ∨
    fault = [ApiLocks locked; ApiBeacon; Does (Message loto_topic doc frame now); Does LotoBegin;
             Does (LotoRefetch (Err e))] →
  ∃ p1, plant_run p fault = Some p1 ∧ p_link p1 = true ∧
    ∀ evs p', plant_run p1 evs = Some p' → forallb no_news evs = true →
      p_locked p' = locked ∧ g_locked (p_gateway p') = g_locked (p_gateway p).
Proof.
  intros [Hnt Hl] Hq Hu Hph Hc Hlink fault Hfault.
  assert (g_loto_beacon (p_gateway p) = false) as Hb
    by (apply not_true_iff_false; intros Hb; apply Hnt; by right; right).
  assert (∃ p1, plant_run p fault = Some p1 ∧ p_link p1 = true ∧ settled p1 ∧ p_locked p1 = locked ∧
    g_locked (p_gateway p1) = g_locked (p_gateway p)) as (p1 & Hr & Hlk & Hst & <- & <-).
  2: { exists p1. split; [done|]. split; [done|]. intros evs p' Hevs Hnn. by eapply settled_run. }
  destruct Hfault as [->| ->].
  - eexists. split; [cbn [plant_run plant_step mbind option_bind p_unsent p_link]; reflexivity|].
    split; [done|]. split; [|done]. split; [|done]. unfold told. simpl. rewrite Hq, Hu, Hb. lia.
  - do 2 erewrite plant_run_cons by reflexivity. cbn [p_link p_queue p_unsent]. rewrite Hlink.
    erewrite plant_run_cons by (by apply hears_loto). erewrite plant_run_cons by (by apply loto_begins).
    erewrite plant_run_cons by (by apply loto_gives_up).
    eexists. split; [reflexivity|]. split; [done|]. split; [|done]. split; [|done].
    unfold told. simpl. rewrite Hq, Hu. lia.
Qed.
End Plant.
