(* ===== verification/Startup.v ===== *)
(** * Startup: from [main] to the loop of [app::run]

    [src/main.rs] and the part of [src/app.rs] before its loop: the
    configuration, the broker's password, the connection, the spec, the
    lockouts, the subscriptions and the first task set, each of which may fail
    and end the gateway.  The fetches are [DeviceApi]'s, the configuration is
    [Config]'s, and what a started gateway does is [Gateway]'s. *)

From Stdlib Require Import ZArith Lia.
From S2P Require Import Prelude F64 Binary64 Text Allocation Cache Payload Bindings Config WriteOrder.
From S2P Require Import Transport.
From S2P Require Import Writes PoiServo ControlLaw Shed Distribute Sunspec Dispatch Commands EnvelopeTask DerDispatch.
From S2P Require Import Synthetic Topology Decode Poller DeviceApi Tasks Gateway.
Local Open Scope Z_scope.
Local Open Scope gateway_scope.

(** The [match] of [main] on [cfg.log_level]. *)
Inductive Level := ERROR | WARN | INFO | DEBUG.

Definition max_level (log_level : string) : Level :=
  if bool_decide (log_level = "error"%string) then ERROR
  else if bool_decide (log_level = "warn"%string) then WARN
  else if bool_decide (log_level = "debug"%string) then DEBUG
  else INFO.

(** paho's [CreateOptions] and [ConnectOptions]; durations in ns. *)
Record CreateOptions := mkCreateOptions {
  server_uri : string;
  client_id : string;
  max_buffered_messages : Z;
}.

Record ConnectOptions := mkConnectOptions {
  keep_alive_interval : Z;
  clean_session : bool;
  automatic_reconnect : option (Z * Z);
  user_name : string;
  password : string;
}.

Definition RECONNECT_MIN : Z := seconds 1.
Definition RECONNECT_MAX : Z := seconds 30.
Definition MAX_BUFFERED_PUBLISHES : Z := 10000.

(** paho's [AsyncClient::new] and [AsyncClient::connect]. *)
Class MqttLink (W : Type) := {
  create_client : CreateOptions → W → bool * W;
  client_connect : ConnectOptions → W → option ConnectError * W;
}.

Inductive startup_error :=
| NoConfig (e : config_error)
| NoPassword (e : config_error)
| NoClient
| NotAuthorized (e : ConnectError)
| NotConnected (e : ConnectError)
| NoSpec (e : api_error)
| NotAligned (device_id : string)
| NoLockouts (e : api_error)
| NotSubscribed.

(** How [app::run] gets to its loop, or does not: it serves; it returns an error;
    or building the task set of the spec it fetched panics, which ends the
    process. *)
Inductive Started (W : Type) :=
| Serves (g : Gateway W)
| Refused (e : startup_error)
| Panics (spec : AsyncApiSpec).
Arguments Serves {W}. Arguments Refused {W}. Arguments Panics {W}.

Section Startup.
Context {W client : Type} `{South W} `{Broker W} `{BrokerSession W} `{DeviceApi W client} `{MqttLink W}.
Context `{Rodbus W} `{SessionCache W} `{SunspecState W}.
Context (pointer : Value → string → option Value) (validator_for : Value → option (Value → bool)).
(** The process environment, files and cloud calls; the documents' decoders;
    [Instant::now]. *)
Context (env : string → option string)
  (read_to_string : string → option string) (path_exists : string → bool) (yaml_from_str : string → option Yaml)
  (describe_stacks : string → result string (list (list (option string * option string))))
  (get_secret_value : string → result string (option string)).
Context (from_str : string → option Value).
Context (instant : W → Z).

(** [publisher::connect]. *)
Definition connect (broker_url client_id username password : string) (w : W) : result startup_error unit * W :=
  let create_opts := mkCreateOptions broker_url client_id MAX_BUFFERED_PUBLISHES in
  let '(created, w) := create_client create_opts w in
  if negb created then (Err NoClient, w)
  else
    let conn_opts := mkConnectOptions (seconds 20) true (Some (RECONNECT_MIN, RECONNECT_MAX))
                       username password in
    let '(refused, w) := client_connect conn_opts w in
    (match refused with
     | None => Ok ()
     | Some e => Err (if classify_connect_error e then NotAuthorized e else NotConnected e)
     end, w).

(** [app::run] to its loop.  [None]: a fetch is still at it after [fuel]
    attempts. *)
Definition start (fuel : nat) (cfg : Config) (w : W) : option (Started W * W) :=
  match mqtt_password env describe_stacks get_secret_value with
  | Err e => Some (Refused (NoPassword e), w)
  | Ok password =>
      match connect (broker_url cfg) "ems-industrial-gateway" (mqtt_username cfg) password w with
      | (Err e, w) => Some (Refused e, w)
      | (Ok _, w) =>
          '(spec, w) ← fetch_asyncapi from_str fuel (device_api_url cfg) w;
          match spec with
          | Err e => Some (Refused (NoSpec e), w)
          | Ok spec =>
              match validate_trust_creds_alignment spec (Config.gateway_credentials cfg) with
              | Err device_id => Some (Refused (NotAligned device_id), w)
              | Ok _ =>
                  '(locked, w) ← fetch_loto from_str fuel (device_api_url cfg) w;
                  match locked with
                  | Err e => Some (Refused (NoLockouts e), w)
                  | Ok locked =>
                      let '(topics, qos) :=
                        subscription_list (Config.site_id cfg) (input_topics spec (Config.site_id cfg)) in
                      let '(subscribed, w) := subscribe_many topics qos w in
                      if negb subscribed then Some (Refused NotSubscribed, w)
                      else
                        Some (match boot pointer validator_for cfg spec locked (instant w) w with
                              | Some g => Serves g
                              | None => Panics spec
                              end, w)
                  end
              end
          end
      end
  end.

(** [main]. *)
Definition main (fuel : nat) (w : W) : option (Started W * W) :=
  match boot_config read_to_string path_exists yaml_from_str env describe_stacks with
  | Err e => Some (Refused (NoConfig e), w)
  | Ok cfg => start fuel cfg w
  end.

(** ** The end of the process *)

(** A signal's future: its handler could not be installed, or the signal
    arrives, or never does. *)
Inductive Handler := NotInstalled | Installed (arrives : option Z).

(** The async blocks [ctrl_c] and [terminate], polled from [now]: both are over
    at once when the handler is not installed. *)
Definition awaited (h : Handler) (now : Z) : option Z :=
  match h with NotInstalled => Some now | Installed arrives => Z.max now <$> arrives end.

(** The [select!] of the two; [None]: it waits for ever. *)
Definition wait_for_shutdown_signal (ctrl_c terminate : Handler) (now : Z) : option Z :=
  match awaited ctrl_c now, awaited terminate now with
  | Some a, Some b => Some (a `min` b)
  | Some a, None | None, Some a => Some a
  | None, None => None
  end.

(** The wait ends with the first signal to arrive, whichever it is. *)
Lemma first_signal_ends_the_wait int term now at_ :
  wait_for_shutdown_signal (Installed int) (Installed term) now = Some at_ ↔
  now <= at_ ∧ (∀ t, int = Some t ∨ term = Some t → at_ <= now `max` t) ∧
  ∃ t, (int = Some t ∨ term = Some t) ∧ at_ = now `max` t.
Proof.
  unfold wait_for_shutdown_signal, awaited. destruct int as [a|], term as [b|]; cbn [fmap option_fmap option_map].
  - split.
    + intros [= <-]. split_and!; [lia|intros t [[= ->]|[= ->]]; lia|].
      destruct (Z.le_ge_cases (now `max` a) (now `max` b)); [exists a|exists b]; split; auto; lia.
    + intros (_ & Hle & t & [[= <-]|[= <-]] & ->); f_equal; specialize (Hle a) as Ha; specialize (Hle b) as Hb;
        intuition lia.
  - split; [intros [= <-]|intros (_ & _ & t & [[= ->]|?] & ->); done].
    split_and!; [lia|intros t [[= ->]|?]; [lia|done]|exists a; auto].
  - split; [intros [= <-]|intros (_ & _ & t & [?|[= ->]] & ->); done].
    split_and!; [lia|intros t [?|[= ->]]; [done|lia]|exists b; auto].
  - split; [done|]. by intros (_ & _ & t & [?|?] & _).
Qed.

(** A handler the system refuses ends the wait at once, as if its signal had
    come. *)
Lemma refused_handler_ends_the_wait h now :
  (∀ t, h = Installed (Some t) → now <= t) →
  wait_for_shutdown_signal h NotInstalled now = Some now ∧ wait_for_shutdown_signal NotInstalled h now = Some now.
Proof.
  intros Ht. unfold wait_for_shutdown_signal, awaited.
  destruct h as [|[t|]]; cbn [fmap option_fmap option_map]; split; f_equal; try lia; specialize (Ht t eq_refl); lia.
Qed.

(** ** What a fetch and a connect leave alone *)

Section Quiet.
Context {A : Type} (view : W → A).
Hypothesis create_quiet : ∀ opts w, view (create_client opts w).2 = view w.
Hypothesis connect_quiet : ∀ opts w, view (client_connect opts w).2 = view w.
Hypothesis build_quiet : ∀ w : W, view (build_client w).2 = view w.
Hypothesis get_quiet : ∀ c url w, view (api_get c url w).2 = view w.
Hypothesis reset_quiet : ∀ w, view (backoff_reset w) = view w.
Hypothesis backoff_quiet : ∀ w, view (next_backoff w).2 = view w.
Hypothesis sleep_quiet : ∀ ms w, view (api_sleep ms w) = view w.

Lemma connect_view url id user pw w : view (connect url id user pw w).2 = view w.
Proof.
  unfold connect. cbv zeta. match goal with |- context [create_client ?o w] =>
    pose proof (create_quiet o w) as Hc; destruct (create_client o w) as [[] w1] end; [|done]. simpl.
  match goal with |- context [client_connect ?o w1] =>
    pose proof (connect_quiet o w1) as Hq; destruct (client_connect o w1) end. simpl in *. congruence.
Qed.

Lemma attempt_view (c : client) url w : view (attempt c url w).2 = view w.
Proof. unfold attempt. pose proof (get_quiet c url w). by destruct (api_get c url w). Qed.

Lemma retry_view n (c : client) url w r w' : retry_attempts n c url w = Some (r, w') → view w' = view w.
Proof.
  revert w. induction n as [|n IH]; intros w; [done|]. cbn [retry_attempts].
  pose proof (attempt_view c url w) as Ha. destruct (attempt c url w) as [[body|[e|e]] w1]; simpl in Ha.
  - by intros [= <- <-].
  - pose proof (backoff_quiet w1) as Hb. destruct (next_backoff w1) as [[ms|] w2]; simpl in Hb.
    + intros Hr%IH. rewrite Hr, sleep_quiet. congruence.
    + intros [= <- <-]. congruence.
  - by intros [= <- <-].
Qed.

Lemma get_view n url w r w' : get_with_backoff n url w = Some (r, w') → view w' = view w.
Proof.
  unfold get_with_backoff. pose proof (build_quiet w) as Hb. destruct (build_client w) as [[c|e] w0]; simpl in Hb.
  - intros Hr%retry_view. by rewrite Hr, reset_quiet.
  - by intros [= <- <-].
Qed.

Lemma fetch_asyncapi_view n url w r w' : fetch_asyncapi from_str n url w = Some (r, w') → view w' = view w.
Proof.
  unfold fetch_asyncapi. destruct (get_with_backoff _ _ _) as [[body w1]|] eqn:Hg; simpl; [|done].
  intros [= _ <-]. by eapply get_view.
Qed.

Lemma fetch_loto_view n url w r w' : fetch_loto from_str n url w = Some (r, w') → view w' = view w.
Proof.
  unfold fetch_loto. destruct (get_with_backoff _ _ _) as [[body w1]|] eqn:Hg; simpl; [|done].
  intros [= _ <-]. by eapply get_view.
Qed.

(** The world a subscription was granted in: the spec and then the lockouts had
    been fetched, and nothing had been asked of the broker before. *)
Definition subscribed_for (fuel : nat) (cfg : Config) (w : W) (spec : AsyncApiSpec) (locked : gset string)
    (w' : W) : Prop :=
  ∃ w1 w2 w3 topics qos,
    fetch_asyncapi from_str fuel (device_api_url cfg) w1 = Some (Ok spec, w2) ∧
    fetch_loto from_str fuel (device_api_url cfg) w2 = Some (Ok locked, w3) ∧ view w3 = view w ∧
    (topics, qos) = subscription_list (Config.site_id cfg) (input_topics spec (Config.site_id cfg)) ∧
    subscribe_many topics qos w3 = (true, w') ∧
    spec_typed spec ∧ validate_trust_creds_alignment spec (Config.gateway_credentials cfg) = Ok ().

(** C14: a start that ends in an error has not
    subscribed to anything, commands included, unless the subscription itself was
    the step refused. A start that serves, and one whose task set panics while it is
    built, has subscribed, and only after device-api answered with the spec and then
    with the lockouts; each entry of the spec is within its type's range and can
    run, and its trust is covered by the credentials. A gateway that serves does so
    with exactly that spec and those lockouts, with no command under way, and with
    one more fetch of the lockouts due. *)
Theorem nothing_heard_before_lockouts fuel cfg w r w' :
  start fuel cfg w = Some (r, w') →
  match r with
  | Refused e => e = NotSubscribed ∨ view w' = view w
  | Panics spec => spawn_task_set pointer validator_for spec cfg = None ∧
      ∃ locked, subscribed_for fuel cfg w spec locked w'
  | Serves g => subscribed_for fuel cfg w (g_spec g) (g_locked g) w' ∧
      boot pointer validator_for cfg (g_spec g) (g_locked g) (instant w') w' = Some g ∧
      g_loto_beacon g = true ∧ g_command g = None ∧ g_phase g = Serving
  end.
Proof.
  unfold start. destruct (mqtt_password _ _ _) as [password|e]; [|intros [= <- <-]; by right].
  pose proof (connect_view (broker_url cfg) "ems-industrial-gateway" (mqtt_username cfg) password w) as Hc.
  destruct (connect _ _ _ _ _) as [[[]|e] w1]; simpl in Hc; [|intros [= <- <-]; by right].
  destruct (fetch_asyncapi _ _ _ _) as [[spec w2]|] eqn:Hspec; cbn [mbind option_bind]; [|done].
  pose proof (fetch_asyncapi_view _ _ _ _ _ Hspec) as Hv2.
  destruct spec as [spec|e]; [|intros [= <- <-]; right; congruence].
  destruct (validate_trust_creds_alignment _ _) as [[]|e] eqn:Ha; [|intros [= <- <-]; right; congruence].
  destruct (fetch_loto _ _ _ _) as [[locked w3]|] eqn:Hloto; cbn [mbind option_bind]; [|done].
  pose proof (fetch_loto_view _ _ _ _ _ Hloto) as Hv3.
  destruct locked as [locked|e]; [|intros [= <- <-]; right; congruence].
  destruct (subscription_list _ _) as [topics qos] eqn:Hl.
  destruct (subscribe_many topics qos w3) as [granted w4] eqn:Hsub.
  destruct granted; [|intros [= <- <-]; by left]. cbn [negb].
  assert (subscribed_for fuel cfg w spec locked w4) as Hs.
  { exists w1, w2, w3, topics, qos. split_and!; try done; [congruence|by eapply fetched_spec_typed]. }
  destruct (boot _ _ _ _ _ _ _) as [g|] eqn:Hb; intros [= <- <-];
    pose proof Hb as Hb'; unfold boot in Hb; rewrite Ha in Hb; cbn [is_ok] in Hb;
    destruct (spawn_task_set _ _ _ _) as [ts|] eqn:Hts; simpl in Hb; try done.
  - apply respawn_Some in Hb as (ts' & _ & ->). by split_and!.
  - unfold respawn in Hb. by rewrite Hts in Hb.
  - split; [done|]. by exists locked.
Qed.
End Quiet.

(** ** Time *)

Section Time.
(** The clock in ms, as in [DeviceApi]; connecting takes at most [C]. *)
Context (clock started : W → Z) (T slack C : Z).
Hypothesis get_time : ∀ (c : client) url w, clock w <= clock (api_get c url w).2 <= clock w + T ∧
  started (api_get c url w).2 = started w.
Hypothesis reset_time : ∀ w, started (backoff_reset w) = clock w ∧ clock (backoff_reset w) = clock w.
Hypothesis backoff_time : ∀ w, clock (next_backoff w).2 = clock w ∧ started (next_backoff w).2 = started w ∧
  ∀ ms, (next_backoff w).1 = Some ms → 500 <= ms ∧ clock w + ms <= started w + 60000.
Hypothesis sleep_time : ∀ ms w, clock w + ms <= clock (api_sleep ms w) <= clock w + ms + slack ∧
  started (api_sleep ms w) = started w.
Hypothesis build_time : ∀ w, clock (build_client w).2 = clock w.
Hypothesis create_time : ∀ opts w, clock (create_client opts w).2 = clock w.
Hypothesis connect_time : ∀ opts w, clock (client_connect opts w).2 <= clock w + C.
Hypothesis subscribe_time : ∀ topics qos (w : W), clock (subscribe_many topics qos w).2 <= clock w + C.
Hypothesis T_nonneg : 0 <= T.
Hypothesis slack_nonneg : 0 <= slack.
Hypothesis C_nonneg : 0 <= C.

Lemma get_in_time url w :
  ∃ r w', get_with_backoff 121 url w = Some (r, w') ∧ clock w' <= clock w + 60000 + slack + T.
Proof.
  pose proof (build_time w) as Hb. destruct (build_client w) as [[c|e] w0] eqn:Hbuild; simpl in Hb.
  - destruct (get_ends clock started T slack get_time reset_time backoff_time sleep_time url w c w0 Hbuild T_nonneg
      slack_nonneg) as (r & w' & Hg & Hw & _). exists r, w'. split; [done|lia].
  - exists (Err (ClientUnbuilt e)), w0. unfold get_with_backoff. rewrite Hbuild. split; [done|lia].
Qed.

Lemma connect_in_time url id user pw w : clock (connect url id user pw w).2 <= clock w + C.
Proof.
  unfold connect. cbv zeta. match goal with |- context [create_client ?o w] =>
    pose proof (create_time o w) as Hc; destruct (create_client o w) as [[] w1] end; simpl in *; [|lia].
  match goal with |- context [client_connect ?o w1] =>
    pose proof (connect_time o w1) as Hq; destruct (client_connect o w1) end. simpl in *. lia.
Qed.

(** C31: from when the broker password is in hand (the cloud calls it may
    take are not on this clock), a start is decided, one way or the other, within
    two minutes and the requests under way, whatever the broker and device-api do:
    the gateway serves, or it has ended with the error of the step that failed, or
    the fetched spec panics the spawning of its task set. *)
Theorem startup_ends cfg w :
  ∃ r w', start 121 cfg w = Some (r, w') ∧ clock w' <= clock w + 120000 + 2 * slack + 2 * T + 2 * C ∧
    ∀ spec, r = Panics spec → spawn_task_set pointer validator_for spec cfg = None ∧
      ∃ w1 w2, fetch_asyncapi from_str 121 (device_api_url cfg) w1 = Some (Ok spec, w2).
Proof.
  unfold start. destruct (mqtt_password _ _ _) as [password|e]; [|do 2 eexists; split; [done|split; [lia|done]]].
  pose proof (connect_in_time (broker_url cfg) "ems-industrial-gateway" (mqtt_username cfg) password w) as Hc.
  destruct (connect _ _ _ _ _) as [[[]|e] w1]; simpl in Hc; [|do 2 eexists; split; [done|split; [lia|done]]].
  destruct (get_in_time (device_api_url cfg ++ "/asyncapi") w1) as (body & w2 & Hg & Hw2).
  destruct (fetch_asyncapi _ _ _ _) as [[spec w2']|] eqn:Hspec;
    [|exfalso; unfold fetch_asyncapi in Hspec; by rewrite Hg in Hspec].
  assert (w2' = w2) as -> by (unfold fetch_asyncapi in Hspec; rewrite Hg in Hspec; by injection Hspec).
  cbn [mbind option_bind]. destruct spec as [spec|e]; [|do 2 eexists; split; [done|split; [lia|done]]].
  destruct (validate_trust_creds_alignment _ _) as [[]|e] eqn:Ha; [|do 2 eexists; split; [done|split; [lia|done]]].
  destruct (get_in_time (device_api_url cfg ++ "/loto") w2) as (body' & w3 & Hg' & Hw3).
  unfold fetch_loto at 1. rewrite Hg'. cbn [mbind option_bind].
  match goal with |- context [match ?l with Ok _ => _ | Err _ => _ end] =>
    destruct l as [locked|e]; [|do 2 eexists; split; [done|split; [lia|done]]] end.
  destruct (subscription_list _ _) as [topics qos].
  pose proof (subscribe_time topics qos w3) as Hs. destruct (subscribe_many topics qos w3) as [granted w4].
  simpl in Hs. destruct granted; [|do 2 eexists; split; [done|split; [lia|done]]]. cbn [negb].
  do 2 eexists. split; [done|]. split; [lia|]. intros spec'. unfold boot. rewrite Ha. cbn [is_ok].
  destruct (spawn_task_set pointer validator_for spec cfg) as [ts|] eqn:Hts; cbn [mbind option_bind].
  - unfold respawn. by rewrite Hts.
  - intros [= <-]. split; [done|]. by exists w1, w2.
Qed.
End Time.
End Startup.

(** ** A site that starts *)

(** The time in ms, the start of the retry, the requests served, what the
    broker has been asked to subscribe; device-api's first answer is a 503. *)
Record StartWorld := mkStartWorld { sw_clock : Z; sw_started : Z; sw_served : nat; sw_subs : list string }.

#[local] Instance start_api : DeviceApi StartWorld unit := {
  build_client w := (Ok (), w);
  api_get _ url w :=
    (if bool_decide (sw_served w < 1)%nat then ApiResponse 503 (Some ""%string) else ApiResponse 200 (Some url),
     mkStartWorld (sw_clock w + 20) (sw_started w) (S (sw_served w)) (sw_subs w));
  backoff_reset w := mkStartWorld (sw_clock w) (sw_clock w) (sw_served w) (sw_subs w);
  next_backoff w := (if sw_clock w + 1000 <=? sw_started w + 60000 then Some 1000 else None, w);
  api_sleep ms w := mkStartWorld (sw_clock w + ms) (sw_started w) (sw_served w) (sw_subs w);
}.
#[local] Instance start_link : MqttLink StartWorld := {
  create_client _ w := (true, w);
  client_connect opts w :=
    (if bool_decide (password opts = "secret"%string) then None else Some (ConnectReturn 4 "bad user name or password"%string), w);
}.
#[local] Instance start_session : BrokerSession StartWorld := {
  subscribe_many topics _ w :=
    (true, mkStartWorld (sw_clock w + 5) (sw_started w) (sw_served w) (sw_subs w ++ topics));
  unsubscribe_many _ w := (true, w);
}.

Definition sw_instant (w : StartWorld) : Z := sw_clock w * 1000000.

Definition demo_env (name : string) : option string :=
  if bool_decide (name = "MQTT_GATEWAY_PASSWORD"%string) then Some "secret"%string else None.

(** A body is its own URL: the spec of [Decode] and two lockouts. *)
Definition demo_answer (body : string) : option Value :=
  if bool_decide (body = device_api_url demo_gateway_config ++ "/loto")%string then demo_body body
  else Some (demo_doc [] []).

Definition demo_start : option (Started StartWorld * StartWorld) :=
  start (λ _ _, None) (λ _, None) demo_env (λ _, Err "none"%string) (λ _, Err "none"%string)
    demo_answer sw_instant 121 demo_gateway_config (mkStartWorld 0 0 0 []).

(** A wrong password ends the gateway with an operator's error. *)
Example wrong_password_is_not_authorized :
  (start (λ _ _, None) (λ _, None) (λ _, Some "guess"%string) (λ _, Err "none"%string) (λ _, Err "none"%string)
    demo_answer sw_instant 121 demo_gateway_config (mkStartWorld 0 0 0 []))
  = Some (Refused (NotAuthorized (ConnectReturn 4 "bad user name or password"%string)), mkStartWorld 0 0 0 []).
Proof. by vm_compute. Qed.

Lemma nothing_heard_before_lockouts_witness :
  match demo_start with
  | Some (Serves g, w) => g_locked g = {["rack_1"; "bmc_2"]}%string ∧ g_loto_beacon g = true ∧ sw_clock w = 1065
  | _ => False
  end.
Proof.
  assert ((λ x, sw_clock x.2) <$> demo_start = Some 1065) as Hw by (by vm_compute).
  assert ((λ x, match x.1 with Serves g => bool_decide (g_locked g = {["rack_1"; "bmc_2"]}%string) | _ => false end)
    <$> demo_start = Some true) as Hl by (by vm_compute).
  destruct demo_start as [[[g|e|spec] w]|] eqn:Hs; [|done..].
  pose proof (nothing_heard_before_lockouts (λ _ _, None) (λ _, None) demo_env (λ _, Err "none"%string)
    (λ _, Err "none"%string) demo_answer sw_instant sw_subs
    ltac:(done) ltac:(done) ltac:(done) ltac:(done) ltac:(done) ltac:(done) ltac:(done)
    121 demo_gateway_config (mkStartWorld 0 0 0 []) (Serves g) w Hs)
    as (_ & _ & Hbeacon & _).
  injection Hl as Hl. apply bool_decide_eq_true in Hl. injection Hw as Hw.
  split; [exact Hl|]. split; [exact Hbeacon|exact Hw].
Defined.

Lemma startup_ends_witness :
  ∃ r w', demo_start = Some (r, w') ∧ sw_clock w' <= 120000 + 2 * 20 + 2 * 5.
Proof.
  destruct (startup_ends (λ _ _, None) (λ _, None) demo_env (λ _, Err "none"%string)
    (λ _, Err "none"%string) demo_answer sw_instant sw_clock sw_started 20 0 5)
    with (cfg := demo_gateway_config) (w := mkStartWorld 0 0 0 []) as (r & w' & Hr & Hw & _).
  - intros c url w. simpl. split; [lia|done].
  - intros w. done.
  - intros w. simpl. split; [done|]. split; [done|]. intros ms.
    destruct (sw_clock w + 1000 <=? sw_started w + 60000) eqn:Hle; [|done]. intros [= <-].
    apply Z.leb_le in Hle. lia.
  - intros ms w. simpl. split; [lia|done].
  - done.
  - done.
  - intros opts w. simpl. lia.
  - intros topics qos w. simpl. lia.
  - lia.
  - lia.
  - lia.
  - exists r, w'. split; [exact Hr|]. simpl in Hw. lia.
Defined.
