(* ===== verification/Scenarios.v ===== *)
(** * Scenarios: schedules of a site of two racks

    A distribute module over two Modbus racks, from boot, under schedules the
    theorems of [Gateway] and [Interleaving] are applied to. *)

From Stdlib Require Import ZArith Lia Floats.
From S2P Require Import Prelude F64 Binary64 Text Allocation Cache Payload Bindings Config WriteOrder.
From S2P Require Import Transport.
From S2P Require Import Writes PoiServo ControlLaw Shed Distribute Sunspec Dispatch Commands EnvelopeTask DerDispatch.
From S2P Require Import Synthetic Topology Poller Tasks Gateway Interleaving Atomicity.
Local Open Scope Z_scope.

#[export] Instance demo_session : BrokerSession DemoSite := {
  subscribe_many _ _ w := (true, w);
  unsubscribe_many _ w := (true, w);
}.

Definition rack_power (host : string) : CommandSource :=
  mkCommandSource "set" "active_power" "watts"
    (ModbusTcp (mkModbus host 502 "1" 40 (of_Z 1) (of_Z 0) Codec.Int32 Codec.HighLow None None)).

Definition two_racks : DistributeBinding :=
  mkDistribute "equal_split" [demo_rack "rack_1"; demo_rack "rack_2"] None
    None None None None None None None None None None None None None.

Definition module_power : CommandSource :=
  mkCommandSource "set" "active_power" "watts" (Distribute two_racks).

Definition two_rack_commands : gmap string (gmap string CommandSource) :=
  {["module_1"%string := {["set_power"%string := module_power]};
    "rack_1"%string := {["set_power"%string := rack_power "rack_1"]};
    "rack_2"%string := {["set_power"%string := rack_power "rack_2"]}]}.

Definition two_rack_spec : AsyncApiSpec := mkSpec "v1" ∅ two_rack_commands ∅ ∅ ∅.

(** The site has no SunSpec device: nothing answers, and no word is kept. *)
#[export] Instance demo_rodbus : Rodbus DemoSite := {
  full_pki _ _ _ _ w := (Ok (), w); enable _ w := (false, w);
  address_range_ok _ _ := true; write_multiple_ok _ _ := true;
  read_once _ _ _ _ _ w := (Err (OtherError "down"), w); write_once _ _ _ _ _ w := (Err (OtherError "down"), w);
}.
#[export] Instance demo_sessions : SessionCache DemoSite := { sessions _ := ∅; set_sessions _ w := w }.
#[export] Instance demo_sunspec : SunspecState DemoSite := {
  models_cache _ := ∅; set_models_cache _ w := w; words _ := ∅; set_words _ w := w;
}.

Definition demo_step : Gateway DemoSite → Event → option (Gateway DemoSite) :=
  step (λ _ _, None) (λ _, None) demo_hash demo_frame_of demo_order demo_gateway_config (λ _, true) 10.

Definition demo_run_events : Gateway DemoSite → list Event → option (Gateway DemoSite) :=
  run (λ _ _, None) (λ _, None) demo_hash demo_frame_of demo_order demo_gateway_config (λ _, true) 10.

Definition demo_boot (locked : gset string) : option (Gateway DemoSite) :=
  boot (λ _ _, None) (λ _, None) demo_gateway_config two_rack_spec locked (seconds 9) demo_w0.

Definition demo_reachable : Gateway DemoSite → Prop :=
  reachable (λ _ _, None) (λ _, None) demo_hash demo_frame_of demo_order demo_gateway_config (λ _, true)
    10.

(** Both racks report, and the operator asks for 1000 W. *)
Definition sample_doc_of (v : Value) : option Value := Some (VObject [("value"%string, v)]).

Definition rack_message (rack quantity unit : string) (v : Value) : Event :=
  Message (measurement_topic "s1" rack quantity unit) (sample_doc_of v) None (seconds 9).

Definition racks_report : list Event :=
  [rack_message "rack_1" "operating_state" "none" (VString "DISCHARGING");
   rack_message "rack_1" "state_of_charge" "percent" (VInt 80);
   rack_message "rack_2" "operating_state" "none" (VString "DISCHARGING");
   rack_message "rack_2" "state_of_charge" "percent" (VInt 80)].

Definition module_command (v : Z) : Event :=
  Message (command_topic "s1" "module_1" "set" "active_power" "watts") None
    (Some (mkFrame "t" (of_Z v) "cmd-1")) (seconds 10).

Definition loto_beacon : Event := Message "system/loto_changed" None None (seconds 10).

Definition begin_tick : Event := EnvelopeBegin 0 (seconds 10).

(** A message and the steps of its command to [n] racks, uninterrupted: the
    request is recorded, the writes are planned, each rack is written, and the
    command is answered. *)
Definition answered (n : nat) (e : Event) : list Event := e :: replicate (3 + n) (CommandNext (seconds 10)).

Definition writes_of (g : option (Gateway DemoSite)) : list (string * f64) :=
  match g with Some g => site_writes (g_world g) | None => [] end.

Definition scenario (locked : gset string) (es : list Event) : option (Gateway DemoSite) :=
  g ← demo_boot locked; demo_run_events g es.

(** The command and the tick each write both racks; with rack_1 locked out
    they write rack_2 alone. *)
Example two_rack_scenarios :
  writes_of (scenario ∅ (racks_report ++ answered 2 (module_command 1000) ++ [begin_tick; EnvelopeWrite 0; EnvelopeWrite 0;
    EnvelopeLand 0 (seconds 10)])) =
    [("rack_1", of_Z 500); ("rack_2", of_Z 500); ("rack_1", of_Z 500); ("rack_2", of_Z 500)]%string ∧
  writes_of (scenario {["rack_1"%string]} (racks_report ++ answered 1 (module_command 1000) ++ [begin_tick; EnvelopeWrite 0;
    EnvelopeLand 0 (seconds 10)])) = [("rack_2", of_Z 1000); ("rack_2", of_Z 1000)]%string.
Proof. split; by vm_compute. Qed.

(** A tick lands between the writes of a command's two racks: it steers them to
    the request the command has recorded, and the command goes on with rack_2. *)
Example tick_between_two_racks :
  writes_of (scenario ∅ (racks_report ++ [module_command 1000; CommandNext (seconds 10); CommandNext (seconds 10);
    CommandNext (seconds 10)] ++ [begin_tick; EnvelopeWrite 0; EnvelopeWrite 0; EnvelopeLand 0 (seconds 10)] ++
    [CommandNext (seconds 10); CommandNext (seconds 10)])) =
    [("rack_1", of_Z 500); ("rack_1", of_Z 500); ("rack_2", of_Z 500); ("rack_2", of_Z 500)]%string.
Proof. by vm_compute. Qed.

Lemma demo_reachable_run g es g' : demo_reachable g → demo_run_events g es = Some g' → demo_reachable g'.
Proof. apply reachable_run. Qed.

Lemma scenario_reachable locked es g : scenario locked es = Some g → demo_reachable g.
Proof.
  unfold scenario. destruct (demo_boot locked) as [g0|] eqn:Hb; [|done].
  apply demo_reachable_run. by eapply reach_boot.
Qed.

(** A projection of a scenario's end is evaluated on its events. *)
Lemma scenario_view {A} (f : Gateway DemoSite → A) locked es g a :
  scenario locked es = Some g → f <$> scenario locked es = Some a → f g = a.
Proof. intros -> Ha. by injection Ha. Qed.

(** A new topology asks for mutual TLS, and the gateway has no credentials:
    the tasks of the spec in force start again. *)
Definition tls_spec : AsyncApiSpec :=
  mkSpec "v2" ∅ two_rack_commands ∅ {["rack_1"%string := TlsMutual "CN=rack_1"]} ∅.

Definition refused_topology : list Event :=
  [Message "system/topology_changed" None None 0; Cancel; Reconcile (Ok tls_spec) 0].

Lemma topology_is_the_accepted_spec_witness :
  match scenario ∅ refused_topology with
  | Some g =>
      spec_version (g_spec g) = "v1"%string ∧ g_channels g = device_channels (g_spec g) ∧
      length (g_envelopes g) = 1%nat
  | None => False
  end.
Proof.
  apply when_some; [by vm_compute|]. intros g Hg.
  destruct (topology_is_the_accepted_spec (λ _ _, None) (λ _, None) demo_hash demo_frame_of demo_order
    demo_gateway_config (λ _, true) 10 g (scenario_reachable _ _ _ Hg)) as (Hts & He & _ & _ & _ & Hc & _).
  pose proof (scenario_view (λ g, spec_version (g_spec g)) _ _ g "v1"%string Hg ltac:(by vm_compute)) as Hv.
  pose proof (scenario_view (λ g, length (ts_envelopes (g_tasks g))) _ _ g 1%nat Hg ltac:(by vm_compute)) as Hl.
  pose proof (scenario_view g_reconciling _ _ g None Hg ltac:(by vm_compute)) as Hr.
  cbn beta in Hv, Hl. rewrite Hr in Hc.
  split; [done|]. split; [apply Hc|]. by rewrite <- Hl, <- He, length_fmap.
Defined.

(** ** Between the two swaps *)

(** A site that notes with which trust each Modbus write was made. *)
Definition TrustLog : Type := list (string * option DeviceTrust).

#[local] Instance log_south : South TrustLog := {
  modbus_write b _ tr _ w := (Ok (), w ++ [(mb_host b, tr)]);
  sunspec_write b _ _ _ w := (Err (SouthError "none"), w);
  sunspec_write_bit b _ _ _ w := (Err (SouthError "none"), w);
  redfish_write b _ _ _ w := (Err (SouthError "none"), w);
}.
#[local] Instance log_broker : Broker TrustLog := { publish _ w := (Ok (), w) }.
#[local] Instance log_session : BrokerSession TrustLog := {
  subscribe_many _ _ w := (true, w);
  unsubscribe_many _ w := (true, w);
}.

#[local] Instance log_rodbus : Rodbus TrustLog := {
  full_pki _ _ _ _ w := (Ok (), w); enable _ w := (false, w);
  address_range_ok _ _ := true; write_multiple_ok _ _ := true;
  read_once _ _ _ _ _ w := (Err (OtherError "down"), w); write_once _ _ _ _ _ w := (Err (OtherError "down"), w);
}.
#[local] Instance log_sessions : SessionCache TrustLog := { sessions _ := ∅; set_sessions _ w := w }.
#[local] Instance log_sunspec : SunspecState TrustLog := {
  models_cache _ := ∅; set_models_cache _ w := w; words _ := ∅; set_words _ w := w;
}.

Definition secure_config : Config :=
  Config.mkConfig "http://device-api:3000" "tcp://hivemq:1883" "arcnode_gateway" "s1" "info"
    (Some (mkCredentials "gw.crt" "gw.key" "ca.pem")).

Definition log_run : Gateway TrustLog → list Event → option (Gateway TrustLog) :=
  run (λ _ _, None) (λ _, None) demo_hash demo_frame_of demo_order secure_config (λ _, true) 10.

Definition log_boot : option (Gateway TrustLog) :=
  boot (λ _ _, None) (λ _, None) secure_config two_rack_spec ∅ 0 [].

Definition swap_window : list Event :=
  [Message "system/topology_changed" None None 0; Cancel; Reconcile (Ok tls_spec) 0].

(** tls_spec asks mutual TLS of rack_1; a command that lands between the swaps
    is written to it in plain Modbus. *)
Lemma swap_window_uses_old_trust_witness :
  match log_boot ≫= λ g, log_run g swap_window with
  | Some g =>
      x_device_trust tls_spec !! "rack_1"%string = Some (TlsMutual "CN=rack_1") ∧
      ∃ g', log_run g [Message (command_topic "s1" "rack_1" "set" "active_power" "watts") None
                        (Some (mkFrame "t" (of_Z 700) "cmd-2")) 0; CommandNext 0; CommandNext 0] = Some g' ∧
        g_world g' = g_world g ++ [("rack_1"%string, None)]
  | None => False
  end.
Proof.
  apply when_some; [by vm_compute|]. intros g Hg.
  assert (∀ {A} (f : Gateway TrustLog → A) a,
    f <$> (log_boot ≫= λ g, log_run g swap_window) = Some a → f g = a) as view
    by (intros A f a Ha; rewrite Hg in Ha; by injection Ha).
  pose proof (view _ g_reconciling (Some (tls_spec, ChannelsSwapped)) ltac:(by vm_compute)) as Hr.
  pose proof (view _ g_command None ltac:(by vm_compute)) as Hcmd.
  pose proof (view _ g_locked ∅ ltac:(by vm_compute)) as Hl.
  pose proof (view _ g_spec two_rack_spec ltac:(by vm_compute)) as Hs. clear view.
  assert (reachable (λ _ _, None) (λ _, None) demo_hash demo_frame_of demo_order secure_config (λ _, true) 10 g) as Hreach.
  { destruct log_boot as [g0|] eqn:Hb; [|done]. change (log_run g0 swap_window = Some g) in Hg.
    eapply reachable_run; [by eapply reach_boot|exact Hg]. }
  clear Hg. split; [by vm_compute|].
  destruct (swap_window_uses_old_trust (λ _ _, None) (λ _, None) demo_hash demo_frame_of demo_order
    secure_config (λ _, true) 10 g tls_spec
    (command_topic "s1" "rack_1" "set" "active_power" "watts") None (mkFrame "t" (of_Z 700) "cmd-2") 0
    (mkCommandTopic "rack_1" "set" "active_power")
    (mkModbus "rack_1" 502 "1" 40 (of_Z 1) (of_Z 0) Codec.Int32 Codec.HighLow None None)
    (g_world g) Hreach Hr Hcmd) as (g' & Hrun & Hw).
  1, 2: discriminate.
  1, 2, 4: by vm_compute.
  1: rewrite Hl; by apply (bool_decide_unpack _).
  1: reflexivity.
  exists g'. split; [exact Hrun|]. by rewrite Hw, Hs.
Defined.

(** A document that holds no measurement is not kept. *)
Lemma cache_holds_measurements_witness :
  match scenario ∅ (racks_report ++ [rack_message "rack_1" "state_of_charge" "percent" VNull]) with
  | Some g =>
      ∃ e, g_cache g !! measurement_topic "s1" "rack_1" "state_of_charge" "percent" = Some e ∧
        e.1 = VInt 80 ∧ is_measurement e.1 = true
  | None => False
  end.
Proof.
  apply when_some; [by vm_compute|]. intros g Hg.
  set (topic := measurement_topic _ _ _ _).
  assert ((λ g : Gateway DemoSite, fst <$> g_cache g !! topic) <$> Some g = Some (Some (VInt 80))) as Hv
    by (rewrite <- Hg; by vm_compute).
  simpl in Hv. injection Hv as Hv. destruct (g_cache g !! topic) as [e|] eqn:He; [|done].
  exists e. split; [done|]. split; [by injection Hv|].
  exact (cache_holds_measurements (λ _ _, None) (λ _, None) demo_hash demo_frame_of demo_order
    demo_gateway_config (λ _, true) 10 g topic e (scenario_reachable _ _ _ Hg) He).
Defined.

(** ** A rack locked out *)

(** Each rack's binding names the rack. *)
Definition rack_own (d : string) (b : ProtocolBinding) : Prop :=
  match b with ModbusTcp b => mb_host b = d | Distribute _ => True | _ => False end.

Lemma two_rack_channels :
  device_channels two_rack_spec =
    {["module_1"%string := {["set_active_power"%string := Distribute two_racks]};
      "rack_1"%string := {["set_active_power"%string := cmd_binding (rack_power "rack_1")]};
      "rack_2"%string := {["set_active_power"%string := cmd_binding (rack_power "rack_2")]}]}.
Proof. vm_compute. reflexivity. Qed.

Lemma two_rack_bindings d key b :
  channel_of (device_channels two_rack_spec) d key = Some b →
  rack_own d b ∧ ∀ dist, b = Distribute dist → dist = two_racks.
Proof.
  unfold channel_of. rewrite two_rack_channels.
  intros Hb. destruct (_ !! d) as [m|] eqn:Hm; simpl in Hb; [|done].
  rewrite !lookup_insert_Some, lookup_singleton_Some in Hm.
  destruct Hm as [[<- <-]|[_ [[<- <-]|[_ [<- <-]]]]]; apply lookup_singleton_Some in Hb as [_ <-];
    (split; [done|]); by intros dist [= <-].
Qed.

Lemma two_rack_own : spec_own (λ _ _, None) (λ _, None) demo_gateway_config rack_own two_rack_spec.
Proof.
  split; [intros d key b Hb; by apply two_rack_bindings in Hb as [Ho _]|].
  intros ts Hts. assert (Some (ts_counters ts, ts_beats ts) = Some ([], [])) as [= -> ->].
  { change (Some (ts_counters ts, ts_beats ts)) with ((λ ts, (ts_counters ts, ts_beats ts)) <$> Some ts).
    rewrite <- Hts. by vm_compute. }
  clear Hts. split; intros c Hc; by apply not_elem_of_nil in Hc.
Qed.

Definition rack_1_untouched (w : DemoSite) : Prop := "rack_1"%string ∉ (site_writes w).*1.

Lemma demo_write_untouched host v w :
  host ≠ "rack_1"%string → rack_1_untouched w → rack_1_untouched (demo_write host v w).2.
Proof.
  intros Hh Hw. unfold demo_write. case_bool_decide; [done|]. unfold rack_1_untouched. simpl.
  rewrite fmap_app, not_elem_of_app. split; [done|]. intros Heq%list_elem_of_singleton. simpl in Heq. done.
Qed.

Definition busy_schedule : list Event :=
  racks_report ++ answered 1 (module_command 1000) ++ [begin_tick; EnvelopeWrite 0; EnvelopeLand 0 (seconds 10);
    loto_beacon; LotoBegin; LotoRefetch (Err "device-api down"); Message "system/topology_changed" None None 0;
    Cancel; Reconcile (Ok two_rack_spec) (seconds 10)] ++ answered 1 (module_command 900) ++
   [ReconcileNext 0; ReconcileNext 0; ReconcileNext (seconds 10); module_command 800; begin_tick;
    CommandNext (seconds 10); CommandNext (seconds 10); EnvelopeWrite 0; CommandNext (seconds 10)].

(** Two ticks, a command and a new topology later, rack_1 is untouched. *)
Lemma lockout_is_final_witness :
  match scenario {["rack_1"%string]} busy_schedule with
  | Some g => "rack_1"%string ∈ g_locked g ∧ rack_1_untouched (g_world g)
  | None => False
  end.
Proof.
  apply when_some; [by vm_compute|]. intros g Hr.
  unfold scenario in Hr. destruct (demo_boot {["rack_1"%string]}) as [g0|] eqn:Hb; [|done].
  change (demo_run_events g0 busy_schedule = Some g) in Hr.
  assert (isolated (λ _ _, None) (λ _, None) demo_gateway_config "rack_1" rack_own g0 ∧
    rack_1_untouched (g_world g0)) as [Hi Hp].
  { eapply (boot_isolated (λ _ _, None) (λ _, None) demo_gateway_config "rack_1" rack_own rack_1_untouched);
      [exact Hb|set_solver|apply two_rack_own|apply not_elem_of_nil]. }
  clear Hb. unfold demo_run_events in Hr. set (es := busy_schedule) in Hr.
  refine (lockout_is_final (λ _ _, None) (λ _, None) demo_hash demo_frame_of demo_order
    demo_gateway_config (λ _, true) 10 "rack_1" rack_own rack_1_untouched
    _ _ _ _ _ _ _ _ demo_order_perm g0 es g Hi Hp _ Hr); clear Hr Hi Hp g0 g.
  - by intros e w Hw.
  - intros d b v tr cr w Hd Ho Hw. simpl in Ho. apply demo_write_untouched; [by rewrite Ho|done].
  - done.
  - done.
  - done.
  - intros b go tr w w' Hb Hgo Hw. destruct go; [by destruct (Hgo eq_refl)|]. by injection Hb as <-.
  - done.
  - done.
  - unfold es. repeat (constructor; [first [exact I|apply two_rack_own]|]). constructor.
Defined.

(** ** A tick under way *)

Definition mid_tick : list Event :=
  racks_report ++ answered 2 (module_command 1000) ++ [begin_tick; loto_beacon; LotoBegin].

Definition demo_flight (g : Gateway DemoSite) : option (list (string * f64)) :=
  s ← g_envelopes g !! 0%nat; snd <$> es_flight s.

(** rack_1 is locked out after the tick began, and still gets its 500 W. *)
Lemma begun_tick_ignores_lockout_witness :
  match scenario ∅ mid_tick with
  | Some g =>
      ∃ g', demo_run_events g [LotoRefetch (Ok {["rack_1"%string]}); EnvelopeWrite 0] = Some g' ∧
        "rack_1"%string ∈ g_locked g' ∧
        ∃ w, site_writes w = site_writes (g_world g') ∧
          w = (demo_write "rack_1" (of_Z 500) (g_world g)).2
  | None => False
  end.
Proof.
  apply when_some; [by vm_compute|]. intros g Hg.
  pose proof (scenario_view g_loto_fetching _ _ g true Hg) as Hbeacon.
  pose proof (scenario_view g_phase _ _ g Serving Hg ltac:(by vm_compute)) as Hphase.
  pose proof (scenario_view unlocked _ _ g true Hg ltac:(by vm_compute)) as Hun.
  pose proof (scenario_view demo_flight _ _ g
    (Some [("rack_1"%string, of_Z 500); ("rack_2"%string, of_Z 500)]) Hg) as Hflight.
  pose proof (scenario_view (λ g, (λ s, etc_channel_key (es_config s)) <$> (g_envelopes g !! 0%nat)) _ _ g
    (Some "set_active_power"%string) Hg) as Hkey.
  pose proof (scenario_view (λ g, channel_of (g_channels g) "rack_1" "set_active_power") _ _ g
    (Some (cmd_binding (rack_power "rack_1"))) Hg) as Hch.
  specialize (Hbeacon ltac:(by vm_compute)). specialize (Hflight ltac:(by vm_compute)).
  specialize (Hkey ltac:(by vm_compute)). specialize (Hch ltac:(by vm_compute)). clear Hg.
  unfold demo_flight in Hflight. cbn beta in Hkey, Hch. destruct (g_envelopes g !! 0%nat) as [s|] eqn:Hs; [|done].
  cbn in Hkey. injection Hkey as Hkey.
  change (snd <$> es_flight s = Some [("rack_1"%string, of_Z 500); ("rack_2"%string, of_Z 500)]) in Hflight.
  destruct (es_flight s) as [[p todo]|] eqn:Hf; [|done].
  change (Some todo = Some [("rack_1"%string, of_Z 500); ("rack_2"%string, of_Z 500)]) in Hflight.
  injection Hflight as ->.
  destruct (begun_tick_ignores_lockout (λ _ _, None) (λ _, None) demo_hash demo_frame_of demo_order
    demo_gateway_config (λ _, true) 10 g 0 s p "rack_1" _ _
    (mkModbus "rack_1" 502 "1" 40 (of_Z 1) (of_Z 0) Codec.Int32 Codec.HighLow None None)
    {["rack_1"%string]} ltac:(by rewrite Hphase) Hbeacon Hun Hs Hf) as (g' & Hr & Hl & Hw); [by rewrite Hkey|set_solver|].
  exists g'. split; [exact Hr|]. split; [done|]. by exists (g_world g').
Defined.

(** What the module's next tick writes, if none is under way. *)
Definition demo_tick_writes (g : Gateway DemoSite) : option (list (string * f64)) :=
  match g_envelopes g !! 0%nat with
  | None => None
  | Some s =>
      match es_flight s with
      | Some _ => None
      | None =>
          match tick_once (es_config s) "s1" (g_cache g) (g_requested g) (g_channels g) (g_trust g)
                  (g_locked g) None (es_state s) (Z.max 0 (seconds 10 - es_last_tick s)) (seconds 10) (seconds 10)
                  (g_world g) with
          | Some (st, w) => Some (drop 2 (site_writes w))
          | None => None
          end
      end
  end.

Lemma uninterrupted_tick_witness :
  match scenario ∅ (racks_report ++ answered 2 (module_command 1000)) with
  | Some g => ∃ g' s st w,
      g_envelopes g !! 0%nat = Some s ∧
      (∃ g1 es, demo_step g begin_tick = Some g1 ∧
        finishes (λ _ _, None) (λ _, None) demo_hash demo_frame_of demo_order demo_gateway_config (λ _, true)
          10 0 (seconds 10) g1 es g') ∧
      g' = set_envelope g 0 (mkEnvelopeSlot (es_config s) st (seconds 10) None) w ∧
      drop 2 (site_writes w) = [("rack_1"%string, of_Z 500); ("rack_2"%string, of_Z 500)]
  | None => False
  end.
Proof.
  apply when_some; [by vm_compute|]. intros g Hg.
  pose proof (scenario_view g_reconciling _ _ g None Hg ltac:(by vm_compute)) as Hrec.
  pose proof (scenario_view g_phase _ _ g Serving Hg ltac:(by vm_compute)) as Hph.
  pose proof (scenario_view demo_tick_writes _ _ g
    (Some [("rack_1"%string, of_Z 500); ("rack_2"%string, of_Z 500)]) Hg ltac:(by vm_compute)) as Ht.
  clear Hg. unfold demo_tick_writes in Ht. destruct (g_envelopes g !! 0%nat) as [s|] eqn:Hs; [|done].
  destruct (es_flight s) eqn:Hf; [done|].
  destruct (tick_once _ _ _ _ _ _ _ _ _ _ _ _ _) as [[st w]|] eqn:Htick; [|done].
  injection Ht as Hw.
  exists (set_envelope g 0 (mkEnvelopeSlot (es_config s) st (seconds 10) None) w), s, st, w.
  split; [done|]. split; [|by split].
  apply (uninterrupted_tick (λ _ _, None) (λ _, None) demo_hash demo_frame_of demo_order
    demo_gateway_config (λ _, true) 10 0 (seconds 10) g _ s (seconds 10) ltac:(by rewrite Hph) Hrec Hs Hf).
  by exists st, w.
Defined.

(** The site of two racks runs no command that panics and no heartbeat. *)
Lemma two_rack_returns (g : Gateway DemoSite) :
  g_channels g = device_channels two_rack_spec → g_beats g = [] →
  commands_return demo_order demo_gateway_config g ∧ beats_return demo_gateway_config 10 g.
Proof.
  intros Hch Hbeats. split; [|intros s w Hin; rewrite Hbeats in Hin; by apply not_elem_of_nil in Hin].
  apply plain_commands_return. rewrite Hch. intros d k b Hb.
  apply two_rack_bindings in Hb as [Ho Hd]. destruct b as [| | | | | | | |dist|]; try done.
  rewrite (Hd dist eq_refl). by eexists.
Qed.

(** A tick and a command under way. *)
Definition busy : list Event := racks_report ++ answered 2 (module_command 1000) ++ [begin_tick; module_command 900].

(** What is left of both, in an order, with a re-fetch begun, a sample and a beacon
    in between. *)
Definition drains_away : list Event :=
  [CommandNext 0; EnvelopeWrite 0; LotoBegin; CommandNext 0; EnvelopeWrite 0; CommandNext 0; CommandNext 0;
   CommandNext 0; rack_message "rack_1" "state_of_charge" "percent" (VInt 79); EnvelopeLand 0 0; loto_beacon].

Definition ends_in (es : list Event) (f : Gateway DemoSite → bool) (g : Gateway DemoSite) : bool :=
  match demo_run_events g es with Some g => f g | None => false end.

(** Cancelled with a tick and a command under way, the gateway gets to its new
    task set. *)
Lemma reconcile_completes_witness :
  match scenario ∅ (busy ++ replicate 5 (CommandNext 0) ++ [
          Message "system/topology_changed" None None 0; Cancel; module_command 800]) with
  | Some g => joined g = false ∧
      match demo_run_events g drains_away with
      | Some g1 => ∃ n g', (n <= 3)%nat ∧
          demo_run_events g1 (Reconcile (Err "down") 0 :: replicate n (ReconcileNext 0)) = Some g' ∧
          g_running g' = true
      | None => False
      end
  | None => False
  end.
Proof.
  apply when_some; [by vm_compute|]. intros g Hg.
  pose proof (scenario_view g_running _ _ g false Hg ltac:(by vm_compute)) as Hrun.
  pose proof (scenario_view g_phase _ _ g Serving Hg ltac:(by vm_compute)) as Hph.
  pose proof (scenario_view joined _ _ g false Hg ltac:(by vm_compute)) as Hj.
  pose proof (scenario_view work _ _ g 8%nat Hg ltac:(by vm_compute)) as Hw.
  pose proof (scenario_view g_reconciling _ _ g None Hg ltac:(by vm_compute)) as Hr.
  pose proof (scenario_view g_channels _ _ g (device_channels two_rack_spec) Hg
    ltac:(vm_compute; reflexivity)) as Hch.
  pose proof (scenario_view g_spec _ _ g two_rack_spec Hg ltac:(by vm_compute)) as Hsp.
  pose proof (scenario_view g_beats _ _ g [] Hg ltac:(by vm_compute)) as Hbeats.
  pose proof (scenario_view (ends_in drains_away quiet) _ _ g true Hg ltac:(by vm_compute)) as Hq.
  apply scenario_reachable in Hg. destruct (two_rack_returns g Hch Hbeats) as [Hc Hb].
  unfold ends_in in Hq.
  split; [done|]. destruct (demo_run_events g drains_away) as [g1|] eqn:Hrd; [|done].
  destruct (reconcile_completes (λ _ _, None) (λ _, None) demo_hash demo_frame_of demo_order
    demo_gateway_config (λ _, true) 10 demo_order_perm g (Err "down") 0 drains_away g1 Hg Hph Hrun Hr Hc Hb)
    as [_ Hend]; [|by repeat constructor|exact Hrd|].
  - cbn [outcome]. rewrite Hsp. by apply (bool_decide_unpack _); vm_compute.
  - rewrite Hq in Hend. destruct Hend as (n & g' & Hn & Hr' & Hrun' & _). by exists n, g'.
Defined.

(** The same site shut down: no more than eight steps, and it stops. *)
Lemma shutdown_completes_witness :
  match scenario ∅ busy with
  | Some g => joined g = false ∧
      match demo_run_events g (Shutdown :: drains_away) with
      | Some g1 => (steps_taken drains_away <= 8)%nat ∧ g_phase <$> demo_step g1 Disconnect = Some Stopped
      | None => False
      end
  | None => False
  end.
Proof.
  apply when_some; [by vm_compute|]. intros g Hg.
  pose proof (scenario_view g_running _ _ g true Hg ltac:(by vm_compute)) as Hrun.
  pose proof (scenario_view joined _ _ g false Hg ltac:(by vm_compute)) as Hj.
  pose proof (scenario_view work _ _ g 8%nat Hg ltac:(by vm_compute)) as Hw.
  pose proof (scenario_view g_channels _ _ g (device_channels two_rack_spec) Hg
    ltac:(vm_compute; reflexivity)) as Hch.
  pose proof (scenario_view g_beats _ _ g [] Hg ltac:(by vm_compute)) as Hbeats.
  pose proof (scenario_view (ends_in (Shutdown :: drains_away) joined) _ _ g true Hg ltac:(by vm_compute)) as Hq.
  apply scenario_reachable in Hg. destruct (two_rack_returns g Hch Hbeats) as [Hc Hb].
  unfold ends_in in Hq. split; [done|].
  destruct (shutdown_completes (λ _ _, None) (λ _, None) demo_hash demo_frame_of demo_order
    demo_gateway_config (λ _, true) 10 demo_order_perm g Hg Hrun Hc Hb) as (g0 & Hs & _ & Hall).
  change (demo_step g Shutdown = Some g0) in Hs.
  change (demo_run_events g (Shutdown :: drains_away)) with
    (demo_step g Shutdown ≫= λ g, demo_run_events g drains_away) in *.
  rewrite Hs in *. cbn [mbind option_bind] in *.
  destruct (demo_run_events g0 drains_away) as [g1|] eqn:Hrd; [|done].
  destruct (Hall drains_away g1 ltac:(by repeat constructor) Hrd) as (Hsteps & _ & _ & Hend).
  rewrite Hq in Hend. rewrite Hw in Hsteps. split; [lia|].
  change (demo_step g1 Disconnect = Some (set_phase g1 Stopped false)) in Hend. by rewrite Hend.
Defined.
