(* ===== verification/Overlaps.v ===== *)
(** * Overlaps: schedules of a site under a utility event

    A distribute module over one rack whose commands come from the operator and
    from the site task at once, from boot; the theorems of [Atomicity] and
    [Requests] are applied to its states. *)

From Stdlib Require Import ZArith Lia Floats.
From S2P Require Import Prelude F64 Binary64 Text Allocation Cache Payload Bindings Config WriteOrder.
From S2P Require Import Transport.
From S2P Require Import Writes PoiServo ControlLaw Shed Distribute Sunspec Dispatch Commands EnvelopeTask DerDispatch.
From S2P Require Import Synthetic Topology Poller Tasks Gateway Atomicity Requests Lockouts.
Local Open Scope Z_scope.

#[local] Instance site_session : BrokerSession DemoSite := {
  subscribe_many _ _ w := (true, w);
  unsubscribe_many _ w := (true, w);
}.
#[local] Instance site_rodbus : Rodbus DemoSite := {
  full_pki _ _ _ _ w := (Ok (), w); enable _ w := (false, w);
  address_range_ok _ _ := true; write_multiple_ok _ _ := true;
  read_once _ _ _ _ _ w := (Err (OtherError "down"), w); write_once _ _ _ _ _ w := (Err (OtherError "down"), w);
}.
#[local] Instance site_sessions : SessionCache DemoSite := { sessions _ := ∅; set_sessions _ w := w }.
#[local] Instance site_sunspec : SunspecState DemoSite := {
  models_cache _ := ∅; set_models_cache _ w := w; words _ := ∅; set_words _ w := w;
}.

(** One module of at most 1000 W over one rack at [host]; the host ["dead"]
    refuses its writes. *)
Definition event_module : DistributeBinding :=
  mkDistribute "equal_split" [demo_rack "rack_1"] None
    None None None (Some (of_Z (-1000))) (Some (of_Z 1000)) None None None None None None None None.

Definition event_commands (host : string) : gmap string (gmap string CommandSource) :=
  {["module_1"%string := {["p"%string := mkCommandSource "set" "active_power" "watts" (Distribute event_module)]};
    "rack_1"%string := {["p"%string := mkCommandSource "set" "active_power" "watts"
      (ModbusTcp (mkModbus host 502 "1" 40 (of_Z 1) (of_Z 0) Codec.Int32 Codec.HighLow None None))]}]}.

Definition event_spec (host : string) : AsyncApiSpec := mkSpec "v1" ∅ (event_commands host) ∅ ∅ ∅.

Definition event_run : Gateway DemoSite → list Event → option (Gateway DemoSite) :=
  run (λ _ _, None) (λ _, None) demo_hash demo_frame_of demo_order demo_gateway_config (λ _, true) 10.

Definition site_at (host : string) (es : list Event) : option (Gateway DemoSite) :=
  g ← boot (λ _ _, None) (λ _, None) demo_gateway_config (event_spec host) ∅ (seconds 9) demo_w0;
  event_run g es.

Lemma site_reachable host es g :
  site_at host es = Some g →
  reachable (λ _ _, None) (λ _, None) demo_hash demo_frame_of demo_order demo_gateway_config (λ _, true) 10 g.
Proof.
  unfold site_at. destruct (boot _ _ _ _ _ _ _) as [g0|] eqn:Hb; simpl; [|done].
  apply reachable_run. by eapply reach_boot.
Qed.

Lemma site_view {A} (f : Gateway DemoSite → A) host es g a :
  site_at host es = Some g → f <$> site_at host es = Some a → f g = a.
Proof. intros -> Ha. by injection Ha. Qed.

Definition hears (device quantity unit : string) (v : Value) : Event :=
  Message (measurement_topic "s1" device quantity unit) (Some (VObject [("value"%string, v)])) None (seconds 9).

(** The rack and its module report, and an event asks the site for 500 W. *)
Definition event_begins : list Event :=
  [hears "rack_1" "operating_state" "none" (VString "DISCHARGING");
   hears "rack_1" "state_of_charge" "percent" (VInt 80);
   hears "module_1" "state_of_charge" "percent" (VInt 80);
   hears "der_dispatch" "event_active" "none" (VBool true);
   hears "der_dispatch" "target_setpoint_present" "none" (VBool true);
   hears "der_dispatch" "target_active_power" "watts" (VInt 500)].

Definition module_power_topic : string := command_topic "s1" "module_1" "set" "active_power" "watts".

Definition operator_asks (v : Z) : Event :=
  Message module_power_topic None (Some (mkFrame "t" (of_Z v) "cmd-1")) (seconds 10).

Definition request_of (g : Gateway DemoSite) : option f64 :=
  requested_of (g_requested g) "module_1" "set_active_power".

(** The operator's 1000 W and the event's 500 W are both recorded before either
    is written, and the rack refuses both. *)
Definition overlap : list Event :=
  event_begins ++ [operator_asks 1000; CommandNext 0; SiteBegin (seconds 10); SiteNext 0; SiteNext 0;
    CommandNext (seconds 10); SiteNext (seconds 10); CommandNext (seconds 10); SiteNext (seconds 10)].

Definition under_way (g : Gateway DemoSite) : option CommandFlight * option CommandFlight :=
  (g_command g, g_site g ≫= sf_command).

(** Nothing was asked for before; afterwards the gateway steers to the 1000 W
    its operator was told had failed. *)
Lemma overlapping_failures_keep_refused_witness :
  request_of <$> site_at "dead" event_begins = Some None ∧
  match site_at "dead" overlap with
  | Some g => ∃ g', event_run g [CommandNext 0; SiteNext 0] = Some g' ∧ request_of g' = Some (of_Z 1000)
  | None => False
  end.
Proof.
  split; [by vm_compute|].
  apply when_some; [by vm_compute|]. intros g Hg.
  pose proof (site_view g_phase _ _ g Serving Hg ltac:(by vm_compute)) as Hp.
  set (c1 := mkFlight "module_1" "set_active_power" (mkFrame "t" (of_Z 1000) "cmd-1")
    (Written None (Err (ChildWriteFailed "rack_1" (SouthError "refused"))))).
  set (c2 := mkFlight "module_1" "set_active_power" (mkFrame "t" (of_Z 500) "site-dist-1")
    (Written (Some (of_Z 1000)) (Err (ChildWriteFailed "rack_1" (SouthError "refused"))))).
  pose proof (site_view under_way _ _ g (Some c1, Some c2) Hg ltac:(by vm_compute)) as Hu.
  pose proof (site_view request_of _ _ g (Some (of_Z 500)) Hg ltac:(by vm_compute)) as Hr.
  clear Hg. unfold under_way in Hu. injection Hu as Hc1 Hs.
  destruct (g_site g) as [f|] eqn:Hf; [|done]. simpl in Hs.
  apply (overlapping_failures_keep_refused (λ _ _, None) (λ _, None) demo_hash demo_frame_of demo_order
    demo_gateway_config (λ _, true) 10 g c1 c2 f None (ChildWriteFailed "rack_1" (SouthError "refused"))
    (ChildWriteFailed "rack_1" (SouthError "refused")) 0); try done; by rewrite Hp.
Defined.

(** The operator's accepted 1000 W stand while an event's command for another
    module, ticks and a beacon go by. *)
Definition later : list Event :=
  [CommandNext 0; hears "rack_1" "state_of_charge" "percent" (VInt 79);
   EnvelopeBegin 0 (seconds 11); EnvelopeWrite 0; EnvelopeLand 0 (seconds 11);
   Message "system/topology_changed" None None 0; Cancel].

Definition accepted : list Event := event_begins ++ [operator_asks 1000; CommandNext 0; CommandNext (seconds 10); CommandNext (seconds 10)].

Lemma request_stands_witness :
  match site_at "rack_1" accepted with
  | Some g => ∀ g', event_run g later = Some g' → request_of g' = Some (of_Z 1000)
  | None => False
  end.
Proof.
  apply when_some; [by vm_compute|]. intros g Hg.
  set (c := mkFlight "module_1" "set_active_power" (mkFrame "t" (of_Z 1000) "cmd-1") (Written None (Ok ()))).
  pose proof (site_view under_way _ _ g (Some c, None) Hg ltac:(by vm_compute)) as Hu.
  pose proof (site_view request_of _ _ g (Some (of_Z 1000)) Hg ltac:(by vm_compute)) as Hr.
  clear Hg. unfold under_way in Hu. injection Hu as Hc1 Hs. intros g' Hrun.
  apply (request_stands (λ _ _, None) (λ _, None) demo_hash demo_frame_of demo_order
    demo_gateway_config (λ _, true) 10 "module_1" "set_active_power" (of_Z 1000) later g g').
  - split; [exact Hr|]. split.
    + intros c0 Hc0. rewrite Hc1 in Hc0. by injection Hc0 as <-.
    + intros f c0 Hf Hc0. rewrite Hf in Hs. simpl in Hs. congruence.
  - unfold later. cbn [unrecorded].
    split; [intros (c0 & Hc0 & _ & Ha); simpl in Hc0; rewrite Hc1 in Hc0; injection Hc0 as <-; done|].
    repeat match goal with
    | |- match ?x with Some _ => _ | None => _ end => destruct x; [|exact I]
    | |- _ ∧ _ => split; [by intros (? & ? & _)|]
    | |- True => exact I
    end.
  - exact Hrun.
Defined.

(** What the operator's command and the event's tick do, each as one operation:
    the module's request, and the writes or what the site task remembers. *)
Definition command_at_once (g : Gateway DemoSite) : option (option f64 * list (string * f64)) :=
  option_map (λ x, (requested_of x.1.2 "module_1" "set_active_power", site_writes x.2))
    (handle_command (g_channels g) (g_trust g) (g_locked g) None "s1" (g_cache g) (seconds 10) demo_order
      (g_requested g) module_power_topic (Some (mkFrame "t" (of_Z 1000) "cmd-1")) (g_world g)).

Definition tick_at_once (g : Gateway DemoSite) : option (option f64 * option f64) :=
  option_map (λ x, (requested_of x.1.2 "module_1" "set_active_power", dispatched x.1.1 !! "module_1"%string))
    (site_tick demo_hash demo_frame_of demo_order "s1" (sd_topics (ts_site_distribution (g_tasks g))) None
      (g_channels g) (g_trust g) (g_locked g) (g_cache g) (seconds 10) (g_memory g) (g_requested g) (g_world g)).

(** The operator's command, its steps in turn, writes the rack. *)
Lemma uninterrupted_command_witness :
  match site_at "rack_1" event_begins with
  | Some g => ∃ g' g1, event_run g [operator_asks 1000] = Some g1 ∧
      ends (λ _ _, None) (λ _, None) demo_hash demo_frame_of demo_order demo_gateway_config (λ _, true) 10
        (CommandNext (seconds 10)) subscriber_idle g1 g' ∧
      request_of g' = Some (of_Z 1000) ∧ site_writes (g_world g') = [("rack_1"%string, of_Z 1000)]
  | None => False
  end.
Proof.
  apply when_some; [by vm_compute|]. intros g Hg.
  pose proof (site_view g_phase _ _ g Serving Hg ltac:(by vm_compute)) as Hp.
  pose proof (site_view g_command _ _ g None Hg ltac:(by vm_compute)) as Hc.
  pose proof (site_view command_at_once _ _ g (Some (Some (of_Z 1000), [("rack_1"%string, of_Z 1000)])) Hg
    ltac:(by vm_compute)) as Hh.
  clear Hg. unfold command_at_once in Hh. destruct (handle_command _ _ _ _ _ _ _ _ _ _ _ _) as [[[r q] w]|] eqn:Hrun; [|done].
  assert (g_phase g ≠ Stopped) as Hns by (by rewrite Hp).
  assert (module_power_topic ≠ "system/topology_changed"%string) as Ht1 by (by vm_compute).
  assert (module_power_topic ≠ "system/loto_changed"%string) as Ht2 by (by vm_compute).
  assert (str_contains "/commands/" module_power_topic = true) as Ht3 by (by vm_compute).
  destruct (proj2 (uninterrupted_command (λ _ _, None) (λ _, None) demo_hash demo_frame_of demo_order
    demo_gateway_config (λ _, true) 10 (seconds 10) g (set_command (set_requested g q w) None)
    module_power_topic None (Some (mkFrame "t" (of_Z 1000) "cmd-1")) Hns Hc Ht1 Ht2 Ht3))
    as (g1 & Hs & He); [exists r, q, w; split; [exact Hrun|reflexivity]|].
  simpl in Hh. injection Hh as Hq Hw.
  exists (set_command (set_requested g q w) None), g1. split_and!; [|done|done|done].
  unfold event_run, operator_asks. cbn [run mbind option_bind]. by rewrite Hs.
Defined.

(** The event's tick of the site task, uninterrupted. *)
Lemma uninterrupted_site_tick_witness :
  match site_at "rack_1" event_begins with
  | Some g => ∃ g' g1, event_run g [SiteBegin (seconds 10)] = Some g1 ∧
      ends (λ _ _, None) (λ _, None) demo_hash demo_frame_of demo_order demo_gateway_config (λ _, true) 10
        (SiteNext (seconds 10)) site_idle g1 g' ∧
      request_of g' = Some (of_Z 500) ∧ dispatched (g_memory g') !! "module_1"%string = Some (of_Z 500)
  | None => False
  end.
Proof.
  apply when_some; [by vm_compute|]. intros g Hg.
  pose proof (site_view g_phase _ _ g Serving Hg ltac:(by vm_compute)) as Hp.
  pose proof (site_view g_reconciling _ _ g None Hg ltac:(by vm_compute)) as Hrec.
  pose proof (site_view g_site _ _ g None Hg ltac:(by vm_compute)) as Hc.
  pose proof (site_view tick_at_once _ _ g (Some (Some (of_Z 500), Some (of_Z 500))) Hg
    ltac:(by vm_compute)) as Hh.
  clear Hg. unfold tick_at_once in Hh. destruct (site_tick _ _ _ _ _ _ _ _ _ _ _ _ _ _) as [[[m q] w]|] eqn:Hrun; [|done].
  assert (g_phase g ≠ Stopped) as Hns by (by rewrite Hp).
  destruct (proj2 (uninterrupted_site_tick (λ _ _, None) (λ _, None) demo_hash demo_frame_of demo_order
    demo_gateway_config (λ _, true) 10 (seconds 10) g (set_site (set_requested g q w) m None)
    Hns Hrec Hc)) as (g1 & Hs & He); [exists m, q, w; split; [exact Hrun|reflexivity]|].
  simpl in Hh. injection Hh as Hq Hm.
  exists (set_site (set_requested g q w) m None), g1. split_and!; [|done|done|done].
  unfold event_run. cbn [run mbind option_bind]. by rewrite Hs.
Defined.

(** ** Lockouts set while the site runs *)

Definition site_plant_run : Plant DemoSite → list PlantEvent → option (Plant DemoSite) :=
  plant_run (λ _ _, None) (λ _, None) demo_hash demo_frame_of demo_order demo_gateway_config (λ _, true) 10.

Definition plant_at (evs : list PlantEvent) : option (Plant DemoSite) :=
  g ← site_at "rack_1" []; site_plant_run (boot_plant g {["rack_9"%string]} true) evs.

Definition beacon_heard : PlantEvent := Does (Message loto_topic None None 0).
Definition refetched (locked : gset string) : list PlantEvent :=
  [Does LotoBegin; ApiAnswers; Does (LotoRefetch (Ok locked))].

(** ["rack_9"] was locked while the gateway started; ["rack_1"] is locked while
    the re-fetch that found ["rack_9"] is on its way back. *)
Definition locks_meanwhile : list PlantEvent :=
  [Does LotoBegin; ApiAnswers; ApiLocks {["rack_1"%string]}; ApiBeacon; beacon_heard;
   Does (LotoRefetch (Ok {["rack_9"%string]}))] ++ refetched {["rack_1"%string]}.

Lemma plant_view {A} (f : Plant DemoSite → A) evs p a :
  plant_at evs = Some p → f <$> plant_at evs = Some a → f p = a.
Proof. intros -> Ha. by injection Ha. Qed.

Definition outstanding (p : Plant DemoSite) : nat * nat * bool * bool :=
  (p_unsent p, p_queue p, g_loto_beacon (p_gateway p), g_loto_fetching (p_gateway p)).

Lemma outstanding_settled p : outstanding p = (0%nat, 0%nat, false, false) → settled p.
Proof. unfold outstanding, settled, told. intros [= -> -> -> ->]. split; [lia|done]. Qed.

Lemma settled_gateway_knows_the_lockouts_witness :
  match plant_at locks_meanwhile with
  | Some p => g_locked (p_gateway p) = {["rack_1"%string]}
  | None => False
  end.
Proof.
  apply when_some; [by vm_compute|]. intros p Hp.
  pose proof (plant_view outstanding _ _ (0%nat, 0%nat, false, false) Hp ltac:(by vm_compute)) as Hst.
  pose proof (plant_view p_locked _ _ {["rack_1"%string]} Hp ltac:(by vm_compute)) as Hl.
  unfold plant_at in Hp. destruct (site_at "rack_1" []) as [g|] eqn:Hg; simpl in Hp; [|done].
  unfold site_at in Hg. destruct (boot _ _ _ _ _ _ _) as [g0|] eqn:Hb; simpl in Hg; [|done]. injection Hg as <-.
  rewrite (settled_gateway_knows_the_lockouts (λ _ _, None) (λ _, None) demo_hash demo_frame_of demo_order
    demo_gateway_config (λ _, true) 10 (event_spec "rack_1") ∅ (seconds 9) demo_w0 g0 {["rack_9"%string]} true
    locks_meanwhile p Hb Hp); [exact Hl| |by apply outstanding_settled].
  apply calm_faultless; [done|by vm_compute].
Defined.

(** The same site with two beacons queued; the re-fetch that boot has left due, one
    for each beacon, and a tick of the module while one is on its way. *)
Definition two_beacons : list PlantEvent :=
  [ApiLocks {["rack_1"%string]}; ApiBeacon; ApiLocks {["rack_2"%string]}; ApiBeacon].

Definition caught_up : list PlantEvent :=
  refetched {["rack_2"%string]} ++
  [beacon_heard; Does LotoBegin; Does (EnvelopeBegin 0 (seconds 10)); ApiAnswers;
   Does (LotoRefetch (Ok {["rack_2"%string]})); beacon_heard] ++ refetched {["rack_2"%string]}.

Definition left_to_do (p : Plant DemoSite) : option nat := to_catch_up <$> site_plant_run p caught_up.

Lemma lockouts_catch_up_witness :
  match plant_at two_beacons with
  | Some p => to_catch_up p = 11%nat ∧
      match site_plant_run p caught_up with
      | Some p' => settled p' ∧ g_locked (p_gateway p') = {["rack_2"%string]}
      | None => False
      end
  | None => False
  end.
Proof.
  apply when_some; [by vm_compute|]. intros p Hp.
  pose proof (plant_view outstanding _ _ (0%nat, 2%nat, true, false) Hp ltac:(by vm_compute)) as Hout.
  pose proof (plant_view (λ p, g_phase (p_gateway p)) _ _ Serving Hp ltac:(by vm_compute)) as Hph.
  pose proof (plant_view (λ p, g_command (p_gateway p)) _ _ None Hp ltac:(by vm_compute)) as Hc.
  pose proof (plant_view (λ p, unlocked (p_gateway p)) _ _ true Hp ltac:(by vm_compute)) as Hu.
  pose proof (plant_view p_locked _ _ {["rack_2"%string]} Hp ltac:(by vm_compute)) as Hl.
  pose proof (plant_view p_read _ _ None Hp ltac:(by vm_compute)) as Hr.
  pose proof (plant_view to_catch_up _ _ 11%nat Hp ltac:(by vm_compute)) as Hm.
  pose proof (plant_view left_to_do _ _ (Some 0%nat) Hp ltac:(by vm_compute)) as Hdone. clear Hp.
  unfold outstanding in Hout. injection Hout as Hun Hq Hb Hf. split; [done|].
  unfold left_to_do in Hdone. destruct (site_plant_run p caught_up) as [p'|] eqn:Hrun; [|done].
  injection Hdone as Hdone.
  destruct (lockouts_catch_up (λ _ _, None) (λ _, None) demo_hash demo_frame_of demo_order demo_gateway_config
    (λ _, true) 10 caught_up p p') as (_ & _ & Hend).
  - split; [done|]. left. by right; right.
  - split_and!; [by rewrite Hph|done|done|done].
  - by repeat constructor.
  - exact Hrun.
  - rewrite decide_True in Hend by done. destruct Hend as [Hst Hk]. split; [done|]. by rewrite Hk.
Defined.

(** ["rack_1"] is locked out while the gateway's link is down for a moment: an
    operator's later command still writes it. *)
Definition link_blinks : list PlantEvent := [LinkDown; ApiLocks {["rack_1"%string]}; ApiBeacon; LinkUp].

Definition operator_writes : list PlantEvent :=
  (Does <$> event_begins) ++
  [Does (operator_asks 1000); Does (CommandNext 0); Does (CommandNext (seconds 10)); Does (CommandNext (seconds 10));
   Does (CommandNext 0)].

Lemma missed_lockout_stays_missed_witness :
  match plant_at (refetched {["rack_9"%string]}) with
  | Some p => ∃ p1, site_plant_run p link_blinks = Some p1 ∧
      ∀ p', site_plant_run p1 operator_writes = Some p' →
        p_locked p' = {["rack_1"%string]} ∧ g_locked (p_gateway p') = {["rack_9"%string]}
  | None => False
  end ∧
  (λ p, (p_locked p, site_writes (g_world (p_gateway p)))) <$>
    plant_at (refetched {["rack_9"%string]} ++ link_blinks ++ operator_writes) =
  Some ({["rack_1"%string]}, [("rack_1"%string, of_Z 1000)]).
Proof.
  split; [|by vm_compute]. apply when_some; [by vm_compute|]. intros p Hp.
  pose proof (plant_view outstanding _ _ (0%nat, 0%nat, false, false) Hp ltac:(by vm_compute)) as Hst.
  pose proof (plant_view (λ p, g_phase (p_gateway p)) _ _ Serving Hp ltac:(by vm_compute)) as Hph.
  pose proof (plant_view (λ p, g_command (p_gateway p)) _ _ None Hp ltac:(by vm_compute)) as Hc.
  pose proof (plant_view p_link _ _ true Hp ltac:(by vm_compute)) as Hlk.
  pose proof (plant_view (λ p, g_locked (p_gateway p)) _ _ {["rack_9"%string]} Hp ltac:(by vm_compute)) as Hl.
  clear Hp. pose proof Hst as Hst'. unfold outstanding in Hst'. injection Hst' as Hun Hq _ _.
  destruct (missed_lockout_stays_missed (λ _ _, None) (λ _, None) demo_hash demo_frame_of demo_order
    demo_gateway_config (λ _, true) 10 p {["rack_1"%string]} None None 0 "timeout"
    (outstanding_settled p Hst) Hq Hun ltac:(by rewrite Hph) Hc Hlk link_blinks (or_introl eq_refl))
    as (p1 & Hr & _ & Hlater).
  exists p1. split; [exact Hr|]. intros p' Hp'.
  destruct (Hlater operator_writes p' Hp' ltac:(by vm_compute)) as [-> ->]. by split.
Defined.
