(* ===== verification/Telemetry.v ===== *)
(** * Telemetry: a reading's way from the device to the control law

    The gateway of [Gateway] with its pollers ([src/poller.rs]), its synthetic
    channels ([src/synthetic/task.rs]) and its total
    ([src/der_dispatch/actual_power.rs]) at work on one world.  What they
    publish goes through the broker, which keeps, repeats, reorders or loses it,
    and comes back to the subscriber, which caches it; the next channel computes
    from the cache.  Every step has its instant.

    [t_sources] and [t_ran] record what has happened: each reading a device gave
    or a message of somebody else, and each channel that computed.  A poll tick
    ends within [R] and a message arrives within [D], or not at all; any finite
    run has such bounds. *)

From Stdlib Require Import ZArith Lia.
From S2P Require Import Prelude F64 Binary64 Text Allocation Cache Payload Bindings Config WriteOrder.
From S2P Require Import Transport Writes PoiServo ControlLaw Shed Distribute Sunspec Dispatch Commands.
From S2P Require Import EnvelopeTask DerDispatch Synthetic Topology Poller DeviceApi Tasks Gateway Scenarios.
Local Open Scope Z_scope.
Local Open Scope gateway_scope.

(** ** Channels that compute *)

Inductive Node := Synth (c : SyntheticTaskConfig) | Total (c : DerDispatchTaskConfig).

Definition node_output (n : Node) : string :=
  match n with Synth c => output_topic c | Total c => dd_output_topic c end.

Definition node_inputs (n : Node) : list string :=
  match n with Synth c => input_topics_of (computation c) | Total c => dd_source_topics c end.

(** The total takes readings of any age. *)
Definition node_limits (n : Node) : gmap string Z :=
  match n with Synth c => task_stale_limits c | Total _ => ∅ end.

Definition node_value (n : Node) (cache : InputCache) (now : Z) : option f64 :=
  match n with
  | Synth c => match computed c cache now with Some (Ok v) => Some v | _ => None end
  | Total c => sum_cached (dd_source_topics c) cache
  end.

Definition nodes (ts : TaskSet) : list Node := (Synth <$> ts_synthetics ts) ++ [Total (ts_der_dispatch ts)].

Lemma sum_from_cache_Some acc topics cache x t :
  sum_from_cache acc topics cache = Some x → t ∈ topics → ∃ e, cache !! t = Some e.
Proof.
  revert acc. induction topics as [|u topics IH]; intros acc; [by intros _ ?%not_elem_of_nil|].
  cbn [sum_from_cache]. unfold reading. destruct (cache !! u) as [e|] eqn:He; simpl; [|done].
  destruct (as_number e.1) as [y|]; simpl; [|done].
  intros Hs [->|Ht]%elem_of_cons; [by exists e|by eapply IH].
Qed.

(** A channel computes from inputs that are all cached and within their limits. *)
Lemma node_value_inputs n cache now x t :
  node_value n cache now = Some x → t ∈ node_inputs n →
  ∃ e, cache !! t = Some e ∧ ∀ l, node_limits n !! t = Some l → elapsed_since now e.2 <= l.
Proof.
  destruct n as [c|c]; cbn [node_value node_inputs node_limits].
  - destruct (computed c cache now) as [r|] eqn:Hc; [|done]. intros _ Ht.
    destruct (synthetic_rests_on_fresh_inputs c cache now r t Hc Ht) as (e & v & He & _ & Hl). by exists e.
  - unfold sum_cached. destruct (dd_source_topics c) as [|u us] eqn:Hd; [done|]. intros Hs Ht.
    destruct (sum_from_cache_Some _ _ _ _ _ Hs Ht) as [e He]. exists e. by split.
Qed.

(** A channel without inputs computes nothing. *)
Lemma node_value_needs_inputs n cache now x : node_value n cache now = Some x → node_inputs n ≠ [].
Proof.
  destruct n as [c|c]; cbn [node_value node_inputs].
  - unfold computed. destruct (computation c) as [op [|u us]|[|[u k] us]]; try done. by destruct op.
  - unfold sum_cached. by destruct (dd_source_topics c).
Qed.

(** ** Where values come from *)

Inductive Origin := Polled (p : Point) (raw : Raw) | Heard (doc : Value).

(** Read or heard at [so_at] or later. *)
Record Source := mkSource { so_at : Z; so_topic : string; so_origin : Origin }.

(** The value a source puts on its topic. *)
Definition says (o : Origin) (v : Value) : Prop :=
  match o with
  | Polled p raw => ∃ ts doc, outgoing (pp_payload p) (pp_value_map p) raw ts = Ok doc ∧ sample_value doc = Some v
  | Heard doc => sample_value doc = Some v
  end.

Section Rests.
Context (formatted : string → f64 → option Value).

(** [v], published on a topic at an instant, is what one of the sources said, or
    what one of the channels computed from its inputs, every one of them cached
    when it ran, not older than the channel's limit for it if it has one, and
    resting on the sources in turn; every source it rests on is [recent]. *)
Inductive rests (recent : Source → Prop) (sources : list Source) (ran : list Node) : string → Value → Z → Prop :=
| rests_source s v at_ :
    s ∈ sources → recent s → so_at s <= at_ → says (so_origin s) v →
    rests recent sources ran (so_topic s) v at_
| rests_computed n cache (entry : string → CacheEntry) (published : string → Z) ts x doc v now :
    n ∈ ran → node_value n cache now = Some x → formatted ts x = Some doc → sample_value doc = Some v →
    (∀ t, t ∈ node_inputs n → cache !! t = Some (entry t)) →
    (∀ t, t ∈ node_inputs n → published t <= (entry t).2 <= now) →
    (∀ t l, t ∈ node_inputs n → node_limits n !! t = Some l → elapsed_since now (entry t).2 <= l) →
    (∀ t, t ∈ node_inputs n → rests recent sources ran t (entry t).1 (published t)) →
    rests recent sources ran (node_output n) v now.

Lemma rests_mono (recent recent' : Source → Prop) sources sources' ran ran' t v at_ :
  (∀ s, recent s → recent' s) → sources ⊆ sources' → ran ⊆ ran' →
  rests recent sources ran t v at_ → rests recent' sources' ran' t v at_.
Proof.
  intros Hr Hs Hn. induction 1 as [s v at_ Hin Hrec Hat Hsays|n cache entry published ts x doc v now Hin Hx Hf Hv Hc Ht Hl _ IH].
  - apply rests_source; auto.
  - eapply rests_computed; eauto.
Qed.

(** Without a recent source there is nothing to rest on. *)
Lemma rests_needs_source recent sources ran t v at_ :
  rests recent sources ran t v at_ → ∃ s, s ∈ sources ∧ recent s.
Proof.
  induction 1 as [s v at_ Hin Hrec _ _|n cache entry published ts x doc v now Hin Hx _ _ _ _ _ _ IH]; [by exists s|].
  pose proof (node_value_needs_inputs n cache now x Hx) as Hne.
  destruct (node_inputs n) as [|u us]; [done|]. apply (IH u). by left.
Qed.
End Rests.

(** ** The run *)

Section Telemetry.
Context {W session : Type} `{South W} `{Broker W} `{BrokerSession W} `{Poller.Reads W session} `{Publisher W}.
Context (pointer : Value → string → option Value) (validator_for : Value → option (Value → bool)).
Context (hash_order : ∀ A : Type, list (string * A) → list (string * A)).
Context (frame_of : f64 → option CommandFrame).
Context (order : list (string * string * f64) → list (string * string * f64)).
Context (cfg : Config).
Context `{Rodbus W} `{SessionCache W} `{SunspecState W}.
Context (connected : W → bool) (fuel : nat).
Context (formatted : string → f64 → option Value).
(** The topics others publish on; how long a poll tick and a message take. *)
Context (foreign : string → bool) (R D : Z).

Local Abbreviation stepg := (step pointer validator_for hash_order frame_of order cfg connected fuel).

(** A poll tick under way: its readings still to make. *)
Record PollFlight := mkPollFlight {
  pf_points : list Point;
  pf_state : PollState (session := session);
  pf_todo : list nat;
  pf_started : Z;
}.

Record Telemetry := mkTelemetry {
  t_now : Z;
  t_gateway : Gateway W;
  t_polls : list PollFlight;
  t_wire : list (Z * MqttMessage);
  t_sources : list Source;
  t_ran : list Node;
}.

(** A poller is at liberty in its schedule: any readings may be due. *)
Inductive Action :=
| PollBegin (d : nat) (next : list Z) (sessions : gmap string session)
| PollNext (k : nat)
| Compute (n : nat) (ts : string)
| Deliver (k : nat) (frame : option CommandFrame)
| Hear (topic : string) (doc : Value) (frame : option CommandFrame)
| Internal (e : Event).

Definition is_message (e : Event) : bool := match e with Message _ _ _ _ => true | _ => false end.

(** What [poll_one] reads, and the world in which it publishes it. *)
Definition observed (points : list Point) (s : PollState) (w : W) (i : nat) : option (Point * Raw * W) :=
  p ← points !! i;
  match read_point_of pointer s p w with
  | (Some (Ok raw), _, w) => Some (p, raw, w)
  | _ => None
  end.

(** The messages a reading and a computed value are published in. *)
Definition reading_message (p : Point) (raw : Raw) (w : W) : option MqttMessage :=
  match outgoing (pp_payload p) (pp_value_map p) raw (now_rfc3339 w) with
  | Ok doc => Some (mkMessage (pp_topic p) (Some doc) QOS_MEASUREMENT false)
  | Err _ => None
  end.

Definition node_message (n : Node) (cache : InputCache) (now : Z) (ts : string) : option MqttMessage :=
  x ← node_value n cache now;
  Some (mkMessage (node_output n) (formatted ts x) QOS_MEASUREMENT (match n with Synth _ => false | Total _ => true end)).

Definition node_tick (n : Node) (cache : InputCache) (now : Z) (ts : string) (w : W) : W :=
  match n with
  | Synth c => (synthetic_tick formatted c cache now ts w).2
  | Total c => actual_power_tick formatted c cache ts w
  end.

(** These are the messages the code publishes. *)
Lemma poll_one_publishes points s w i :
  (poll_one pointer points (s, w) i).2 =
  match observed points s w i with
  | Some (p, raw, w) => match reading_message p raw w with Some m => (mqtt_publish m w).2 | None => w end
  | None => match points !! i with Some p => (read_point_of pointer s p w).2 | None => w end
  end.
Proof.
  unfold poll_one, observed. destruct (points !! i) as [p|]; [|done]. cbn [mbind option_bind fst snd].
  destruct (read_point_of pointer s p w) as [[[[raw|e]|] s1] w1]; [|done..]. cbn [snd].
  rewrite publish_outgoing. unfold reading_message.
  destruct (outgoing _ _ _ _) as [doc|e]; [|done]. unfold publish_sample, publish_message.
  by destruct (mqtt_publish _ w1) as [[e|] w2].
Qed.

Lemma node_tick_publishes n cache now ts w :
  node_tick n cache now ts w =
  match node_message n cache now ts with Some m => (mqtt_publish m w).2 | None => w end.
Proof.
  destruct n as [c|c]; unfold node_tick, node_message; cbn [node_value node_output].
  - unfold synthetic_tick. destruct (computed c cache now) as [[v|e]|]; [|done..]. cbn [mbind option_bind].
    by destruct (mqtt_publish _ w) as [[e|] w1].
  - unfold actual_power_tick. by destruct (sum_cached _ _).
Qed.

Definition at_world (g : Gateway W) (w : W) : Gateway W := set_requested g (g_requested g) w.

(** One step at [now]; [None]: it cannot happen then. *)
Definition telemetry_step (p : Telemetry) (now : Z) (a : Action) : option Telemetry :=
  let g := t_gateway p in
  let w := g_world g in
  match a with
  | PollBegin d next sessions =>
      dp ← ts_pollers (g_tasks g) !! d;
      let f := mkPollFlight (dp_points dp) (mkPollState next sessions ∅) (due next (clock w)) now in
      Some (mkTelemetry now g (t_polls p ++ [f]) (t_wire p) (t_sources p) (t_ran p))
  | PollNext k =>
      f ← t_polls p !! k;
      match pf_todo f with
      | [] => None
      | i :: todo =>
          if now <=? pf_started f + R then
            let '(s, w') := poll_one pointer (pf_points f) (pf_state f, w) i in
            let polls := <[k := mkPollFlight (pf_points f) s todo (pf_started f)]> (t_polls p) in
            let '(sent, read) :=
              match observed (pf_points f) (pf_state f) w i with
              | Some (pt, raw, w1) =>
                  ((λ m, (now, m)) <$> option_list (reading_message pt raw w1),
                   [mkSource (pf_started f) (pp_topic pt) (Polled pt raw)])
              | None => ([], [])
              end in
            Some (mkTelemetry now (at_world g w') polls (t_wire p ++ sent) (t_sources p ++ read) (t_ran p))
          else None
      end
  | Compute n ts =>
      n ← nodes (g_tasks g) !! n;
      let sent := (λ m, (now, m)) <$> option_list (node_message n (g_cache g) now ts) in
      Some (mkTelemetry now (at_world g (node_tick n (g_cache g) now ts w)) (t_polls p)
              (t_wire p ++ sent) (t_sources p) (t_ran p ++ [n]))
  | Deliver k frame =>
      '(sent_at, m) ← t_wire p !! k;
      if now <=? sent_at + D then
        g ← stepg g (Message (msg_topic m) (msg_doc m) frame now);
        Some (mkTelemetry now g (t_polls p) (t_wire p) (t_sources p) (t_ran p))
      else None
  | Hear topic doc frame =>
      if foreign topic then
        g ← stepg g (Message topic (Some doc) frame now);
        Some (mkTelemetry now g (t_polls p) (t_wire p) (t_sources p ++ [mkSource now topic (Heard doc)]) (t_ran p))
      else None
  | Internal e =>
      if is_message e then None
      else
        g ← stepg g e;
        Some (mkTelemetry now g (t_polls p) (t_wire p) (t_sources p) (t_ran p))
  end.

(** Time does not go back. *)
Fixpoint telemetry_run (p : Telemetry) (l : list (Z * Action)) : option Telemetry :=
  match l with
  | [] => Some p
  | (now, a) :: l => if t_now p <=? now then p ← telemetry_step p now a; telemetry_run p l else None
  end.

Definition telemetry_boot (spec : AsyncApiSpec) (locked : gset string) (now : Z) (w : W) : option Telemetry :=
  g ← boot pointer validator_for cfg spec locked now w;
  Some (mkTelemetry now g [] [] [] []).

Definition telemetry_reachable (p : Telemetry) : Prop :=
  ∃ spec locked now w p0 l, telemetry_boot spec locked now w = Some p0 ∧ telemetry_run p0 l = Some p.

(** ** What every value rests on *)

(** What the sources of a value published on a topic at an instant can be. *)
Section Horizon.
Context (horizon : string → Z → Source → Prop) (all : list Node).
Hypothesis horizon_source : ∀ s at_, so_at s <= at_ <= so_at s + R → horizon (so_topic s) at_ s.
Hypothesis horizon_computed : ∀ n t at_ landed now s,
  n ∈ all → t ∈ node_inputs n → at_ <= landed <= at_ + D → landed <= now →
  (∀ l, node_limits n !! t = Some l → now - landed <= l) → horizon t at_ s → horizon (node_output n) now s.

(** What is on the wire and in the cache rests on what has happened, and no
    source is too old. *)
Record grounded (p : Telemetry) : Prop := mkGrounded {
  wire_grounded at_ m v :
    (at_, m) ∈ t_wire p → msg_doc m ≫= sample_value = Some v → at_ <= t_now p ∧
    rests formatted (horizon (msg_topic m) at_) (t_sources p) (t_ran p) (msg_topic m) v at_;
  cache_grounded t e :
    g_cache (t_gateway p) !! t = Some e → e.2 <= t_now p ∧
    ∃ at_, at_ <= e.2 <= at_ + D ∧
      rests formatted (horizon t at_) (t_sources p) (t_ran p) t e.1 at_;
  polls_begun k f : t_polls p !! k = Some f → pf_started f <= t_now p;
}.

(** Growing histories keep what they ground. *)
Lemma grounded_grows p now g polls wire sources ran :
  grounded p → t_now p <= now → t_sources p ⊆ sources → t_ran p ⊆ ran →
  (∀ at_ m v, (at_, m) ∈ wire → msg_doc m ≫= sample_value = Some v →
     (at_, m) ∈ t_wire p ∨ at_ <= now ∧ rests formatted (horizon (msg_topic m) at_) sources ran (msg_topic m) v at_) →
  (∀ t e, g_cache g !! t = Some e → g_cache (t_gateway p) !! t = Some e ∨ e.2 <= now ∧
     ∃ at_, at_ <= e.2 <= at_ + D ∧ rests formatted (horizon t at_) sources ran t e.1 at_) →
  (∀ k f, polls !! k = Some f → pf_started f <= now) →
  grounded (mkTelemetry now g polls wire sources ran).
Proof.
  intros Hp Hnow Hs Hn Hw Hc Hk. constructor; cbn [t_now t_gateway t_polls t_wire t_sources t_ran]; [..|done].
  - intros at_ m v Hin Hv. destruct (Hw at_ m v Hin Hv) as [Hold|Hnew]; [|done].
    destruct (wire_grounded _ Hp at_ m v Hold Hv) as [Hle Hr]. split; [lia|]. by eapply rests_mono.
  - intros t e He. destruct (Hc t e He) as [Hold|Hnew]; [|done].
    destruct (cache_grounded _ Hp t e Hold) as [Hle (at_ & Hat & Hr)]. split; [lia|].
    exists at_. split; [done|]. by eapply rests_mono.
Qed.

Ltac kept := solve [reflexivity | apply list_subseteq_app_l; reflexivity].

(** A sample that is heard is cached at once. *)
Lemma cached_sample (cache : InputCache) topic doc now t e :
  cache_sample cache topic doc now !! t = Some e →
  cache !! t = Some e ∨ t = topic ∧ e.2 = now ∧ doc ≫= sample_value = Some e.1.
Proof.
  unfold cache_sample. destruct (doc ≫= sample_value) as [v|]; [|by left].
  destruct (is_measurement v); [|by left]. destruct (decide (t = topic)) as [->|Hne].
  - rewrite cache_insert_eq. intros [= <-]. by right.
  - rewrite cache_insert_ne by done. by left.
Qed.

Lemma poll_begin_grounded p now d nxt sess p' :
  grounded p → t_now p <= now → telemetry_step p now (PollBegin d nxt sess) = Some p' → grounded p'.
Proof.
  intros Hp Hnow. cbn [telemetry_step]. destruct (ts_pollers _ !! d) as [dp|]; simpl; [|done]. intros [= <-].
  eapply grounded_grows; [exact Hp|exact Hnow|kept|kept|by left|by left|].
  intros k f [Hk|[_ Hk]]%lookup_app_Some.
  - pose proof (polls_begun _ Hp k f Hk). lia.
  - apply list_lookup_singleton_Some in Hk as [_ <-]. simpl. lia.
Qed.

Lemma poll_next_grounded p now k p' :
  grounded p → t_now p <= now → telemetry_step p now (PollNext k) = Some p' → grounded p'.
Proof.
  intros Hp Hnow. cbn [telemetry_step]. destruct (t_polls p !! k) as [f|] eqn:Hk; simpl; [|done].
  destruct (pf_todo f) as [|i todo]; [done|]. destruct (Z.leb_spec now (pf_started f + R)) as [HR|]; [|done].
  destruct (poll_one _ _ _ _) as [s w'].
  pose proof (polls_begun _ Hp k f Hk) as Hf.
  assert (∀ k' f', <[k:=mkPollFlight (pf_points f) s todo (pf_started f)]> (t_polls p) !! k' = Some f' →
    pf_started f' <= now) as Hpolls.
  { intros k' f' [(-> & <- & _)|[_ Hk']]%list_lookup_insert_Some; [simpl; lia|].
    pose proof (polls_begun _ Hp k' f' Hk'). lia. }
  destruct (observed _ _ _ _) as [[[pt raw] w1]|] eqn:Ho; intros [= <-];
    (eapply grounded_grows; [exact Hp|exact Hnow|kept|kept| |by left|exact Hpolls]).
  - intros at_ m v [Hm|Hm]%elem_of_app Hv; [by left|right].
    apply list_elem_of_fmap in Hm as (m' & [= -> ->] & Hm'). split; [lia|].
    unfold reading_message in Hm'. destruct (outgoing _ _ _ _) as [doc|e] eqn:Hout; simpl in Hm'; [|by apply not_elem_of_nil in Hm'].
    apply list_elem_of_singleton in Hm' as ->. cbn [msg_doc msg_topic] in *.
    apply (rests_source formatted _ _ _ (mkSource (pf_started f) (pp_topic pt) (Polled pt raw))).
    + apply elem_of_app. right. by left.
    + apply (horizon_source (mkSource _ _ _)). simpl. lia.
    + simpl. lia.
    + by exists (now_rfc3339 w1), doc.
  - intros at_ m v [Hm|Hm]%elem_of_app Hv; [by left|by apply not_elem_of_nil in Hm].
Qed.

(** The publication a cached value comes from. *)
Definition lands (p : Telemetry) (t : string) (e : CacheEntry) (at_ : Z) : Prop :=
  g_cache (t_gateway p) !! t = Some e ∧ e.2 <= t_now p ∧ at_ <= e.2 <= at_ + D ∧
  rests formatted (horizon t at_) (t_sources p) (t_ran p) t e.1 at_.

Lemma inputs_grounded p (topics : list string) :
  grounded p → (∀ t, t ∈ topics → ∃ e, g_cache (t_gateway p) !! t = Some e) →
  ∃ (entry : string → CacheEntry) (published : string → Z), ∀ t, t ∈ topics → lands p t (entry t) (published t).
Proof.
  intros Hp. induction topics as [|u us IH]; intros Hall.
  { exists (λ _, (VNull, 0)), (λ _, 0). by intros t ?%not_elem_of_nil. }
  destruct IH as (entry & published & IH); [by intros t Ht; apply Hall; right|].
  destruct (Hall u) as [e He]; [by left|]. destruct (cache_grounded _ Hp u e He) as (Hle & at_ & Hat & Hr).
  exists (λ t, if decide (t = u) then e else entry t), (λ t, if decide (t = u) then at_ else published t).
  intros t Ht. destruct (decide (t = u)) as [->|Hne]; [done|]. apply IH. by apply elem_of_cons in Ht as [?|Ht].
Qed.

Lemma compute_grounded p now n ts p' :
  grounded p → t_now p <= now → t_ran p' ⊆ all → telemetry_step p now (Compute n ts) = Some p' → grounded p'.
Proof.
  intros Hp Hnow Hall. cbn [telemetry_step]. destruct (nodes _ !! n) as [nd|] eqn:Hn; simpl; [|done]. intros [= <-].
  cbn [t_ran] in Hall.
  eapply grounded_grows; [exact Hp|exact Hnow|kept|kept| |by left|].
  2: { intros k f Hk. pose proof (polls_begun _ Hp k f Hk). lia. }
  intros at_ m v [Hm|Hm]%elem_of_app Hv; [by left|right].
  apply list_elem_of_fmap in Hm as (m' & [= -> ->] & Hm'). split; [lia|].
  unfold node_message in Hm'. destruct (node_value nd _ now) as [x|] eqn:Hx; simpl in Hm'; [|by apply not_elem_of_nil in Hm'].
  apply list_elem_of_singleton in Hm' as ->. cbn [msg_doc msg_topic] in *.
  destruct (formatted ts x) as [doc|] eqn:Hdoc; simpl in Hv; [|done].
  destruct (inputs_grounded p (node_inputs nd) Hp) as (entry & published & Hpub).
  { intros t Ht. destruct (node_value_inputs nd _ now x t Hx Ht) as (e & He & _). by exists e. }
  assert (nd ∈ t_ran p ++ [nd]) as Hin by (apply elem_of_app; right; by left).
  assert (∀ t l, t ∈ node_inputs nd → node_limits nd !! t = Some l → elapsed_since now (entry t).2 <= l) as Hlim.
  { intros t l Ht Hl. destruct (node_value_inputs nd _ now x t Hx Ht) as (e & He & Hle).
    destruct (Hpub t Ht) as [He' _]. pose proof (eq_trans (eq_sym He) He') as [= <-]. by apply Hle. }
  eapply (rests_computed formatted _ _ _ nd (g_cache (t_gateway p)) entry published); try done.
  - intros t Ht. by destruct (Hpub t Ht).
  - intros t Ht. destruct (Hpub t Ht) as (_ & Hle & Hat & _). lia.
  - intros t Ht. destruct (Hpub t Ht) as (_ & Hle & Hat & Hr).
    eapply rests_mono; [|reflexivity|apply list_subseteq_app_l; reflexivity|exact Hr].
    intros s Hs. eapply (horizon_computed nd t (published t) (entry t).2); try done; [by apply Hall|lia|].
    intros l Hl. specialize (Hlim t l Ht Hl). unfold elapsed_since in Hlim. lia.
Qed.

Lemma deliver_grounded p now k frame p' :
  grounded p → t_now p <= now → telemetry_step p now (Deliver k frame) = Some p' → grounded p'.
Proof.
  intros Hp Hnow. cbn [telemetry_step]. destruct (t_wire p !! k) as [[at_ m]|] eqn:Hk; simpl; [|done].
  destruct (Z.leb_spec now (at_ + D)) as [HD|]; [|done].
  destruct (step _ _ _ _ _ _ _ _ _ _) as [g'|] eqn:Hs; simpl; [|done]. intros [= <-].
  apply list_elem_of_lookup_2 in Hk.
  eapply grounded_grows; [exact Hp|exact Hnow|kept|kept|by left| |].
  2: { intros k' f Hk'. pose proof (polls_begun _ Hp k' f Hk'). lia. }
  intros t e He. apply step_cache in Hs as [Hc|(topic & doc & frame' & now' & [= <- <- <- <-] & Hc)]; rewrite Hc in He; [by left|].
  apply cached_sample in He as [He|(-> & Hat & Hv)]; [by left|right].
  destruct (wire_grounded _ Hp at_ m e.1 Hk Hv) as [Hle Hr]. split; [lia|]. exists at_. split; [lia|done].
Qed.

Lemma hear_grounded p now topic doc frame p' :
  0 <= D → 0 <= R →
  grounded p → t_now p <= now → telemetry_step p now (Hear topic doc frame) = Some p' → grounded p'.
Proof.
  intros HD HR Hp Hnow. cbn [telemetry_step]. destruct (foreign topic); [|done].
  destruct (step _ _ _ _ _ _ _ _ _ _) as [g'|] eqn:Hs; simpl; [|done]. intros [= <-].
  eapply grounded_grows; [exact Hp|exact Hnow|kept|kept|by left| |].
  2: { intros k' f Hk'. pose proof (polls_begun _ Hp k' f Hk'). lia. }
  intros t e He. apply step_cache in Hs as [Hc|(? & ? & ? & ? & [= <- <- <- <-] & Hc)]; rewrite Hc in He; [by left|].
  apply cached_sample in He as [He|(-> & Hat & Hv)]; [by left|right]. split; [lia|]. exists now. split; [lia|].
  apply (rests_source formatted _ _ _ (mkSource now topic (Heard doc))); [|apply (horizon_source (mkSource _ _ _)); simpl; lia|simpl; lia|done].
  apply elem_of_app. right. by left.
Qed.

Lemma internal_grounded p now e p' :
  grounded p → t_now p <= now → telemetry_step p now (Internal e) = Some p' → grounded p'.
Proof.
  intros Hp Hnow. cbn [telemetry_step]. destruct (is_message e) eqn:Hm; [done|].
  destruct (step _ _ _ _ _ _ _ _ _ _) as [g'|] eqn:Hs; simpl; [|done]. intros [= <-].
  eapply grounded_grows; [exact Hp|exact Hnow|kept|kept|by left| |].
  2: { intros k' f Hk'. pose proof (polls_begun _ Hp k' f Hk'). lia. }
  intros t e' He. apply step_cache in Hs as [Hc|(? & ? & ? & ? & -> & _)]; [|done]. rewrite Hc in He. by left.
Qed.

Lemma step_ran p now a p' : telemetry_step p now a = Some p' → t_ran p ⊆ t_ran p' ∧ t_now p' = now.
Proof.
  destruct a; cbn [telemetry_step].
  - destruct (ts_pollers _ !! d); simpl; [|done]. intros [= <-]. split; [kept|done].
  - destruct (t_polls p !! k) as [f|]; simpl; [|done]. destruct (pf_todo f); [done|].
    destruct (now <=? _); [|done]. destruct (poll_one _ _ _ _), (observed _ _ _ _) as [[[? ?] ?]|];
      intros [= <-]; (split; [kept|done]).
  - destruct (nodes _ !! n); simpl; [|done]. intros [= <-]. split; [kept|done].
  - destruct (t_wire p !! k) as [[? ?]|]; simpl; [|done]. destruct (now <=? _); [|done].
    destruct (step _ _ _ _ _ _ _ _ _ _); simpl; [|done]. intros [= <-]. split; [kept|done].
  - destruct (foreign topic); [|done].
    destruct (step _ _ _ _ _ _ _ _ _ _); simpl; [|done]. intros [= <-]. split; [kept|done].
  - destruct (is_message e); [done|].
    destruct (step _ _ _ _ _ _ _ _ _ _); simpl; [|done]. intros [= <-]. split; [kept|done].
Qed.

Lemma run_ran l : ∀ p p', telemetry_run p l = Some p' → t_ran p ⊆ t_ran p'.
Proof.
  induction l as [|[now a] l IH]; intros p p'; cbn [telemetry_run]; [intros [= <-]; kept|].
  destruct (t_now p <=? now); [|done]. destruct (telemetry_step p now a) as [p1|] eqn:Hs; simpl; [|done].
  intros Hr%IH. apply step_ran in Hs as [Hs _]. by etrans.
Qed.

Hypothesis R_nonneg : 0 <= R.
Hypothesis D_nonneg : 0 <= D.

Lemma step_grounded p now a p' :
  grounded p → t_now p <= now → t_ran p' ⊆ all → telemetry_step p now a = Some p' → grounded p'.
Proof.
  intros Hp Hnow Hall Hs. destruct a.
  - by eapply poll_begin_grounded.
  - by eapply poll_next_grounded.
  - by eapply compute_grounded.
  - by eapply deliver_grounded.
  - by eapply hear_grounded.
  - by eapply internal_grounded.
Qed.

Lemma run_grounded l : ∀ p p', grounded p → telemetry_run p l = Some p' → t_ran p' ⊆ all → grounded p'.
Proof.
  induction l as [|[now a] l IH]; intros p p' Hp; cbn [telemetry_run]; [by intros [= <-]|].
  destruct (Z.leb_spec (t_now p) now) as [Hnow|]; [|done].
  destruct (telemetry_step p now a) as [p1|] eqn:Hs; simpl; [|done]. intros Hr Hall.
  pose proof (run_ran _ _ _ Hr) as Hran. eapply IH; [|exact Hr|done].
  eapply step_grounded; [done|done| |done]. by etrans.
Qed.

Lemma reachable_grounded p : telemetry_reachable p → t_ran p ⊆ all → grounded p.
Proof.
  intros (spec & locked & now & w & p0 & l & Hb & Hr) Hall. eapply run_grounded; [|exact Hr|done].
  unfold telemetry_boot in Hb. destruct (boot _ _ _ _ _ _ _) as [g|] eqn:Hg; simpl in Hb; [|done].
  injection Hb as <-. constructor; cbn [t_wire t_gateway t_polls].
  - by intros at_ m v ?%not_elem_of_nil.
  - unfold boot in Hg. destruct (is_ok _); [|done].
    destruct (spawn_task_set _ _ _ _) as [ts|]; simpl in Hg; [|done].
    apply respawn_Some in Hg as (ts' & _ & ->). intros t e He. by apply (lookup_empty_Some t e) in He.
  - done.
Qed.
End Horizon.

Hypothesis R_nonneg : 0 <= R.
Hypothesis D_nonneg : 0 <= D.

(** C15: whatever the broker does to the gateway's messages,
    every value its cache holds was published no later than it landed and is either
    what a device answered one of the pollers, shaped as its measurement says, or
    what somebody else published on a topic of their own, or the result of a channel
    of the gateway (a synthetic measurement or the site's total) on its inputs,
    every one of which was in the cache when it computed, had been published before,
    was no older than the channel's limit for it where it has one, and is of such an
    origin in turn. No value has no source, and no missing input is taken for a
    number. *)
Theorem cached_value_has_origin p t e :
  telemetry_reachable p → g_cache (t_gateway p) !! t = Some e →
  ∃ at_, at_ <= e.2 <= t_now p ∧ rests formatted (λ _, True) (t_sources p) (t_ran p) t e.1 at_.
Proof.
  intros Hp He.
  destruct (cache_grounded _ p (reachable_grounded (λ _ _ _, True) (t_ran p) ltac:(done) ltac:(done)
    R_nonneg D_nonneg p Hp ltac:(done)) t e He) as (Hle & at_ & Hat & Hr).
  exists at_. split; [lia|done].
Qed.

(** [up] holds a topic and what it is computed from, [rank] how far each is from
    the devices: a channel publishing on one of them has its inputs among them,
    nearer to the devices, each with a limit of at most [L]. *)
Section Upstream.
Context (up : gset string) (rank : string → nat) (L : Z).

Definition upstream (n : Node) : Prop :=
  node_output n ∈ up →
  Forall (λ t, t ∈ up ∧ (rank t < rank (node_output n))%nat ∧
            match node_limits n !! t with Some l => l <= L | None => False end) (node_inputs n).

#[export] Instance upstream_dec n : Decision (upstream n).
Proof.
  apply impl_dec; [apply _|]. apply Forall_dec. intros t. apply and_dec; [apply _|]. apply and_dec; [apply _|].
  destruct (node_limits n !! t); apply _.
Defined.

Lemma upstream_input n t :
  upstream n → node_output n ∈ up → t ∈ node_inputs n →
  t ∈ up ∧ (rank t < rank (node_output n))%nat ∧ ∃ l, node_limits n !! t = Some l ∧ l <= L.
Proof.
  intros Hn Hup Ht. destruct (proj1 (Forall_forall _ _) (Hn Hup) t Ht) as (Hin & Hlt & Hl). split; [done|].
  split; [done|]. destruct (node_limits n !! t) as [l|]; [by exists l|done].
Qed.

(** The oldest source of a value that has just landed. *)
Definition oldest (k : nat) : Z := R + D + Z.of_nat k * (L + D).

(** One of these topics, at the time or later. *)
Definition since (from : Z) (s : Source) : Prop := so_topic s ∈ up ∧ from <= so_at s.

Lemma cached_value_age p t e :
  telemetry_reachable p → 0 <= L → (∀ n, n ∈ t_ran p → upstream n) → t ∈ up →
  g_cache (t_gateway p) !! t = Some e →
  e.2 <= t_now p ∧
  ∃ at_, at_ <= e.2 ∧ rests formatted (since (e.2 - oldest (rank t))) (t_sources p) (t_ran p) t e.1 at_.
Proof.
  intros Hp HL Hran Hup He.
  assert (grounded (λ t at_ s, t ∈ up → since (at_ - (R + Z.of_nat (rank t) * (L + D))) s) p) as Hg.
  { apply (reachable_grounded _ (t_ran p)); [intros s at_ Hat Hs; split; [done|nia]| |done..].
    intros n u at_ landed now s Hn Hu Hat Hl Hlim Hs Hout.
    destruct (upstream_input n u (Hran n Hn) Hout Hu) as (Hin & Hlt & lim & Hlk & HlL).
    destruct (Hs Hin) as [Hs1 Hs2]. specialize (Hlim lim Hlk). split; [done|nia]. }
  destruct (cache_grounded _ p Hg t e He) as (Hle & at_ & Hat & Hr). split; [done|].
  exists at_. split; [lia|]. eapply rests_mono; [|reflexivity|reflexivity|exact Hr].
  intros s Hs. destruct (Hs Hup) as [Hs1 Hs2]. split; [done|]. unfold oldest. lia.
Qed.

(** C25: for a topic whose channels, and theirs in turn down to
    the devices, have an age limit of at most L on every input and do not go round
    in a circle: a value on it that was cached at most S ago rests on nothing of
    those topics older than S plus one poll tick and one message, and one limit and
    one message more for each channel between the devices and it, so a channel that
    publishes anew does not make an old reading young without end. Nothing is asked
    of the gateway's other channels: the site's total, which takes readings of any
    age, may run all along, as it does in the witness. A channel over an input no
    device is polled for has no limit on it and is not covered. R bounds a poll
    tick, D a message's way. *)
Theorem reading_age_bounded p t e S now :
  telemetry_reachable p → 0 <= L → (∀ n, n ∈ t_ran p → upstream n) → t ∈ up →
  g_cache (t_gateway p) !! t = Some e → t_now p <= now → elapsed_since now e.2 <= S →
  ∃ at_, at_ <= now ∧ rests formatted (since (now - S - oldest (rank t))) (t_sources p) (t_ran p) t e.1 at_.
Proof.
  intros Hp HL Hran Hup He Hnow HS. destruct (cached_value_age p t e Hp HL Hran Hup He) as (Hle & at_ & Hat & Hr).
  exists at_. split; [lia|]. eapply rests_mono; [|reflexivity|reflexivity|exact Hr].
  intros s [Hs1 Hs2]. unfold elapsed_since in HS. split; [done|lia].
Qed.

(** C6: let a guard watch a POI topic whose channels, and
    theirs in turn, have an age limit of at most L on every input and do not go
    round in a circle. Once no device has been read, and nobody heard, on any of
    those topics since [dead], then after one poll tick (R), one message (D), one
    limit and one message more per channel in between, and the 5 s of [STALE_AFTER],
    every guarded tick that still has its last POI value steps the output towards 0
    W, whatever the operator and the limits ask for. The rest of the site may live
    on: in the witness the module still answers its poller and the site's total
    still sums it. *)
Theorem dead_meter_ramps_down p dead c guard topic poi s dt now active :
  telemetry_reachable p → 0 <= L → (∀ n, n ∈ t_ran p → upstream n) →
  guard_poi_active_power_topic guard = Some topic →
  let site := Config.site_id cfg in
  let t := substitute_site_id topic site in
  let cache := g_cache (t_gateway p) in
  t ∈ up → poi_reading site cache guard = Some (Some poi) →
  (∀ s, s ∈ t_sources p → so_topic s ∈ up → so_at s <= dead) →
  dead + oldest (rank t) + STALE_AFTER < now →
  let ctrl := default (new_controller (control guard) active) (controller s) in
  let ramped := ramp_to_zero ctrl (guard_power_min guard) (guard_power_max guard) dt in
  ∃ ws, guarded_target c site cache (g_requested (t_gateway p)) now guard s dt active (Some poi) =
    Some (mkTask (Some ramped) ws, current_output ramped).
Proof.
  intros Hp HL Hran Htopic site t cache Hup Hpoi Hdead Hnow ctrl ramped.
  unfold poi_reading in Hpoi. rewrite Htopic in Hpoi. unfold reading_at in Hpoi. fold t in Hpoi.
  destruct (cache !! t) as [e|] eqn:He; simpl in Hpoi; [|done].
  destruct (as_number e.1) as [x|]; simpl in Hpoi; [|done]. injection Hpoi as <-.
  destruct (cached_value_age p t e Hp HL Hran Hup He) as (_ & at_ & _ & Hr).
  destruct (rests_needs_source _ _ _ _ _ _ _ Hr) as (src & Hin & Hsrc & Hat).
  pose proof (Hdead src Hin Hsrc) as Hold.
  unfold guarded_target. destruct (take _ _) as [gate [fresh hold]].
  assert ((STALE_AFTER <? elapsed_since now e.2) = true) as ->
    by (apply Z.ltb_lt; unfold elapsed_since; lia).
  eexists. unfold ramped, ctrl. by destruct (controller s).
Qed.
End Upstream.
End Telemetry.

(** ** A meter, a channel over it and a guard on the channel *)

#[export] Instance demo_poll_reads : Poller.Reads DemoSite unit := {
  clock _ := 0;
  fetch_resource _ w := (Err "down"%string, w);
  open_session _ _ w := (Ok (), w);
  modbus_read_on _ _ w := (Ok (Number (of_Z 250)), w);
  sunspec_read_on _ _ w := (Err (NotAReading VNull), w);
  read_other _ w := (Err (NotAReading VNull), w);
  now_rfc3339 _ := "now"%string;
}.

#[export] Instance demo_mqtt : Publisher DemoSite := λ _ w, (None, w).

Definition meter_topic : string := measurement_topic "s1" "meter" "active_power" "watts".
Definition net_topic : string := measurement_topic "s1" "poi" "net_power" "watts".

Definition net_power : ProtocolSource :=
  mkProtocolSource "watts" None None None
    (Synthetic (mkSynthetic "sum" ["sites/{site_id}/devices/meter/measurements/active_power/watts"]%string [])).

Definition module_power_topic : string := measurement_topic "s1" "module_1" "active_power" "watts".

(** A battery module guarded on the channel. *)
Definition net_binding : DistributeBinding :=
  mkDistribute "equal_split" [demo_rack "rack_1"; demo_rack "rack_2"] None
    (Some (lit 1 10)) (Some (lit 5 100)) (Some (of_Z 5)) (Some (of_Z (-8000))) (Some (of_Z 8000))
    (Some "sites/{site_id}/import"%string) (Some "sites/{site_id}/export"%string)
    (Some "sites/{site_id}/devices/module_1/measurements/active_power/watts"%string)
    (Some "sites/{site_id}/devices/poi/measurements/net_power/watts"%string) None None None None.

Definition net_guard : EnvelopeGuardConfig :=
  mkGuard (mkConfig (lit 1 10) (lit 5 100) (seconds 5)) (of_Z (-8000)) (of_Z 8000)
    "sites/{site_id}/import" "sites/{site_id}/export"
    "sites/{site_id}/devices/module_1/measurements/active_power/watts"
    (Some "sites/{site_id}/devices/poi/measurements/net_power/watts"%string).

Example net_guard_is : envelope_guard_config net_binding = Some (Some net_guard).
Proof. by vm_compute. Qed.

Definition net_task : EnvelopeTaskConfig :=
  mkTaskConfig "module_1" "set_active_power" (Some net_guard) (Distribute net_binding) (of_Z 1).

Definition metered_spec : AsyncApiSpec :=
  mkSpec "v1" {["meter"%string := {["active_power"%string := demo_meter None]};
                "module_1"%string := {["active_power"%string := demo_meter None]};
                "poi"%string := {["net_power"%string := net_power]}]}
    {["module_1"%string := {["set_power"%string := mkCommandSource "set" "active_power" "watts" (Distribute net_binding)]}]}
    ∅ ∅ ∅.

Definition demo_formatted (ts : string) (x : f64) : option Value := Some (float_sample ts x).

Local Abbreviation demo_telemetry_run :=
  (telemetry_run (λ _ _, None) (λ _, None) demo_hash demo_frame_of demo_order demo_gateway_config (λ _, true) 10
     demo_formatted (λ _, false) (seconds 1) (seconds 1)).

(** The meter and the module are read at 1 s, their samples arrive at 2 s; the
    channel and the total compute at 3 s and the channel is heard at 4 s.  From
    then on only the module answers, and the total goes on. *)
Definition metered_actions : list (Z * Action (session := unit)) :=
  [(seconds 1, PollBegin 0 [0] ∅); (seconds 1, PollBegin 1 [0] ∅);
   (seconds 1, PollNext 0); (seconds 1, PollNext 1);
   (seconds 2, Deliver 0 None); (seconds 2, Deliver 1 None);
   (seconds 3, Compute 0 "now"); (seconds 3, Compute 1 "now"); (seconds 4, Deliver 2 None);
   (seconds 9, PollBegin 0 [0] ∅); (seconds 9, PollNext 2); (seconds 10, Deliver 4 None);
   (seconds 10, Compute 1 "now")].

Definition metered : option (Telemetry (W := DemoSite) (session := unit)) :=
  p ← telemetry_boot (λ _ _, None) (λ _, None) demo_gateway_config metered_spec ∅ 0 demo_w0;
  demo_telemetry_run p metered_actions.

Definition demo_rank (t : string) : nat := if decide (t = net_topic) then 1 else 0.

Definition metered_up : gset string := {[meter_topic; net_topic]}.

Definition metered_checks (p : Telemetry (W := DemoSite) (session := unit)) : bool :=
  match g_cache (t_gateway p) !! net_topic with
  | Some (VFloat x, l) => f_eqb x (of_Z 250) && (l =? seconds 4)
  | _ => false
  end &&
  bool_decide (t_now p = seconds 10 ∧ (λ s, (so_at s, so_topic s)) <$> t_sources p =
      [(seconds 1, module_power_topic); (seconds 1, meter_topic); (seconds 9, module_power_topic)] ∧
    node_inputs <$> t_ran p = [[meter_topic]; [module_power_topic]; [module_power_topic]] ∧
    Forall (upstream metered_up demo_rank (seconds 5)) (t_ran p)).

Example metered_runs : metered_checks <$> metered = Some true.
Proof. by vm_compute. Qed.

Lemma metered_view p : metered = Some p → metered_checks p = true.
Proof.
  intros Hp. pose proof (eq_trans (eq_sym (f_equal (fmap metered_checks) Hp)) metered_runs) as Hr.
  exact (f_equal (default false) Hr).
Qed.

Lemma metered_ends : metered = None → False.
Proof. intros Hp. discriminate (eq_trans (eq_sym (f_equal (fmap metered_checks) Hp)) metered_runs). Qed.

Lemma metered_facts p :
  metered = Some p →
  telemetry_reachable (λ _ _, None) (λ _, None) demo_hash demo_frame_of demo_order demo_gateway_config (λ _, true) 10
    demo_formatted (λ _, false) (seconds 1) (seconds 1) p ∧
  (∃ x, g_cache (t_gateway p) !! net_topic = Some (VFloat x, seconds 4)) ∧ t_now p = seconds 10 ∧
  (∀ s, s ∈ t_sources p → so_topic s ∈ metered_up → so_at s <= seconds 1) ∧
  ∀ n, n ∈ t_ran p → upstream metered_up demo_rank (seconds 5) n.
Proof.
  intros Hp. pose proof (metered_view p Hp) as Hc.
  split.
  { unfold metered in Hp. destruct (telemetry_boot _ _ _ _ _ _ _) as [p0|] eqn:Hb; [|discriminate Hp].
    exists metered_spec, ∅, 0, demo_w0, p0, metered_actions. split; [exact Hb|exact Hp]. }
  clear Hp. unfold metered_checks in Hc. apply andb_true_iff in Hc as [Hx (Hnow & Hs & _ & Hn)%bool_decide_eq_true].
  split_and!.
  - destruct (g_cache (t_gateway p) !! net_topic) as [[[| | |x| | |] l]|]; try done.
    apply andb_true_iff in Hx as [_ ->%Z.eqb_eq]. by exists x.
  - done.
  - intros s Hin Hup. apply (list_elem_of_fmap_2 (λ s, (so_at s, so_topic s))) in Hin. rewrite Hs in Hin.
    rewrite !elem_of_cons in Hin. destruct Hin as [Hin|[Hin|[Hin|Hin%not_elem_of_nil]]]; [..|done];
      injection Hin as -> Ht; [done..|].
    exfalso. apply (bool_decide_unpack (module_power_topic ∉ metered_up)); [by vm_compute|by rewrite <- Ht].
  - intros n Hin. by eapply (proj1 (Forall_forall _ _) Hn).
Qed.

Lemma net_topic_up : net_topic ∈ metered_up.
Proof. apply elem_of_union_r, elem_of_singleton_2, eq_refl. Qed.

Lemma cached_value_has_origin_witness :
  match metered with
  | Some p => ∃ e at_, g_cache (t_gateway p) !! net_topic = Some e ∧ at_ <= seconds 4 ∧
      rests demo_formatted (λ _, True) (t_sources p) (t_ran p) net_topic e.1 at_
  | None => False
  end.
Proof.
  destruct metered as [p|] eqn:Hp; [|exact (metered_ends Hp)].
  destruct (metered_facts p Hp) as (Hreach & [x Hx] & Hnow & _ & _).
  destruct (cached_value_has_origin (λ _ _, None) (λ _, None) demo_hash demo_frame_of demo_order
    demo_gateway_config (λ _, true) 10 demo_formatted (λ _, false) (seconds 1) (seconds 1)
    ltac:(by vm_compute) ltac:(by vm_compute) p net_topic (VFloat x, seconds 4) Hreach Hx) as (at_ & Hat & Hr).
  exists (VFloat x, seconds 4), at_. split; [exact Hx|]. split; [simpl in Hat; lia|exact Hr].
Defined.

(** Cached 6 s ago, it rests on readings of the meter of the last 14 s. *)
Lemma reading_age_bounded_witness :
  match metered with
  | Some p => ∃ e at_, g_cache (t_gateway p) !! net_topic = Some e ∧ at_ <= seconds 10 ∧
      rests demo_formatted (λ s, so_topic s ∈ metered_up ∧ seconds 10 - seconds 14 <= so_at s)
        (t_sources p) (t_ran p) net_topic e.1 at_
  | None => False
  end.
Proof.
  destruct metered as [p|] eqn:Hp; [|exact (metered_ends Hp)].
  destruct (metered_facts p Hp) as (Hreach & [x Hx] & Hnow & _ & Hn).
  destruct (reading_age_bounded (λ _ _, None) (λ _, None) demo_hash demo_frame_of demo_order
    demo_gateway_config (λ _, true) 10 demo_formatted (λ _, false) (seconds 1) (seconds 1)
    ltac:(by vm_compute) ltac:(by vm_compute) metered_up demo_rank (seconds 5) p net_topic (VFloat x, seconds 4)
    (seconds 6) (seconds 10) Hreach ltac:(by vm_compute) Hn net_topic_up Hx
    ltac:(rewrite Hnow; by vm_compute) ltac:(by vm_compute)) as (at_ & Hat & Hr).
  exists (VFloat x, seconds 4), at_. split; [exact Hx|]. split; [exact Hat|exact Hr].
Defined.

(** The meter was last read at 1 s, the module still answers and its total is
    still summed: at 15 s a module that is discharging 5 kW is on its way to 0. *)
Lemma dead_meter_ramps_down_witness :
  match metered with
  | Some p => ∃ x ws, guarded_target net_task "s1" (g_cache (t_gateway p)) (g_requested (t_gateway p)) (seconds 15)
      net_guard (mkTask None new_writes) (seconds 1) (of_Z 5000) (Some (x, seconds 4)) =
      Some (mkTask (Some (ramp_to_zero (new_controller (control net_guard) (of_Z 5000)) (of_Z (-8000)) (of_Z 8000) (seconds 1)))
              ws, of_Z 4200)
  | None => False
  end.
Proof.
  destruct metered as [p|] eqn:Hp; [|exact (metered_ends Hp)].
  destruct (metered_facts p Hp) as (Hreach & [x Hx] & Hnow & Hs & Hn). exists x.
  refine (dead_meter_ramps_down (λ _ _, None) (λ _, None) demo_hash demo_frame_of demo_order
    demo_gateway_config (λ _, true) 10 demo_formatted (λ _, false) (seconds 1) (seconds 1)
    ltac:(by vm_compute) ltac:(by vm_compute) metered_up demo_rank (seconds 5) p (seconds 1) net_task net_guard _
    (x, seconds 4) (mkTask None new_writes) (seconds 1) (seconds 15) (of_Z 5000) Hreach ltac:(by vm_compute)
    Hn eq_refl net_topic_up _ Hs _).
  - unfold poi_reading, reading_at. cbn [net_guard guard_poi_active_power_topic].
    change (substitute_site_id _ _) with net_topic. rewrite Hx. reflexivity.
  - by vm_compute.
Defined.
